(** * Event tracking backend: repositories over the relational store

    A shallow embedding of the repository layer of the event tracking
    backend (EventRepository, TagRepository, UserRepository and the
    POST /api/events handler) together with the part of the storage layer
    (the Prisma client over the schema of the project) these functions
    call.  Tables are lists of rows in storage order, dates are their
    [getTime()] value, identifiers are strings.

    The development also covers the validators and sanitizers of
    lib/validation, the seeding of lib/db-utils, and the handlers of the
    events, tags, users and auth routes from the decoded token on. *)

From Stdlib Require Import ZArith Lia.
From stdpp Require Import prelude strings infinite sorting.

(** ** Values of the host language *)

Definition Id := string.
Definition Date := Z.

(** Values that travel through [JSON.stringify] and [JSON.parse]. *)
#[warnings="-register-all"]
Inductive Json :=
| JNull
| JBool (b : bool)
| JNum (n : Z)
| JStr (s : string)
| JDate (d : Date)
| JArr (items : list Json)
| JObj (fields : list (string * Json)).

(** Truthiness, as used by [x ? a : b] and [x || y]. *)
Definition truthy (v : Json) : bool :=
  match v with
  | JNull => false
  | JBool b => b
  | JNum n => negb (n =? 0)%Z
  | JStr s => negb (String.eqb s "")
  | JDate _ | JArr _ | JObj _ => true
  end.

(** The built-in serializer and parser.  [JSON_parse] is [None] where the
    built-in throws a SyntaxError. *)
Class JSON := {
  JSON_stringify : Json → string;
  JSON_parse : string → option Json;
}.

(** The credential-hashing facility ([bcrypt.compare]). *)
Class Bcrypt := {
  bcrypt_compare : string → string → bool;
}.

(** Numbers that [Math.ceil (total / limit)] can produce from integers. *)
Inductive JsNumber :=
| Int (z : Z)
| Infinity
| NaN.

(** Arithmetic on Numbers.  An integer is a Number when it has at most 53
    significant bits; the product or the difference of two integers is
    the nearest such integer, a tie going to the one whose last kept bit
    is 0 (below [2^1024], where the result becomes [Infinity]). *)
Definition to_Number (z : Z) : Z :=
  let a := Z.abs z in
  if (a <? 2 ^ 53)%Z then z
  else
    let s := (Z.log2 a - 52)%Z in
    let q := (a `div` 2 ^ s)%Z in
    let r := (a `mod` 2 ^ s)%Z in
    let half := (2 ^ (s - 1))%Z in
    let m := if (r <? half)%Z then q
             else if (half <? r)%Z then (q + 1)%Z
             else if Z.even q then q else (q + 1)%Z in
    (Z.sgn z * (m * 2 ^ s))%Z.

Definition Number_mul (a b : Z) : Z := to_Number (a * b).
Definition Number_sub (a b : Z) : Z := to_Number (a - b).

(** ** Exceptions and results *)

Inductive Exception :=
| UniqueConstraintFailed
| ForeignKeyConstraintFailed
| RecordNotFound
| InvalidArgument
| SyntaxError.

Inductive outcome (A : Type) :=
| Return (a : A)
| Throw (e : Exception).
Arguments Return {A} a.
Arguments Throw {A} e.

Definition obind {A B} (m : outcome A) (k : A → outcome B) : outcome B :=
  match m with
  | Return a => k a
  | Throw e => Throw e
  end.

Notation "'let*' x ':=' m 'in' k" := (obind m (fun x => k))
  (at level 10, x pattern, m at level 100, k at level 200).

Fixpoint mapM {A B} (f : A → outcome B) (l : list A) : outcome (list B) :=
  match l with
  | [] => Return []
  | x :: l' =>
      let* y := f x in
      let* ys := mapM f l' in
      Return (y :: ys)
  end.

(** ** Rows of the schema *)

Inductive EventType :=
| SIMPLE_MESSAGE
| PHOTO_WITH_NOTES
| EMAIL
| TEXT
| DOCUMENT.

Definition EventType_to_string (t : EventType) : string :=
  match t with
  | SIMPLE_MESSAGE => "SIMPLE_MESSAGE"
  | PHOTO_WITH_NOTES => "PHOTO_WITH_NOTES"
  | EMAIL => "EMAIL"
  | TEXT => "TEXT"
  | DOCUMENT => "DOCUMENT"
  end.

(** model User *)
Record UserRow := {
  ur_id : Id;
  ur_username : string;
  ur_email : string;
  ur_displayName : string;
  ur_password : string;
  ur_createdAt : Date;
  ur_updatedAt : Date;
}.

(** interface User: the public profile, without the credential hash *)
Record User := {
  user_id : Id;
  user_username : string;
  user_email : string;
  user_displayName : string;
  user_createdAt : Date;
  user_updatedAt : Date;
}.

(** model Tag / interface Tag *)
Record Tag := {
  tag_id : Id;
  tag_name : string;
  tag_color : option string;
  tag_createdAt : Date;
}.

Record Attachment := {
  att_id : Id;
  att_filename : string;
  att_originalName : string;
  att_mimeType : string;
  att_size : Z;
  att_path : string;
  att_eventId : Id;
  att_uploadedAt : Date;
}.

(** model Event *)
Record EventRow := {
  ev_id : Id;
  ev_title : string;
  ev_content : string;
  ev_type : string;
  ev_timestamp : Date;
  ev_metadata : option string;
  ev_createdAt : Date;
  ev_updatedAt : Date;
  ev_creatorId : Id;
}.

(** model EventUserAssignment, primary key (eventId, userId) *)
Record EventUserAssignment := {
  eua_eventId : Id;
  eua_userId : Id;
}.

(** model EventTag, primary key (eventId, tagId) *)
Record EventTag := {
  et_eventId : Id;
  et_tagId : Id;
}.

(** model EventEditHistory *)
Record EventEditHistory := {
  eh_id : Id;
  eh_eventId : Id;
  eh_changes : string;
  eh_editedAt : Date;
  eh_editedBy : Id;
}.

Record DB := {
  users : list UserRow;
  events : list EventRow;
  tags : list Tag;
  attachments : list Attachment;
  event_user_assignments : list EventUserAssignment;
  event_tags : list EventTag;
  event_edit_history : list EventEditHistory;
}.

(** ** The storage layer

    What the Prisma client does on the tables above for the calls the
    repositories make.  A single call is transactional: when it throws, no
    row has been written, so a write returns [outcome (result * DB)]. *)

Module Prisma.

(** [cuid()]: an identifier that is not yet in the table. *)
Definition cuid (taken : list Id) : Id := fresh taken.

Definition select_user (r : UserRow) : User :=
  {| user_id := ur_id r;
     user_username := ur_username r;
     user_email := ur_email r;
     user_displayName := ur_displayName r;
     user_createdAt := ur_createdAt r;
     user_updatedAt := ur_updatedAt r |}.

(** [findUnique] on a unique column: the first (and, under the
    constraint, only) matching row. *)
Definition user_findUnique_id (id : Id) (db : DB) : option UserRow :=
  find (λ r, bool_decide (ur_id r = id)) (users db).

Definition user_findUnique_email (email : string) (db : DB) : option UserRow :=
  find (λ r, bool_decide (ur_email r = email)) (users db).

Definition tag_findUnique_id (id : Id) (db : DB) : option Tag :=
  find (λ t, bool_decide (tag_id t = id)) (tags db).

Definition tag_findUnique_name (name : string) (db : DB) : option Tag :=
  find (λ t, bool_decide (tag_name t = name)) (tags db).

Definition event_findUnique (id : Id) (db : DB) : option EventRow :=
  find (λ r, bool_decide (ev_id r = id)) (events db).

Definition user_count_id (id : Id) (db : DB) : Z :=
  Z.of_nat (length (filter (λ r, ur_id r = id) (users db))).

Definition tag_count_id (id : Id) (db : DB) : Z :=
  Z.of_nat (length (filter (λ t, tag_id t = id) (tags db))).

(** [orderBy]: the rows in the order of their keys; [le a b] says that
    [a] may come before [b].  The query fixes no order among rows with
    equal keys and the engine may yield them in any; this insertion sort
    yields them in storage order, and the theorems about ordered listings
    state only that a listing is ordered by its keys. *)
Section order_by.
Context {A : Type} (le : A → A → bool).

Fixpoint insert_sorted (x : A) (l : list A) : list A :=
  match l with
  | [] => [x]
  | y :: l' => if le y x then y :: insert_sorted x l' else x :: y :: l'
  end.

Definition order_by (l : list A) : list A :=
  foldl (λ acc x, insert_sorted x acc) [] l.
End order_by.

(** The engine reads [skip] and [take] as signed 64-bit integers. *)
Definition int64 (z : Z) : bool := (- 2 ^ 63 <=? z)%Z && (z <? 2 ^ 63)%Z.

(** [skip] and [take]: a value that is no signed 64-bit integer is
    rejected, and so is a negative [skip]; a negative [take] counts from
    the end of the ordered list. *)
Definition skip_take {A} (skip take : Z) (l : list A) : outcome (list A) :=
  if negb (int64 skip && int64 take) then Throw InvalidArgument
  else if (skip <? 0)%Z then Throw InvalidArgument
  else if (0 <=? take)%Z
       then Return (firstn (Z.to_nat take) (skipn (Z.to_nat skip) l))
       else Return (reverse (firstn (Z.to_nat (- take)) (skipn (Z.to_nat skip) (reverse l)))).

(** Rows of a junction table created by a nested [create: ids.map(...)]:
    every id must reference an existing row (foreign key) and no pair may
    repeat (primary key). *)
Fixpoint check_links (known present ids : list Id) : outcome unit :=
  match ids with
  | [] => Return ()
  | i :: rest =>
      if bool_decide (i ∈ known) then
        if bool_decide (i ∈ present) then Throw UniqueConstraintFailed
        else check_links known (i :: present) rest
      else Throw ForeignKeyConstraintFailed
  end.

Definition assignments_of (eventId : Id) (db : DB) : list EventUserAssignment :=
  filter (λ a, eua_eventId a = eventId) (event_user_assignments db).

Definition event_tags_of (eventId : Id) (db : DB) : list EventTag :=
  filter (λ t, et_eventId t = eventId) (event_tags db).

Definition attachments_of (eventId : Id) (db : DB) : list Attachment :=
  filter (λ a, att_eventId a = eventId) (attachments db).

(** The result of a query with
    [include: {creator, assignedUsers: {include: {user}}, tags: {include: {tag}}, attachments}];
    a relation that was not included is [None]. *)
Record EventPayload := {
  p_row : EventRow;
  p_creator : option User;
  p_assignedUsers : option (list (EventUserAssignment * User));
  p_tags : option (list (EventTag * Tag));
  p_attachments : option (list Attachment);
}.

(** The rows of a junction table that an [include] reads for one event.
    The engine finds them through the index of the primary key, so those
    of one event come ordered by the other key, texts comparing code unit
    by code unit. *)
Definition included_assignments (eventId : Id) (db : DB) : list EventUserAssignment :=
  order_by (λ a b, String.leb (eua_userId a) (eua_userId b)) (assignments_of eventId db).

Definition included_event_tags (eventId : Id) (db : DB) : list EventTag :=
  order_by (λ a b, String.leb (et_tagId a) (et_tagId b)) (event_tags_of eventId db).

Definition include_relations (db : DB) (row : EventRow) : EventPayload :=
  {| p_row := row;
     p_creator := select_user <$> user_findUnique_id (ev_creatorId row) db;
     p_assignedUsers :=
       Some (omap (λ a, (λ u, (a, select_user u)) <$> user_findUnique_id (eua_userId a) db)
                  (included_assignments (ev_id row) db));
     p_tags :=
       Some (omap (λ t, (λ g, (t, g)) <$> tag_findUnique_id (et_tagId t) db)
                  (included_event_tags (ev_id row) db));
     p_attachments := Some (attachments_of (ev_id row) db) |}.

(** [prisma.event.findMany({where, skip, take, include, orderBy: {timestamp: 'desc'}})] *)
Definition event_findMany (P : EventRow → Prop) `{∀ r, Decision (P r)}
    (skip take : Z) (db : DB) : outcome (list EventPayload) :=
  let* rows := skip_take skip take
                 (order_by (λ a b, (ev_timestamp b <=? ev_timestamp a)%Z)
                           (filter P (events db))) in
  Return (include_relations db <$> rows).

(** [prisma.event.count({where})] *)
Definition event_count_where (P : EventRow → Prop) `{∀ r, Decision (P r)}
    (db : DB) : Z :=
  Z.of_nat (length (filter P (events db))).

(** The data of [prisma.event.create]. *)
Record EventCreateInput := {
  ci_title : string;
  ci_content : string;
  ci_type : string;
  ci_timestamp : Date;
  ci_metadata : option string;
  ci_creatorId : Id;
  ci_assignedUsers : list Id;
  ci_tags : list Id;
}.

Definition event_create (now : Date) (data : EventCreateInput) (db : DB)
  : outcome (EventPayload * DB) :=
  let id := cuid (ev_id <$> events db) in
  if bool_decide (ci_creatorId data ∈ ur_id <$> users db) then
    let* _ := check_links (ur_id <$> users db) [] (ci_assignedUsers data) in
    let* _ := check_links (tag_id <$> tags db) [] (ci_tags data) in
    let row := {| ev_id := id;
                  ev_title := ci_title data;
                  ev_content := ci_content data;
                  ev_type := ci_type data;
                  ev_timestamp := ci_timestamp data;
                  ev_metadata := ci_metadata data;
                  ev_createdAt := now;
                  ev_updatedAt := now;
                  ev_creatorId := ci_creatorId data |} in
    let db' := {| users := users db;
                  events := events db ++ [row];
                  tags := tags db;
                  attachments := attachments db;
                  event_user_assignments :=
                    event_user_assignments db
                    ++ ((λ u, {| eua_eventId := id; eua_userId := u |}) <$> ci_assignedUsers data);
                  event_tags :=
                    event_tags db
                    ++ ((λ t, {| et_eventId := id; et_tagId := t |}) <$> ci_tags data);
                  event_edit_history := event_edit_history db |} in
    Return (include_relations db' row, db')
  else Throw ForeignKeyConstraintFailed.

(** The data of [prisma.event.update]; [None] is a field left out
    ([undefined]), [ui_metadata = Some None] stores [null]. *)
Record EventUpdateInput := {
  ui_title : option string;
  ui_content : option string;
  ui_type : option string;
  ui_timestamp : option Date;
  ui_metadata : option (option string);
  ui_assignedUsers : option (list Id);
  ui_tags : option (list Id);
}.

(** [assignedUsers: {deleteMany: {}, create: ids.map(...)}] on the
    assignments of one event. *)
Definition replace_assignments (eventId : Id) (ids : option (list Id))
    (rows : list EventUserAssignment) : list EventUserAssignment :=
  match ids with
  | None => rows
  | Some l =>
      filter (λ a, eua_eventId a ≠ eventId) rows
      ++ ((λ u, {| eua_eventId := eventId; eua_userId := u |}) <$> l)
  end.

Definition replace_event_tags (eventId : Id) (ids : option (list Id))
    (rows : list EventTag) : list EventTag :=
  match ids with
  | None => rows
  | Some l =>
      filter (λ t, et_eventId t ≠ eventId) rows
      ++ ((λ g, {| et_eventId := eventId; et_tagId := g |}) <$> l)
  end.

(** Whether the data of an update write a column of the event itself:
    the writes of the two relations go to the junction tables. *)
Definition writes_column (data : EventUpdateInput) : bool :=
  bool_decide (is_Some (ui_title data)) || bool_decide (is_Some (ui_content data))
  || bool_decide (is_Some (ui_type data)) || bool_decide (is_Some (ui_timestamp data))
  || bool_decide (is_Some (ui_metadata data)).

(** The column [updatedAt] carries the attribute [@updatedAt]: the engine
    adds the time of the call to the columns that an update writes, and
    adds nothing when the update writes no column. *)
Definition update_row (now : Date) (data : EventUpdateInput) (row : EventRow) : EventRow :=
  {| ev_id := ev_id row;
     ev_title := default (ev_title row) (ui_title data);
     ev_content := default (ev_content row) (ui_content data);
     ev_type := default (ev_type row) (ui_type data);
     ev_timestamp := default (ev_timestamp row) (ui_timestamp data);
     ev_metadata := default (ev_metadata row) (ui_metadata data);
     ev_createdAt := ev_createdAt row;
     ev_updatedAt := if writes_column data then now else ev_updatedAt row;
     ev_creatorId := ev_creatorId row |}.

(** [prisma.event.update({where: {id}, data, include})] *)
Definition event_update (now : Date) (id : Id) (data : EventUpdateInput) (db : DB)
  : outcome (EventPayload * DB) :=
  match event_findUnique id db with
  | None => Throw RecordNotFound
  | Some row =>
      let* _ := check_links (ur_id <$> users db) [] (default [] (ui_assignedUsers data)) in
      let* _ := check_links (tag_id <$> tags db) [] (default [] (ui_tags data)) in
      let row' := update_row now data row in
      let db' := {| users := users db;
                    events := (λ r, if bool_decide (ev_id r = id) then row' else r) <$> events db;
                    tags := tags db;
                    attachments := attachments db;
                    event_user_assignments :=
                      replace_assignments id (ui_assignedUsers data) (event_user_assignments db);
                    event_tags := replace_event_tags id (ui_tags data) (event_tags db);
                    event_edit_history := event_edit_history db |} in
      Return (include_relations db' row', db')
  end.

(** [prisma.event.delete({where: {id}})]; every relation to the event is
    declared [onDelete: Cascade]. *)
Definition event_delete (id : Id) (db : DB) : outcome (EventRow * DB) :=
  match event_findUnique id db with
  | None => Throw RecordNotFound
  | Some row =>
      Return (row,
              {| users := users db;
                 events := filter (λ r, ev_id r ≠ id) (events db);
                 tags := tags db;
                 attachments := filter (λ a, att_eventId a ≠ id) (attachments db);
                 event_user_assignments :=
                   filter (λ a, eua_eventId a ≠ id) (event_user_assignments db);
                 event_tags := filter (λ t, et_eventId t ≠ id) (event_tags db);
                 event_edit_history :=
                   filter (λ h, eh_eventId h ≠ id) (event_edit_history db) |})
  end.

(** [prisma.eventEditHistory.create({data: {eventId, changes, editedBy}})] *)
Definition eventEditHistory_create (now : Date) (eventId : Id) (changes : string)
    (editedBy : Id) (db : DB) : outcome (EventEditHistory * DB) :=
  if bool_decide (eventId ∈ ev_id <$> events db) then
    let h := {| eh_id := cuid (eh_id <$> event_edit_history db);
                eh_eventId := eventId;
                eh_changes := changes;
                eh_editedAt := now;
                eh_editedBy := editedBy |} in
    Return (h,
            {| users := users db;
               events := events db;
               tags := tags db;
               attachments := attachments db;
               event_user_assignments := event_user_assignments db;
               event_tags := event_tags db;
               event_edit_history := event_edit_history db ++ [h] |})
  else Throw ForeignKeyConstraintFailed.

(** [prisma.tag.create({data: {name, color}})]; [name] is [@unique]. *)
Definition tag_create (now : Date) (name : string) (color : option string) (db : DB)
  : outcome (Tag * DB) :=
  if bool_decide (name ∈ tag_name <$> tags db) then Throw UniqueConstraintFailed
  else
    let t := {| tag_id := cuid (tag_id <$> tags db);
                tag_name := name;
                tag_color := color;
                tag_createdAt := now |} in
    Return (t,
            {| users := users db;
               events := events db;
               tags := tags db ++ [t];
               attachments := attachments db;
               event_user_assignments := event_user_assignments db;
               event_tags := event_tags db;
               event_edit_history := event_edit_history db |}).

(** [_count: {select: {events: true}}] on a tag. *)
Definition tag_event_count (db : DB) (t : Tag) : Z :=
  Z.of_nat (length (filter (λ et, et_tagId et = tag_id t) (event_tags db))).

(** [prisma.tag.findMany({include: {_count}, orderBy: {events: {_count: 'desc'}}, take})] *)
Definition tag_findMany_by_event_count (take : Z) (db : DB) : outcome (list (Tag * Z)) :=
  skip_take 0 take
    (order_by (λ a b, (snd b <=? snd a)%Z)
              ((λ t, (t, tag_event_count db t)) <$> tags db)).

(** *** Tags *)

(** [prisma.tag.count({where: {name}})] *)
Definition tag_count_name (name : string) (db : DB) : Z :=
  Z.of_nat (length (filter (λ t, tag_name t = name) (tags db))).

(** [prisma.tag.findMany({orderBy: {name: 'asc'}})]; texts compare code
    unit by code unit, a proper prefix first. *)
Definition tag_findMany_by_name (db : DB) : list Tag :=
  order_by (λ a b, String.leb (tag_name a) (tag_name b)) (tags db).

(** [prisma.tag.findMany({include: {_count}, orderBy: {name: 'asc'}})] *)
Definition tag_findMany_with_count_by_name (db : DB) : list (Tag * Z) :=
  (λ t, (t, tag_event_count db t)) <$> tag_findMany_by_name db.

(** The data of [prisma.tag.update]: [None] is a field left out,
    [tu_color = Some None] stores [null]. *)
Record TagUpdateInput := {
  tu_name : option string;
  tu_color : option (option string);
}.

Definition tag_update (id : Id) (data : TagUpdateInput) (db : DB) : outcome (Tag * DB) :=
  match tag_findUnique_id id db with
  | None => Throw RecordNotFound
  | Some t =>
      let t' := {| tag_id := tag_id t;
                   tag_name := default (tag_name t) (tu_name data);
                   tag_color := default (tag_color t) (tu_color data);
                   tag_createdAt := tag_createdAt t |} in
      if bool_decide (tag_name t' ∈ tag_name <$> filter (λ g, tag_id g ≠ id) (tags db))
      then Throw UniqueConstraintFailed
      else
        Return (t',
                {| users := users db;
                   events := events db;
                   tags := (λ g, if bool_decide (tag_id g = id) then t' else g) <$> tags db;
                   attachments := attachments db;
                   event_user_assignments := event_user_assignments db;
                   event_tags := event_tags db;
                   event_edit_history := event_edit_history db |})
  end.

(** [prisma.tag.delete({where: {id}})]; the relation of [EventTag] to the
    tag is declared [onDelete: Cascade]. *)
Definition tag_delete (id : Id) (db : DB) : outcome (Tag * DB) :=
  match tag_findUnique_id id db with
  | None => Throw RecordNotFound
  | Some t =>
      Return (t,
              {| users := users db;
                 events := events db;
                 tags := filter (λ g, tag_id g ≠ id) (tags db);
                 attachments := attachments db;
                 event_user_assignments := event_user_assignments db;
                 event_tags := filter (λ et, et_tagId et ≠ id) (event_tags db);
                 event_edit_history := event_edit_history db |})
  end.

(** *** Users *)

Definition user_findUnique_username (username : string) (db : DB) : option UserRow :=
  find (λ r, bool_decide (ur_username r = username)) (users db).

Definition user_count_email (email : string) (db : DB) : Z :=
  Z.of_nat (length (filter (λ r, ur_email r = email) (users db))).

Definition user_count_username (username : string) (db : DB) : Z :=
  Z.of_nat (length (filter (λ r, ur_username r = username) (users db))).

(** The data of [prisma.user.create]. *)
Record UserCreateInput := {
  uc_username : string;
  uc_email : string;
  uc_displayName : string;
  uc_password : string;
}.

(** [prisma.user.create({data})]; [username] and [email] are [@unique]. *)
Definition user_create (now : Date) (data : UserCreateInput) (db : DB)
  : outcome (UserRow * DB) :=
  if bool_decide (uc_username data ∈ ur_username <$> users db)
  then Throw UniqueConstraintFailed
  else if bool_decide (uc_email data ∈ ur_email <$> users db)
  then Throw UniqueConstraintFailed
  else
    let r := {| ur_id := cuid (ur_id <$> users db);
                ur_username := uc_username data;
                ur_email := uc_email data;
                ur_displayName := uc_displayName data;
                ur_password := uc_password data;
                ur_createdAt := now;
                ur_updatedAt := now |} in
    Return (r,
            {| users := users db ++ [r];
               events := events db;
               tags := tags db;
               attachments := attachments db;
               event_user_assignments := event_user_assignments db;
               event_tags := event_tags db;
               event_edit_history := event_edit_history db |}).

(** The data of [prisma.user.update]; [None] is a field left out. *)
Record UserUpdateInput := {
  uu_username : option string;
  uu_email : option string;
  uu_displayName : option string;
  uu_password : option string;
}.

(** Whether the data of an update name a column. *)
Definition writes_user_column (data : UserUpdateInput) : bool :=
  bool_decide (is_Some (uu_username data)) || bool_decide (is_Some (uu_email data))
  || bool_decide (is_Some (uu_displayName data))
  || bool_decide (is_Some (uu_password data)).

(** The row that an update leaves; [updatedAt] carries [@updatedAt] and is
    stamped when the update writes a column. *)
Definition update_user_row (now : Date) (data : UserUpdateInput) (r : UserRow) : UserRow :=
  {| ur_id := ur_id r;
     ur_username := default (ur_username r) (uu_username data);
     ur_email := default (ur_email r) (uu_email data);
     ur_displayName := default (ur_displayName r) (uu_displayName data);
     ur_password := default (ur_password r) (uu_password data);
     ur_createdAt := ur_createdAt r;
     ur_updatedAt := if writes_user_column data then now else ur_updatedAt r |}.

(** [prisma.user.update({where: {id}, data})] *)
Definition user_update (now : Date) (id : Id) (data : UserUpdateInput) (db : DB)
  : outcome (UserRow * DB) :=
  match user_findUnique_id id db with
  | None => Throw RecordNotFound
  | Some r =>
      let r' := update_user_row now data r in
      let others := filter (λ u, ur_id u ≠ id) (users db) in
      if bool_decide (ur_username r' ∈ ur_username <$> others)
      then Throw UniqueConstraintFailed
      else if bool_decide (ur_email r' ∈ ur_email <$> others)
      then Throw UniqueConstraintFailed
      else
        Return (r',
                {| users := (λ u, if bool_decide (ur_id u = id) then r' else u) <$> users db;
                   events := events db;
                   tags := tags db;
                   attachments := attachments db;
                   event_user_assignments := event_user_assignments db;
                   event_tags := event_tags db;
                   event_edit_history := event_edit_history db |})
  end.

(** The ids of the events a user created. *)
Definition events_created_by (id : Id) (db : DB) : list Id :=
  ev_id <$> filter (λ r, ev_creatorId r = id) (events db).

(** [prisma.user.delete({where: {id}})].  The relations [creator] of
    [Event] and [user] of [EventUserAssignment] are declared
    [onDelete: Cascade]: the events the user created go, and with them
    their assignments, tags, attachments and edit history, as well as the
    assignments of the user to other events. *)
Definition user_delete (id : Id) (db : DB) : outcome (UserRow * DB) :=
  match user_findUnique_id id db with
  | None => Throw RecordNotFound
  | Some r =>
      let gone := events_created_by id db in
      Return (r,
              {| users := filter (λ u, ur_id u ≠ id) (users db);
                 events := filter (λ e, ev_creatorId e ≠ id) (events db);
                 tags := tags db;
                 attachments := filter (λ a, att_eventId a ∉ gone) (attachments db);
                 event_user_assignments :=
                   filter (λ a, eua_userId a ≠ id ∧ eua_eventId a ∉ gone)
                          (event_user_assignments db);
                 event_tags := filter (λ et, et_eventId et ∉ gone) (event_tags db);
                 event_edit_history :=
                   filter (λ h, eh_eventId h ∉ gone) (event_edit_history db) |})
  end.

(** [prisma.user.findMany({where, select, orderBy: {displayName: 'asc'}})],
    where [where] is [{id: {not: excludeId}}] or [undefined]. *)
Definition user_findMany_by_displayName (exclude : option Id) (db : DB) : list User :=
  select_user
    <$> order_by (λ a b, String.leb (ur_displayName a) (ur_displayName b))
          (match exclude with
           | Some excludeId => filter (λ r, ur_id r ≠ excludeId) (users db)
           | None => users db
           end).

(** *** Statistics *)

(** [prisma.event.groupBy({by: ['type'], _count: {type: true}})]: one group
    for every type that some event has, with the number of its events.
    The engine groups by sorting, so the groups come ordered by type. *)
Definition event_groupBy_type (db : DB) : list (string * Z) :=
  (λ ty, (ty, Z.of_nat (length (filter (λ r, ev_type r = ty) (events db)))))
    <$> order_by String.leb (remove_dups (ev_type <$> events db)).

(** *** Upserts *)

(** [prisma.tag.upsert({where: {name}, update: {}, create: {name, color}})]:
    a stored tag is returned as it is. *)
Definition tag_upsert_name (now : Date) (name : string) (color : option string) (db : DB)
  : outcome (Tag * DB) :=
  match tag_findUnique_name name db with
  | Some t => Return (t, db)
  | None => tag_create now name color db
  end.

(** [prisma.user.upsert({where: {email}, update: {}, create})]: the empty
    update writes nothing, a stored user is returned as it is. *)
Definition user_upsert_email (now : Date) (email : string) (create : UserCreateInput)
    (db : DB) : outcome (UserRow * DB) :=
  match user_findUnique_email email db with
  | Some r => Return (r, db)
  | None => user_create now create db
  end.

End Prisma.

(** ** Models of the API (types/models) *)

Record Event := {
  e_id : Id;
  e_title : string;
  e_content : string;
  e_type : string;
  e_timestamp : Date;
  e_metadata : option Json;
  e_createdAt : Date;
  e_updatedAt : Date;
  e_creatorId : Id;
  e_creator : option User;
  e_assignedUsers : option (list User);
  e_tags : option (list Tag);
  e_attachments : option (list Attachment);
}.

Record CreateEventRequest := {
  c_title : string;
  c_content : string;
  c_type : EventType;
  c_timestamp : option Date;
  c_metadata : option Json;
  c_assignedUserIds : option (list Id);
  c_tagIds : option (list Id);
}.

Record UpdateEventRequest := {
  u_title : option string;
  u_content : option string;
  u_type : option EventType;
  u_timestamp : option Date;
  u_metadata : option Json;
  u_assignedUserIds : option (list Id);
  u_tagIds : option (list Id);
}.

Record CreateTagRequest := {
  ct_name : string;
  ct_color : option string;
}.

Record Pagination := {
  pg_page : Z;
  pg_limit : Z;
  pg_total : Z;
  pg_totalPages : JsNumber;
}.

Record PaginatedResponse (T : Type) := {
  data : list T;
  pagination : Pagination;
}.
Arguments data {T} _.
Arguments pagination {T} _.

(** [Math.ceil(total / limit)] on integers. *)
Definition Math_ceil_div (total limit : Z) : JsNumber :=
  if (limit =? 0)%Z then
    if (total =? 0)%Z then NaN else Infinity
  else Int (- ((- total) `div` limit))%Z.

Record CreateUserRequest := {
  cu_username : string;
  cu_email : string;
  cu_displayName : string;
  cu_password : string;
}.

(** [Partial<CreateUserRequest>] *)
Record PartialCreateUserRequest := {
  pu_username : option string;
  pu_email : option string;
  pu_displayName : option string;
  pu_password : option string;
}.

(** [Partial<CreateTagRequest>]: [pt_color = Some None] is [color: null]. *)
Record PartialCreateTagRequest := {
  pt_name : option string;
  pt_color : option (option string);
}.

(** The credential-hashing facility ([bcrypt.hash]); the salt is drawn
    by the facility at each call. *)
Class BcryptHash := {
  bcrypt_hash : string → Z → string → string;
}.

(** The token facility ([jwt.sign] with the secret of the service). *)
Record JWTPayload := {
  jwt_userId : Id;
  jwt_username : string;
  jwt_email : string;
  jwt_displayName : string;
}.

Class Jwt := {
  jwt_sign : JWTPayload → Date → string;
}.

(** ** EventRepository *)

Module EventRepository.
Section repository.
Context `{JSON}.

Definition formatEvent (event : Prisma.EventPayload) : outcome Event :=
  let row := Prisma.p_row event in
  let* metadata :=
    match ev_metadata row with
    | Some s =>
        if String.eqb s "" then Return None
        else match JSON_parse s with
             | Some v => Return (Some v)
             | None => Throw SyntaxError
             end
    | None => Return None
    end in
  Return {| e_id := ev_id row;
            e_title := ev_title row;
            e_content := ev_content row;
            e_type := ev_type row;
            e_timestamp := ev_timestamp row;
            e_metadata := metadata;
            e_createdAt := ev_createdAt row;
            e_updatedAt := ev_updatedAt row;
            e_creatorId := ev_creatorId row;
            e_creator := Prisma.p_creator event;
            e_assignedUsers :=
              Some (match Prisma.p_assignedUsers event with
                    | Some l => snd <$> l
                    | None => []
                    end);
            e_tags :=
              Some (match Prisma.p_tags event with
                    | Some l => snd <$> l
                    | None => []
                    end);
            e_attachments := Some (default [] (Prisma.p_attachments event)) |}.

Definition paginated (page limit total : Z) (events : list Event)
  : PaginatedResponse Event :=
  {| data := events;
     pagination := {| pg_page := page;
                      pg_limit := limit;
                      pg_total := total;
                      pg_totalPages := Math_ceil_div total limit |} |}.

Definition findAll (page limit : Z) (db : DB) : outcome (PaginatedResponse Event) :=
  let skip := Number_mul (Number_sub page 1) limit in
  let* events := Prisma.event_findMany (λ _, True) skip limit db in
  let total := Prisma.event_count_where (λ _, True) db in
  let* formattedEvents := mapM formatEvent events in
  Return (paginated page limit total formattedEvents).

Definition findById (id : Id) (db : DB) : outcome (option Event) :=
  match Prisma.event_findUnique id db with
  | Some row =>
      let* e := formatEvent (Prisma.include_relations db row) in
      Return (Some e)
  | None => Return None
  end.

Definition create (now : Date) (eventData : CreateEventRequest) (creatorId : Id) (db : DB)
  : outcome Event * DB :=
  let assignedUserIds := default [] (c_assignedUserIds eventData) in
  let tagIds := default [] (c_tagIds eventData) in
  match Prisma.event_create now
          {| Prisma.ci_title := c_title eventData;
             Prisma.ci_content := c_content eventData;
             Prisma.ci_type := EventType_to_string (c_type eventData);
             Prisma.ci_timestamp := default now (c_timestamp eventData);
             Prisma.ci_metadata :=
               match c_metadata eventData with
               | Some m => if truthy m then Some (JSON_stringify m) else None
               | None => None
               end;
             Prisma.ci_creatorId := creatorId;
             Prisma.ci_assignedUsers := assignedUserIds;
             Prisma.ci_tags := tagIds |} db with
  | Return (event, db') => (formatEvent event, db')
  | Throw e => (Throw e, db)
  end.

(** The object [changes] of [recordEditHistory], keys in insertion order. *)
Definition change (from to : Json) : Json := JObj [("from", from); ("to", to)].

Definition changes_of (oldEvent newEvent : Event) : list (string * Json) :=
  (if bool_decide (e_title oldEvent ≠ e_title newEvent)
   then [("title", change (JStr (e_title oldEvent)) (JStr (e_title newEvent)))] else [])
  ++ (if bool_decide (e_content oldEvent ≠ e_content newEvent)
      then [("content", change (JStr (e_content oldEvent)) (JStr (e_content newEvent)))] else [])
  ++ (if bool_decide (e_type oldEvent ≠ e_type newEvent)
      then [("type", change (JStr (e_type oldEvent)) (JStr (e_type newEvent)))] else [])
  ++ (if bool_decide (e_timestamp oldEvent ≠ e_timestamp newEvent)
      then [("timestamp", change (JDate (e_timestamp oldEvent)) (JDate (e_timestamp newEvent)))]
      else []).

Definition recordEditHistory (now : Date) (eventId : Id) (oldEvent newEvent : Event)
    (editorId : Id) (db : DB) : outcome unit * DB :=
  let changes := changes_of oldEvent newEvent in
  if bool_decide (0 < length changes) then
    match Prisma.eventEditHistory_create now eventId (JSON_stringify (JObj changes))
            editorId db with
    | Return (_, db') => (Return (), db')
    | Throw e => (Throw e, db)
    end
  else (Return (), db).

(** The argument [data] of the call in [update]: the spread of the scalar
    fields, [type] and [metadata] reassigned, and the two relations. *)
Definition updateData (eventData : UpdateEventRequest) : Prisma.EventUpdateInput :=
  {| Prisma.ui_title := u_title eventData;
     Prisma.ui_content := u_content eventData;
     Prisma.ui_type := EventType_to_string <$> u_type eventData;
     Prisma.ui_timestamp := u_timestamp eventData;
     Prisma.ui_metadata :=
       match u_metadata eventData with
       | Some m => Some (if truthy m then Some (JSON_stringify m) else None)
       | None => None
       end;
     Prisma.ui_assignedUsers := u_assignedUserIds eventData;
     Prisma.ui_tags := u_tagIds eventData |}.

(** The body of [update] inside its [try]. *)
Definition update_try (now : Date) (id : Id) (eventData : UpdateEventRequest)
    (editorId : Id) (db : DB) : outcome (option Event) * DB :=
  match findById id db with
  | Throw e => (Throw e, db)
  | Return None => (Return None, db)
  | Return (Some currentEvent) =>
      match Prisma.event_update now id (updateData eventData) db with
      | Throw e => (Throw e, db)
      | Return (event, db1) =>
          match formatEvent event with
          | Throw e => (Throw e, db1)
          | Return newEvent =>
              match recordEditHistory now id currentEvent newEvent editorId db1 with
              | (Throw e, db2) => (Throw e, db2)
              | (Return _, db2) => (let* e := formatEvent event in Return (Some e), db2)
              end
          end
      end
  end.

Definition update (now : Date) (id : Id) (eventData : UpdateEventRequest)
    (editorId : Id) (db : DB) : outcome (option Event) * DB :=
  match update_try now id eventData editorId db with
  | (Return r, db') => (Return r, db')
  | (Throw _, db') => (Return None, db')
  end.

Definition delete (id : Id) (db : DB) : outcome bool * DB :=
  match Prisma.event_delete id db with
  | Return (_, db') => (Return true, db')
  | Throw _ => (Return false, db)
  end.

Definition exists_ (id : Id) (db : DB) : bool :=
  (0 <? Prisma.event_count_where (λ r, ev_id r = id) db)%Z.

Definition findByCreator (creatorId : Id) (page limit : Z) (db : DB)
  : outcome (PaginatedResponse Event) :=
  let skip := Number_mul (Number_sub page 1) limit in
  let* events := Prisma.event_findMany (λ r, ev_creatorId r = creatorId) skip limit db in
  let total := Prisma.event_count_where (λ r, ev_creatorId r = creatorId) db in
  let* formattedEvents := mapM formatEvent events in
  Return (paginated page limit total formattedEvents).

Definition findByDateRange (startDate endDate : Date) (page limit : Z) (db : DB)
  : outcome (PaginatedResponse Event) :=
  let skip := Number_mul (Number_sub page 1) limit in
  let* events :=
    Prisma.event_findMany
      (λ r, (startDate ≤ ev_timestamp r)%Z ∧ (ev_timestamp r ≤ endDate)%Z) skip limit db in
  let total :=
    Prisma.event_count_where
      (λ r, (startDate ≤ ev_timestamp r)%Z ∧ (ev_timestamp r ≤ endDate)%Z) db in
  let* formattedEvents := mapM formatEvent events in
  Return (paginated page limit total formattedEvents).

Record EventStats := {
  totalEvents : Z;
  eventsByType : list (string * Z);
  recentEvents : Z;
}.

(** [now] is [Date.now()]. *)
Definition getEventStats (now : Date) (db : DB) : EventStats :=
  {| totalEvents := Prisma.event_count_where (λ _, True) db;
     eventsByType := (λ item, (fst item, snd item)) <$> Prisma.event_groupBy_type db;
     recentEvents :=
       Prisma.event_count_where
         (λ r, (now - 7 * 24 * 60 * 60 * 1000 ≤ ev_createdAt r)%Z) db |}.

End repository.
End EventRepository.

(** ** TagRepository *)

Module TagRepository.

Record TagWithCount := {
  tc_id : Id;
  tc_name : string;
  tc_color : option string;
  tc_createdAt : Date;
  tc_eventCount : Z;
}.

Definition exists_ (id : Id) (db : DB) : bool :=
  (0 <? Prisma.tag_count_id id db)%Z.

(** [prisma.tag.findMany({where: {name: {in: names}}})]: the engine looks
    the names up in the index of the unique column, so the tags come
    ordered by name. *)
Definition findByNames (names : list string) (db : DB) : list Tag :=
  Prisma.order_by (λ a b, String.leb (tag_name a) (tag_name b))
    (filter (λ t, tag_name t ∈ names) (tags db)).

Definition create (now : Date) (tagData : CreateTagRequest) (db : DB) : outcome Tag * DB :=
  match Prisma.tag_create now (ct_name tagData) (ct_color tagData) db with
  | Return (tag, db') => (Return tag, db')
  | Throw e => (Throw e, db)
  end.

Definition colors : list string :=
  ["#3B82F6"; "#EF4444"; "#10B981"; "#F59E0B"; "#8B5CF6";
   "#EC4899"; "#06B6D4"; "#84CC16"; "#F97316"; "#6366F1"].

(** [colors[Math.floor(Math.random() * colors.length)]], where the draw of
    [Math.random()] is the fraction [r / 2^53]: the product is the Number
    nearest to [r * colors.length / 2^53], and an index outside the array
    reads [undefined]. *)
Definition getRandomColor (r : Z) : option string :=
  if (r <? 0)%Z then None
  else colors !! Z.to_nat (Number_mul r (Z.of_nat (length colors)) `div` 2 ^ 53)%Z.

(** The calls [this.create({name, color: this.getRandomColor()})] started
    by [newTagNames.map], in order; every call runs, also after one has
    been rejected.  [random i] is the [i]-th draw of [Math.random()]. *)
Fixpoint create_each (now : Date) (random : nat → Z) (i : nat) (names : list string)
    (db : DB) : list (outcome Tag) * DB :=
  match names with
  | [] => ([], db)
  | name :: rest =>
      let '(r, db1) :=
        create now {| ct_name := name; ct_color := getRandomColor (random i) |} db in
      let '(rs, db2) := create_each now random (S i) rest db1 in
      (r :: rs, db2)
  end.

(** [Promise.all]: the values when all are fulfilled, else the first rejection. *)
Definition Promise_all {A} (results : list (outcome A)) : outcome (list A) :=
  mapM (λ r, r) results.

Definition createMultiple (now : Date) (random : nat → Z) (tagNames : list string)
    (db : DB) : outcome (list Tag) * DB :=
  let existingTags := findByNames tagNames db in
  let existingTagNames := tag_name <$> existingTags in
  let newTagNames := filter (λ name, name ∉ existingTagNames) tagNames in
  if bool_decide (length newTagNames = 0) then (Return existingTags, db)
  else
    let '(results, db') := create_each now random 0 newTagNames db in
    (let* newTags := Promise_all results in Return (existingTags ++ newTags), db').

Definition with_count (row : Tag * Z) : TagWithCount :=
  {| tc_id := tag_id (fst row);
     tc_name := tag_name (fst row);
     tc_color := tag_color (fst row);
     tc_createdAt := tag_createdAt (fst row);
     tc_eventCount := snd row |}.

Definition getPopularTags (limit : Z) (db : DB) : outcome (list TagWithCount) :=
  let* tags := Prisma.tag_findMany_by_event_count limit db in
  Return (with_count <$> tags).

Definition findAll (db : DB) : list Tag := Prisma.tag_findMany_by_name db.

Definition findById (id : Id) (db : DB) : option Tag := Prisma.tag_findUnique_id id db.

Definition findByName (name : string) (db : DB) : option Tag :=
  Prisma.tag_findUnique_name name db.

Definition update (id : Id) (tagData : PartialCreateTagRequest) (db : DB)
  : outcome (option Tag) * DB :=
  match Prisma.tag_update id
          {| Prisma.tu_name := pt_name tagData; Prisma.tu_color := pt_color tagData |} db with
  | Return (tag, db') => (Return (Some tag), db')
  | Throw _ => (Return None, db)
  end.

Definition delete (id : Id) (db : DB) : outcome bool * DB :=
  match Prisma.tag_delete id db with
  | Return (_, db') => (Return true, db')
  | Throw _ => (Return false, db)
  end.

Definition existsByName (name : string) (db : DB) : bool :=
  (0 <? Prisma.tag_count_name name db)%Z.

(** [prisma.tag.findMany({where: {id: {in: ids}}})], through the index of
    the primary key. *)
Definition findByIds (ids : list Id) (db : DB) : list Tag :=
  Prisma.order_by (λ a b, String.leb (tag_id a) (tag_id b))
    (filter (λ t, tag_id t ∈ ids) (tags db)).

Definition getTagsWithEventCount (db : DB) : list TagWithCount :=
  with_count <$> Prisma.tag_findMany_with_count_by_name db.

End TagRepository.

(** ** UserRepository *)

Module UserRepository.
Section repository.
Context `{Bcrypt}.

Definition findById (id : Id) (db : DB) : option User :=
  Prisma.select_user <$> Prisma.user_findUnique_id id db.

Definition findByEmailWithPassword (email : string) (db : DB) : option UserRow :=
  Prisma.user_findUnique_email email db.

Definition exists_ (id : Id) (db : DB) : bool :=
  (0 <? Prisma.user_count_id id db)%Z.

(** [const { password: _, ...userWithoutPassword } = user] *)
Definition userWithoutPassword (user : UserRow) : User :=
  {| user_id := ur_id user;
     user_username := ur_username user;
     user_email := ur_email user;
     user_displayName := ur_displayName user;
     user_createdAt := ur_createdAt user;
     user_updatedAt := ur_updatedAt user |}.

Definition verifyPassword (email password : string) (db : DB) : option User :=
  match findByEmailWithPassword email db with
  | None => None
  | Some user =>
      let isValid := bcrypt_compare password (ur_password user) in
      if negb isValid then None
      else Some (userWithoutPassword user)
  end.

Context `{BcryptHash}.

Definition findAll (db : DB) : list User := Prisma.select_user <$> users db.

Definition findByEmail (email : string) (db : DB) : option User :=
  Prisma.select_user <$> Prisma.user_findUnique_email email db.

Definition findByUsername (username : string) (db : DB) : option User :=
  Prisma.select_user <$> Prisma.user_findUnique_username username db.

(** [salt] is the salt that [bcrypt.hash] draws. *)
Definition create (now : Date) (salt : string) (userData : CreateUserRequest) (db : DB)
  : outcome User * DB :=
  let hashedPassword := bcrypt_hash (cu_password userData) 10 salt in
  match Prisma.user_create now
          {| Prisma.uc_username := cu_username userData;
             Prisma.uc_email := cu_email userData;
             Prisma.uc_displayName := cu_displayName userData;
             Prisma.uc_password := hashedPassword |} db with
  | Return (user, db') => (Return (Prisma.select_user user), db')
  | Throw e => (Throw e, db)
  end.

Definition update (now : Date) (salt : string) (id : Id)
    (userData : PartialCreateUserRequest) (db : DB) : outcome (option User) * DB :=
  let password :=
    match pu_password userData with
    | Some p => if negb (String.eqb p "") then Some (bcrypt_hash p 10 salt) else Some p
    | None => None
    end in
  match Prisma.user_update now id
          {| Prisma.uu_username := pu_username userData;
             Prisma.uu_email := pu_email userData;
             Prisma.uu_displayName := pu_displayName userData;
             Prisma.uu_password := password |} db with
  | Return (user, db') => (Return (Some (Prisma.select_user user)), db')
  | Throw _ => (Return None, db)
  end.

Definition delete (id : Id) (db : DB) : outcome bool * DB :=
  match Prisma.user_delete id db with
  | Return (_, db') => (Return true, db')
  | Throw _ => (Return false, db)
  end.

Definition existsByEmail (email : string) (db : DB) : bool :=
  (0 <? Prisma.user_count_email email db)%Z.

Definition existsByUsername (username : string) (db : DB) : bool :=
  (0 <? Prisma.user_count_username username db)%Z.

(** [excludeId ? {id: {not: excludeId}} : undefined]: the empty text is
    falsy and excludes nobody. *)
Definition getUsersForAssignment (excludeId : option Id) (db : DB) : list User :=
  Prisma.user_findMany_by_displayName
    (match excludeId with
     | Some i => if String.eqb i "" then None else Some i
     | None => None
     end) db.

End repository.
End UserRepository.

(** ** The route POST /api/events *)

Module EventsRoute.
Section route.
Context `{JSON}.

Inductive Body :=
| EventBody (event : Event)
| ErrorBody (code : string).

Record Response := {
  status : Z;
  body : Body;
}.

Definition error (st : Z) (code : string) : Response :=
  {| status := st; body := ErrorBody code |}.

(** The handler after [CreateEventSchema.safeParse] has accepted the body;
    [user] is [req.user.id]. *)
Definition post_handler (now : Date) (user : Id) (processedEventData : CreateEventRequest)
    (db : DB) : Response * DB :=
  match find (λ userId, negb (UserRepository.exists_ userId db))
             (default [] (c_assignedUserIds processedEventData)) with
  | Some _ => (error 400 "INVALID_USER_ID", db)
  | None =>
      match find (λ tagId, negb (TagRepository.exists_ tagId db))
                 (default [] (c_tagIds processedEventData)) with
      | Some _ => (error 400 "INVALID_TAG_ID", db)
      | None =>
          match EventRepository.create now processedEventData user db with
          | (Return event, db') => ({| status := 201; body := EventBody event |}, db')
          | (Throw _, db') => (error 500 "INTERNAL_SERVER_ERROR", db')
          end
      end
  end.

(** [router.post('/', authenticateToken, handler)], from the decoded token
    on: the middleware answers 403 when the user of the token is gone. *)
Definition post (now : Date) (decoded_userId : Id) (processedEventData : CreateEventRequest)
    (db : DB) : Response * DB :=
  match UserRepository.findById decoded_userId db with
  | None => (error 403 "USER_NOT_FOUND", db)
  | Some user => post_handler now (user_id user) processedEventData db
  end.

End route.
End EventsRoute.

(** ** Regular expressions

    The patterns of lib/validation are anchored at both ends and use only
    character classes, sequence and repetition, so [RegExp.test] decides
    membership of the whole text in a regular language.  Characters are
    the code units below 256. *)

Module Regex.
Import Stdlib.Strings.Ascii.

Inductive regex :=
| Empty
| Eps
| Class (p : ascii → bool)
| Seq (r s : regex)
| Alt (r s : regex)
| Star (r : regex).

(** [r+] and [r{n}] *)
Definition plus (r : regex) : regex := Seq r (Star r).

Fixpoint times (n : nat) (r : regex) : regex :=
  match n with
  | 0 => Eps
  | S n' => Seq r (times n' r)
  end.

Fixpoint nullable (r : regex) : bool :=
  match r with
  | Empty => false
  | Eps => true
  | Class _ => false
  | Seq r s => nullable r && nullable s
  | Alt r s => nullable r || nullable s
  | Star _ => true
  end.

Fixpoint derive (c : ascii) (r : regex) : regex :=
  match r with
  | Empty => Empty
  | Eps => Empty
  | Class p => if p c then Eps else Empty
  | Seq r s =>
      if nullable r then Alt (Seq (derive c r) s) (derive c s)
      else Seq (derive c r) s
  | Alt r s => Alt (derive c r) (derive c s)
  | Star r => Seq (derive c r) (Star r)
  end.

Fixpoint test_list (r : regex) (s : list ascii) : bool :=
  match s with
  | [] => nullable r
  | c :: s' => test_list (derive c r) s'
  end.

(** [/^r$/.test(s)] *)
Definition test (r : regex) (s : string) : bool :=
  test_list r (String.list_ascii_of_string s).

(** The texts a pattern describes. *)
Inductive matches : regex → list ascii → Prop :=
| matches_Eps : matches Eps []
| matches_Class p c : p c = true → matches (Class p) [c]
| matches_Seq r s u v : matches r u → matches s v → matches (Seq r s) (u ++ v)
| matches_Alt_l r s u : matches r u → matches (Alt r s) u
| matches_Alt_r r s u : matches s u → matches (Alt r s) u
| matches_Star_nil r : matches (Star r) []
| matches_Star_app r u v : matches r u → matches (Star r) v → matches (Star r) (u ++ v).

(** Character classes *)
Definition code (c : ascii) : N := Stdlib.Strings.Ascii.N_of_ascii c.

Definition between (lo hi : ascii) (c : ascii) : bool :=
  (code lo <=? code c)%N && (code c <=? code hi)%N.

Definition exactly (a : ascii) (c : ascii) : bool := Stdlib.Strings.Ascii.eqb c a.

(** [\s]: tab, line feed, vertical tab, form feed, carriage return, space
    and no-break space. *)
Definition whitespace (c : ascii) : bool :=
  ((9 <=? code c)%N && (code c <=? 13)%N) || (code c =? 32)%N || (code c =? 160)%N.

Definition digit : ascii → bool := between "0"%char "9"%char.
Definition lower : ascii → bool := between "a"%char "z"%char.
Definition upper : ascii → bool := between "A"%char "Z"%char.

End Regex.

(** ** lib/validation *)

Module Validation.
Import Stdlib.Strings.Ascii Regex.

(** [Object.values(EventType)] *)
Definition EventType_values : list string :=
  EventType_to_string <$> [SIMPLE_MESSAGE; PHOTO_WITH_NOTES; EMAIL; TEXT; DOCUMENT].

Definition validateEventType (type : string) : bool :=
  bool_decide (type ∈ EventType_values).

(** [/^c[a-z0-9]{24}$/] *)
Definition cuid_pattern : regex :=
  Seq (Class (exactly "c"%char)) (times 24 (Class (λ c, lower c || digit c))).

Definition validateCuid (id : string) : bool := test cuid_pattern id.

(** [/^[^\s@]+@[^\s@]+\.[^\s@]+$/] *)
Definition email_char (c : ascii) : bool := negb (whitespace c || exactly "@"%char c).

Definition emailRegex : regex :=
  Seq (plus (Class email_char))
      (Seq (Class (exactly "@"%char))
           (Seq (plus (Class email_char))
                (Seq (Class (exactly "."%char)) (plus (Class email_char))))).

Definition validateEmail (email : string) : bool := test emailRegex email.

(** [/^#[0-9A-Fa-f]{6}$/] *)
Definition hex_digit (c : ascii) : bool :=
  digit c || between "A"%char "F"%char c || between "a"%char "f"%char c.

Definition hex_color_pattern : regex :=
  Seq (Class (exactly "#"%char)) (times 6 (Class hex_digit)).

Definition validateHexColor (color : string) : bool := test hex_color_pattern color.

(** [typeof value === 'string' && Object.values(EventType).includes(value)] *)
Definition isValidEventType (value : Json) : bool :=
  match value with
  | JStr s => bool_decide (s ∈ EventType_values)
  | _ => false
  end.

(** [str.trim()]: the text without its leading and trailing whitespace. *)
Fixpoint trim_end (s : list ascii) : list ascii :=
  match s with
  | [] => []
  | c :: s' =>
      match trim_end s' with
      | [] => if whitespace c then [] else [c]
      | t => c :: t
      end
  end.

Fixpoint trim_start (s : list ascii) : list ascii :=
  match s with
  | [] => []
  | c :: s' => if whitespace c then trim_start s' else s
  end.

Definition trim (s : list ascii) : list ascii := trim_end (trim_start s).

(** [str.replace(/\s+/g, ' ')]: every maximal run of whitespace becomes one
    space; [in_run] says that the previous character was whitespace. *)
Fixpoint collapse (in_run : bool) (s : list ascii) : list ascii :=
  match s with
  | [] => []
  | c :: s' =>
      if whitespace c then
        if in_run then collapse true s' else " "%char :: collapse true s'
      else c :: collapse false s'
  end.

Definition sanitizeString (str : string) : string :=
  String.string_of_list_ascii
    (collapse false (trim (String.list_ascii_of_string str))).

(** [str.replace(/c/g, by)] for a single character [c]. *)
Fixpoint replace_all (c : ascii) (by_ : string) (s : string) : string :=
  match s with
  | EmptyString => EmptyString
  | String a s' =>
      if Stdlib.Strings.Ascii.eqb a c then String.append by_ (replace_all c by_ s')
      else String a (replace_all c by_ s')
  end.

Definition sanitizeHtml (str : string) : string :=
  replace_all "/"%char "&#x2F;"
    (replace_all "'"%char "&#x27;"
       (replace_all "034"%char "&quot;"
          (replace_all ">"%char "&gt;"
             (replace_all "<"%char "&lt;"
                (replace_all "&"%char "&amp;" str))))).

(** The entity that stands for one character. *)
Definition escape (a : ascii) : string :=
  if Stdlib.Strings.Ascii.eqb a "&"%char then "&amp;"
  else if Stdlib.Strings.Ascii.eqb a "<"%char then "&lt;"
  else if Stdlib.Strings.Ascii.eqb a ">"%char then "&gt;"
  else if Stdlib.Strings.Ascii.eqb a "034"%char then "&quot;"
  else if Stdlib.Strings.Ascii.eqb a "'"%char then "&#x27;"
  else if Stdlib.Strings.Ascii.eqb a "/"%char then "&#x2F;"
  else String a EmptyString.

Fixpoint escape_each (s : string) : string :=
  match s with
  | EmptyString => EmptyString
  | String a s' => String.append (escape a) (escape_each s')
  end.

(** Every whitespace of [s] is a single space that follows no whitespace;
    [after_space] says that whitespace stands right before [s]. *)
Fixpoint single_spaced (after_space : bool) (s : list ascii) : bool :=
  match s with
  | [] => true
  | c :: s' =>
      if whitespace c
      then eqb c " "%char && negb after_space && single_spaced true s'
      else single_spaced false s'
  end.

(** [s] neither starts nor ends with whitespace. *)
Definition trimmed (s : list ascii) : Prop :=
  (∀ c, head s = Some c → whitespace c = false)
  ∧ (∀ c, last s = Some c → whitespace c = false).

(** The check that [CreateTagSchema] makes on [name]:
    [z.string().min(1).max(50).regex(/^[a-zA-Z0-9\s-_]+$/)]. *)
Definition tag_name_char (c : ascii) : bool :=
  lower c || upper c || digit c || whitespace c
  || exactly "-"%char c || exactly "_"%char c.

Definition tag_name_pattern : regex := plus (Class tag_name_char).

Definition CreateTagSchema_name (name : string) : bool :=
  (1 <=? String.length name) && (String.length name <=? 50)
  && test tag_name_pattern name.

End Validation.

(** ** lib/db-utils *)

Module DbUtils.

Definition colors : list string :=
  ["#3B82F6"; "#EF4444"; "#10B981"; "#F59E0B"; "#8B5CF6"; "#EC4899"].

(** [colors[Math.floor(Math.random() * colors.length)]], the draw being
    the fraction [r / 2^53] and the product the Number nearest to
    [r * colors.length / 2^53]. *)
Definition getRandomColor (r : Z) : option string :=
  if (r <? 0)%Z then None
  else colors !! Z.to_nat (Number_mul r (Z.of_nat (length colors)) `div` 2 ^ 53)%Z.

Definition seed_tags : list string := ["work"; "personal"; "urgent"; "meeting"; "project"].

(** The loop over the default tags.  The object handed to [upsert] is
    built before the call, so [getRandomColor] draws once for every tag,
    created or not; [random i] is the [i]-th draw. *)
Fixpoint upsert_tags (now : Date) (random : nat → Z) (i : nat) (names : list string)
    (db : DB) : outcome unit * DB :=
  match names with
  | [] => (Return (), db)
  | tagName :: rest =>
      match Prisma.tag_upsert_name now tagName (getRandomColor (random i)) db with
      | Return (_, db1) => upsert_tags now random (S i) rest db1
      | Throw e => (Throw e, db)
      end
  end.

(** [seedDatabase]: what its [try] catches is thrown again. *)
Definition seedDatabase (now : Date) (random : nat → Z) (db : DB) : outcome UserRow * DB :=
  match Prisma.user_upsert_email now "admin@example.com"
          {| Prisma.uc_username := "admin";
             Prisma.uc_email := "admin@example.com";
             Prisma.uc_displayName := "Administrator";
             Prisma.uc_password := "$2a$10$dummy.hash.for.development" |} db with
  | Throw e => (Throw e, db)
  | Return (defaultUser, db1) =>
      match upsert_tags now random 0 seed_tags db1 with
      | (Return _, db2) => (Return defaultUser, db2)
      | (Throw e, db2) => (Throw e, db2)
      end
  end.

End DbUtils.

(** ** The other routes

    Every handler is modelled from the point where the schema of the
    request has accepted the body, and returns the response with the store
    it leaves.  A handler whose [try] catches an exception answers 500
    INTERNAL_SERVER_ERROR. *)

Module Http.

Inductive Body (A : Type) :=
| Json (value : A)
| Error (code : string)
| Empty.
Arguments Json {A} value.
Arguments Error {A} code.
Arguments Empty {A}.

Record Response (A : Type) := {
  status : Z;
  body : Body A;
}.
Arguments status {A} _.
Arguments body {A} _.

(** [res.status(st).json(value)] *)
Definition json {A} (st : Z) (value : A) : Response A :=
  {| status := st; body := Json value |}.

(** [res.status(st).json({error: {code, ...}, ...})] *)
Definition error {A} (st : Z) (code : string) : Response A :=
  {| status := st; body := Error code |}.

(** [res.status(204).send()] *)
Definition no_content {A} : Response A :=
  {| status := 204; body := Empty |}.

(** [authenticateToken], from the decoded token on: the request goes on
    with [req.user] when the user of the token still exists. *)
Definition authenticateToken {A} (decoded_userId : Id) (db : DB)
    (next : User → Response A * DB) : Response A * DB :=
  match Prisma.select_user <$> Prisma.user_findUnique_id decoded_userId db with
  | None => (error 403 "USER_NOT_FOUND", db)
  | Some user => next user
  end.

End Http.

(** *** routes/events: GET /, PUT /:id, DELETE /:id *)

Module EventsRoutes.
Section routes.
Context `{JSON}.
Import Http.

(** [parseInt(text) || fallback], [parsed] being the result of [parseInt],
    [None] for [NaN]. *)
Definition or_default (parsed : option Z) (fallback : Z) : Z :=
  match parsed with
  | Some n => if (n =? 0)%Z then fallback else n
  | None => fallback
  end.

(** [GET /]: [page] and [limit] are what [parseInt] makes of the query
    parameters, [creatorId] is the query parameter if given. *)
Definition get_list (page limit : option Z) (creatorId : option string) (db : DB)
  : Response (PaginatedResponse Event) :=
  let page := or_default page 1 in
  let limit := Z.min (or_default limit 20) 100 in
  let result :=
    match creatorId with
    | Some c =>
        if negb (String.eqb c "") then EventRepository.findByCreator c page limit db
        else EventRepository.findAll page limit db
    | None => EventRepository.findAll page limit db
    end in
  match result with
  | Return r => json 200 r
  | Throw _ => error 500 "INTERNAL_SERVER_ERROR"
  end.

(** The check that every id of a list exists, as the handlers do it
    before they write: the first id that is not known, if any. *)
Definition first_unknown (known : Id → DB → bool) (ids : option (list Id)) (db : DB)
  : option Id :=
  find (λ i, negb (known i db)) (default [] ids).

(** [PUT /:id] after [authenticateToken]; [user] is [req.user.id]. *)
Definition put_handler (now : Date) (user : Id) (id : Id)
    (processedEventData : UpdateEventRequest) (db : DB) : Response Event * DB :=
  match EventRepository.findById id db with
  | Throw _ => (error 500 "INTERNAL_SERVER_ERROR", db)
  | Return None => (error 404 "EVENT_NOT_FOUND", db)
  | Return (Some existingEvent) =>
      if bool_decide (e_creatorId existingEvent ≠ user)
      then (error 403 "INSUFFICIENT_PERMISSIONS", db)
      else
        match first_unknown UserRepository.exists_
                (u_assignedUserIds processedEventData) db with
        | Some _ => (error 400 "INVALID_USER_ID", db)
        | None =>
            match first_unknown TagRepository.exists_ (u_tagIds processedEventData) db with
            | Some _ => (error 400 "INVALID_TAG_ID", db)
            | None =>
                match EventRepository.update now id processedEventData user db with
                | (Return (Some updatedEvent), db') => (json 200 updatedEvent, db')
                | (Return None, db') => (error 500 "UPDATE_FAILED", db')
                | (Throw _, db') => (error 500 "INTERNAL_SERVER_ERROR", db')
                end
            end
        end
  end.

Definition put (now : Date) (decoded_userId : Id) (id : Id)
    (processedEventData : UpdateEventRequest) (db : DB) : Response Event * DB :=
  authenticateToken decoded_userId db
    (λ user, put_handler now (user_id user) id processedEventData db).

(** [DELETE /:id] after [authenticateToken]. *)
Definition delete_handler (user : Id) (id : Id) (db : DB) : Response Event * DB :=
  match EventRepository.findById id db with
  | Throw _ => (error 500 "INTERNAL_SERVER_ERROR", db)
  | Return None => (error 404 "EVENT_NOT_FOUND", db)
  | Return (Some existingEvent) =>
      if bool_decide (e_creatorId existingEvent ≠ user)
      then (error 403 "INSUFFICIENT_PERMISSIONS", db)
      else
        match EventRepository.delete id db with
        | (Return true, db') => (no_content, db')
        | (Return false, db') => (error 500 "DELETE_FAILED", db')
        | (Throw _, db') => (error 500 "INTERNAL_SERVER_ERROR", db')
        end
  end.

Definition delete (decoded_userId : Id) (id : Id) (db : DB) : Response Event * DB :=
  authenticateToken decoded_userId db (λ user, delete_handler (user_id user) id db).

End routes.
End EventsRoutes.

(** *** routes/tags: POST /, POST /batch, PUT /:id, DELETE /:id *)

Module TagsRoutes.
Import Http.

Definition post (now : Date) (tagData : CreateTagRequest) (db : DB) : Response Tag * DB :=
  if TagRepository.existsByName (ct_name tagData) db
  then (error 409 "TAG_ALREADY_EXISTS", db)
  else
    match TagRepository.create now tagData db with
    | (Return tag, db') => (json 201 tag, db')
    | (Throw _, db') => (error 500 "INTERNAL_SERVER_ERROR", db')
    end.

(** [tagData.name && tagData.name !== existingTag.name] *)
Definition name_changes (name : option string) (existingTag : Tag) : bool :=
  match name with
  | Some n => negb (String.eqb n "") && negb (String.eqb n (tag_name existingTag))
  | None => false
  end.

Definition put (id : Id) (tagData : PartialCreateTagRequest) (db : DB) : Response Tag * DB :=
  match TagRepository.findById id db with
  | None => (error 404 "TAG_NOT_FOUND", db)
  | Some existingTag =>
      if name_changes (pt_name tagData) existingTag
         && TagRepository.existsByName (default "" (pt_name tagData)) db
      then (error 409 "TAG_ALREADY_EXISTS", db)
      else
        match TagRepository.update id tagData db with
        | (Return (Some updatedTag), db') => (json 200 updatedTag, db')
        | (Return None, db') => (error 500 "UPDATE_FAILED", db')
        | (Throw _, db') => (error 500 "INTERNAL_SERVER_ERROR", db')
        end
  end.

Definition delete (id : Id) (db : DB) : Response Tag * DB :=
  match TagRepository.findById id db with
  | None => (error 404 "TAG_NOT_FOUND", db)
  | Some _ =>
      match TagRepository.delete id db with
      | (Return true, db') => (no_content, db')
      | (Return false, db') => (error 500 "DELETE_FAILED", db')
      | (Throw _, db') => (error 500 "INTERNAL_SERVER_ERROR", db')
      end
  end.

(** [POST /batch]; [names] is the array of texts of the body, [random i]
    the [i]-th draw of [Math.random]. *)
Definition batch (now : Date) (random : nat → Z) (names : list string) (db : DB)
  : Response (list Tag) * DB :=
  if bool_decide (length names = 0) then (error 400 "VALIDATION_ERROR", db)
  else
    match find (λ name, negb (Validation.CreateTagSchema_name name)) names with
    | Some _ => (error 400 "VALIDATION_ERROR", db)
    | None =>
        match TagRepository.createMultiple now random names db with
        | (Return tags, db') => (json 201 tags, db')
        | (Throw _, db') => (error 500 "INTERNAL_SERVER_ERROR", db')
        end
    end.

End TagsRoutes.

(** *** routes/users: POST /, PUT /:id, DELETE /:id *)

Module UsersRoutes.
Section routes.
Context `{BcryptHash}.
Import Http.

Definition post (now : Date) (salt : string) (userData : CreateUserRequest) (db : DB)
  : Response User * DB :=
  if UserRepository.existsByEmail (cu_email userData) db
  then (error 409 "EMAIL_ALREADY_EXISTS", db)
  else if UserRepository.existsByUsername (cu_username userData) db
  then (error 409 "USERNAME_ALREADY_EXISTS", db)
  else
    match UserRepository.create now salt userData db with
    | (Return user, db') => (json 201 user, db')
    | (Throw _, db') => (error 500 "INTERNAL_SERVER_ERROR", db')
    end.

(** [value && value !== current] *)
Definition changes (value : option string) (current : string) : bool :=
  match value with
  | Some v => negb (String.eqb v "") && negb (String.eqb v current)
  | None => false
  end.

(** What [UpdateUserSchema] keeps of the body of a request. *)
Record UpdateUserBody := {
  ub_username : option string;
  ub_email : option string;
  ub_displayName : option string;
}.

Definition userData_of (body : UpdateUserBody) : PartialCreateUserRequest :=
  {| pu_username := ub_username body;
     pu_email := ub_email body;
     pu_displayName := ub_displayName body;
     pu_password := None |}.

(** [PUT /:id] after [authenticateToken]; [user] is [req.user.id]. *)
Definition put_handler (now : Date) (salt : string) (user : Id) (id : Id)
    (body : UpdateUserBody) (db : DB) : Response User * DB :=
  let userData := userData_of body in
  if bool_decide (user ≠ id) then (error 403 "INSUFFICIENT_PERMISSIONS", db)
  else
    match UserRepository.findById id db with
    | None => (error 404 "USER_NOT_FOUND", db)
    | Some existingUser =>
        if changes (pu_email userData) (user_email existingUser)
           && UserRepository.existsByEmail (default "" (pu_email userData)) db
        then (error 409 "EMAIL_ALREADY_EXISTS", db)
        else if changes (pu_username userData) (user_username existingUser)
                && UserRepository.existsByUsername (default "" (pu_username userData)) db
        then (error 409 "USERNAME_ALREADY_EXISTS", db)
        else
          match UserRepository.update now salt id userData db with
          | (Return (Some updatedUser), db') => (json 200 updatedUser, db')
          | (Return None, db') => (error 500 "UPDATE_FAILED", db')
          | (Throw _, db') => (error 500 "INTERNAL_SERVER_ERROR", db')
          end
    end.

Definition put (now : Date) (salt : string) (decoded_userId : Id) (id : Id)
    (body : UpdateUserBody) (db : DB) : Response User * DB :=
  authenticateToken decoded_userId db
    (λ user, put_handler now salt (user_id user) id body db).

Definition delete_handler (user : Id) (id : Id) (db : DB) : Response User * DB :=
  if bool_decide (user ≠ id) then (error 403 "INSUFFICIENT_PERMISSIONS", db)
  else
    match UserRepository.findById id db with
    | None => (error 404 "USER_NOT_FOUND", db)
    | Some _ =>
        match UserRepository.delete id db with
        | (Return true, db') => (no_content, db')
        | (Return false, db') => (error 500 "DELETE_FAILED", db')
        | (Throw _, db') => (error 500 "INTERNAL_SERVER_ERROR", db')
        end
    end.

Definition delete (decoded_userId : Id) (id : Id) (db : DB) : Response User * DB :=
  authenticateToken decoded_userId db (λ user, delete_handler (user_id user) id db).

End routes.
End UsersRoutes.

(** *** routes/auth: POST /register, POST /login *)

Module AuthRoutes.
Section routes.
Context `{Bcrypt} `{BcryptHash} `{Jwt}.
Import Http.

Record Session := {
  session_user : User;
  session_token : string;
}.

(** [generateToken(user)]; [now] is the time of issue. *)
Definition generateToken (now : Date) (user : User) : string :=
  jwt_sign {| jwt_userId := user_id user;
              jwt_username := user_username user;
              jwt_email := user_email user;
              jwt_displayName := user_displayName user |} now.

Definition register (now : Date) (salt : string) (userData : CreateUserRequest) (db : DB)
  : Response Session * DB :=
  if UserRepository.existsByEmail (cu_email userData) db
  then (error 409 "EMAIL_ALREADY_EXISTS", db)
  else if UserRepository.existsByUsername (cu_username userData) db
  then (error 409 "USERNAME_ALREADY_EXISTS", db)
  else
    match UserRepository.create now salt userData db with
    | (Return user, db') =>
        (json 201 {| session_user := user; session_token := generateToken now user |}, db')
    | (Throw _, db') => (error 500 "INTERNAL_SERVER_ERROR", db')
    end.

Definition login (now : Date) (email password : string) (db : DB) : Response Session :=
  match UserRepository.verifyPassword email password db with
  | None => error 401 "INVALID_CREDENTIALS"
  | Some user => json 200 {| session_user := user; session_token := generateToken now user |}
  end.

End routes.
End AuthRoutes.

(** ** Notions used in the statements *)

(** The four fields whose changes are recorded in the edit history. *)
Inductive TrackedField :=
| Title
| Content
| Type_
| Timestamp.

Definition tracked_fields : list TrackedField := [Title; Content; Type_; Timestamp].


Definition field_value (f : TrackedField) (row : EventRow) : Json :=
  match f with
  | Title => JStr (ev_title row)
  | Content => JStr (ev_content row)
  | Type_ => JStr (ev_type row)
  | Timestamp => JDate (ev_timestamp row)
  end.

#[global] Instance field_changed_dec (row row' : EventRow) (f : TrackedField) :
  Decision (field_value f row ≠ field_value f row').
Proof.
  destruct f; simpl;
    [ destruct (decide (ev_title row = ev_title row'))
    | destruct (decide (ev_content row = ev_content row'))
    | destruct (decide (ev_type row = ev_type row'))
    | destruct (decide (ev_timestamp row = ev_timestamp row')) ];
    (left; congruence) || (right; congruence).
Defined.

(** The tracked fields on which two states of an event differ. *)
Definition changed_fields (row row' : EventRow) : list TrackedField :=
  filter (λ f, field_value f row ≠ field_value f row') tracked_fields.


(** The event [e] shows the columns of the stored row [row]. *)
Definition shows (row : EventRow) (e : Event) : Prop :=
  e_id e = ev_id row
  ∧ e_title e = ev_title row
  ∧ e_content e = ev_content row
  ∧ e_type e = ev_type row
  ∧ e_timestamp e = ev_timestamp row
  ∧ e_createdAt e = ev_createdAt row
  ∧ e_updatedAt e = ev_updatedAt row
  ∧ e_creatorId e = ev_creatorId row.

(** The ids that a request names for the two relations can be linked:
    each is the id of a stored row and none comes twice. *)
Definition links_valid (db : DB) (eventData : UpdateEventRequest) : Prop :=
  Forall (λ i, i ∈ ur_id <$> users db) (default [] (u_assignedUserIds eventData))
  ∧ NoDup (default [] (u_assignedUserIds eventData))
  ∧ Forall (λ i, i ∈ tag_id <$> tags db) (default [] (u_tagIds eventData))
  ∧ NoDup (default [] (u_tagIds eventData)).

(** The request supplies a column of the event itself. *)
Definition supplies_column (eventData : UpdateEventRequest) : Prop :=
  is_Some (u_title eventData) ∨ is_Some (u_content eventData)
  ∨ is_Some (u_type eventData) ∨ is_Some (u_timestamp eventData)
  ∨ is_Some (u_metadata eventData).

(** The request of a user update names a field. *)
Definition names_a_field (userData : PartialCreateUserRequest) : Prop :=
  is_Some (pu_username userData) ∨ is_Some (pu_email userData)
  ∨ is_Some (pu_displayName userData) ∨ is_Some (pu_password userData).

#[global] Instance names_a_field_dec (userData : PartialCreateUserRequest) :
  Decision (names_a_field userData).
Proof. unfold names_a_field. apply _. Defined.

(** The three relations of an event are arrays. *)
Definition hydrated (e : Event) : Prop :=
  is_Some (e_assignedUsers e) ∧ is_Some (e_tags e) ∧ is_Some (e_attachments e).

(** [e] carries the parsed form of what [row] stores as metadata. *)
Definition metadata_parsed_from `{JSON} (row : EventRow) (e : Event) : Prop :=
  match ev_metadata row with
  | None => e_metadata e = None
  | Some s => ∃ v, JSON_parse s = Some v ∧ e_metadata e = Some v
  end.

(** [e] is the formatted form of a stored event: its relations are
    arrays and its metadata are the parsed metadata of the row. *)
Definition formatted_from `{JSON} (db : DB) (e : Event) : Prop :=
  hydrated e
  ∧ ∃ row, row ∈ events db ∧ ev_id row = e_id e ∧ metadata_parsed_from row e.

(** Every stored metadata is a non-empty text, as [JSON.stringify] prints. *)
Definition metadata_nonempty (db : DB) : Prop :=
  Forall (λ row, ev_metadata row ≠ Some "") (events db).

(** A stored metadata that [formatEvent] can read: it is null, empty, or
    accepted by [JSON.parse]. *)
Definition metadata_readable `{JSON} (stored : option string) : Prop :=
  ∀ s, stored = Some s → s ≠ "" → is_Some (JSON_parse s).

(** What [JSON.stringify] prints, [JSON.parse] accepts. *)
Definition JSON_round_trip `{JSON} : Prop :=
  ∀ v, is_Some (JSON_parse (JSON_stringify v)).

(** [JSON.stringify] never prints the empty text. *)
Definition JSON_stringify_nonempty `{JSON} : Prop :=
  ∀ v, JSON_stringify v ≠ "".

(** The row that [recordEditHistory] appends for a non-empty [changes]. *)
Definition history_row `{JSON} (now : Date) (eventId editorId : Id)
    (changes : list (string * Json)) (db : DB) : EventEditHistory :=
  {| eh_id := Prisma.cuid (eh_id <$> event_edit_history db);
     eh_eventId := eventId;
     eh_changes := JSON_stringify (JObj changes);
     eh_editedAt := now;
     eh_editedBy := editorId |}.

(** Every stored metadata can be read. *)
Definition metadata_parses `{JSON} (db : DB) : Prop :=
  Forall (λ row, metadata_readable (ev_metadata row)) (events db).

(** A sequence of updates of one event, each with the time of the call,
    the request and the editor; the results in order. *)
Fixpoint run_updates `{JSON} (id : Id) (ops : list (Date * UpdateEventRequest * Id))
    (db : DB) : list (option Event) * DB :=
  match ops with
  | [] => ([], db)
  | (now, eventData, editorId) :: rest =>
      match EventRepository.update now id eventData editorId db with
      | (Return r, db1) =>
          let '(rs, db2) := run_updates id rest db1 in
          (r :: rs, db2)
      | (Throw _, db1) => ([], db1)
      end
  end.

(** The events that a sequence of updates returned. *)
Definition returned_events (results : list (option Event)) : list Event :=
  omap (λ r, r) results.

(** The order the popular-tags listing is said to have: descending count,
    equal counts by ascending name. *)
Definition count_then_name (x y : TagRepository.TagWithCount) : Prop :=
  (TagRepository.tc_eventCount y < TagRepository.tc_eventCount x)%Z
  ∨ (TagRepository.tc_eventCount x = TagRepository.tc_eventCount y
     ∧ String.leb (TagRepository.tc_name x) (TagRepository.tc_name y) = true).

(** The event [e] as it reads once the tag [id] is gone. *)
Definition without_tag (id : Id) (e : Event) : Event :=
  {| e_id := e_id e;
     e_title := e_title e;
     e_content := e_content e;
     e_type := e_type e;
     e_timestamp := e_timestamp e;
     e_metadata := e_metadata e;
     e_createdAt := e_createdAt e;
     e_updatedAt := e_updatedAt e;
     e_creatorId := e_creatorId e;
     e_creator := e_creator e;
     e_assignedUsers := e_assignedUsers e;
     e_tags := filter (λ g, tag_id g ≠ id) <$> e_tags e;
     e_attachments := e_attachments e |}.

(** The keys of the tag table are unique: the primary key [id] and the
    [@unique] column [name]. *)
Definition unique_tags (db : DB) : Prop :=
  NoDup (tag_id <$> tags db) ∧ NoDup (tag_name <$> tags db).

(** What [bcrypt.hash] produces with cost 10, [bcrypt.compare] accepts
    for the same text. *)
Definition bcrypt_hash_verifies `{Bcrypt} `{BcryptHash} : Prop :=
  ∀ password salt, bcrypt_compare password (bcrypt_hash password 10 salt) = true.

(** The keys of the user table are unique: the primary key [id] and the
    [@unique] columns [username] and [email]. *)
Definition unique_users (db : DB) : Prop :=
  NoDup (ur_id <$> users db)
  ∧ NoDup (ur_username <$> users db)
  ∧ NoDup (ur_email <$> users db).

(** The event [e] as it reads once the user [id] is gone from its
    assigned users. *)
Definition without_user (id : Id) (e : Event) : Event :=
  {| e_id := e_id e;
     e_title := e_title e;
     e_content := e_content e;
     e_type := e_type e;
     e_timestamp := e_timestamp e;
     e_metadata := e_metadata e;
     e_createdAt := e_createdAt e;
     e_updatedAt := e_updatedAt e;
     e_creatorId := e_creatorId e;
     e_creator := e_creator e;
     e_assignedUsers := filter (λ u, user_id u ≠ id) <$> e_assignedUsers e;
     e_tags := e_tags e;
     e_attachments := e_attachments e |}.

(** The sum of the counts of a list of groups. *)
Definition sum_counts {K} (groups : list (K * Z)) : Z :=
  foldr (λ g acc, (snd g + acc)%Z) 0%Z groups.

(** Every reference of the schema names a stored row: the creator of an
    event, the event and the user of an assignment, the event and the tag
    of an association, the event of an attachment and of a history
    entry. *)
Definition references_hold (db : DB) : Prop :=
  Forall (λ e, ev_creatorId e ∈ ur_id <$> users db) (events db)
  ∧ Forall (λ a, eua_eventId a ∈ ev_id <$> events db
                 ∧ eua_userId a ∈ ur_id <$> users db) (event_user_assignments db)
  ∧ Forall (λ t, et_eventId t ∈ ev_id <$> events db
                 ∧ et_tagId t ∈ tag_id <$> tags db) (event_tags db)
  ∧ Forall (λ a, att_eventId a ∈ ev_id <$> events db) (attachments db)
  ∧ Forall (λ h, eh_eventId h ∈ ev_id <$> events db) (event_edit_history db).

(** The primary keys and the [@unique] columns of the schema hold no
    value twice. *)
Definition unique_keys (db : DB) : Prop :=
  NoDup (ev_id <$> events db)
  ∧ unique_tags db
  ∧ unique_users db
  ∧ NoDup (event_user_assignments db)
  ∧ NoDup (event_tags db)
  ∧ NoDup (att_id <$> attachments db)
  ∧ NoDup (eh_id <$> event_edit_history db).

(** The constraints of the schema. *)
Definition consistent (db : DB) : Prop := unique_keys db ∧ references_hold db.

(** ** Sample data *)

Module Sample.
Local Open Scope Z_scope.

(** A runtime whose serializer prints every value as the empty object;
    enough to run the repositories on requests without metadata. *)
#[export] Instance empty_object_JSON : JSON :=
  {| JSON_stringify := λ _, "{}";
     JSON_parse := λ s, if String.eqb s "{}" then Some (JObj []) else None |}.

(** A credential check that accepts the stored text itself. *)
#[export] Instance plain_Bcrypt : Bcrypt :=
  {| bcrypt_compare := String.eqb |}.

Definition ann : UserRow :=
  {| ur_id := "u1"; ur_username := "ann"; ur_email := "ann@example.com";
     ur_displayName := "Ann"; ur_password := "secret"; ur_createdAt := 1;
     ur_updatedAt := 1 |}.

Definition work : Tag :=
  {| tag_id := "t1"; tag_name := "work"; tag_color := None; tag_createdAt := 1 |}.

Definition tag_b : Tag :=
  {| tag_id := "tb"; tag_name := "b"; tag_color := None; tag_createdAt := 1 |}.

Definition tag_a : Tag :=
  {| tag_id := "ta"; tag_name := "a"; tag_color := None; tag_createdAt := 2 |}.

Definition standup_row : EventRow :=
  {| ev_id := "e1"; ev_title := "Standup"; ev_content := "Daily sync";
     ev_type := "SIMPLE_MESSAGE"; ev_timestamp := 10; ev_metadata := None;
     ev_createdAt := 10; ev_updatedAt := 10; ev_creatorId := "u1" |}.

(** One user, one tag, no event. *)
Definition db0 : DB :=
  {| users := [ann]; events := []; tags := [work]; attachments := [];
     event_user_assignments := []; event_tags := []; event_edit_history := [] |}.

(** One user, one tag, one event without relations. *)
Definition db1 : DB :=
  {| users := [ann]; events := [standup_row]; tags := [work]; attachments := [];
     event_user_assignments := []; event_tags := []; event_edit_history := [] |}.

(** Two tags without events, "b" stored before "a". *)
Definition db_ba : DB :=
  {| users := []; events := []; tags := [tag_b; tag_a]; attachments := [];
     event_user_assignments := []; event_tags := []; event_edit_history := [] |}.

Definition standup : CreateEventRequest :=
  {| c_title := "Standup"; c_content := "Daily sync"; c_type := SIMPLE_MESSAGE;
     c_timestamp := None; c_metadata := None; c_assignedUserIds := None;
     c_tagIds := Some ["t1"] |}.

(** The same request naming the tag twice. *)
Definition standup_twice : CreateEventRequest :=
  {| c_title := "Standup"; c_content := "Daily sync"; c_type := SIMPLE_MESSAGE;
     c_timestamp := None; c_metadata := None; c_assignedUserIds := None;
     c_tagIds := Some ["t1"; "t1"] |}.

Definition no_change : UpdateEventRequest :=
  {| u_title := None; u_content := None; u_type := None; u_timestamp := None;
     u_metadata := None; u_assignedUserIds := None; u_tagIds := None |}.

Definition retitle : UpdateEventRequest :=
  {| u_title := Some "Standup notes"; u_content := None; u_type := None;
     u_timestamp := None; u_metadata := None; u_assignedUserIds := None;
     u_tagIds := None |}.

Definition retag (ids : list Id) : UpdateEventRequest :=
  {| u_title := None; u_content := None; u_type := None; u_timestamp := None;
     u_metadata := None; u_assignedUserIds := None; u_tagIds := Some ids |}.

Definition draws : nat → Z := λ _, 0%Z.

End Sample.

(** ** More sample data *)

Module Fixtures.
Local Open Scope Z_scope.

(** A hashing facility that returns the text itself, to go with
    [Sample.plain_Bcrypt]. *)
#[export] Instance plain_BcryptHash : BcryptHash :=
  {| bcrypt_hash := λ password _ _, password |}.

(** A token facility that signs with the id of the user. *)
#[export] Instance plain_Jwt : Jwt :=
  {| jwt_sign := λ payload _, jwt_userId payload |}.

Definition bob : UserRow :=
  {| ur_id := "u2"; ur_username := "bob"; ur_email := "bob@example.com";
     ur_displayName := "Bob"; ur_password := "hunter2"; ur_createdAt := 2;
     ur_updatedAt := 2 |}.

Definition review_row : EventRow :=
  {| ev_id := "e2"; ev_title := "Review"; ev_content := "Weekly review";
     ev_type := "TEXT"; ev_timestamp := 20; ev_metadata := None;
     ev_createdAt := 20; ev_updatedAt := 20; ev_creatorId := "u2" |}.

(** Two users; an event of each; Bob is assigned to Ann's event, which
    carries the tag. *)
Definition db2 : DB :=
  {| users := [Sample.ann; bob];
     events := [Sample.standup_row; review_row];
     tags := [Sample.work];
     attachments := [];
     event_user_assignments := [{| eua_eventId := "e1"; eua_userId := "u2" |}];
     event_tags := [{| et_eventId := "e1"; et_tagId := "t1" |}];
     event_edit_history := [] |}.

Definition retro_row : EventRow :=
  {| ev_id := "e3"; ev_title := "Retro"; ev_content := "Sprint retro";
     ev_type := "TEXT"; ev_timestamp := 30; ev_metadata := None;
     ev_createdAt := 30; ev_updatedAt := 30; ev_creatorId := "u1" |}.

(** The same with a second event of Ann. *)
Definition db3 : DB :=
  {| users := users db2;
     events := events db2 ++ [retro_row];
     tags := tags db2;
     attachments := attachments db2;
     event_user_assignments := event_user_assignments db2;
     event_tags := event_tags db2;
     event_edit_history := event_edit_history db2 |}.

Definition carol : CreateUserRequest :=
  {| cu_username := "carol"; cu_email := "carol@example.com";
     cu_displayName := "Carol"; cu_password := "correct horse" |}.

Definition rename (name : string) : PartialCreateTagRequest :=
  {| pt_name := Some name; pt_color := None |}.

Definition new_password (password : string) : PartialCreateUserRequest :=
  {| pu_username := None; pu_email := None; pu_displayName := None;
     pu_password := Some password |}.

Definition no_fields : UsersRoutes.UpdateUserBody :=
  {| UsersRoutes.ub_username := None; UsersRoutes.ub_email := None;
     UsersRoutes.ub_displayName := None |}.

Definition display_as (name : string) : UsersRoutes.UpdateUserBody :=
  {| UsersRoutes.ub_username := None; UsersRoutes.ub_email := None;
     UsersRoutes.ub_displayName := Some name |}.

Definition mail_to (email : string) : UsersRoutes.UpdateUserBody :=
  {| UsersRoutes.ub_username := None; UsersRoutes.ub_email := Some email;
     UsersRoutes.ub_displayName := None |}.

End Fixtures.

(** * Properties *)

(** ** Results of [mapM] *)

Lemma mapM_Return {A B} (f : A → outcome B) (l : list A) (ys : list B) :
  mapM f l = Return ys → Forall2 (λ x y, f x = Return y) l ys.
Proof.
  revert ys. induction l as [|x l IH]; intros ys; simpl.
  - intros [= <-]. constructor.
  - destruct (f x) as [y|e] eqn:Hx; simpl; [|discriminate].
    destruct (mapM f l) as [ys'|e]; simpl; [|discriminate].
    intros [= <-]. constructor; [done | by apply IH].
Qed.

Lemma mapM_total {A B} (f : A → outcome B) (l : list A) :
  Forall (λ x, ∃ y, f x = Return y) l → ∃ ys, mapM f l = Return ys.
Proof.
  induction 1 as [|x l [y Hy] _ [ys Hys]]; simpl.
  - by eexists.
  - rewrite Hy. simpl. rewrite Hys. simpl. by eexists.
Qed.

(** ** The ordering of the storage layer *)

Section order_by_facts.
Context {A : Type} (le : A → A → bool).
Hypothesis le_total : ∀ a b, le a b = true ∨ le b a = true.
Hypothesis le_trans : ∀ a b c, le a b = true → le b c = true → le a c = true.

Lemma insert_sorted_Permutation (x : A) (l : list A) :
  Prisma.insert_sorted le x l ≡ₚ x :: l.
Proof using Type.
  induction l as [|y l IH]; simpl; [done|].
  destruct (le y x); [|done].
  rewrite IH. apply Permutation_swap.
Qed.

Lemma order_by_Permutation (l : list A) : Prisma.order_by le l ≡ₚ l.
Proof using Type.
  unfold Prisma.order_by.
  enough (∀ acc, foldl (λ acc x, Prisma.insert_sorted le x acc) acc l ≡ₚ acc ++ l) as Hacc
    by apply (Hacc []).
  induction l as [|x l IH]; intros acc; simpl.
  - by rewrite app_nil_r.
  - rewrite IH, insert_sorted_Permutation. by rewrite <-Permutation_middle.
Qed.

Lemma insert_sorted_StronglySorted (x : A) (l : list A) :
  StronglySorted (λ a b, le a b = true) l →
  StronglySorted (λ a b, le a b = true) (Prisma.insert_sorted le x l).
Proof using le_total le_trans.
  induction 1 as [|y l Hl IH Hy]; simpl.
  - repeat constructor.
  - destruct (le y x) eqn:Hyx.
    + constructor; [done|].
      rewrite insert_sorted_Permutation. by constructor.
    + assert (le x y = true) as Hxy by (destruct (le_total x y); congruence).
      constructor; [by constructor|].
      constructor; [done|].
      eapply Forall_impl; [exact Hy|]. intros z Hz. by eapply le_trans.
Qed.

Lemma order_by_StronglySorted (l : list A) :
  StronglySorted (λ a b, le a b = true) (Prisma.order_by le l).
Proof using le_total le_trans.
  unfold Prisma.order_by.
  enough (∀ acc, StronglySorted (λ a b, le a b = true) acc →
            StronglySorted (λ a b, le a b = true)
              (foldl (λ acc x, Prisma.insert_sorted le x acc) acc l)) as Hacc
    by (apply Hacc; constructor).
  induction l as [|x l IH]; intros acc Hacc; simpl; [done|].
  by apply IH, insert_sorted_StronglySorted.
Qed.

(** Ordering commutes with a filter. *)
Lemma insert_sorted_filter (P : A → Prop) `{∀ x, Decision (P x)} (x : A) (l : list A) :
  StronglySorted (λ a b, le a b = true) l →
  filter P (Prisma.insert_sorted le x l)
  = if decide (P x) then Prisma.insert_sorted le x (filter P l) else filter P l.
Proof using le_trans.
  induction 1 as [|y l Hl IH Hy]; simpl.
  - rewrite filter_cons, filter_nil. by destruct (decide (P x)).
  - destruct (le y x) eqn:Hyx.
    + rewrite !filter_cons, IH. destruct (decide (P y)), (decide (P x)); try done.
      simpl. by rewrite Hyx.
    + rewrite !filter_cons. destruct (decide (P x)); [|done].
      destruct (decide (P y)); simpl; [by rewrite Hyx|].
      destruct (filter P l) as [|z k] eqn:Hk; [done|]. simpl.
      destruct (le z x) eqn:Hzx; [|done].
      assert (z ∈ l) as Hz.
      { apply (list_elem_of_filter P). rewrite Hk. by left. }
      rewrite Forall_forall in Hy. pose proof (le_trans _ _ _ (Hy z Hz) Hzx). congruence.
Qed.

Lemma order_by_filter (P : A → Prop) `{∀ x, Decision (P x)} (l : list A) :
  filter P (Prisma.order_by le l) = Prisma.order_by le (filter P l).
Proof using le_total le_trans.
  unfold Prisma.order_by.
  enough (∀ acc, StronglySorted (λ a b, le a b = true) acc →
            filter P (foldl (λ acc x, Prisma.insert_sorted le x acc) acc l)
            = foldl (λ acc x, Prisma.insert_sorted le x acc) (filter P acc) (filter P l))
    as Hacc by (apply (Hacc []); constructor).
  induction l as [|x l IH]; intros acc Hsorted; simpl; [done|].
  rewrite IH by (by apply insert_sorted_StronglySorted).
  rewrite insert_sorted_filter by done.
  rewrite filter_cons. by destruct (decide (P x)).
Qed.

End order_by_facts.

Lemma StronglySorted_weaken {A} (R S : A → A → Prop) (l : list A) :
  (∀ a b, R a b → S a b) → StronglySorted R l → StronglySorted S l.
Proof.
  intros HRS. induction 1 as [|x l Hl IH Hx]; constructor; [done|].
  eapply Forall_impl; [exact Hx|]. intros y. apply HRS.
Qed.

(** ** Numbers *)

Section number_facts.
Local Open Scope Z_scope.

Lemma to_Number_exact (z : Z) : - 2 ^ 53 < z < 2 ^ 53 → to_Number z = z.
Proof.
  intros Hz. unfold to_Number.
  destruct (Z.ltb_spec (Z.abs z) (2 ^ 53)); [done | lia].
Qed.

Lemma Number_mul_exact (a b : Z) : - 2 ^ 53 < a * b < 2 ^ 53 → Number_mul a b = a * b.
Proof. apply to_Number_exact. Qed.

Lemma Number_sub_exact (a b : Z) : - 2 ^ 53 < a - b < 2 ^ 53 → Number_sub a b = a - b.
Proof. apply to_Number_exact. Qed.

(** Rounding a positive integer moves it by at most half a unit of its
    last kept bit, and never below the power of two under it. *)
Lemma to_Number_bounds (z : Z) :
  2 ^ 53 ≤ z →
  2 ^ Z.log2 z ≤ to_Number z ≤ z + 2 ^ (Z.log2 z - 53).
Proof.
  intros Hz. unfold to_Number.
  assert (0 < z) as Hpos by lia.
  rewrite (Z.abs_eq z) by lia.
  destruct (Z.ltb_spec z (2 ^ 53)); [lia|].
  rewrite Z.sgn_pos by done.
  assert (53 ≤ Z.log2 z) as Hlog by (apply Z.log2_le_pow2; lia).
  set (s := Z.log2 z - 52).
  assert (2 ^ (s - 1) + 2 ^ (s - 1) = 2 ^ s) as Hhalf.
  { replace s with (Z.succ (s - 1)) at 3 by lia. rewrite Z.pow_succ_r by lia. lia. }
  replace (Z.log2 z - 53) with (s - 1) by lia.
  assert (0 < 2 ^ (s - 1)) as Hh by (apply Z.pow_pos_nonneg; lia).
  assert (0 < 2 ^ s) as Hs by lia.
  pose proof (Z.div_mod z (2 ^ s) ltac:(lia)) as Hdm.
  pose proof (Z.mod_pos_bound z (2 ^ s) Hs) as Hmod.
  pose proof (Z.log2_spec z Hpos) as [Hlo _].
  assert (2 ^ Z.log2 z = 2 ^ 52 * 2 ^ s) as Hsplit.
  { rewrite <- Z.pow_add_r by lia. f_equal. lia. }
  assert (2 ^ 52 ≤ z `div` 2 ^ s) as Hq.
  { apply Z.div_le_lower_bound; lia. }
  rewrite Hsplit.
  set (q := z `div` 2 ^ s) in *. set (r := z `mod` 2 ^ s) in *.
  set (h := 2 ^ (s - 1)) in *. set (p := 2 ^ s) in *.
  clearbody q r h p. clear Hsplit Hlo Hlog s.
  destruct (Z.ltb_spec r h); [nia|].
  destruct (Z.ltb_spec h r); [nia|].
  destruct (Z.even q); nia.
Qed.

(** [Math.floor(Math.random() * n)] stays below [n]. *)
Lemma random_index_bound (r n : Z) :
  0 ≤ r < 2 ^ 53 → 0 < n →
  0 ≤ Number_mul r n `div` 2 ^ 53 < n.
Proof.
  intros Hr Hn. unfold Number_mul.
  destruct (Z.lt_ge_cases (r * n) (2 ^ 53)) as [Hsmall|Hbig].
  - rewrite to_Number_exact by nia.
    rewrite Z.div_small by nia. lia.
  - destruct (to_Number_bounds (r * n) Hbig) as [Hlo Hhi].
    assert (53 ≤ Z.log2 (r * n)) as Hlog by (apply Z.log2_le_pow2; lia).
    pose proof (Z.log2_spec (r * n) ltac:(lia)) as [Hpow _].
    assert (2 ^ Z.log2 (r * n) = 2 ^ (Z.log2 (r * n) - 53) * 2 ^ 53) as Hsplit.
    { rewrite <- Z.pow_add_r by lia. f_equal. lia. }
    assert (0 < 2 ^ Z.log2 (r * n)) by (apply Z.pow_pos_nonneg; lia).
    set (h := 2 ^ (Z.log2 (r * n) - 53)) in *.
    split.
    + apply Z.div_pos; lia.
    + apply Z.div_lt_upper_bound; [lia|]. nia.
Qed.

End number_facts.

Lemma int64_true (z : Z) : Prisma.int64 z = true ↔ (- 2 ^ 63 ≤ z < 2 ^ 63)%Z.
Proof. unfold Prisma.int64. rewrite andb_true_iff, Z.leb_le, Z.ltb_lt. done. Qed.

Lemma skip_take_nonneg {A} (skip take : Z) (l : list A) :
  (0 ≤ skip < 2 ^ 63)%Z → (0 ≤ take < 2 ^ 63)%Z →
  Prisma.skip_take skip take l
  = Return (firstn (Z.to_nat take) (skipn (Z.to_nat skip) l)).
Proof.
  intros Hs Ht. unfold Prisma.skip_take.
  rewrite (proj2 (int64_true skip)), (proj2 (int64_true take)) by lia.
  cbn [andb negb].
  destruct (Z.ltb_spec skip 0); [lia|].
  destruct (Z.leb_spec 0 take); [done | lia].
Qed.

(** A [skip] or a [take] beyond the 64-bit integers is rejected. *)
Lemma skip_take_out_of_range {A} (skip take : Z) (l : list A) :
  (2 ^ 63 ≤ skip ∨ 2 ^ 63 ≤ take ∨ take < - 2 ^ 63)%Z →
  Prisma.skip_take skip take l = Throw InvalidArgument.
Proof.
  intros Hout. unfold Prisma.skip_take.
  destruct (Prisma.int64 skip && Prisma.int64 take) eqn:Hin; [|done].
  apply andb_true_iff in Hin as [Hs%int64_true Ht%int64_true]. lia.
Qed.

(** The [skip] of a page, where the arithmetic of Numbers is exact. *)
Lemma page_skip (page limit : Z) :
  (1 ≤ page)%Z → (1 ≤ limit)%Z → (page * limit < 2 ^ 53)%Z →
  Number_mul (Number_sub page 1) limit = ((page - 1) * limit)%Z
  ∧ (0 ≤ (page - 1) * limit < 2 ^ 63)%Z ∧ (0 ≤ limit < 2 ^ 63)%Z.
Proof.
  intros Hp Hl Hpl.
  assert (page < 2 ^ 53)%Z by nia. assert (limit < 2 ^ 53)%Z by nia.
  rewrite Number_sub_exact by lia. rewrite Number_mul_exact by nia.
  split; [done|]. split; [nia | lia].
Qed.

Lemma to_Number_ge_pow (z k : Z) :
  (53 ≤ k)%Z → (2 ^ k ≤ z)%Z → (2 ^ k ≤ to_Number z)%Z.
Proof.
  intros Hk Hz.
  assert (2 ^ 53 ≤ 2 ^ k)%Z by (apply Z.pow_le_mono_r; lia).
  destruct (to_Number_bounds z ltac:(lia)) as [Hlo _].
  etrans; [|exact Hlo]. apply Z.pow_le_mono_r; [lia|].
  apply Z.log2_le_pow2; lia.
Qed.

(** The [skip] of a page beyond [2^63] is no 64-bit integer. *)
Lemma page_skip_out_of_range (page limit : Z) :
  (2 ^ 63 < page)%Z → (1 ≤ limit)%Z →
  (2 ^ 63 ≤ Number_mul (Number_sub page 1) limit)%Z.
Proof.
  intros Hp Hl. unfold Number_mul, Number_sub.
  pose proof (to_Number_ge_pow (page - 1) 63 ltac:(lia) ltac:(lia)) as Hsub.
  apply to_Number_ge_pow; [lia|]. nia.
Qed.

Lemma event_findMany_out_of_range (P : EventRow → Prop) `{∀ r, Decision (P r)}
    (skip take : Z) (db : DB) :
  (2 ^ 63 ≤ skip ∨ 2 ^ 63 ≤ take ∨ take < - 2 ^ 63)%Z →
  Prisma.event_findMany P skip take db = Throw InvalidArgument.
Proof.
  intros Hout. unfold Prisma.event_findMany.
  by rewrite skip_take_out_of_range.
Qed.

Lemma to_Number_nonneg (z : Z) : (0 ≤ z)%Z → (0 ≤ to_Number z)%Z.
Proof.
  intros Hz. destruct (Z.lt_ge_cases z (2 ^ 53)) as [Hlt | Hge].
  - rewrite to_Number_exact by lia. done.
  - pose proof (to_Number_ge_pow z 53 ltac:(lia) Hge). lia.
Qed.

(** The [skip] of a page: never negative, the product itself while that
    is below [2^53], and at least [2^53] from there on. *)
Lemma page_skip_cases (page limit : Z) :
  (1 ≤ page)%Z → (1 ≤ limit)%Z →
  (0 ≤ Number_mul (Number_sub page 1) limit)%Z
  ∧ ((page - 1) * limit < 2 ^ 53 →
     Number_mul (Number_sub page 1) limit = (page - 1) * limit)%Z
  ∧ (2 ^ 53 ≤ (page - 1) * limit → 2 ^ 53 ≤ Number_mul (Number_sub page 1) limit)%Z.
Proof.
  intros Hp Hl. unfold Number_mul, Number_sub.
  pose proof (to_Number_nonneg (page - 1) ltac:(lia)) as Hsub.
  split; [apply to_Number_nonneg; nia|]. split.
  - intros Hsafe. assert (page - 1 < 2 ^ 53)%Z by nia.
    rewrite (to_Number_exact (page - 1)) by lia.
    apply to_Number_exact. nia.
  - intros Hbig. apply to_Number_ge_pow; [lia|].
    destruct (Z.lt_ge_cases (page - 1) (2 ^ 53)) as [Hlt | Hge].
    + by rewrite (to_Number_exact (page - 1)) by lia.
    + pose proof (to_Number_ge_pow (page - 1) 53 ltac:(lia) Hge). nia.
Qed.

Lemma events_by_timestamp_sorted (l : list EventRow) :
  StronglySorted (λ a b, (ev_timestamp b ≤ ev_timestamp a)%Z)
    (Prisma.order_by (λ a b, (ev_timestamp b <=? ev_timestamp a)%Z) l).
Proof.
  eapply StronglySorted_weaken; last first.
  - apply (order_by_StronglySorted (λ a b, (ev_timestamp b <=? ev_timestamp a)%Z)).
    + intros a b. rewrite !Z.leb_le. lia.
    + intros a b c. rewrite !Z.leb_le. lia.
  - intros a b. simpl. by rewrite Z.leb_le.
Qed.

(** ** [formatEvent] *)

Section formatEvent_facts.
Context `{JSON}.

Lemma formatEvent_total (p : Prisma.EventPayload) :
  metadata_readable (ev_metadata (Prisma.p_row p)) →
  ∃ e, EventRepository.formatEvent p = Return e.
Proof.
  intros Hp. unfold EventRepository.formatEvent.
  destruct (ev_metadata (Prisma.p_row p)) as [s|] eqn:Hs; simpl; [|by eexists].
  destruct (String.eqb_spec s ""); simpl; [by eexists|].
  destruct (Hp s eq_refl) as [v ->]; [done|]. simpl. by eexists.
Qed.

Lemma formatEvent_readable (p : Prisma.EventPayload) (e : Event) :
  EventRepository.formatEvent p = Return e →
  metadata_readable (ev_metadata (Prisma.p_row p)).
Proof.
  unfold EventRepository.formatEvent, metadata_readable.
  intros Hp s Hs Hne. rewrite Hs in Hp. simpl in Hp.
  destruct (String.eqb_spec s ""); [done|].
  destruct (JSON_parse s); [done | discriminate].
Qed.

Lemma formatEvent_scalars (p : Prisma.EventPayload) (e : Event) :
  EventRepository.formatEvent p = Return e →
  e_id e = ev_id (Prisma.p_row p)
  ∧ e_title e = ev_title (Prisma.p_row p)
  ∧ e_content e = ev_content (Prisma.p_row p)
  ∧ e_type e = ev_type (Prisma.p_row p)
  ∧ e_timestamp e = ev_timestamp (Prisma.p_row p)
  ∧ e_createdAt e = ev_createdAt (Prisma.p_row p)
  ∧ e_updatedAt e = ev_updatedAt (Prisma.p_row p)
  ∧ e_creatorId e = ev_creatorId (Prisma.p_row p)
  ∧ e_creator e = Prisma.p_creator p.
Proof.
  unfold EventRepository.formatEvent.
  destruct (ev_metadata (Prisma.p_row p)) as [s|]; simpl.
  - destruct (String.eqb s ""); simpl.
    + by intros [= <-].
    + destruct (JSON_parse s); simpl; [by intros [= <-] | discriminate].
  - by intros [= <-].
Qed.

Lemma formatEvent_shows (db : DB) (row : EventRow) (e : Event) :
  EventRepository.formatEvent (Prisma.include_relations db row) = Return e →
  shows row e.
Proof.
  intros (? & ? & ? & ? & ? & ? & ? & ? & _)%formatEvent_scalars.
  by repeat split.
Qed.

Lemma formatEvent_relations (p : Prisma.EventPayload) (e : Event) :
  EventRepository.formatEvent p = Return e →
  e_assignedUsers e = Some (match Prisma.p_assignedUsers p with
                            | Some l => snd <$> l
                            | None => []
                            end)
  ∧ e_tags e = Some (match Prisma.p_tags p with
                     | Some l => snd <$> l
                     | None => []
                     end)
  ∧ e_attachments e = Some (default [] (Prisma.p_attachments p)).
Proof.
  unfold EventRepository.formatEvent.
  destruct (ev_metadata (Prisma.p_row p)) as [s|]; simpl.
  - destruct (String.eqb s ""); simpl.
    + by intros [= <-].
    + destruct (JSON_parse s); simpl; [by intros [= <-] | discriminate].
  - by intros [= <-].
Qed.

Lemma formatEvent_hydrated (p : Prisma.EventPayload) (e : Event) :
  EventRepository.formatEvent p = Return e → hydrated e.
Proof.
  unfold EventRepository.formatEvent, hydrated.
  destruct (ev_metadata (Prisma.p_row p)) as [s|]; simpl.
  - destruct (String.eqb s ""); simpl.
    + intros [= <-]. simpl. eauto.
    + destruct (JSON_parse s); simpl; [|discriminate].
      intros [= <-]. simpl. eauto.
  - intros [= <-]. simpl. eauto.
Qed.

Lemma formatEvent_metadata (p : Prisma.EventPayload) (e : Event) :
  ev_metadata (Prisma.p_row p) ≠ Some "" →
  EventRepository.formatEvent p = Return e →
  metadata_parsed_from (Prisma.p_row p) e.
Proof.
  unfold EventRepository.formatEvent, metadata_parsed_from.
  destruct (ev_metadata (Prisma.p_row p)) as [s|]; simpl.
  - intros Hs. destruct (String.eqb_spec s ""); [congruence|]. simpl.
    destruct (JSON_parse s) as [v|]; simpl; [|discriminate].
    intros [= <-]. simpl. eauto.
  - by intros _ [= <-].
Qed.

End formatEvent_facts.

(** ** C5: the pages of [findAll] *)

Lemma ceil_div_bounds (total limit : Z) :
  (1 ≤ limit)%Z →
  ∃ n, Math_ceil_div total limit = Int n
       ∧ ((n - 1) * limit < total)%Z ∧ (total ≤ n * limit)%Z.
Proof.
  intros Hl. unfold Math_ceil_div.
  destruct (Z.eqb_spec limit 0); [lia|].
  eexists. split; [done|].
  pose proof (Z.div_mod (- total) limit) as Hdm.
  pose proof (Z.mod_pos_bound (- total) limit) as Hb.
  nia.
Qed.

(** The window of a listing: [findMany] with a [skip] and a [take] in the
    range of the storage layer, then [formatEvent] on every row. *)
Lemma listing_window `{JSON} (P : EventRow → Prop) `{∀ r, Decision (P r)}
    (skip limit : Z) (db : DB) :
  (0 ≤ skip < 2 ^ 63)%Z → (0 ≤ limit < 2 ^ 63)%Z → metadata_parses db →
  ∃ es sorted,
    (let* events := Prisma.event_findMany P skip limit db in
     mapM EventRepository.formatEvent events) = Return es
    ∧ sorted ≡ₚ filter P (events db)
    ∧ StronglySorted (λ a b, (ev_timestamp b ≤ ev_timestamp a)%Z) sorted
    ∧ Forall2 (λ row e,
         EventRepository.formatEvent (Prisma.include_relations db row) = Return e)
        (take (Z.to_nat limit) (drop (Z.to_nat skip) sorted)) es
    ∧ Forall2 shows (take (Z.to_nat limit) (drop (Z.to_nat skip) sorted)) es.
Proof.
  intros Hskip Hlimit Hmeta.
  set (sorted := Prisma.order_by (λ a b, (ev_timestamp b <=? ev_timestamp a)%Z)
                   (filter P (events db))).
  assert (sorted ≡ₚ filter P (events db)) as Hperm by apply order_by_Permutation.
  set (rows := take (Z.to_nat limit) (drop (Z.to_nat skip) sorted)).
  assert (Forall (λ p, ∃ e, EventRepository.formatEvent p = Return e)
            (Prisma.include_relations db <$> rows)) as Htotal.
  { apply Forall_fmap, Forall_forall. intros row Hrow. simpl.
    apply formatEvent_total. simpl.
    unfold metadata_parses in Hmeta. rewrite Forall_forall in Hmeta. apply Hmeta.
    assert (row ∈ sorted) as Hin by by eapply subseteq_drop, subseteq_take.
    rewrite Hperm in Hin. by apply list_elem_of_filter in Hin as [_ ?]. }
  destruct (mapM_total _ _ Htotal) as [es Hes].
  assert (Forall2 (λ row e,
            EventRepository.formatEvent (Prisma.include_relations db row) = Return e)
            rows es) as Hdata.
  { apply mapM_Return in Hes. by rewrite Forall2_fmap_l in Hes. }
  exists es, sorted. split_and!; try done.
  - unfold Prisma.event_findMany.
    rewrite skip_take_nonneg by done. fold sorted. fold rows. by cbn [obind].
  - apply events_by_timestamp_sorted.
  - eapply Forall2_impl; [exact Hdata|]. intros row e. apply formatEvent_shows.
Qed.

(** C5, as stated, fails: the storage layer takes [skip] and [take] as
    signed 64-bit integers.  With the limit [2^63], and with the page
    [2^63 + 1] of limit 1, whose [skip] is [2^63], [findAll] throws
    instead of returning an envelope. *)
Lemma findAll_beyond_int64 :
  ¬ (∀ (J : JSON) (page limit : Z) (db : DB),
       (1 ≤ page)%Z → (1 ≤ limit)%Z → metadata_parses db →
       ∃ r, EventRepository.findAll page limit db = Return r
            ∧ (Z.of_nat (length (data r)) ≤ limit)%Z)
  ∧ @EventRepository.findAll Sample.empty_object_JSON 1 (2 ^ 63) Sample.db1
    = Throw InvalidArgument
  ∧ @EventRepository.findAll Sample.empty_object_JSON (2 ^ 63 + 1) 1 Sample.db1
    = Throw InvalidArgument.
Proof.
  split; [|split; by vm_compute].
  intros Hclaim.
  destruct (Hclaim Sample.empty_object_JSON 1%Z (2 ^ 63)%Z Sample.db1)
    as (r & Hr & _); [lia | lia | |].
  - repeat constructor. intros s. discriminate.
  - vm_compute in Hr. discriminate.
Qed.

(** C5, amended. Let [skip] be the product [(page - 1) * limit] as the
    program computes it, in Numbers.  For [page ≥ 1] and [limit ≥ 1] with
    [limit] and [skip] below [2^63], on a store whose metadata parse,
    [findAll] returns the envelope: [total] counts the stored events,
    [totalPages] is the ceiling of [total / limit], and [data] shows, row
    by row, the window of at most [limit] events found after skipping
    [skip] events of the list ordered by descending timestamp.  That is
    the window after [(page - 1) * limit] events whenever the product is
    below [2^53] or the store holds no more than [2^53] events.  Over 25
    events, page 2 of limit 10 has 3 total pages and exactly 10 items.
    With [limit] or [skip] at [2^63] or beyond, [findAll] throws. *)
Theorem findAll_page `{JSON} (page limit : Z) (db : DB) :
  (1 ≤ page)%Z → (1 ≤ limit)%Z → metadata_parses db →
  let skip := Number_mul (Number_sub page 1) limit in
  ((limit < 2 ^ 63)%Z → (skip < 2 ^ 63)%Z →
   ∃ r sorted,
     EventRepository.findAll page limit db = Return r
     ∧ sorted ≡ₚ events db
     ∧ StronglySorted (λ a b, (ev_timestamp b ≤ ev_timestamp a)%Z) sorted
     ∧ Forall2 shows (take (Z.to_nat limit) (drop (Z.to_nat skip) sorted)) (data r)
     ∧ Forall2 (λ row e,
          EventRepository.formatEvent (Prisma.include_relations db row) = Return e)
         (take (Z.to_nat limit) (drop (Z.to_nat skip) sorted))
         (data r)
     ∧ (((page - 1) * limit < 2 ^ 53)%Z ∨ (Z.of_nat (length (events db)) ≤ 2 ^ 53)%Z →
        Forall2 shows
          (take (Z.to_nat limit) (drop (Z.to_nat ((page - 1) * limit)) sorted))
          (data r))
     ∧ (Z.of_nat (length (data r)) ≤ limit)%Z
     ∧ pg_page (pagination r) = page
     ∧ pg_limit (pagination r) = limit
     ∧ pg_total (pagination r) = Z.of_nat (length (events db))
     ∧ (∃ n, pg_totalPages (pagination r) = Int n
             ∧ ((n - 1) * limit < Z.of_nat (length (events db)))%Z
             ∧ (Z.of_nat (length (events db)) ≤ n * limit)%Z)
     ∧ (length (events db) = 25 → page = 2%Z → limit = 10%Z →
        pg_totalPages (pagination r) = Int 3 ∧ length (data r) = 10))
  ∧ ((2 ^ 63 ≤ limit)%Z ∨ (2 ^ 63 ≤ skip)%Z →
     EventRepository.findAll page limit db = Throw InvalidArgument).
Proof.
  intros Hpage Hlimit Hmeta skip.
  destruct (page_skip_cases page limit Hpage Hlimit) as (Hskip0 & Hexact & Hbig).
  fold skip in Hskip0, Hexact, Hbig.
  assert (filter (λ _ : EventRow, True) (events db) = events db) as Hall.
  { induction (events db) as [|x l IH]; [done|].
    rewrite filter_cons_True by done. by rewrite IH. }
  split; [|intros Hout; unfold EventRepository.findAll; fold skip;
           rewrite event_findMany_out_of_range by tauto; done].
  intros Hlimit64 Hskip64.
  destruct (listing_window (λ _, True) skip limit db) as (es & sorted & Hes & Hperm
    & Hsorted & Hdata & Hshows); [lia | lia | done |].
  rewrite Hall in Hperm.
  assert (length es = length (take (Z.to_nat limit) (drop (Z.to_nat skip) sorted)))
    as Hlen by (symmetry; by eapply Forall2_length).
  exists (EventRepository.paginated page limit (Z.of_nat (length (events db))) es), sorted.
  split.
  { unfold EventRepository.findAll, Prisma.event_count_where. fold skip.
    destruct (Prisma.event_findMany (λ _, True) skip limit db) as [evs|];
      [|discriminate]. cbn [obind] in Hes |- *. rewrite Hes. cbn [obind].
    by rewrite Hall. }
  split; [done|]. split; [done|]. split; [done|]. split; [done|].
  split.
  { intros [Hsafe | Hstore]; [by rewrite <- (Hexact Hsafe)|].
    destruct (Z.lt_ge_cases ((page - 1) * limit) (2 ^ 53)) as [Hsafe | Hge];
      [by rewrite <- (Hexact Hsafe)|].
    pose proof (Hbig Hge) as Hskip53.
    apply Permutation_length in Hperm.
    rewrite (drop_ge sorted (Z.to_nat ((page - 1) * limit))) by lia.
    rewrite (drop_ge sorted (Z.to_nat skip)) in Hshows by lia. done. }
  split; [simpl; rewrite Hlen, length_take; lia|].
  do 3 (split; [done|]).
  split; [by apply ceil_div_bounds|].
  intros H25 Hp2 Hl10. split.
  - simpl. rewrite H25, Hl10. reflexivity.
  - simpl. rewrite Hlen, length_take, length_drop.
    apply Permutation_length in Hperm. rewrite Hperm, H25.
    unfold skip. rewrite Hp2, Hl10. reflexivity.
Qed.

(** ** C8: the popular tags *)

(** C8, as stated, fails.  With two tags without events, "b" stored before
    "a", the listing is [b; a]: equal counts are not ordered by name.  A
    negative limit counts from the end of the listing: with the limit -1
    one tag is returned, more than the limit.  A limit that is no signed
    64-bit integer is refused by the storage layer: with [2^63] the call
    throws. *)
Lemma getPopularTags_ties_not_by_name :
  ¬ (∀ (limit : Z) (db : DB) (r : list TagRepository.TagWithCount),
       TagRepository.getPopularTags limit db = Return r →
       (Z.of_nat (length r) ≤ limit)%Z ∧ Sorted count_then_name r)
  ∧ (∃ r, TagRepository.getPopularTags (-1) Sample.db_ba = Return r
          ∧ ¬ (Z.of_nat (length r) ≤ -1)%Z)
  ∧ TagRepository.getPopularTags (2 ^ 63) Sample.db_ba = Throw InvalidArgument.
Proof.
  split; [|split].
  - intros Hclaim.
    destruct (Hclaim 10%Z Sample.db_ba
                [TagRepository.with_count (Sample.tag_b, 0%Z);
                 TagRepository.with_count (Sample.tag_a, 0%Z)] eq_refl) as [_ Hsorted].
    apply Sorted_inv in Hsorted as [_ Hhd].
    apply HdRel_inv in Hhd. unfold count_then_name in Hhd. simpl in Hhd.
    destruct Hhd as [Hlt | [_ Hname]]; [lia | discriminate].
  - eexists. split; [vm_compute; reflexivity|]. simpl. lia.
  - by vm_compute.
Qed.

Lemma skip_take_from_end {A} (take : Z) (l : list A) :
  (- 2 ^ 63 ≤ take < 0)%Z →
  Prisma.skip_take 0 take l = Return (drop (length l - Z.to_nat (- take)) l).
Proof.
  intros Ht. unfold Prisma.skip_take.
  rewrite (proj2 (int64_true 0)), (proj2 (int64_true take)) by lia.
  cbn [andb negb].
  destruct (Z.ltb_spec 0 0); [lia|].
  destruct (Z.leb_spec 0 take); [lia|].
  change (Z.to_nat 0) with 0%nat. rewrite drop_0.
  by rewrite take_reverse, reverse_involutive.
Qed.

(** C8, amended. [getPopularTags] ranks the tags, with their association
    counts, by descending count, and nothing orders equal counts by name.
    For a limit from 0 to [2^63 - 1] it returns the first [limit] entries
    (at most) of the ranking; for a negative limit above [-2^63] the last
    [-limit] entries; a limit beyond the signed 64-bit integers makes it
    throw. *)
Theorem getPopularTags_by_count (limit : Z) (db : DB) :
  ∃ ranked,
    ranked ≡ₚ (λ t, TagRepository.with_count (t, Prisma.tag_event_count db t)) <$> tags db
    ∧ StronglySorted
        (λ x y, (TagRepository.tc_eventCount y ≤ TagRepository.tc_eventCount x)%Z) ranked
    ∧ ((0 ≤ limit < 2 ^ 63)%Z →
       ∃ r, TagRepository.getPopularTags limit db = Return r
            ∧ r = take (Z.to_nat limit) ranked
            ∧ (Z.of_nat (length r) ≤ limit)%Z)
    ∧ ((- 2 ^ 63 < limit < 0)%Z →
       TagRepository.getPopularTags limit db
       = Return (drop (length ranked - Z.to_nat (- limit)) ranked))
    ∧ ((2 ^ 63 ≤ limit ∨ limit < - 2 ^ 63)%Z →
       TagRepository.getPopularTags limit db = Throw InvalidArgument).
Proof.
  set (rows := (λ t, (t, Prisma.tag_event_count db t)) <$> tags db).
  set (sorted := Prisma.order_by (λ a b : Tag * Z, (b.2 <=? a.2)%Z) rows).
  exists (TagRepository.with_count <$> sorted).
  split.
  { unfold sorted. rewrite order_by_Permutation. unfold rows.
    by rewrite <-list_fmap_compose. }
  split.
  { apply StronglySorted_fmap with (R1 := λ a b : Tag * Z, (b.2 <=? a.2)%Z = true).
    - intros a b Hab. simpl. by apply Z.leb_le.
    - apply order_by_StronglySorted.
      + intros a b. rewrite !Z.leb_le. lia.
      + intros a b c. rewrite !Z.leb_le. lia. }
  unfold TagRepository.getPopularTags, Prisma.tag_findMany_by_event_count.
  fold rows. fold sorted. split; [|split].
  - intros Hlimit. rewrite skip_take_nonneg by lia. cbn [obind].
    change (Z.to_nat 0) with 0%nat. rewrite drop_0.
    eexists. split; [done|]. split; [by rewrite fmap_take|].
    rewrite length_fmap, length_take. lia.
  - intros Hlimit. rewrite skip_take_from_end by lia. cbn [obind].
    by rewrite fmap_drop, length_fmap.
  - intros Hlimit. rewrite skip_take_out_of_range by lia. done.
Qed.

(** ** C7: [verifyPassword] *)





(** ** Lookups of the storage layer *)

Lemma event_findUnique_Some (id : Id) (db : DB) (row : EventRow) :
  Prisma.event_findUnique id db = Some row → row ∈ events db ∧ ev_id row = id.
Proof.
  unfold Prisma.event_findUnique. intros Hfind.
  apply find_some in Hfind as [Hin Heq].
  apply bool_decide_eq_true in Heq. by rewrite list_elem_of_In.
Qed.

Lemma event_findUnique_None (id : Id) (db : DB) :
  Prisma.event_findUnique id db = None ↔ id ∉ ev_id <$> events db.
Proof.
  unfold Prisma.event_findUnique. split.
  - intros Hfind (row & -> & Hin)%list_elem_of_fmap.
    apply list_elem_of_In in Hin.
    pose proof (find_none _ _ Hfind row Hin) as Hno. simpl in Hno.
    by rewrite bool_decide_eq_false in Hno.
  - intros Hno.
    destruct (find _ (events db)) as [row|] eqn:Hfind; [|done].
    apply find_some in Hfind as [Hin Heq].
    apply bool_decide_eq_true in Heq. apply list_elem_of_In in Hin.
    destruct Hno. rewrite <-Heq. by apply list_elem_of_fmap_2.
Qed.

Lemma event_findUnique_is_Some (id : Id) (db : DB) :
  id ∈ ev_id <$> events db → ∃ row, Prisma.event_findUnique id db = Some row.
Proof.
  intros Hin.
  destruct (Prisma.event_findUnique id db) as [row|] eqn:Hfind; [by eexists|].
  by apply event_findUnique_None in Hfind.
Qed.

Lemma filter_none {A} (P : A → Prop) `{∀ x, Decision (P x)} (l : list A) :
  Forall (λ x, ¬ P x) l → filter P l = [].
Proof.
  induction 1 as [|x l Hx _ IH]; [done|].
  by rewrite filter_cons_False.
Qed.

Lemma filter_all {A} (P : A → Prop) `{∀ x, Decision (P x)} (l : list A) :
  Forall P l → filter P l = l.
Proof.
  induction 1 as [|x l Hx _ IH]; [done|].
  rewrite filter_cons_True by done. by rewrite IH.
Qed.

Lemma filter_of_others {A} (P : A → Prop) `{∀ x, Decision (P x)} (l : list A) :
  filter P (filter (λ x, ¬ P x) l) = [].
Proof.
  apply filter_none, Forall_forall. by intros x [Hx _]%list_elem_of_filter.
Qed.

(** ** C9: [delete] *)

(** C9. [delete] never throws: it returns false when no event has the id,
    and whenever the storage layer rejects the deletion; it returns true
    when the event existed, which is then removed together with its
    assignments, tags, attachments and history. *)
Theorem delete_true_or_false (id : Id) (db : DB) :
  (∃ b db', EventRepository.delete id db = (Return b, db'))
  ∧ (∀ e, Prisma.event_delete id db = Throw e →
          EventRepository.delete id db = (Return false, db))
  ∧ (id ∉ ev_id <$> events db → EventRepository.delete id db = (Return false, db))
  ∧ (id ∈ ev_id <$> events db →
     ∃ db', EventRepository.delete id db = (Return true, db')
            ∧ (id ∉ ev_id <$> events db')
            ∧ events db' = filter (λ r, ev_id r ≠ id) (events db)
            ∧ Prisma.assignments_of id db' = []
            ∧ Prisma.event_tags_of id db' = []
            ∧ Prisma.attachments_of id db' = []
            ∧ filter (λ h, eh_eventId h = id) (event_edit_history db') = []).
Proof.
  unfold EventRepository.delete, Prisma.event_delete.
  split.
  { destruct (Prisma.event_findUnique id db) as [[]|]; eauto. }
  split; [intros e; destruct (Prisma.event_findUnique id db); [discriminate | done]|].
  split.
  - intros Hno. apply event_findUnique_None in Hno. by rewrite Hno.
  - intros [row Hrow]%event_findUnique_is_Some. rewrite Hrow.
    eexists. split; [done|]. simpl.
    split.
    { intros (r & Hid & [Hr _]%list_elem_of_filter)%list_elem_of_fmap. congruence. }
    split; [done|].
    unfold Prisma.assignments_of, Prisma.event_tags_of, Prisma.attachments_of. simpl.
    repeat split; apply filter_of_others.
Qed.

(** ** [update]: what the storage call and the repository do *)

Lemma find_replaced (id : Id) (row' : EventRow) (l : list EventRow) (row : EventRow) :
  ev_id row' = id →
  find (λ r, bool_decide (ev_id r = id)) l = Some row →
  find (λ r, bool_decide (ev_id r = id))
    ((λ r, if bool_decide (ev_id r = id) then row' else r) <$> l) = Some row'.
Proof.
  intros Hid. induction l as [|x l IH]; simpl; [discriminate|].
  destruct (bool_decide (ev_id x = id)) eqn:Hx.
  - intros _. by rewrite (bool_decide_eq_true_2 _ Hid).
  - rewrite Hx. exact IH.
Qed.

Lemma replaced_ids (id : Id) (row' : EventRow) (l : list EventRow) :
  ev_id row' = id →
  ev_id <$> ((λ r, if bool_decide (ev_id r = id) then row' else r) <$> l) = ev_id <$> l.
Proof.
  intros Hid. rewrite <-list_fmap_compose. apply list_fmap_ext.
  intros _ r _. simpl. case_bool_decide; congruence.
Qed.

Lemma event_update_Return (now : Date) (id : Id) (data : Prisma.EventUpdateInput)
    (db db1 : DB) (p : Prisma.EventPayload) :
  Prisma.event_update now id data db = Return (p, db1) →
  ∃ row,
    Prisma.event_findUnique id db = Some row
    ∧ p = Prisma.include_relations db1 (Prisma.update_row now data row)
    ∧ Prisma.event_findUnique id db1 = Some (Prisma.update_row now data row)
    ∧ ev_id <$> events db1 = ev_id <$> events db
    ∧ event_user_assignments db1
      = Prisma.replace_assignments id (Prisma.ui_assignedUsers data) (event_user_assignments db)
    ∧ event_tags db1 = Prisma.replace_event_tags id (Prisma.ui_tags data) (event_tags db)
    ∧ event_edit_history db1 = event_edit_history db
    ∧ users db1 = users db ∧ tags db1 = tags db ∧ attachments db1 = attachments db
    ∧ Prisma.check_links (ur_id <$> users db) [] (default [] (Prisma.ui_assignedUsers data))
      = Return ()
    ∧ Prisma.check_links (tag_id <$> tags db) [] (default [] (Prisma.ui_tags data))
      = Return ().
Proof.
  unfold Prisma.event_update.
  destruct (Prisma.event_findUnique id db) as [row|] eqn:Hrow; [|discriminate].
  destruct (Prisma.check_links (ur_id <$> users db) _ _) as [[]|] eqn:Hu; [|discriminate].
  destruct (Prisma.check_links (tag_id <$> tags db) _ _) as [[]|] eqn:Ht; [|discriminate].
  simpl. intros [= <- <-]. exists row.
  pose proof (event_findUnique_Some _ _ _ Hrow) as [_ Hid].
  split; [done|]. split; [done|]. split.
  { unfold Prisma.event_findUnique in *. simpl. by eapply find_replaced. }
  split; [simpl; by apply replaced_ids|].
  by repeat split.
Qed.

Section update_facts.
Context `{JSON}.

Lemma recordEditHistory_Return (now : Date) (id : Id) (oldEvent newEvent : Event)
    (editorId : Id) (db : DB) :
  id ∈ ev_id <$> events db →
  ∃ db',
    EventRepository.recordEditHistory now id oldEvent newEvent editorId db = (Return (), db')
    ∧ users db' = users db ∧ events db' = events db ∧ tags db' = tags db
    ∧ attachments db' = attachments db
    ∧ event_user_assignments db' = event_user_assignments db
    ∧ event_tags db' = event_tags db
    ∧ event_edit_history db'
      = event_edit_history db
        ++ match EventRepository.changes_of oldEvent newEvent with
           | [] => []
           | changes => [history_row now id editorId changes db]
           end.
Proof.
  intros Hid. unfold EventRepository.recordEditHistory, Prisma.eventEditHistory_create.
  destruct (EventRepository.changes_of oldEvent newEvent) as [|c cs] eqn:Hc.
  - simpl. exists db. by rewrite app_nil_r.
  - rewrite bool_decide_eq_true_2 by (simpl; lia).
    rewrite bool_decide_eq_true_2 by done.
    eexists. by repeat split.
Qed.

(** The metadata that an update stores can be read when the previous one could. *)
Lemma update_row_readable (now : Date) (eventData : UpdateEventRequest) (row : EventRow) :
  JSON_round_trip →
  metadata_readable (ev_metadata row) →
  metadata_readable
    (ev_metadata (Prisma.update_row now (EventRepository.updateData eventData) row)).
Proof.
  intros Hrt Hrow s. simpl.
  destruct (u_metadata eventData) as [m|]; simpl; [|by apply Hrow].
  destruct (truthy m); [|discriminate].
  intros [= <-] _. apply Hrt.
Qed.

(** [update] either changes nothing and returns null, or performs the
    storage update, appends the history and returns the new event. *)
Lemma update_cases (now : Date) (id : Id) (eventData : UpdateEventRequest)
    (editorId : Id) (db : DB) :
  JSON_round_trip →
  EventRepository.update now id eventData editorId db = (Return None, db)
  ∨ ∃ row currentEvent newEvent db1 db2,
      let row' := Prisma.update_row now (EventRepository.updateData eventData) row in
      Prisma.event_findUnique id db = Some row
      ∧ EventRepository.formatEvent (Prisma.include_relations db row) = Return currentEvent
      ∧ Prisma.event_update now id (EventRepository.updateData eventData) db
        = Return (Prisma.include_relations db1 row', db1)
      ∧ EventRepository.formatEvent (Prisma.include_relations db1 row') = Return newEvent
      ∧ EventRepository.recordEditHistory now id currentEvent newEvent editorId db1
        = (Return (), db2)
      ∧ EventRepository.update now id eventData editorId db = (Return (Some newEvent), db2).
Proof.
  intros Hrt. unfold EventRepository.update, EventRepository.update_try,
    EventRepository.findById.
  destruct (Prisma.event_findUnique id db) as [row|] eqn:Hrow; [|by left].
  destruct (EventRepository.formatEvent (Prisma.include_relations db row))
    as [currentEvent|] eqn:Hcur; simpl; [|by left].
  destruct (Prisma.event_update now id (EventRepository.updateData eventData) db)
    as [[p db1]|] eqn:Hupd; [|by left].
  destruct (event_update_Return _ _ _ _ _ _ Hupd)
    as (row0 & Hrow0 & -> & Hfind1 & Hids & _).
  assert (row0 = row) as -> by congruence.
  destruct (formatEvent_total
              (Prisma.include_relations db1
                 (Prisma.update_row now (EventRepository.updateData eventData) row)))
    as [newEvent Hnew].
  { cbn [Prisma.p_row Prisma.include_relations].
    apply update_row_readable; [done|].
    by apply (formatEvent_readable _ _ Hcur). }
  rewrite Hnew.
  destruct (recordEditHistory_Return now id currentEvent newEvent editorId db1)
    as (db2 & Hrec & _).
  { rewrite Hids. apply event_findUnique_Some in Hrow as [Hin <-].
    by apply list_elem_of_fmap_2. }
  rewrite Hrec. simpl. right. by exists row, currentEvent, newEvent, db1, db2.
Qed.

End update_facts.

(** ** The tracked fields *)

Lemma changed_fields_same (row : EventRow) : changed_fields row row = [].
Proof.
  unfold changed_fields. apply filter_none, Forall_forall. by intros f _ [].
Qed.

Lemma changed_fields_spec (row row' : EventRow) (f : TrackedField) :
  f ∈ changed_fields row row' ↔ field_value f row ≠ field_value f row'.
Proof.
  unfold changed_fields. rewrite list_elem_of_filter.
  split; [by intros [? _]|]. intros Hf. split; [done|].
  unfold tracked_fields. destruct f; set_solver.
Qed.


(** ** C2: the relations of an updated event *)

Lemma check_links_Return (known present ids : list Id) :
  Prisma.check_links known present ids = Return () →
  Forall (λ i, i ∈ known) ids ∧ NoDup ids ∧ Forall (λ i, i ∉ present) ids.
Proof.
  revert present. induction ids as [|i ids IH]; intros present; simpl.
  - intros _. repeat constructor.
  - case_bool_decide as Hk; [|discriminate].
    case_bool_decide as Hp; [discriminate|].
    intros (Hknown & Hnodup & Hfresh)%IH.
    split; [by constructor|]. split.
    + constructor; [|done].
      intros Hin. rewrite Forall_forall in Hfresh.
      apply (Hfresh i Hin). by left.
    + constructor; [done|].
      eapply Forall_impl; [exact Hfresh|]. intros j Hj Hin. apply Hj. by right.
Qed.

Lemma check_links_total (known ids : list Id) :
  Forall (λ i, i ∈ known) ids → NoDup ids →
  Prisma.check_links known [] ids = Return ().
Proof.
  enough (∀ present, Forall (λ i, i ∈ known) ids → NoDup ids →
            Forall (λ i, i ∉ present) ids →
            Prisma.check_links known present ids = Return ()) as Hgen.
  { intros Hk Hn. apply Hgen; [done..|].
    apply Forall_forall. intros i _. apply not_elem_of_nil. }
  induction ids as [|i ids IH]; intros present Hk Hn Hp; simpl; [done|].
  apply Forall_cons in Hk as [Hi Hk]. apply NoDup_cons in Hn as [Hni Hn].
  apply Forall_cons in Hp as [Hpi Hp].
  rewrite bool_decide_eq_true_2, bool_decide_eq_false_2 by done.
  apply IH; [done..|].
  rewrite Forall_forall in Hp |- *. intros j Hj [->|Hin]%elem_of_cons; [done|].
  by apply (Hp j).
Qed.

Lemma replaced_event_tags (id : Id) (ids : list Id) (rows : list EventTag) :
  et_tagId <$> filter (λ t, et_eventId t = id)
                 (Prisma.replace_event_tags id (Some ids) rows) = ids.
Proof.
  unfold Prisma.replace_event_tags. rewrite filter_app, filter_of_others. simpl.
  rewrite filter_all.
  - rewrite <-list_fmap_compose. simpl. apply list_fmap_id.
  - apply Forall_fmap, Forall_forall. by intros.
Qed.

Lemma replaced_assignments (id : Id) (ids : list Id) (rows : list EventUserAssignment) :
  eua_userId <$> filter (λ a, eua_eventId a = id)
                   (Prisma.replace_assignments id (Some ids) rows) = ids.
Proof.
  unfold Prisma.replace_assignments. rewrite filter_app, filter_of_others. simpl.
  rewrite filter_all.
  - rewrite <-list_fmap_compose. simpl. apply list_fmap_id.
  - apply Forall_fmap, Forall_forall. by intros.
Qed.

Lemma filter_replaced_event_tags (id : Id) (ids : list Id) (rows : list EventTag) :
  filter (λ t, et_eventId t = id) (Prisma.replace_event_tags id (Some ids) rows)
  = (λ g, {| et_eventId := id; et_tagId := g |}) <$> ids.
Proof.
  unfold Prisma.replace_event_tags. rewrite filter_app, filter_of_others. simpl.
  apply filter_all, Forall_fmap, Forall_forall. by intros.
Qed.

Lemma filter_replaced_assignments (id : Id) (ids : list Id)
    (rows : list EventUserAssignment) :
  filter (λ a, eua_eventId a = id) (Prisma.replace_assignments id (Some ids) rows)
  = (λ u, {| eua_eventId := id; eua_userId := u |}) <$> ids.
Proof.
  unfold Prisma.replace_assignments. rewrite filter_app, filter_of_others. simpl.
  apply filter_all, Forall_fmap, Forall_forall. by intros.
Qed.

(** Resolving the rows of a relation whose targets all exist. *)
Lemma resolved_rows {L B C} (target : L → Id) (lookup_ : Id → option B)
    (f : B → C) (key : C → Id) (rows : list L) :
  Forall (λ l, ∃ b, lookup_ (target l) = Some b ∧ key (f b) = target l) rows →
  key <$> (snd <$> omap (λ l, (λ b, (l, f b)) <$> lookup_ (target l)) rows)
  = target <$> rows.
Proof.
  induction 1 as [|l rows (b & Hb & Hkey) _ IH]; [done|].
  cbn [omap list_omap]. rewrite Hb.
  cbn [fmap option_fmap option_map]. rewrite !fmap_cons. cbn [snd].
  by rewrite IH, Hkey.
Qed.

(** Resolving the links of a relation whose targets all exist. *)
Lemma resolved_links {L B C} (mk : Id → L) (target : L → Id) (lookup_ : Id → option B)
    (f : B → C) (key : C → Id) (ids : list Id) :
  (∀ i, target (mk i) = i) →
  Forall (λ i, ∃ b, lookup_ i = Some b ∧ key (f b) = i) ids →
  key <$> (snd <$> omap (λ l, (λ b, (l, f b)) <$> lookup_ (target l)) (mk <$> ids)) = ids.
Proof.
  intros Hmk. induction 1 as [|i ids (b & Hb & Hkey) _ IH]; [done|].
  rewrite fmap_cons. cbn [omap list_omap]. rewrite Hmk, Hb.
  cbn [fmap option_fmap option_map]. rewrite !fmap_cons. cbn [snd].
  by rewrite IH, Hkey.
Qed.

Lemma tag_findUnique_id_is_Some (id : Id) (db : DB) :
  id ∈ tag_id <$> tags db →
  ∃ g, Prisma.tag_findUnique_id id db = Some g ∧ tag_id g = id.
Proof.
  intros (g & -> & Hin)%list_elem_of_fmap. unfold Prisma.tag_findUnique_id.
  destruct (find _ (tags db)) as [g'|] eqn:Hfind.
  - apply find_some in Hfind as [_ Heq]. apply bool_decide_eq_true in Heq. eauto.
  - apply list_elem_of_In in Hin.
    pose proof (find_none _ _ Hfind g Hin) as Hno. simpl in Hno.
    by rewrite bool_decide_eq_false in Hno.
Qed.

Lemma user_findUnique_id_found (id : Id) (db : DB) :
  id ∈ ur_id <$> users db →
  ∃ r, Prisma.user_findUnique_id id db = Some r ∧ ur_id r = id.
Proof.
  intros (r & -> & Hin)%list_elem_of_fmap. unfold Prisma.user_findUnique_id.
  destruct (find _ (users db)) as [r'|] eqn:Hfind.
  - apply find_some in Hfind as [_ Heq]. apply bool_decide_eq_true in Heq. eauto.
  - apply list_elem_of_In in Hin.
    pose proof (find_none _ _ Hfind r Hin) as Hno. simpl in Hno.
    by rewrite bool_decide_eq_false in Hno.
Qed.

Section update_relations.
Context `{JSON}.

Lemma recordEditHistory_frame (now : Date) (id : Id) (oldEvent newEvent : Event)
    (editorId : Id) (db db' : DB) (r : outcome unit) :
  EventRepository.recordEditHistory now id oldEvent newEvent editorId db = (r, db') →
  users db' = users db ∧ events db' = events db ∧ tags db' = tags db
  ∧ attachments db' = attachments db
  ∧ event_user_assignments db' = event_user_assignments db
  ∧ event_tags db' = event_tags db.
Proof.
  unfold EventRepository.recordEditHistory, Prisma.eventEditHistory_create.
  case_bool_decide; [|by intros [= _ <-]].
  case_bool_decide; simpl; by intros [= _ <-].
Qed.

(** A successful [update] is a storage update followed by the history. *)
Lemma update_Some (now : Date) (id : Id) (eventData : UpdateEventRequest)
    (editorId : Id) (db db' : DB) (e : Event) :
  EventRepository.update now id eventData editorId db = (Return (Some e), db') →
  ∃ row currentEvent db1,
    let row' := Prisma.update_row now (EventRepository.updateData eventData) row in
    Prisma.event_findUnique id db = Some row
    ∧ EventRepository.formatEvent (Prisma.include_relations db row) = Return currentEvent
    ∧ Prisma.event_update now id (EventRepository.updateData eventData) db
      = Return (Prisma.include_relations db1 row', db1)
    ∧ EventRepository.formatEvent (Prisma.include_relations db1 row') = Return e
    ∧ EventRepository.recordEditHistory now id currentEvent e editorId db1
      = (Return (), db').
Proof.
  unfold EventRepository.update, EventRepository.update_try, EventRepository.findById.
  destruct (Prisma.event_findUnique id db) as [row|] eqn:Hrow; [|discriminate].
  destruct (EventRepository.formatEvent (Prisma.include_relations db row))
    as [currentEvent|] eqn:Hcur; simpl; [|discriminate].
  destruct (Prisma.event_update now id (EventRepository.updateData eventData) db)
    as [[p db1]|] eqn:Hupd; [|discriminate].
  destruct (event_update_Return _ _ _ _ _ _ Hupd) as (row0 & Hrow0 & -> & _).
  assert (row0 = row) as -> by congruence.
  destruct (EventRepository.formatEvent
              (Prisma.include_relations db1
                 (Prisma.update_row now (EventRepository.updateData eventData) row)))
    as [newEvent|] eqn:Hnew; [|discriminate].
  destruct (EventRepository.recordEditHistory now id currentEvent newEvent editorId db1)
    as [[[]|] db2] eqn:Hrec; simpl; [|discriminate].
  intros [= <- <-]. by exists row, currentEvent, db1.
Qed.

End update_relations.

(** ** When an update is accepted *)

Section update_acceptance.
Context `{JSON}.

Lemma update_accepted (now : Date) (id : Id) (eventData : UpdateEventRequest)
    (editorId : Id) (db : DB) (row : EventRow) :
  JSON_round_trip →
  Prisma.event_findUnique id db = Some row →
  metadata_readable (ev_metadata row) →
  links_valid db eventData →
  ∃ cur e db1 db',
    let row' := Prisma.update_row now (EventRepository.updateData eventData) row in
    EventRepository.formatEvent (Prisma.include_relations db row) = Return cur
    ∧ Prisma.event_update now id (EventRepository.updateData eventData) db
      = Return (Prisma.include_relations db1 row', db1)
    ∧ EventRepository.formatEvent (Prisma.include_relations db1 row') = Return e
    ∧ EventRepository.recordEditHistory now id cur e editorId db1 = (Return (), db')
    ∧ EventRepository.update now id eventData editorId db = (Return (Some e), db').
Proof.
  intros Hjson Hrow Hreadable (Hu & Hnu & Ht & Hnt).
  destruct (update_cases now id eventData editorId db Hjson)
    as [Hnull | (row0 & cur & new & db1 & db2 & Hrow0 & Hcur & Hupd & Hnew & Hrec & Hup)].
  - exfalso. revert Hnull.
    unfold EventRepository.update, EventRepository.update_try, EventRepository.findById.
    rewrite Hrow.
    destruct (formatEvent_total (Prisma.include_relations db row) Hreadable) as [cur ->].
    cbn [obind]. unfold Prisma.event_update. rewrite Hrow.
    cbn [EventRepository.updateData Prisma.ui_assignedUsers Prisma.ui_tags].
    rewrite (check_links_total _ _ Hu Hnu), (check_links_total _ _ Ht Hnt).
    cbn [obind].
    match goal with
    | |- context [EventRepository.formatEvent (Prisma.include_relations ?d ?r)] =>
        destruct (formatEvent_total (Prisma.include_relations d r)) as [new ->];
        [by apply update_row_readable|];
        destruct (recordEditHistory_Return now id cur new editorId d)
          as (db2 & -> & _)
    end.
    + pose proof (event_findUnique_Some _ _ _ Hrow) as [Hin Hid].
      cbn [events]. rewrite replaced_ids by (by cbn [Prisma.update_row ev_id]).
      rewrite <- Hid. by apply list_elem_of_fmap_2.
    + done.
  - assert (row0 = row) as -> by congruence.
    by exists cur, new, db1, db2.
Qed.

Lemma update_rejected (now : Date) (id : Id) (eventData : UpdateEventRequest)
    (editorId : Id) (db : DB) (row : EventRow) :
  Prisma.event_findUnique id db = Some row →
  ¬ links_valid db eventData →
  EventRepository.update now id eventData editorId db = (Return None, db).
Proof.
  intros Hrow Hnot.
  unfold EventRepository.update, EventRepository.update_try, EventRepository.findById.
  rewrite Hrow.
  destruct (EventRepository.formatEvent (Prisma.include_relations db row)); [|done].
  cbn [obind]. unfold Prisma.event_update. rewrite Hrow.
  cbn [EventRepository.updateData Prisma.ui_assignedUsers Prisma.ui_tags].
  destruct (Prisma.check_links (ur_id <$> users db) _ _) as [[]|] eqn:Hu; [|done].
  destruct (Prisma.check_links (tag_id <$> tags db) _ _) as [[]|] eqn:Ht; [|done].
  destruct Hnot.
  apply check_links_Return in Hu as (? & ? & _).
  apply check_links_Return in Ht as (? & ? & _).
  done.
Qed.

End update_acceptance.

(** ** C1: the edit history *)


(** C2, as stated, fails: an update whose [tagIds] names a tag that does
    not exist is rejected by the foreign key of the junction table, and
    the tag set of the event stays as it was instead of becoming the
    requested one. *)
Lemma update_unknown_tagId_not_replaced :
  ¬ (∀ (J : JSON) (now : Date) (id : Id) (eventData : UpdateEventRequest)
       (editorId : Id) (db : DB) (row : EventRow) (tagIds : list Id),
       Prisma.event_findUnique id db = Some row →
       u_tagIds eventData = Some tagIds →
       ∀ t, t ∈ et_tagId
                  <$> Prisma.event_tags_of id
                        (EventRepository.update now id eventData editorId db).2
            ↔ t ∈ tagIds).
Proof.
  intros Hclaim.
  pose proof (Hclaim Sample.empty_object_JSON 20%Z "e1" (Sample.retag ["t9"])
                "u1" Sample.db1 Sample.standup_row ["t9"] eq_refl eq_refl "t9")
    as [_ Hback].
  assert ("t9" ∈ @nil Id) as Hin; [|by apply elem_of_nil in Hin].
  apply Hback. by left.
Qed.

(** C2, amended. For a stored event that reads as [cur], an update whose
    ids can be linked is accepted.  A supplied [tagIds] then becomes the
    tag set of the event, stored and returned (an empty one clears it),
    and without [tagIds] the tags, stored and returned, stay as they
    were; the same holds for [assignedUserIds] and the assigned users.  An
    update whose ids cannot be linked returns null and replaces
    nothing. *)
Theorem update_replaces_relations `{JSON} (now : Date) (id : Id)
    (eventData : UpdateEventRequest) (editorId : Id) (db : DB) (cur : Event) :
  JSON_round_trip →
  EventRepository.findById id db = Return (Some cur) →
  (links_valid db eventData →
   ∃ e db',
     EventRepository.update now id eventData editorId db = (Return (Some e), db')
     ∧ (∀ tagIds, u_tagIds eventData = Some tagIds →
                  et_tagId <$> Prisma.event_tags_of id db' ≡ₚ tagIds
                  ∧ ∃ tags, e_tags e = Some tags ∧ tag_id <$> tags ≡ₚ tagIds)
     ∧ (u_tagIds eventData = None →
        Prisma.event_tags_of id db' = Prisma.event_tags_of id db
        ∧ e_tags e = e_tags cur)
     ∧ (∀ userIds, u_assignedUserIds eventData = Some userIds →
                   eua_userId <$> Prisma.assignments_of id db' ≡ₚ userIds
                   ∧ ∃ users, e_assignedUsers e = Some users
                              ∧ user_id <$> users ≡ₚ userIds)
     ∧ (u_assignedUserIds eventData = None →
        Prisma.assignments_of id db' = Prisma.assignments_of id db
        ∧ e_assignedUsers e = e_assignedUsers cur))
  ∧ (¬ links_valid db eventData →
     EventRepository.update now id eventData editorId db = (Return None, db)).
Proof.
  intros Hrt Hcur. unfold EventRepository.findById in Hcur.
  destruct (Prisma.event_findUnique id db) as [row|] eqn:Hrow; [|discriminate].
  destruct (EventRepository.formatEvent (Prisma.include_relations db row))
    as [cur0|] eqn:Hfmt; [|discriminate].
  cbn [obind] in Hcur. injection Hcur as ->.
  split; [|by apply (update_rejected _ _ _ _ _ row)].
  intros Hlinks.
  destruct (update_accepted now id eventData editorId db row Hrt Hrow
              (formatEvent_readable _ _ Hfmt) Hlinks)
    as (cur' & e & db1 & db' & Hcur' & Hupd & Hnew & Hrec & Hres).
  cbn zeta in Hupd, Hnew. assert (cur' = cur) as -> by congruence.
  exists e, db'. split; [done|].
  apply recordEditHistory_frame in Hrec as (_ & _ & _ & _ & Hua & Hta).
  destruct (event_update_Return _ _ _ _ _ _ Hupd)
    as (row0 & Hrow0 & _ & _ & _ & Hua1 & Hta1 & _ & Husers & Htags & _ & Hcu & Hct).
  assert (row0 = row) as -> by congruence.
  apply event_findUnique_Some in Hrow as [_ Hid].
  apply formatEvent_relations in Hnew as (Hassigned & Htagged & _).
  apply formatEvent_relations in Hfmt as (Hassigned0 & Htagged0 & _).
  cbn [Prisma.include_relations Prisma.p_assignedUsers Prisma.p_tags
       Prisma.update_row ev_id] in Hassigned, Htagged, Hassigned0, Htagged0.
  rewrite Hid in Hassigned, Htagged, Hassigned0, Htagged0.
  cbn [EventRepository.updateData Prisma.ui_assignedUsers Prisma.ui_tags]
    in Hua1, Hta1, Hcu, Hct.
  assert (Prisma.event_tags_of id db'
          = filter (λ t, et_eventId t = id)
              (Prisma.replace_event_tags id (u_tagIds eventData) (event_tags db)))
    as Hstored_tags by (unfold Prisma.event_tags_of; by rewrite Hta, Hta1).
  assert (Prisma.assignments_of id db'
          = filter (λ a, eua_eventId a = id)
              (Prisma.replace_assignments id (u_assignedUserIds eventData)
                 (event_user_assignments db)))
    as Hstored_users by (unfold Prisma.assignments_of; by rewrite Hua, Hua1).
  assert (Prisma.event_tags_of id db1 = Prisma.event_tags_of id db') as Htags1
    by (unfold Prisma.event_tags_of; by rewrite Hta).
  assert (Prisma.assignments_of id db1 = Prisma.assignments_of id db') as Husers1
    by (unfold Prisma.assignments_of; by rewrite Hua).
  split_and!.
  - intros tagIds Heq. rewrite Heq in *. cbn [default] in Hct.
    rewrite Hstored_tags, filter_replaced_event_tags, <- list_fmap_compose.
    split; [by rewrite list_fmap_id|].
    eexists. split; [exact Htagged|].
    rewrite (resolved_rows et_tagId (λ i, Prisma.tag_findUnique_id i db1) (λ g, g) tag_id).
    + unfold Prisma.included_event_tags.
      rewrite order_by_Permutation, Htags1, Hstored_tags, filter_replaced_event_tags.
      rewrite <- list_fmap_compose. by rewrite list_fmap_id.
    + apply Forall_forall. intros t Ht.
      apply tag_findUnique_id_is_Some. rewrite Htags.
      apply check_links_Return in Hct as [Hknown _]. rewrite Forall_forall in Hknown.
      apply Hknown.
      unfold Prisma.included_event_tags in Ht. rewrite order_by_Permutation in Ht.
      rewrite Htags1, Hstored_tags, filter_replaced_event_tags in Ht.
      by apply list_elem_of_fmap in Ht as (g & -> & Hg).
  - intros Heq. rewrite Heq in *. split; [done|].
    rewrite Htagged, Htagged0. unfold Prisma.included_event_tags.
    rewrite Htags1, Hstored_tags. f_equal. f_equal.
    unfold Prisma.event_tags_of, Prisma.tag_findUnique_id. by rewrite Htags.
  - intros userIds Heq. rewrite Heq in *. cbn [default] in Hcu.
    rewrite Hstored_users, filter_replaced_assignments, <- list_fmap_compose.
    split; [by rewrite list_fmap_id|].
    eexists. split; [exact Hassigned|].
    rewrite (resolved_rows eua_userId (λ i, Prisma.user_findUnique_id i db1)
               Prisma.select_user user_id).
    + unfold Prisma.included_assignments.
      rewrite order_by_Permutation, Husers1, Hstored_users, filter_replaced_assignments.
      rewrite <- list_fmap_compose. by rewrite list_fmap_id.
    + apply Forall_forall. intros a Ha.
      destruct (user_findUnique_id_found (eua_userId a) db1) as (r & Hr & Hrid);
        [|by exists r].
      rewrite Husers.
      apply check_links_Return in Hcu as [Hknown _]. rewrite Forall_forall in Hknown.
      apply Hknown.
      unfold Prisma.included_assignments in Ha. rewrite order_by_Permutation in Ha.
      rewrite Husers1, Hstored_users, filter_replaced_assignments in Ha.
      by apply list_elem_of_fmap in Ha as (u & -> & Hu).
  - intros Heq. rewrite Heq in *. split; [done|].
    rewrite Hassigned, Hassigned0. unfold Prisma.included_assignments.
    rewrite Husers1, Hstored_users. f_equal. f_equal.
    unfold Prisma.assignments_of, Prisma.user_findUnique_id. by rewrite Husers.
Qed.

(** ** C3: creator and creation time *)

Section creator_facts.
Context `{JSON}.

Lemma find_app_fresh (id : Id) (l : list EventRow) (row : EventRow) :
  id ∉ ev_id <$> l → ev_id row = id →
  find (λ r, bool_decide (ev_id r = id)) (l ++ [row]) = Some row.
Proof.
  intros Hfresh Hid. induction l as [|x l IH]; simpl.
  - by rewrite bool_decide_eq_true_2.
  - rewrite fmap_cons, not_elem_of_cons in Hfresh. destruct Hfresh as [Hx Hl].
    rewrite bool_decide_eq_false_2 by congruence. by apply IH.
Qed.

(** What a successful [create] stores and returns. *)
Lemma create_Return (now : Date) (eventData : CreateEventRequest) (creatorId : Id)
    (db db' : DB) (e : Event) :
  EventRepository.create now eventData creatorId db = (Return e, db') →
  ∃ row,
    Prisma.event_findUnique (e_id e) db' = Some row
    ∧ events db' = events db ++ [row]
    ∧ (e_id e ∉ ev_id <$> events db)
    ∧ EventRepository.formatEvent (Prisma.include_relations db' row) = Return e
    ∧ ev_creatorId row = creatorId
    ∧ ev_createdAt row = now
    ∧ ev_updatedAt row = now
    ∧ ev_title row = c_title eventData
    ∧ ev_content row = c_content eventData
    ∧ users db' = users db ∧ tags db' = tags db
    ∧ event_user_assignments db'
      = event_user_assignments db
        ++ ((λ u, {| eua_eventId := e_id e; eua_userId := u |})
              <$> default [] (c_assignedUserIds eventData))
    ∧ event_tags db'
      = event_tags db
        ++ ((λ t, {| et_eventId := e_id e; et_tagId := t |})
              <$> default [] (c_tagIds eventData)).
Proof.
  unfold EventRepository.create, Prisma.event_create.
  cbn [Prisma.ci_creatorId Prisma.ci_assignedUsers Prisma.ci_tags].
  case_bool_decide as Hcreator; [|discriminate].
  destruct (Prisma.check_links (ur_id <$> users db) _ _) as [[]|]; [|discriminate].
  destruct (Prisma.check_links (tag_id <$> tags db) _ _) as [[]|]; [|discriminate].
  cbn [obind]. intros [= Hfmt <-].
  pose proof (formatEvent_scalars _ _ Hfmt) as (Hid & _).
  cbn [Prisma.p_row Prisma.include_relations ev_id] in Hid.
  eexists. rewrite Hid.
  split.
  { unfold Prisma.event_findUnique. cbn [events].
    apply find_app_fresh; [apply infinite_is_fresh | done]. }
  split; [done|].
  split; [apply infinite_is_fresh|].
  by repeat split.
Qed.

(** The row of an event after one call of [update], whatever its result. *)
Lemma update_event_row (now : Date) (id : Id) (eventData : UpdateEventRequest)
    (editorId : Id) (db db' : DB) (row : EventRow) (r : outcome (option Event)) :
  Prisma.event_findUnique id db = Some row →
  EventRepository.update now id eventData editorId db = (r, db') →
  (∃ o, r = Return o)
  ∧ ((Prisma.event_findUnique id db' = Some row ∧ r = Return None)
     ∨ Prisma.event_findUnique id db'
       = Some (Prisma.update_row now (EventRepository.updateData eventData) row)).
Proof.
  intros Hrow. unfold EventRepository.update, EventRepository.update_try,
    EventRepository.findById. rewrite Hrow.
  destruct (EventRepository.formatEvent (Prisma.include_relations db row))
    as [currentEvent|] eqn:Hcur; simpl; [|intros [= <- <-]; eauto].
  destruct (Prisma.event_update now id (EventRepository.updateData eventData) db)
    as [[p db1]|] eqn:Hupd; [|intros [= <- <-]; eauto].
  destruct (event_update_Return _ _ _ _ _ _ Hupd) as (row0 & Hrow0 & -> & Hfind1 & _).
  assert (row0 = row) as -> by congruence.
  destruct (EventRepository.formatEvent
              (Prisma.include_relations db1
                 (Prisma.update_row now (EventRepository.updateData eventData) row)))
    as [newEvent|] eqn:Hnew; [|intros [= <- <-]; eauto].
  destruct (EventRepository.recordEditHistory now id currentEvent newEvent editorId db1)
    as [ro db2] eqn:Hrec.
  apply recordEditHistory_frame in Hrec as (_ & Hev & _).
  assert (Prisma.event_findUnique id db2
          = Some (Prisma.update_row now (EventRepository.updateData eventData) row))
    as Hfind2 by (unfold Prisma.event_findUnique in *; by rewrite Hev).
  destruct ro as [[]|]; simpl; intros [= <- <-]; eauto.
Qed.

Lemma run_updates_invariant (id : Id) (ops : list (Date * UpdateEventRequest * Id)) :
  JSON_round_trip →
  ∀ (db db' : DB) (row : EventRow) (results : list (option Event)),
    Prisma.event_findUnique id db = Some row →
    metadata_readable (ev_metadata row) →
    run_updates id ops db = (results, db') →
    length results = length ops
    ∧ Forall (λ e, e_creatorId e = ev_creatorId row ∧ e_createdAt e = ev_createdAt row)
        (returned_events results)
    ∧ ∃ row', Prisma.event_findUnique id db' = Some row'
              ∧ ev_creatorId row' = ev_creatorId row
              ∧ ev_createdAt row' = ev_createdAt row
              ∧ metadata_readable (ev_metadata row').
Proof.
  intros Hrt.
  induction ops as [|[[now eventData] editorId] ops IH];
    intros db db' row results Hrow Hreadable; simpl.
  { intros [= <- <-]. unfold returned_events. simpl.
    split; [done|]. split; [constructor|]. by exists row. }
  destruct (EventRepository.update now id eventData editorId db) as [r db1] eqn:Hupd.
  destruct (update_event_row _ _ _ _ _ _ _ _ Hrow Hupd) as [[o Ho] Hrow1]. subst r.
  destruct (run_updates id ops db1) as [rs db2] eqn:Hrun.
  intros [= <- <-]. unfold returned_events in *.
  destruct Hrow1 as [[Hrow1 [= ->]] | Hrow1].
  - destruct (IH db1 db2 row rs Hrow1 Hreadable Hrun) as (Hlen & Hall & Hlast).
    simpl. by rewrite Hlen.
  - destruct (IH db1 db2 _ rs Hrow1 (update_row_readable now eventData row Hrt Hreadable)
                Hrun) as (Hlen & Hall & Hlast).
    cbn [Prisma.update_row ev_creatorId ev_createdAt] in Hall, Hlast.
    split; [simpl; by rewrite Hlen|]. split; [|done].
    destruct o as [e|]; simpl; [|done].
    apply update_Some in Hupd as (row0 & cur & db0 & Hrow0 & _ & _ & Hfmt & _).
    assert (row0 = row) as -> by congruence.
    apply formatEvent_scalars in Hfmt as (_ & _ & _ & _ & _ & Hc & _ & Hcr & _).
    cbn [Prisma.p_row Prisma.include_relations Prisma.update_row
         ev_creatorId ev_createdAt] in Hc, Hcr.
    by constructor.
Qed.

Lemma writes_column_iff (eventData : UpdateEventRequest) :
  Prisma.writes_column (EventRepository.updateData eventData) = true
  ↔ supplies_column eventData.
Proof.
  unfold Prisma.writes_column, supplies_column, EventRepository.updateData.
  cbn [Prisma.ui_title Prisma.ui_content Prisma.ui_type Prisma.ui_timestamp
       Prisma.ui_metadata].
  rewrite !orb_true_iff, !bool_decide_eq_true, fmap_is_Some.
  destruct (u_metadata eventData) as [m|].
  - split; intros _; repeat right; by eexists.
  - rewrite <- !not_eq_None_Some. tauto.
Qed.

End creator_facts.

(** C3, as stated, fails: [updatedAt] does not change on every mutation.
    An update that only replaces the tags of an event writes no column of
    the event, and the event keeps its time of update. *)
Lemma update_of_relations_keeps_updatedAt :
  ¬ (∀ (J : JSON) (now : Date) (id : Id) (eventData : UpdateEventRequest)
       (editorId : Id) (db db' : DB) (row : EventRow) (e : Event),
       Prisma.event_findUnique id db = Some row →
       EventRepository.update now id eventData editorId db = (Return (Some e), db') →
       e_updatedAt e ≠ ev_updatedAt row).
Proof.
  intros Hclaim.
  destruct (@EventRepository.update Sample.empty_object_JSON 20%Z "e1"
              (Sample.retag ["t1"]) "u1" Sample.db1) as [r db'] eqn:Hupd.
  pose proof Hupd as Hrun. vm_compute in Hrun.
  injection Hrun as <- _.
  by apply (Hclaim Sample.empty_object_JSON 20%Z "e1" (Sample.retag ["t1"]) "u1"
              Sample.db1 db' Sample.standup_row _ eq_refl Hupd).
Qed.

(** C3, amended. After a successful [create] and any sequence of updates
    of the created event, every returned event and the stored row have
    the [creatorId] and the [createdAt] of the creation.  A further update
    whose ids can be linked is accepted and keeps both; it sets
    [updatedAt] to the time of the call when the request supplies a column
    of the event ([title], [content], [type], [timestamp] or [metadata])
    and leaves it as it is otherwise.  An update whose ids cannot be
    linked returns null and changes nothing. *)
Theorem creator_and_createdAt_never_change `{JSON} (now0 : Date)
    (eventData0 : CreateEventRequest) (creatorId : Id) (db0 db1 db2 : DB) (e0 : Event)
    (ops : list (Date * UpdateEventRequest * Id)) (results : list (option Event))
    (now : Date) (eventData : UpdateEventRequest) (editorId : Id) :
  JSON_round_trip →
  EventRepository.create now0 eventData0 creatorId db0 = (Return e0, db1) →
  run_updates (e_id e0) ops db1 = (results, db2) →
  e_creatorId e0 = creatorId
  ∧ e_createdAt e0 = now0
  ∧ e_updatedAt e0 = now0
  ∧ length results = length ops
  ∧ Forall (λ e, e_creatorId e = creatorId ∧ e_createdAt e = now0) (returned_events results)
  ∧ ∃ row,
      Prisma.event_findUnique (e_id e0) db2 = Some row
      ∧ ev_creatorId row = creatorId
      ∧ ev_createdAt row = now0
      ∧ (links_valid db2 eventData →
         ∃ e db3 row',
           EventRepository.update now (e_id e0) eventData editorId db2
           = (Return (Some e), db3)
           ∧ Prisma.event_findUnique (e_id e0) db3 = Some row'
           ∧ shows row' e
           ∧ ev_creatorId row' = creatorId
           ∧ ev_createdAt row' = now0
           ∧ (supplies_column eventData → ev_updatedAt row' = now)
           ∧ (¬ supplies_column eventData → ev_updatedAt row' = ev_updatedAt row))
      ∧ (¬ links_valid db2 eventData →
         EventRepository.update now (e_id e0) eventData editorId db2 = (Return None, db2)).
Proof.
  intros Hrt (row0 & Hrow0 & _ & _ & Hfmt & Hcr & Hc & Hu & _)%create_Return Hrun.
  pose proof (formatEvent_readable _ _ Hfmt) as Hreadable0.
  cbn [Prisma.p_row Prisma.include_relations] in Hreadable0.
  apply formatEvent_scalars in Hfmt as (_ & _ & _ & _ & _ & Hc0 & Hu0 & Hcr0 & _).
  cbn [Prisma.p_row Prisma.include_relations] in Hc0, Hu0, Hcr0.
  destruct (run_updates_invariant _ _ Hrt _ _ _ _ Hrow0 Hreadable0 Hrun)
    as (Hlen & Hall & row & Hrow & Hcr' & Hc' & Hreadable).
  split; [congruence|]. split; [congruence|]. split; [congruence|]. split; [done|].
  split.
  { eapply Forall_impl; [exact Hall|]. simpl. intros e (? & ?). split; congruence. }
  exists row. split; [done|]. split; [congruence|]. split; [congruence|].
  split; [|by apply (update_rejected _ _ _ _ _ row)].
  intros Hlinks.
  destruct (update_accepted now (e_id e0) eventData editorId db2 row Hrt Hrow
              Hreadable Hlinks)
    as (cur & e & db3' & db3 & _ & Hupd & Hnew & Hrec & Hres).
  cbn zeta in Hupd, Hnew.
  destruct (event_update_Return _ _ _ _ _ _ Hupd) as (row1 & Hrow1 & _ & Hfind & _).
  assert (row1 = row) as -> by congruence.
  apply recordEditHistory_frame in Hrec as (_ & Hev & _).
  exists e, db3, (Prisma.update_row now (EventRepository.updateData eventData) row).
  split; [done|].
  split; [unfold Prisma.event_findUnique in *; by rewrite Hev|].
  split; [by apply (formatEvent_shows db3')|].
  cbn [Prisma.update_row ev_creatorId ev_createdAt ev_updatedAt].
  split; [congruence|]. split; [congruence|].
  pose proof (writes_column_iff eventData) as Hwrites.
  destruct (Prisma.writes_column (EventRepository.updateData eventData)).
  - split; [done|]. intros Hno. destruct Hno. by apply Hwrites.
  - split; [|done]. intros Hyes%Hwrites. discriminate.
Qed.

(** ** C4: references of a create request *)

Lemma user_exists_iff (id : Id) (db : DB) :
  UserRepository.exists_ id db = true ↔ id ∈ ur_id <$> users db.
Proof.
  unfold UserRepository.exists_, Prisma.user_count_id.
  rewrite Z.ltb_lt, list_elem_of_fmap. split.
  - intros Hpos. destruct (filter _ (users db)) as [|r l] eqn:Hf; [simpl in Hpos; lia|].
    assert (r ∈ filter (λ r, ur_id r = id) (users db)) as Hr by (rewrite Hf; by left).
    apply list_elem_of_filter in Hr as [Hid Hin]. by exists r.
  - intros (r & -> & Hin).
    assert (r ∈ filter (λ r', ur_id r' = ur_id r) (users db)) as Hr
      by by apply list_elem_of_filter.
    destruct (filter _ (users db)); [by apply elem_of_nil in Hr | simpl; lia].
Qed.

Lemma tag_exists_iff (id : Id) (db : DB) :
  TagRepository.exists_ id db = true ↔ id ∈ tag_id <$> tags db.
Proof.
  unfold TagRepository.exists_, Prisma.tag_count_id.
  rewrite Z.ltb_lt, list_elem_of_fmap. split.
  - intros Hpos. destruct (filter _ (tags db)) as [|r l] eqn:Hf; [simpl in Hpos; lia|].
    assert (r ∈ filter (λ r, tag_id r = id) (tags db)) as Hr by (rewrite Hf; by left).
    apply list_elem_of_filter in Hr as [Hid Hin]. by exists r.
  - intros (r & -> & Hin).
    assert (r ∈ filter (λ r', tag_id r' = tag_id r) (tags db)) as Hr
      by by apply list_elem_of_filter.
    destruct (filter _ (tags db)); [by apply elem_of_nil in Hr | simpl; lia].
Qed.

Lemma find_unknown_None (known : Id → bool) (ids : list Id) :
  find (λ i, negb (known i)) ids = None ↔ Forall (λ i, known i = true) ids.
Proof.
  induction ids as [|i ids IH]; simpl.
  - split; [constructor | done].
  - destruct (known i) eqn:Hi; simpl.
    + rewrite IH. split; [by constructor | by intros [_ ?]%Forall_cons].
    + split; [discriminate|]. intros [Hk _]%Forall_cons. congruence.
Qed.

(** [create] succeeds when the creator and every referenced id exist and
    no id is repeated. *)
Lemma create_total `{JSON} (now : Date) (eventData : CreateEventRequest)
    (creatorId : Id) (db : DB) :
  JSON_round_trip →
  creatorId ∈ ur_id <$> users db →
  Forall (λ i, i ∈ ur_id <$> users db) (default [] (c_assignedUserIds eventData)) →
  Forall (λ i, i ∈ tag_id <$> tags db) (default [] (c_tagIds eventData)) →
  NoDup (default [] (c_assignedUserIds eventData)) →
  NoDup (default [] (c_tagIds eventData)) →
  ∃ e db', EventRepository.create now eventData creatorId db = (Return e, db').
Proof.
  intros Hrt Hcreator Hu Ht Hnu Hnt.
  unfold EventRepository.create, Prisma.event_create.
  cbn [Prisma.ci_creatorId Prisma.ci_assignedUsers Prisma.ci_tags].
  rewrite bool_decide_eq_true_2 by done.
  rewrite !check_links_total by done. cbn [obind].
  match goal with
  | |- ∃ e db', (EventRepository.formatEvent ?p, ?d) = _ =>
      destruct (formatEvent_total p) as [e He]
  end.
  - intros s. cbn. destruct (c_metadata eventData) as [m|]; [|discriminate].
    destruct (truthy m); [|discriminate]. intros [= <-] _. apply Hrt.
  - rewrite He. eauto.
Qed.

(** C4, as stated, fails: with every referenced id present, a request
    that names a tag twice is answered 500, not 201. *)
Lemma post_duplicate_tagIds_rejected :
  ¬ (∀ (J : JSON) (now : Date) (user : Id) (eventData : CreateEventRequest) (db : DB),
       user ∈ ur_id <$> users db →
       Forall (λ i, i ∈ ur_id <$> users db) (default [] (c_assignedUserIds eventData)) →
       Forall (λ i, i ∈ tag_id <$> tags db) (default [] (c_tagIds eventData)) →
       ∃ e, (EventsRoute.post now user eventData db).1
            = {| EventsRoute.status := 201; EventsRoute.body := EventsRoute.EventBody e |}).
Proof.
  intros Hclaim.
  destruct (Hclaim Sample.empty_object_JSON 5%Z "u1" Sample.standup_twice Sample.db0)
    as [e He].
  - by left.
  - constructor.
  - repeat constructor.
  - discriminate He.
Qed.

(** C4, amended. For a create request of an authenticated user: when an
    id of [assignedUserIds] or of [tagIds] does not exist, the answer is a
    400 invalid-reference error and the store is unchanged; when all
    referenced ids exist and neither list repeats an id, the answer is 201
    with the hydrated event, whose row and links are then stored. *)
Theorem post_validates_references `{JSON} (now : Date) (user : Id)
    (eventData : CreateEventRequest) (db : DB) :
  JSON_round_trip →
  user ∈ ur_id <$> users db →
  (¬ (Forall (λ i, i ∈ ur_id <$> users db) (default [] (c_assignedUserIds eventData))
      ∧ Forall (λ i, i ∈ tag_id <$> tags db) (default [] (c_tagIds eventData))) →
   ∃ code, EventsRoute.post now user eventData db = (EventsRoute.error 400 code, db)
           ∧ (code = "INVALID_USER_ID" ∨ code = "INVALID_TAG_ID"))
  ∧ (Forall (λ i, i ∈ ur_id <$> users db) (default [] (c_assignedUserIds eventData)) →
     Forall (λ i, i ∈ tag_id <$> tags db) (default [] (c_tagIds eventData)) →
     NoDup (default [] (c_assignedUserIds eventData)) →
     NoDup (default [] (c_tagIds eventData)) →
     ∃ e db' row,
       EventsRoute.post now user eventData db
       = ({| EventsRoute.status := 201; EventsRoute.body := EventsRoute.EventBody e |}, db')
       ∧ hydrated e
       ∧ is_Some (e_creator e)
       ∧ e_creatorId e = user
       ∧ e_title e = c_title eventData
       ∧ e_content e = c_content eventData
       ∧ events db' = events db ++ [row]
       ∧ ev_id row = e_id e
       ∧ event_user_assignments db'
         = event_user_assignments db
           ++ ((λ u, {| eua_eventId := e_id e; eua_userId := u |})
                 <$> default [] (c_assignedUserIds eventData))
       ∧ event_tags db'
         = event_tags db
           ++ ((λ t, {| et_eventId := e_id e; et_tagId := t |})
                 <$> default [] (c_tagIds eventData))).
Proof.
  intros Hrt Huser.
  destruct (user_findUnique_id_found _ _ Huser) as (r & Hr & Hrid).
  unfold EventsRoute.post, UserRepository.findById. rewrite Hr. simpl. rewrite Hrid.
  unfold EventsRoute.post_handler.
  split.
  - intros Hmissing.
    destruct (find (λ userId, negb (UserRepository.exists_ userId db)) _) eqn:Hfu;
      [by eauto|].
    destruct (find (λ tagId, negb (TagRepository.exists_ tagId db)) _) eqn:Hft;
      [by eauto|].
    destruct Hmissing. split.
    + apply find_unknown_None in Hfu. eapply Forall_impl; [exact Hfu|].
      intros i. apply user_exists_iff.
    + apply find_unknown_None in Hft. eapply Forall_impl; [exact Hft|].
      intros i. apply tag_exists_iff.
  - intros Hu Ht Hnu Hnt.
    assert (find (λ userId, negb (UserRepository.exists_ userId db))
              (default [] (c_assignedUserIds eventData)) = None) as ->.
    { apply find_unknown_None. eapply Forall_impl; [exact Hu|].
      intros i. apply user_exists_iff. }
    assert (find (λ tagId, negb (TagRepository.exists_ tagId db))
              (default [] (c_tagIds eventData)) = None) as ->.
    { apply find_unknown_None. eapply Forall_impl; [exact Ht|].
      intros i. apply tag_exists_iff. }
    destruct (create_total now eventData user db Hrt Huser Hu Ht Hnu Hnt)
      as (e & db' & Hcreate).
    rewrite Hcreate.
    destruct (create_Return _ _ _ _ _ _ Hcreate)
      as (row & Hfind & Hev & _ & Hfmt & Hcr & _ & _ & Htitle & Hcontent & Husers & _
          & Hua & Hta).
    pose proof (formatEvent_hydrated _ _ Hfmt) as Hhyd.
    apply formatEvent_scalars in Hfmt
      as (Hid & Htitle' & Hcontent' & _ & _ & _ & _ & Hcreator' & Hcreator).
    cbn [Prisma.p_row Prisma.include_relations Prisma.p_creator]
      in Hid, Htitle', Hcontent', Hcreator', Hcreator.
    exists e, db', row. split; [done|]. split; [done|].
    split.
    { rewrite Hcreator, Hcr.
      destruct (user_findUnique_id_found user db') as (r' & -> & _); [|by eexists].
      by rewrite Husers. }
    repeat split; congruence.
Qed.

(** ** C10: the shape of returned events *)

Lemma skip_take_subseteq {A} (skip take : Z) (l l' : list A) :
  Prisma.skip_take skip take l = Return l' → l' ⊆ l.
Proof.
  unfold Prisma.skip_take.
  destruct (negb (Prisma.int64 skip && Prisma.int64 take)); [discriminate|].
  destruct (skip <? 0)%Z; [discriminate|].
  destruct (0 <=? take)%Z; intros [= <-].
  - etrans; [apply subseteq_take | apply subseteq_drop].
  - intros x Hx. rewrite elem_of_reverse in Hx. apply elem_of_reverse.
    by apply (subseteq_drop (Z.to_nat skip)), (subseteq_take (Z.to_nat (- take))).
Qed.

Lemma Forall2_Forall_r {A B} (Q : A → Prop) (R : A → B → Prop) (l : list A) (k : list B) :
  Forall Q l → Forall2 R l k → Forall (λ y, ∃ x, Q x ∧ R x y) k.
Proof.
  intros HQ HR. induction HR as [|x y l k Hxy _ IH]; [constructor|].
  apply Forall_cons in HQ as [Hx Hl]. constructor; eauto.
Qed.

Section formatted_facts.
Context `{JSON}.

Lemma formatEvent_formatted (db : DB) (row : EventRow) (e : Event) :
  row ∈ events db → ev_metadata row ≠ Some "" →
  EventRepository.formatEvent (Prisma.include_relations db row) = Return e →
  formatted_from db e.
Proof.
  intros Hin Hne Hfmt. split; [by eapply formatEvent_hydrated|].
  exists row. split; [done|]. split.
  - by pose proof (formatEvent_scalars _ _ Hfmt) as (-> & _).
  - by apply (formatEvent_metadata (Prisma.include_relations db row) e).
Qed.

Lemma event_findMany_formatted (P : EventRow → Prop) `{∀ r, Decision (P r)}
    (skip take : Z) (db : DB) (ps : list Prisma.EventPayload) (es : list Event) :
  metadata_nonempty db →
  Prisma.event_findMany P skip take db = Return ps →
  mapM EventRepository.formatEvent ps = Return es →
  Forall (formatted_from db) es.
Proof.
  intros Hne Hfind Hes. unfold Prisma.event_findMany in Hfind.
  destruct (Prisma.skip_take skip take _) as [rows|] eqn:Hrows; [|discriminate].
  simpl in Hfind. injection Hfind as <-.
  apply skip_take_subseteq in Hrows.
  apply mapM_Return in Hes. rewrite Forall2_fmap_l in Hes.
  assert (Forall (λ row, row ∈ events db) rows) as Hin.
  { apply Forall_forall. intros row Hrow%Hrows.
    rewrite order_by_Permutation in Hrow.
    by apply list_elem_of_filter in Hrow as [_ ?]. }
  eapply Forall_impl; [exact (Forall2_Forall_r _ _ _ _ Hin Hes)|].
  simpl. intros e (row & Hrow & Hfmt).
  apply (formatEvent_formatted db row e Hrow); [|done].
  unfold metadata_nonempty in Hne. rewrite Forall_forall in Hne. by apply Hne.
Qed.

Lemma update_row_nonempty (now : Date) (eventData : UpdateEventRequest) (row : EventRow) :
  JSON_stringify_nonempty →
  ev_metadata row ≠ Some "" →
  ev_metadata (Prisma.update_row now (EventRepository.updateData eventData) row) ≠ Some "".
Proof.
  intros Hs Hrow. simpl.
  destruct (u_metadata eventData) as [m|]; simpl; [|done].
  destruct (truthy m); [|done]. intros [= Hm]. by apply (Hs m).
Qed.

Lemma create_metadata (now : Date) (eventData : CreateEventRequest) (creatorId : Id)
    (db db' : DB) (e : Event) :
  JSON_stringify_nonempty →
  EventRepository.create now eventData creatorId db = (Return e, db') →
  ∃ row, events db' = events db ++ [row]
         ∧ ev_metadata row ≠ Some ""
         ∧ (JSON_round_trip → metadata_readable (ev_metadata row))
         ∧ EventRepository.formatEvent (Prisma.include_relations db' row) = Return e.
Proof.
  intros Hs. unfold EventRepository.create, Prisma.event_create.
  cbn [Prisma.ci_creatorId Prisma.ci_assignedUsers Prisma.ci_tags].
  case_bool_decide as Hcreator; [|discriminate].
  destruct (Prisma.check_links (ur_id <$> users db) _ _) as [[]|]; [|discriminate].
  destruct (Prisma.check_links (tag_id <$> tags db) _ _) as [[]|]; [|discriminate].
  cbn [obind]. intros [= Hfmt <-].
  eexists. split; [done|]. split; [|split; [|done]].
  - cbn. destruct (c_metadata eventData) as [m|]; [|done].
    destruct (truthy m); [|done]. intros [= Hm]. by apply (Hs m).
  - intros Hrt s. cbn. destruct (c_metadata eventData) as [m|]; [|discriminate].
    destruct (truthy m); [|discriminate]. intros [= <-] _. apply Hrt.
Qed.

End formatted_facts.

(** C10. On a store whose metadata were printed by [JSON.stringify],
    every event returned by [findById], [findAll], [findByCreator],
    [findByDateRange], [create] or [update] has its assigned users, tags
    and attachments as arrays, and carries the parsed metadata of its row,
    or none when the row has none. *)
Theorem returned_events_formatted `{JSON} (db : DB) :
  JSON_stringify_nonempty →
  metadata_nonempty db →
  (∀ id e, EventRepository.findById id db = Return (Some e) → formatted_from db e)
  ∧ (∀ page limit r,
       EventRepository.findAll page limit db = Return r →
       Forall (formatted_from db) (data r))
  ∧ (∀ creatorId page limit r,
       EventRepository.findByCreator creatorId page limit db = Return r →
       Forall (formatted_from db) (data r))
  ∧ (∀ startDate endDate page limit r,
       EventRepository.findByDateRange startDate endDate page limit db = Return r →
       Forall (formatted_from db) (data r))
  ∧ (∀ now eventData creatorId e db',
       EventRepository.create now eventData creatorId db = (Return e, db') →
       formatted_from db' e)
  ∧ (∀ now id eventData editorId e db',
       EventRepository.update now id eventData editorId db = (Return (Some e), db') →
       formatted_from db' e).
Proof.
  intros Hs Hne.
  pose proof Hne as Hne'. unfold metadata_nonempty in Hne'. rewrite Forall_forall in Hne'.
  split; [|split; [|split; [|split; [|split]]]].
  - intros id e. unfold EventRepository.findById.
    destruct (Prisma.event_findUnique id db) as [row|] eqn:Hrow; [|discriminate].
    destruct (EventRepository.formatEvent _) as [e'|] eqn:Hfmt; [|discriminate].
    simpl. intros [= <-].
    apply event_findUnique_Some in Hrow as [Hin _].
    apply (formatEvent_formatted db row e' Hin); [by apply Hne' | done].
  - intros page limit r. unfold EventRepository.findAll.
    destruct (Prisma.event_findMany _ _ _ db) as [ps|] eqn:Hps; [|discriminate].
    simpl. destruct (mapM EventRepository.formatEvent ps) as [es|] eqn:Hes; [|discriminate].
    simpl. intros [= <-]. simpl. by eapply event_findMany_formatted.
  - intros creatorId page limit r. unfold EventRepository.findByCreator.
    destruct (Prisma.event_findMany _ _ _ db) as [ps|] eqn:Hps; [|discriminate].
    simpl. destruct (mapM EventRepository.formatEvent ps) as [es|] eqn:Hes; [|discriminate].
    simpl. intros [= <-]. simpl. by eapply event_findMany_formatted.
  - intros startDate endDate page limit r. unfold EventRepository.findByDateRange.
    destruct (Prisma.event_findMany _ _ _ db) as [ps|] eqn:Hps; [|discriminate].
    simpl. destruct (mapM EventRepository.formatEvent ps) as [es|] eqn:Hes; [|discriminate].
    simpl. intros [= <-]. simpl. by eapply event_findMany_formatted.
  - intros now eventData creatorId e db' Hcreate.
    destruct (create_metadata _ _ _ _ _ _ Hs Hcreate) as (row & Hev & Hrow & _ & Hfmt).
    apply (formatEvent_formatted db' row e); [|done..].
    rewrite Hev. apply elem_of_app. right. by left.
  - intros now id eventData editorId e db'
      (row & cur & db1 & Hrow & Hcur & Hupd & Hnew & Hrec)%update_Some.
    apply recordEditHistory_frame in Hrec as (_ & Hev & _).
    destruct (event_update_Return _ _ _ _ _ _ Hupd) as (row0 & Hrow0 & _ & Hfind1 & _).
    assert (row0 = row) as -> by congruence.
    apply event_findUnique_Some in Hfind1 as [Hin1 _].
    apply event_findUnique_Some in Hrow as [Hin _].
    split; [by eapply formatEvent_hydrated|].
    exists (Prisma.update_row now (EventRepository.updateData eventData) row).
    split; [by rewrite Hev|].
    split; [by pose proof (formatEvent_scalars _ _ Hnew) as (-> & _)|].
    refine (formatEvent_metadata _ _ _ Hnew).
    cbn [Prisma.p_row Prisma.include_relations].
    apply update_row_nonempty; [done|]. by apply Hne'.
Qed.

(** ** C6: [createMultiple] *)

Lemma getRandomColor_palette (r : Z) :
  (0 ≤ r < 2 ^ 53)%Z →
  ∃ c, TagRepository.getRandomColor r = Some c ∧ c ∈ TagRepository.colors.
Proof.
  intros Hr. unfold TagRepository.getRandomColor.
  destruct (Z.ltb_spec r 0); [lia|].
  assert (Z.to_nat (Number_mul r (Z.of_nat (length TagRepository.colors)) `div` 2 ^ 53)
          < length TagRepository.colors) as Hlt.
  { change (length TagRepository.colors) with 10.
    pose proof (random_index_bound r (Z.of_nat 10) Hr ltac:(lia)). lia. }
  apply lookup_lt_is_Some_2 in Hlt as [c Hc].
  exists c. split; [done|]. by eapply list_elem_of_lookup_2.
Qed.

(** C6 at a list that repeats a new name: the first call of
    [createMultiple] is rejected by the unique name, yet it has stored the
    tag; the second call with the same list returns that tag. *)
Theorem createMultiple_repeated_new_name :
  ∃ (db' : DB) (a : Tag),
    TagRepository.createMultiple 5%Z Sample.draws ["a"; "a"] Sample.db0
    = (Throw UniqueConstraintFailed, db')
    ∧ tags db' = tags Sample.db0 ++ [a]
    ∧ tag_name a = "a"
    ∧ TagRepository.createMultiple 6%Z Sample.draws ["a"; "a"] db' = (Return [a], db').
Proof.
  do 2 eexists.
  split; [vm_compute; reflexivity|].
  split; [reflexivity|].
  split; [reflexivity|].
  vm_compute. reflexivity.
Qed.

Lemma Promise_all_Return {A} (l : list A) :
  TagRepository.Promise_all (Return <$> l) = Return l.
Proof.
  unfold TagRepository.Promise_all.
  induction l as [|x l IH]; [done|].
  rewrite fmap_cons. cbn [mapM obind]. by rewrite IH.
Qed.

(** The creations of new, pairwise different names all succeed. *)
Lemma create_each_fresh (now : Date) (random : nat → Z) (names : list string) :
  ∀ (i : nat) (db : DB),
    NoDup names →
    Forall (λ n, n ∉ tag_name <$> tags db) names →
    (∀ k, (0 ≤ random k < 2 ^ 53)%Z) →
    ∃ ts db',
      TagRepository.create_each now random i names db = (Return <$> ts, db')
      ∧ tag_name <$> ts = names
      ∧ tags db' = tags db ++ ts
      ∧ Forall (λ t, ∃ c, tag_color t = Some c ∧ c ∈ TagRepository.colors) ts.
Proof.
  induction names as [|name names IH]; intros i db Hnodup Hfresh Hrandom; simpl.
  { exists [], db. by rewrite app_nil_r. }
  apply NoDup_cons in Hnodup as [Hname Hnodup].
  apply Forall_cons in Hfresh as [Hnew Hfresh].
  unfold TagRepository.create at 1, Prisma.tag_create. simpl.
  rewrite bool_decide_eq_false_2 by done.
  set (t := {| tag_id := Prisma.cuid (tag_id <$> tags db); tag_name := name;
               tag_color := TagRepository.getRandomColor (random i);
               tag_createdAt := now |}).
  set (db1 := {| users := users db; events := events db; tags := tags db ++ [t];
                 attachments := attachments db;
                 event_user_assignments := event_user_assignments db;
                 event_tags := event_tags db;
                 event_edit_history := event_edit_history db |}).
  destruct (IH (S i) db1 Hnodup) as (ts & db' & Heach & Hnames & Htags & Hcolors).
  { eapply Forall_impl; [apply Forall_and; split; [exact Hfresh|]|].
    - apply Forall_forall. intros n Hn. exact Hn.
    - simpl. intros n [Hn Hin]. unfold db1. simpl.
      rewrite fmap_app, elem_of_app. intros [?|Heq%list_elem_of_singleton]; [done|].
      simpl in Heq. congruence. }
  { done. }
  rewrite Heach. exists (t :: ts), db'.
  split; [done|]. split; [by rewrite fmap_cons, Hnames|].
  split; [rewrite Htags; unfold db1; simpl; by rewrite <-app_assoc|].
  constructor; [|done]. simpl. by apply getRandomColor_palette.
Qed.

Lemma findByNames_spec (names : list string) (db : DB) (t : Tag) :
  t ∈ TagRepository.findByNames names db ↔ tag_name t ∈ names ∧ t ∈ tags db.
Proof.
  unfold TagRepository.findByNames.
  by rewrite order_by_Permutation, list_elem_of_filter.
Qed.

(** On a list without repeated names [createMultiple] is idempotent: the
    second call returns the tags of the first, in the order of their
    names, and stores nothing; names that existed keep their tags and new
    tags get a palette colour. *)
Lemma createMultiple_distinct_names (now1 now2 : Date) (random1 random2 : nat → Z)
    (tagNames : list string) (db : DB) :
  NoDup tagNames →
  (∀ k, (0 ≤ random1 k < 2 ^ 53)%Z) →
  ∃ ts ts' db',
    TagRepository.createMultiple now1 random1 tagNames db = (Return ts, db')
    ∧ TagRepository.createMultiple now2 random2 tagNames db' = (Return ts', db')
    ∧ ts' ≡ₚ ts
    ∧ ts' = TagRepository.findByNames tagNames db'
    ∧ (∀ t, t ∈ tags db → tag_name t ∈ tagNames → t ∈ ts)
    ∧ (∀ t, t ∈ ts →
            tag_name t ∈ tagNames
            ∧ (t ∈ tags db ∨ ∃ c, tag_color t = Some c ∧ c ∈ TagRepository.colors)).
Proof.
  intros Hnodup Hrandom.
  set (existing := TagRepository.findByNames tagNames db).
  set (new := filter (λ name, name ∉ tag_name <$> existing) tagNames).
  assert (∀ t, t ∈ existing ↔ tag_name t ∈ tagNames ∧ t ∈ tags db) as Hexisting.
  { intros t. apply findByNames_spec. }
  assert (∀ db0, (∀ n, n ∈ tagNames →
                       n ∈ tag_name <$> TagRepository.findByNames tagNames db0) →
            TagRepository.createMultiple now2 random2 tagNames db0
            = (Return (TagRepository.findByNames tagNames db0), db0))
    as Hsecond.
  { intros db0 Hall. unfold TagRepository.createMultiple.
    rewrite filter_none; [done|]. apply Forall_forall. intros n Hn Hnot.
    by apply Hnot, Hall. }
  destruct (decide (new = [])) as [Hnew|Hnew].
  - exists existing, existing, db.
    assert (∀ n, n ∈ tagNames → n ∈ tag_name <$> existing) as Hall.
    { intros n Hn. destruct (decide (n ∈ tag_name <$> existing)) as [|Hnot]; [done|].
      assert (n ∈ new) as Hin by (by apply list_elem_of_filter).
      rewrite Hnew in Hin. by apply elem_of_nil in Hin. }
    split.
    { unfold TagRepository.createMultiple. fold existing. fold new. by rewrite Hnew. }
    split; [by apply Hsecond|].
    split; [done|]. split; [done|].
    split; [intros t Ht Hn; by apply Hexisting|].
    intros t [Hn Ht]%Hexisting. eauto.
  - destruct (create_each_fresh now1 random1 new 0 db)
      as (ts & db' & Heach & Hnames & Htags & Hcolors).
    { by apply NoDup_filter. }
    { apply Forall_forall. intros n [Hnot Hn]%list_elem_of_filter.
      intros (t & -> & Ht)%list_elem_of_fmap. apply Hnot.
      apply list_elem_of_fmap_2. by apply Hexisting. }
    { done. }
    exists (existing ++ ts), (TagRepository.findByNames tagNames db'), db'.
    assert (∀ t, t ∈ ts → tag_name t ∈ tagNames) as Hts.
    { intros t Ht. apply (list_elem_of_fmap_2 tag_name) in Ht. rewrite Hnames in Ht.
      by apply list_elem_of_filter in Ht as [_ ?]. }
    assert (TagRepository.findByNames tagNames db' ≡ₚ existing ++ ts) as Hfind.
    { unfold existing, TagRepository.findByNames.
      rewrite !order_by_Permutation, Htags, filter_app. f_equiv.
      rewrite filter_all; [done|]. apply Forall_forall. exact Hts. }
    split.
    { unfold TagRepository.createMultiple. fold existing. fold new.
      rewrite bool_decide_eq_false_2 by (by intros ?%nil_length_inv).
      rewrite Heach, Promise_all_Return. done. }
    split.
    { apply Hsecond. intros n Hn. rewrite Hfind, fmap_app, elem_of_app.
      destruct (decide (n ∈ tag_name <$> existing)) as [|Hne]; [by left|].
      right. rewrite Hnames. by apply list_elem_of_filter. }
    split; [done|]. split; [done|].
    split.
    { intros t Ht Hn. apply elem_of_app. left. by apply Hexisting. }
    intros t [[Hn Ht]%Hexisting | Ht]%elem_of_app; [by eauto|].
    split; [by apply Hts|]. right.
    rewrite Forall_forall in Hcolors. by apply Hcolors.
Qed.

(** ** The stored metadata stay well formed *)

Section metadata_invariants.
Context `{JSON}.

Lemma create_events (now : Date) (eventData : CreateEventRequest) (creatorId : Id)
    (db db' : DB) (r : outcome Event) :
  EventRepository.create now eventData creatorId db = (r, db') →
  events db' = events db
  ∨ ∃ row, events db' = events db ++ [row]
           ∧ ev_metadata row
             = match c_metadata eventData with
               | Some m => if truthy m then Some (JSON_stringify m) else None
               | None => None
               end.
Proof.
  unfold EventRepository.create, Prisma.event_create.
  cbn [Prisma.ci_creatorId Prisma.ci_assignedUsers Prisma.ci_tags].
  case_bool_decide as Hcreator; [|intros [= _ <-]; by left].
  destruct (Prisma.check_links (ur_id <$> users db) _ _) as [[]|];
    [|intros [= _ <-]; by left].
  destruct (Prisma.check_links (tag_id <$> tags db) _ _) as [[]|];
    [|intros [= _ <-]; by left].
  cbn [obind]. intros [= _ <-]. right. by eexists.
Qed.

Lemma update_events (now : Date) (id : Id) (eventData : UpdateEventRequest)
    (editorId : Id) (db db' : DB) (r : outcome (option Event)) :
  EventRepository.update now id eventData editorId db = (r, db') →
  events db' = events db
  ∨ ∃ row, row ∈ events db
           ∧ events db'
             = (λ r, if bool_decide (ev_id r = id)
                     then Prisma.update_row now (EventRepository.updateData eventData) row
                     else r) <$> events db.
Proof.
  unfold EventRepository.update, EventRepository.update_try, EventRepository.findById.
  destruct (Prisma.event_findUnique id db) as [row|] eqn:Hrow; [|intros [= _ <-]; by left].
  destruct (EventRepository.formatEvent (Prisma.include_relations db row))
    as [currentEvent|]; simpl; [|intros [= _ <-]; by left].
  unfold Prisma.event_update. rewrite Hrow.
  destruct (Prisma.check_links (ur_id <$> users db) _ _) as [[]|];
    [|intros [= _ <-]; by left].
  destruct (Prisma.check_links (tag_id <$> tags db) _ _) as [[]|];
    [|intros [= _ <-]; by left].
  cbn [obind].
  apply event_findUnique_Some in Hrow as [Hin _].
  match goal with
  | |- context [EventRepository.formatEvent ?p] =>
      destruct (EventRepository.formatEvent p) as [newEvent|]
  end; [|intros [= _ <-]; right; by exists row].
  match goal with
  | |- context [EventRepository.recordEditHistory ?a ?b ?c ?d ?e ?f] =>
      destruct (EventRepository.recordEditHistory a b c d e f) as [ro db2] eqn:Hrec
  end.
  apply recordEditHistory_frame in Hrec as (_ & Hev & _).
  destruct ro as [[]|]; simpl; intros [= _ <-]; right; exists row; by rewrite Hev.
Qed.

(** [create] keeps the stored metadata non-empty and readable. *)
Lemma create_preserves_metadata (now : Date) (eventData : CreateEventRequest)
    (creatorId : Id) (db db' : DB) (r : outcome Event) :
  JSON_stringify_nonempty → JSON_round_trip →
  EventRepository.create now eventData creatorId db = (r, db') →
  (metadata_nonempty db → metadata_nonempty db')
  ∧ (metadata_parses db → metadata_parses db').
Proof.
  intros Hs Hrt [Hev | (row & Hev & Hmeta)]%create_events;
    unfold metadata_nonempty, metadata_parses; rewrite Hev; [done|].
  rewrite !Forall_app, !Forall_singleton, Hmeta.
  split; intros Hdb; (split; [done|]).
  - destruct (c_metadata eventData) as [m|]; [|done].
    destruct (truthy m); [|done]. intros [= Hm]. by apply (Hs m).
  - intros s. destruct (c_metadata eventData) as [m|]; [|discriminate].
    destruct (truthy m); [|discriminate]. intros [= <-] _. apply Hrt.
Qed.

(** [update] keeps the stored metadata non-empty and readable. *)
Lemma update_preserves_metadata (now : Date) (id : Id) (eventData : UpdateEventRequest)
    (editorId : Id) (db db' : DB) (r : outcome (option Event)) :
  JSON_stringify_nonempty → JSON_round_trip →
  EventRepository.update now id eventData editorId db = (r, db') →
  (metadata_nonempty db → metadata_nonempty db')
  ∧ (metadata_parses db → metadata_parses db').
Proof.
  intros Hs Hrt [Hev | (row & Hrow & Hev)]%update_events;
    unfold metadata_nonempty, metadata_parses; rewrite Hev; [done|].
  split; intros Hdb; apply Forall_fmap; rewrite Forall_forall in Hdb;
    apply Forall_forall; intros x Hx; simpl; case_bool_decide; try by apply Hdb.
  - apply update_row_nonempty; [done|]. by apply Hdb.
  - apply update_row_readable; [done|]. by apply Hdb.
Qed.

End metadata_invariants.

(** ** The theorems on the sample data *)

Import Sample.

(** An update that names an existing tag twice is rejected as well: it
    returns null and leaves the store as it was. *)
Example update_repeated_tagId_rejected :
  EventRepository.update 20%Z "e1" (Sample.retag ["t1"; "t1"]) "u1" Sample.db1
  = (Return None, Sample.db1).
Proof. reflexivity. Qed.

Lemma sample_round_trip : @JSON_round_trip Sample.empty_object_JSON.
Proof. intros v. by eexists. Defined.

Lemma sample_stringify_nonempty : @JSON_stringify_nonempty Sample.empty_object_JSON.
Proof. intros v. discriminate. Defined.

Lemma sample_retag_links_valid (db : DB) :
  tag_id <$> tags db = ["t1"] → links_valid db (Sample.retag ["t1"]).
Proof.
  intros Htags. unfold links_valid. cbn. rewrite Htags.
  split_and!; [constructor | constructor | | apply NoDup_singleton].
  constructor; [by left | constructor].
Defined.


Lemma update_replaces_relations_witness :
  ∃ cur e db',
    EventRepository.findById "e1" Sample.db1 = Return (Some cur)
    ∧ EventRepository.update 20%Z "e1" (Sample.retag ["t1"]) "u1" Sample.db1
      = (Return (Some e), db')
    ∧ et_tagId <$> Prisma.event_tags_of "e1" db' ≡ₚ ["t1"].
Proof.
  destruct (EventRepository.findById "e1" Sample.db1) as [[cur|]|] eqn:Hcur;
    [|vm_compute in Hcur; discriminate..].
  destruct (update_replaces_relations 20%Z "e1" (Sample.retag ["t1"]) "u1" Sample.db1
              cur sample_round_trip Hcur) as [Haccepted _].
  destruct Haccepted as (e & db' & Hupd & Htags & _).
  { by apply sample_retag_links_valid. }
  exists cur, e, db'. split; [done|]. split; [done|]. by apply (Htags ["t1"]).
Defined.

Lemma creator_and_createdAt_never_change_witness :
  ∃ e0 db1 results db2 e db3,
    EventRepository.create 5%Z Sample.standup "u1" Sample.db0 = (Return e0, db1)
    ∧ run_updates (e_id e0) [(6%Z, Sample.retitle, "u1"); (7%Z, Sample.retag [], "u1")] db1
      = (results, db2)
    ∧ Forall (λ e, e_creatorId e = "u1" ∧ e_createdAt e = 5%Z) (returned_events results)
    ∧ EventRepository.update 8%Z (e_id e0) (Sample.retag ["t1"]) "u1" db2
      = (Return (Some e), db3)
    ∧ e_createdAt e = 5%Z
    ∧ e_updatedAt e = 6%Z.
Proof.
  destruct (EventRepository.create 5%Z Sample.standup "u1" Sample.db0)
    as [r db1] eqn:Hcreate.
  assert (∃ e0, r = Return e0) as [e0 ->].
  { vm_compute in Hcreate. injection Hcreate as <- _. by eexists. }
  destruct (run_updates (e_id e0)
              [(6%Z, Sample.retitle, "u1"); (7%Z, Sample.retag [], "u1")] db1)
    as [results db2] eqn:Hrun.
  assert (tag_id <$> tags db2 = ["t1"]) as Htags.
  { pose proof Hcreate as Hc. vm_compute in Hc. injection Hc as <- <-.
    vm_compute in Hrun. by injection Hrun as _ <-. }
  destruct (creator_and_createdAt_never_change 5%Z Sample.standup "u1" Sample.db0 db1 db2
              e0 _ results 8%Z (Sample.retag ["t1"]) "u1" sample_round_trip Hcreate Hrun)
    as (_ & _ & _ & _ & Hall & row & _ & _ & _ & Haccepted & _).
  destruct (Haccepted (sample_retag_links_valid db2 Htags))
    as (e & db3 & row' & Hupd & _ & Hshows & _ & Hcreated & _).
  exists e0, db1, results, db2, e, db3.
  split; [done|]. split; [done|]. split; [done|]. split; [done|].
  split; [by destruct Hshows as (_ & _ & _ & _ & _ & -> & _)|].
  vm_compute in Hcreate. injection Hcreate as <- <-.
  vm_compute in Hrun. injection Hrun as _ <-.
  vm_compute in Hupd. by injection Hupd as <- _.
Defined.

Lemma post_validates_references_witness :
  ∃ e db',
    EventsRoute.post 5%Z "u1" Sample.standup Sample.db0
    = ({| EventsRoute.status := 201; EventsRoute.body := EventsRoute.EventBody e |}, db')
    ∧ hydrated e.
Proof.
  destruct (post_validates_references 5%Z "u1" Sample.standup Sample.db0
              sample_round_trip) as [_ Hok].
  - by left.
  - destruct Hok as (e & db' & row & Hpost & Hhyd & _).
    + constructor.
    + by repeat constructor.
    + constructor.
    + apply NoDup_singleton.
    + by exists e, db'.
Defined.

Lemma findAll_page_witness :
  (∃ r, EventRepository.findAll 2 1 Fixtures.db2 = Return r
        ∧ e_id <$> data r = ["e1"]
        ∧ pg_total (pagination r) = 2%Z
        ∧ pg_totalPages (pagination r) = Int 2)
  ∧ EventRepository.findAll 2 (2 ^ 63) Fixtures.db2 = Throw InvalidArgument.
Proof.
  assert (metadata_parses Fixtures.db2) as Hmeta
    by (repeat constructor; intros s; discriminate).
  split.
  - destruct (findAll_page 2 1 Fixtures.db2 ltac:(lia) ltac:(lia) Hmeta)
      as [Hreturns _].
    destruct Hreturns as (r & sorted & Hr & _); [lia | by vm_compute |].
    exists r. split; [exact Hr|].
    vm_compute in Hr. by injection Hr as <-.
  - destruct (findAll_page 2 (2 ^ 63) Fixtures.db2 ltac:(lia) ltac:(lia) Hmeta)
      as [_ Hthrows].
    apply Hthrows. left. lia.
Defined.


Lemma getPopularTags_by_count_witness :
  ∃ r, TagRepository.getPopularTags 10 Sample.db_ba = Return r
       ∧ (Z.of_nat (length r) ≤ 10)%Z.
Proof.
  destruct (getPopularTags_by_count 10 Sample.db_ba) as (ranked & _ & _ & Hfirst & _).
  destruct Hfirst as (r & Hr & _ & Hlen); [lia|].
  by exists r.
Defined.

Lemma returned_events_formatted_witness :
  ∃ e, EventRepository.findById "e1" Sample.db1 = Return (Some e)
       ∧ formatted_from Sample.db1 e.
Proof.
  destruct (returned_events_formatted Sample.db1 sample_stringify_nonempty) as (Hfind & _).
  - repeat constructor. discriminate.
  - eexists. split; [reflexivity|]. by apply (Hfind "e1").
Defined.

(** * Further properties of the code *)

(** ** Regular expressions: the matcher decides the language *)

Section regex_facts.
Import Stdlib.Strings.Ascii Regex.

Lemma matches_Seq_inv (r s : regex) (l : list ascii) :
  matches (Seq r s) l ↔ ∃ u v, l = u ++ v ∧ matches r u ∧ matches s v.
Proof.
  split.
  - inversion 1; subst. eauto.
  - intros (u & v & -> & Hu & Hv). by constructor.
Qed.

Lemma nullable_matches (r : regex) : nullable r = true ↔ matches r [].
Proof.
  induction r as [| |p|r IHr s IHs|r IHr s IHs|r IHr]; simpl.
  - split; [discriminate | inversion 1].
  - split; [constructor | done].
  - split; [discriminate | inversion 1].
  - rewrite andb_true_iff, IHr, IHs. split.
    + intros [Hr Hs]. by apply (matches_Seq r s [] []).
    + intros (u & v & Heq & Hu & Hv)%matches_Seq_inv.
      symmetry in Heq. by apply app_nil in Heq as [-> ->].
  - rewrite orb_true_iff, IHr, IHs. split.
    + intros [Hr|Hs]; [by apply matches_Alt_l | by apply matches_Alt_r].
    + inversion 1; subst; auto.
  - split; [constructor | done].
Qed.

Lemma matches_Star_cons (r : regex) (c : ascii) (s : list ascii) :
  matches (Star r) (c :: s) →
  ∃ u v, s = u ++ v ∧ matches r (c :: u) ∧ matches (Star r) v.
Proof.
  intros H. remember (Star r) as r' eqn:Hr. remember (c :: s) as l eqn:Hl.
  revert s Hl. induction H as [| | | | | |r0 u v Hu _ Hv IHv]; intros t Hl;
    try discriminate.
  injection Hr as ->. destruct u as [|c' u'].
  - simpl in Hl. by apply IHv.
  - simpl in Hl. injection Hl as -> <-. by exists u', v.
Qed.

Lemma derive_matches (c : ascii) (r : regex) :
  ∀ s, matches (derive c r) s ↔ matches r (c :: s).
Proof.
  induction r as [| |p|r IHr r2 IHr2|r IHr r2 IHr2|r IHr]; intros s; simpl.
  - split; inversion 1.
  - split; inversion 1.
  - destruct (p c) eqn:Hp; split.
    + inversion 1; subst. by constructor.
    + inversion 1; subst. constructor.
    + inversion 1.
    + inversion 1; subst. congruence.
  - assert (matches (Seq (derive c r) r2) s →
            matches (Seq r r2) (c :: s)) as Hfwd.
    { intros (u & v & -> & Hu & Hv)%matches_Seq_inv.
      apply IHr in Hu. by apply (matches_Seq r r2 (c :: u) v). }
    destruct (nullable r) eqn:Hn; split.
    + inversion 1 as [| | |? ? ? Hl|? ? ? Hr| |]; subst; [by apply Hfwd|].
      apply IHr2 in Hr. apply (matches_Seq r r2 [] (c :: s)); [|done].
      by apply nullable_matches.
    + intros (u & v & Heq & Hu & Hv)%matches_Seq_inv.
      destruct u as [|c' u']; simpl in Heq.
      * subst v. apply matches_Alt_r. by apply IHr2.
      * injection Heq as <- ->. apply matches_Alt_l.
        apply matches_Seq; [by apply IHr | done].
    + apply Hfwd.
    + intros (u & v & Heq & Hu & Hv)%matches_Seq_inv.
      destruct u as [|c' u']; simpl in Heq.
      * apply nullable_matches in Hu. congruence.
      * injection Heq as <- ->. apply matches_Seq; [by apply IHr | done].
  - split.
    + inversion 1; subst; [apply matches_Alt_l; by apply IHr
                          | apply matches_Alt_r; by apply IHr2].
    + inversion 1; subst; [apply matches_Alt_l; by apply IHr
                          | apply matches_Alt_r; by apply IHr2].
  - split.
    + intros (u & v & -> & Hu & Hv)%matches_Seq_inv.
      apply IHr in Hu. by apply (matches_Star_app r (c :: u) v).
    + intros (u & v & -> & Hu & Hv)%matches_Star_cons.
      apply matches_Seq; [by apply IHr | done].
Qed.

Lemma test_list_matches (r : regex) (s : list ascii) :
  test_list r s = true ↔ matches r s.
Proof.
  revert r. induction s as [|c s IH]; intros r; simpl.
  - apply nullable_matches.
  - rewrite IH. apply derive_matches.
Qed.

Lemma matches_times_Class (p : ascii → bool) (n : nat) (s : list ascii) :
  matches (times n (Class p)) s ↔ length s = n ∧ Forall (λ c, p c = true) s.
Proof.
  revert s. induction n as [|n IH]; intros s; simpl.
  - split.
    + inversion 1; subst. by split.
    + intros [->%nil_length_inv _]. constructor.
  - split.
    + intros (u & v & -> & Hu & Hv)%matches_Seq_inv.
      inversion Hu; subst. apply IH in Hv as [Hlen Hall].
      simpl. split; [by rewrite Hlen | by constructor].
    + destruct s as [|c s]; [by intros [? _]|].
      intros [[= Hlen] [Hc Hall]%Forall_cons].
      apply (matches_Seq (Class p) _ [c] s); [by constructor|].
      by apply IH.
Qed.

Lemma matches_Star_Class (p : ascii → bool) (s : list ascii) :
  matches (Star (Class p)) s ↔ Forall (λ c, p c = true) s.
Proof.
  split.
  - intros H. remember (Star (Class p)) as r eqn:Hr.
    induction H as [| | | | | |r0 u v Hu _ Hv IHv]; try discriminate; [constructor|].
    injection Hr as ->. inversion Hu; subst. simpl. constructor; [done|].
    by apply IHv.
  - induction 1 as [|c s Hc _ IH]; [constructor|].
    apply (matches_Star_app (Class p) [c] s); [by constructor | done].
Qed.

Lemma matches_plus_Class (p : ascii → bool) (s : list ascii) :
  matches (plus (Class p)) s ↔ s ≠ [] ∧ Forall (λ c, p c = true) s.
Proof.
  unfold plus. split.
  - intros (u & v & -> & Hu & Hv)%matches_Seq_inv.
    inversion Hu; subst. apply matches_Star_Class in Hv.
    split; [done | by constructor].
  - destruct s as [|c s]; [by intros [? _]|].
    intros [_ [Hc Hall]%Forall_cons].
    apply (matches_Seq (Class p) _ [c] s); [by constructor|].
    by apply matches_Star_Class.
Qed.

Lemma matches_exactly (a : ascii) (l : list ascii) :
  matches (Class (exactly a)) l ↔ l = [a].
Proof.
  split.
  - inversion 1 as [|? c Hc| | | | |]; subst. unfold exactly in Hc.
    by apply Ascii.eqb_eq in Hc as ->.
  - intros ->. constructor. unfold exactly. apply Ascii.eqb_refl.
Qed.

End regex_facts.

(** ** lib/validation: the validators *)

Section validation_facts.
Import Stdlib.Strings.Ascii Regex.

Lemma list_ascii_of_string_app (s t : string) :
  String.list_ascii_of_string (String.append s t)
  = String.list_ascii_of_string s ++ String.list_ascii_of_string t.
Proof. induction s as [|a s IH]; simpl; [done|]. by rewrite IH. Qed.

(** X1. [validateEventType] accepts exactly the names of the five event
    types, and [isValidEventType] accepts exactly these names as strings. *)
Theorem validateEventType_spec (type : string) :
  (Validation.validateEventType type = true ↔ ∃ t, type = EventType_to_string t)
  ∧ Validation.isValidEventType (JStr type) = Validation.validateEventType type
  ∧ (∀ v, (∀ s, v ≠ JStr s) → Validation.isValidEventType v = false).
Proof.
  split; [|split].
  - unfold Validation.validateEventType, Validation.EventType_values.
    rewrite bool_decide_eq_true, list_elem_of_fmap. split.
    + intros (t & -> & _). by exists t.
    + intros [t ->]. exists t. split; [done|].
      destruct t; set_solver.
  - done.
  - intros v Hv. destruct v; try done. by destruct (Hv s).
Qed.

(** X4. [validateHexColor] accepts exactly a "#" followed by six hexadecimal
    digits. *)
Theorem validateHexColor_spec (color : string) :
  Validation.validateHexColor color = true
  ↔ ∃ digits, String.list_ascii_of_string color = "#"%char :: digits
              ∧ length digits = 6
              ∧ Forall (λ c, Validation.hex_digit c = true) digits.
Proof.
  unfold Validation.validateHexColor, test, Validation.hex_color_pattern.
  rewrite test_list_matches, matches_Seq_inv. split.
  - intros (u & v & Heq & Hu%matches_exactly & Hv%matches_times_Class).
    subst u. by exists v.
  - intros (digits & -> & Hd). exists ["#"%char], digits.
    split; [done|]. split; [by apply matches_exactly | by apply matches_times_Class].
Qed.

(** X2. [validateCuid] accepts exactly a "c" followed by 24 lower-case letters
    or digits. *)
Theorem validateCuid_spec (id : string) :
  Validation.validateCuid id = true
  ↔ ∃ rest, String.list_ascii_of_string id = "c"%char :: rest
            ∧ length rest = 24
            ∧ Forall (λ c, lower c || digit c = true) rest.
Proof.
  unfold Validation.validateCuid, test, Validation.cuid_pattern.
  rewrite test_list_matches, matches_Seq_inv. split.
  - intros (u & v & Heq & Hu%matches_exactly & Hv%matches_times_Class).
    subst u. by exists v.
  - intros (rest & -> & Hd). exists ["c"%char], rest.
    split; [done|]. split; [by apply matches_exactly | by apply matches_times_Class].
Qed.

Lemma email_char_spec (c : ascii) :
  Validation.email_char c = true → whitespace c = false ∧ c ≠ "@"%char.
Proof.
  unfold Validation.email_char, exactly.
  rewrite negb_true_iff, orb_false_iff, Ascii.eqb_neq. tauto.
Qed.

(** X3. [validateEmail] accepts exactly the texts [local@left.right] whose
    three parts are non-empty and free of whitespace and "@"; an accepted
    text therefore has exactly one "@" and no whitespace. *)
Theorem validateEmail_spec (email : string) :
  (Validation.validateEmail email = true
   ↔ ∃ local left right,
       String.list_ascii_of_string email
       = local ++ "@"%char :: left ++ "."%char :: right
       ∧ local ≠ [] ∧ left ≠ [] ∧ right ≠ []
       ∧ Forall (λ c, Validation.email_char c = true) (local ++ left ++ right))
  ∧ (Validation.validateEmail email = true →
     length (filter (λ c, c = "@"%char) (String.list_ascii_of_string email)) = 1
     ∧ Forall (λ c, whitespace c = false) (String.list_ascii_of_string email)).
Proof.
  assert (Validation.validateEmail email = true
   ↔ ∃ local left right,
       String.list_ascii_of_string email
       = local ++ "@"%char :: left ++ "."%char :: right
       ∧ local ≠ [] ∧ left ≠ [] ∧ right ≠ []
       ∧ Forall (λ c, Validation.email_char c = true) (local ++ left ++ right)) as Hiff.
  { unfold Validation.validateEmail, test, Validation.emailRegex.
    rewrite test_list_matches. split.
    - intros (local & r1 & Heq & [Hl1 Hl2]%matches_plus_Class & H1)%matches_Seq_inv.
      apply matches_Seq_inv in H1 as (at_ & r2 & -> & ->%matches_exactly & H2).
      apply matches_Seq_inv in H2 as (left & r3 & -> & [Hd1 Hd2]%matches_plus_Class & H3).
      apply matches_Seq_inv in H3
        as (dot & right & -> & ->%matches_exactly & [Hr1 Hr2]%matches_plus_Class).
      exists local, left, right. simpl in Heq. repeat split; [done..|].
      rewrite !Forall_app. auto.
    - intros (local & left & right & -> & Hl & Hd & Hr & Hall).
      rewrite !Forall_app in Hall. destruct Hall as (Hl2 & Hd2 & Hr2).
      apply matches_Seq; [by apply matches_plus_Class|].
      apply (matches_Seq _ _ ["@"%char]); [by apply matches_exactly|].
      apply matches_Seq; [by apply matches_plus_Class|].
      apply (matches_Seq _ _ ["."%char]); [by apply matches_exactly|].
      by apply matches_plus_Class. }
  split; [exact Hiff|].
  intros (local & left & right & -> & _ & _ & _ & Hall)%Hiff.
  assert (∀ l, Forall (λ c, Validation.email_char c = true) l →
               filter (λ c, c = "@"%char) l = []
               ∧ Forall (λ c, whitespace c = false) l) as Hpart.
  { intros l Hl. split.
    - apply filter_none. eapply Forall_impl; [exact Hl|].
      by intros c [_ ?]%email_char_spec.
    - eapply Forall_impl; [exact Hl|]. by intros c [? _]%email_char_spec. }
  rewrite !Forall_app in Hall. destruct Hall as (Hl & Hd & Hr).
  destruct (Hpart _ Hl) as [Fl Wl], (Hpart _ Hd) as [Fd Wd], (Hpart _ Hr) as [Fr Wr].
  split.
  - rewrite filter_app, filter_cons_True by done.
    rewrite filter_app, filter_cons_False by done.
    by rewrite Fl, Fd, Fr.
  - rewrite Forall_app, Forall_cons, Forall_app, Forall_cons. by repeat split.
Qed.
End validation_facts.

Section sanitize_facts.
Import Stdlib.Strings.Ascii Regex.

Lemma append_nil_l (t : string) : String.append "" t = t.
Proof. reflexivity. Qed.

Lemma append_cons (a : ascii) (s t : string) :
  String.append (String a s) t = String a (String.append s t).
Proof. reflexivity. Qed.

Lemma append_assoc (s t u : string) :
  String.append (String.append s t) u = String.append s (String.append t u).
Proof.
  induction s as [|a s IH]; [done|]. rewrite !append_cons. by rewrite IH.
Qed.

Lemma replace_all_app (c : ascii) (by_ s t : string) :
  Validation.replace_all c by_ (String.append s t)
  = String.append (Validation.replace_all c by_ s) (Validation.replace_all c by_ t).
Proof.
  induction s as [|a s IH]; [done|].
  rewrite append_cons. cbn [Validation.replace_all].
  destruct (Ascii.eqb a c); rewrite IH; [by rewrite append_assoc | done].
Qed.

Lemma sanitizeHtml_cons (a : ascii) (s : string) :
  Validation.sanitizeHtml (String a s)
  = String.append (Validation.escape a) (Validation.sanitizeHtml s).
Proof.
  unfold Validation.sanitizeHtml, Validation.escape.
  cbn [Validation.replace_all].
  repeat (match goal with
          | |- context [Ascii.eqb a ?c] =>
              destruct (Ascii.eqb_spec a c) as [->|?]
          end;
          repeat (rewrite !replace_all_app || cbn [Validation.replace_all Ascii.eqb Bool.eqb]
                  || rewrite !append_cons || rewrite !append_nil_l);
          try reflexivity).
Qed.

Local Ltac clean_chars :=
  repeat (apply not_elem_of_cons; split; [done|]); apply not_elem_of_nil.

(** X6. [sanitizeHtml], six replacements in sequence, is the single pass that
    replaces each of the six characters (ampersand, less-than, greater-than,
    double quote, apostrophe, slash) by its entity and keeps
    every other character: the ampersands the later replacements introduce
    are not escaped again, as the ampersand is replaced first.  The result
    contains none of the other five characters. *)
Theorem sanitizeHtml_escapes (str : string) :
  Validation.sanitizeHtml str = Validation.escape_each str
  ∧ Forall (λ c, c ∉ ["<"; ">"; "034"; "'"; "/"]%char)
      (String.list_ascii_of_string (Validation.sanitizeHtml str)).
Proof.
  assert (Validation.sanitizeHtml str = Validation.escape_each str) as Heq.
  { induction str as [|a s IH]; [done|].
    rewrite sanitizeHtml_cons, IH. done. }
  split; [done|]. rewrite Heq. clear Heq.
  induction str as [|a s IH]; [constructor|].
  cbn [Validation.escape_each].
  rewrite list_ascii_of_string_app, Forall_app. split; [|done].
  unfold Validation.escape.
  repeat (match goal with
          | |- context [Ascii.eqb a ?c] =>
              destruct (Ascii.eqb_spec a c) as [->|?]
          end;
          [simpl; repeat (constructor; [clean_chars|]); constructor|]).
  simpl. repeat (constructor; [clean_chars|]). constructor.
Qed.
End sanitize_facts.

Section sanitizeString_facts.
Import Stdlib.Strings.Ascii Regex Validation.

Lemma collapse_single_spaced (s : list ascii) :
  ∀ b, single_spaced b (collapse b s) = true.
Proof.
  induction s as [|c s IH]; intros b; simpl; [done|].
  destruct (whitespace c) eqn:Hc.
  - destruct b; [apply IH|]. simpl. by rewrite IH.
  - simpl. rewrite Hc. apply IH.
Qed.

Lemma collapse_fixed (t : list ascii) :
  ∀ b, single_spaced b t = true → collapse b t = t.
Proof.
  induction t as [|c t IH]; intros b; simpl; [done|].
  destruct (whitespace c) eqn:Hc.
  - rewrite !andb_true_iff, negb_true_iff, Ascii.eqb_eq.
    intros [[-> ->] Ht]. by rewrite IH.
  - intros Ht. by rewrite IH.
Qed.

Lemma collapse_filter (s : list ascii) :
  ∀ b, filter (λ c, whitespace c = false) (collapse b s)
       = filter (λ c, whitespace c = false) s.
Proof.
  induction s as [|c s IH]; intros b; simpl; [done|].
  destruct (whitespace c) eqn:Hc.
  - rewrite (filter_cons_False _ c) by congruence.
    destruct b; [apply IH|].
    rewrite filter_cons_False by done. apply IH.
  - rewrite !filter_cons_True by done. by rewrite IH.
Qed.

Lemma collapse_last (s : list ascii) (d : ascii) :
  whitespace d = false → last s = Some d → ∀ b, last (collapse b s) = Some d.
Proof.
  intros Hd. induction s as [|c s IH]; [done|].
  rewrite last_cons. destruct (last s) as [d'|] eqn:Hlast.
  - intros [= ->] b. simpl.
    destruct (whitespace c); [destruct b|]; rewrite ?last_cons, ?IH; done.
  - intros [= ->] b. apply last_None in Hlast as ->. simpl. by rewrite Hd.
Qed.

Lemma collapse_trimmed (s : list ascii) :
  trimmed s → trimmed (collapse false s).
Proof.
  intros [Hhead Hlast]. split.
  - destruct s as [|c s]; [done|]. simpl.
    rewrite (Hhead c eq_refl). simpl. by intros ? [= <-]; apply Hhead.
  - destruct (last s) as [d|] eqn:Hd.
    + rewrite (collapse_last s d (Hlast d eq_refl) Hd). by intros ? [= <-]; apply Hlast.
    + by apply last_None in Hd as ->.
Qed.

Lemma trim_start_head (s : list ascii) (c : ascii) :
  head (trim_start s) = Some c → whitespace c = false.
Proof.
  induction s as [|a s IH]; simpl; [done|].
  destruct (whitespace a) eqn:Ha; [done|]. by intros [= <-].
Qed.

Lemma trim_start_filter (s : list ascii) :
  filter (λ c, whitespace c = false) (trim_start s)
  = filter (λ c, whitespace c = false) s.
Proof.
  induction s as [|a s IH]; simpl; [done|].
  destruct (whitespace a) eqn:Ha; [|done].
  by rewrite (filter_cons_False _ a) by congruence.
Qed.

Lemma trim_end_cons (a : ascii) (s : list ascii) :
  trim_end (a :: s) = [] ∧ whitespace a = true ∧ trim_end s = []
  ∨ trim_end (a :: s) = a :: trim_end s
    ∧ (trim_end s = [] → whitespace a = false).
Proof.
  simpl. destruct (trim_end s); [|by right].
  destruct (whitespace a); [by left | by right].
Qed.

Lemma trim_end_last (s : list ascii) (c : ascii) :
  last (trim_end s) = Some c → whitespace c = false.
Proof.
  induction s as [|a s IH]; [done|].
  destruct (trim_end_cons a s) as [(-> & _) | (-> & Ha)]; [done|].
  rewrite last_cons. destruct (last (trim_end s)) as [d|] eqn:Hd.
  - intros [= <-]. by apply IH.
  - intros [= <-]. apply last_None in Hd. by apply Ha.
Qed.

Lemma trim_end_fixed (t : list ascii) :
  (∀ c, last t = Some c → whitespace c = false) → trim_end t = t.
Proof.
  induction t as [|a t IH]; [done|].
  intros Hlast. simpl. rewrite IH.
  - destruct t as [|b t]; [|done]. by rewrite (Hlast a eq_refl).
  - intros c Hc. apply Hlast. rewrite last_cons. by rewrite Hc.
Qed.

Lemma trim_end_head (s : list ascii) :
  (∀ c, head s = Some c → whitespace c = false) →
  ∀ c, head (trim_end s) = Some c → whitespace c = false.
Proof.
  destruct s as [|a s]; [done|]. intros Hhead c.
  destruct (trim_end_cons a s) as [(-> & _) | (-> & _)]; [done|].
  intros [= <-]. by apply Hhead.
Qed.

Lemma trim_end_filter (s : list ascii) :
  filter (λ c, whitespace c = false) (trim_end s)
  = filter (λ c, whitespace c = false) s.
Proof.
  induction s as [|a s IH]; [done|].
  destruct (trim_end_cons a s) as [(-> & Ha & Hs) | (-> & _)].
  - rewrite filter_cons_False by congruence. by rewrite <- IH, Hs.
  - by rewrite !filter_cons, IH.
Qed.

Lemma trim_start_fixed (t : list ascii) :
  (∀ c, head t = Some c → whitespace c = false) → trim_start t = t.
Proof.
  destruct t as [|a t]; [done|]. intros Hhead. simpl.
  by rewrite (Hhead a eq_refl).
Qed.

Lemma trim_trimmed (s : list ascii) : trimmed (trim s).
Proof.
  split.
  - apply trim_end_head. intros c. apply trim_start_head.
  - intros c. apply trim_end_last.
Qed.

Lemma trim_fixed (t : list ascii) : trimmed t → trim t = t.
Proof.
  intros [Hhead Hlast]. unfold trim.
  by rewrite trim_start_fixed, trim_end_fixed.
Qed.

Lemma list_ascii_of_string_of_list (l : list ascii) :
  String.list_ascii_of_string (String.string_of_list_ascii l) = l.
Proof. induction l as [|a l IH]; simpl; by rewrite ?IH. Qed.

(** X5. [sanitizeString] returns a normal form: sanitising its result again
    changes nothing; the result neither starts nor ends with whitespace;
    every whitespace in it is a single space that follows no other; and
    the characters that are not whitespace are those of the input, in
    order. *)
Theorem sanitizeString_normal_form (str : string) :
  let input := String.list_ascii_of_string str in
  let out := String.list_ascii_of_string (sanitizeString str) in
  sanitizeString (sanitizeString str) = sanitizeString str
  ∧ trimmed out
  ∧ single_spaced false out = true
  ∧ filter (λ c, whitespace c = false) out
    = filter (λ c, whitespace c = false) input.
Proof.
  intros input out. subst out. unfold sanitizeString at 2 4 5 6.
  fold input. rewrite list_ascii_of_string_of_list.
  assert (trimmed (collapse false (trim input))) as Htrimmed
    by apply collapse_trimmed, trim_trimmed.
  assert (single_spaced false (collapse false (trim input)) = true) as Hspaced
    by apply collapse_single_spaced.
  split_and!; [|done|done|].
  - unfold sanitizeString. fold input.
    rewrite list_ascii_of_string_of_list.
    by rewrite trim_fixed, collapse_fixed.
  - rewrite collapse_filter. unfold trim.
    by rewrite trim_end_filter, trim_start_filter.
Qed.
End sanitizeString_facts.

Section ordering_facts.

Lemma string_leb_trans (s1 s2 s3 : string) :
  String.leb s1 s2 = true → String.leb s2 s3 = true → String.leb s1 s3 = true.
Proof.
  unfold String.leb. revert s2 s3.
  induction s1 as [|a s1 IH]; intros [|b s2] [|c s3]; simpl; try done.
  unfold Ascii.compare.
  destruct (N.compare_spec (Ascii.N_of_ascii a) (Ascii.N_of_ascii b)) as [Hab|Hab|Hab];
    destruct (N.compare_spec (Ascii.N_of_ascii b) (Ascii.N_of_ascii c)) as [Hbc|Hbc|Hbc];
    destruct (N.compare_spec (Ascii.N_of_ascii a) (Ascii.N_of_ascii c)) as [Hac|Hac|Hac];
    try done; try lia.
  apply IH.
Qed.

Lemma sorted_by_text {A} (key : A → string) (l : list A) :
  StronglySorted (λ a b, String.leb (key a) (key b) = true)
    (Prisma.order_by (λ a b, String.leb (key a) (key b)) l).
Proof.
  apply order_by_StronglySorted.
  - intros a b. apply String.leb_total.
  - intros a b c. apply string_leb_trans.
Qed.

End ordering_facts.

Section find_facts.
Context {A : Type} (f : A → bool).

Lemma find_None_Forall (l : list A) :
  find f l = None ↔ Forall (λ x, f x = false) l.
Proof.
  induction l as [|x l IH]; simpl.
  - split; [constructor | done].
  - destruct (f x) eqn:Hx.
    + split; [done|]. intros Hl. apply Forall_cons in Hl as [Hl _]. congruence.
    + rewrite IH. split; [by constructor | by intros [_ ?]%Forall_cons].
Qed.

Lemma find_Some_elem (l : list A) (x : A) :
  find f l = Some x → x ∈ l ∧ f x = true.
Proof.
  induction l as [|y l IH]; simpl; [done|].
  destruct (f y) eqn:Hy.
  - intros [= <-]. split; [left | done].
  - intros [Hx ?]%IH. split; [by right | done].
Qed.

Lemma find_snoc (l : list A) (x : A) :
  find f (l ++ [x])
  = match find f l with
    | Some y => Some y
    | None => if f x then Some x else None
    end.
Proof.
  induction l as [|y l IH]; simpl; [done|].
  destruct (f y); [done | apply IH].
Qed.

Lemma find_filter_implied (P : A → Prop) `{∀ x, Decision (P x)} (l : list A) :
  (∀ x, f x = true → P x) → find f (filter P l) = find f l.
Proof.
  intros Himpl. induction l as [|x l IH]; [done|].
  rewrite filter_cons. simpl. destruct (f x) eqn:Hx.
  - rewrite decide_True by auto. simpl. by rewrite Hx.
  - case_decide; simpl; rewrite ?Hx; apply IH.
Qed.

Lemma find_filter_excluded (P : A → Prop) `{∀ x, Decision (P x)} (l : list A) :
  (∀ x, f x = true → ¬ P x) → find f (filter P l) = None.
Proof.
  intros Hexcl. apply find_None_Forall, Forall_forall.
  intros x [HP _]%list_elem_of_filter.
  destruct (f x) eqn:Hx; [|done]. by destruct (Hexcl x Hx).
Qed.

Lemma find_replace (g : A → A) (l : list A) :
  (∀ x, f (g x) = f x) → find f (g <$> l) = g <$> find f l.
Proof.
  intros Hg. induction l as [|x l IH]; [done|].
  rewrite fmap_cons. simpl. rewrite Hg. destruct (f x); [done | apply IH].
Qed.

Lemma count_pos_iff {B} `{EqDecision B} (key : A → B) (k : B) (l : list A) :
  (0 <? Z.of_nat (length (filter (λ x, key x = k) l)))%Z = true ↔ k ∈ key <$> l.
Proof.
  rewrite Z.ltb_lt, list_elem_of_fmap.
  split.
  - destruct (filter _ l) as [|x l'] eqn:Hf; simpl; [lia|]. intros _.
    assert (x ∈ filter (λ x, key x = k) l) as [Hk Hx]%list_elem_of_filter
      by (rewrite Hf; left).
    by exists x.
  - intros (x & -> & Hx).
    assert (x ∈ filter (λ y, key y = key x) l) as Hin by by apply list_elem_of_filter.
    destruct (filter _ l); [by apply elem_of_nil in Hin | simpl; lia].
Qed.

End find_facts.
Section tag_facts.

Lemma tag_existsByName_iff (name : string) (db : DB) :
  TagRepository.existsByName name db = true ↔ name ∈ tag_name <$> tags db.
Proof. apply count_pos_iff. Qed.

Lemma tag_findByName_None (name : string) (db : DB) :
  TagRepository.findByName name db = None ↔ name ∉ tag_name <$> tags db.
Proof.
  unfold TagRepository.findByName, Prisma.tag_findUnique_name.
  rewrite find_None_Forall, Forall_forall, list_elem_of_fmap. split.
  - intros Hall (t & -> & Ht). specialize (Hall t Ht).
    by rewrite bool_decide_eq_false in Hall.
  - intros Hno t Ht. apply bool_decide_eq_false. intros <-. apply Hno. by exists t.
Qed.

Lemma tag_findById_None (id : Id) (db : DB) :
  TagRepository.findById id db = None ↔ id ∉ tag_id <$> tags db.
Proof.
  unfold TagRepository.findById, Prisma.tag_findUnique_id.
  rewrite find_None_Forall, Forall_forall, list_elem_of_fmap. split.
  - intros Hall (t & -> & Ht). specialize (Hall t Ht).
    by rewrite bool_decide_eq_false in Hall.
  - intros Hno t Ht. apply bool_decide_eq_false. intros <-. apply Hno. by exists t.
Qed.

Lemma tag_findById_Some (id : Id) (db : DB) (t : Tag) :
  TagRepository.findById id db = Some t → t ∈ tags db ∧ tag_id t = id.
Proof.
  intros [Ht Hid]%find_Some_elem. by apply bool_decide_eq_true in Hid.
Qed.

(** X8. Creating a tag and finding it again.  [create] is rejected, with the
    store unchanged, exactly when the name is in use; otherwise the new
    tag carries the name and colour of the request and a fresh id, it is
    found under its name and under its id, and every tag found before is
    still found.  POST /api/tags answers 409 in the first case and 201
    with the tag in the second, never 500. *)
Theorem tag_create_then_find (now : Date) (tagData : CreateTagRequest) (db : DB) :
  (ct_name tagData ∈ tag_name <$> tags db →
   TagRepository.create now tagData db = (Throw UniqueConstraintFailed, db)
   ∧ TagsRoutes.post now tagData db = (Http.error 409 "TAG_ALREADY_EXISTS", db))
  ∧ (ct_name tagData ∉ tag_name <$> tags db →
     ∃ tag db',
       TagRepository.create now tagData db = (Return tag, db')
       ∧ TagsRoutes.post now tagData db = (Http.json 201 tag, db')
       ∧ tag_name tag = ct_name tagData
       ∧ tag_color tag = ct_color tagData
       ∧ tag_createdAt tag = now
       ∧ (tag_id tag ∉ tag_id <$> tags db)
       ∧ tags db' = tags db ++ [tag]
       ∧ TagRepository.findByName (ct_name tagData) db' = Some tag
       ∧ TagRepository.findById (tag_id tag) db' = Some tag
       ∧ (∀ name t, TagRepository.findByName name db = Some t →
                    TagRepository.findByName name db' = Some t)
       ∧ (∀ id t, TagRepository.findById id db = Some t →
                  TagRepository.findById id db' = Some t)).
Proof.
  split.
  - intros Hused. unfold TagsRoutes.post.
    rewrite (proj2 (tag_existsByName_iff _ _) Hused).
    unfold TagRepository.create, Prisma.tag_create.
    by rewrite bool_decide_eq_true_2.
  - intros Hfree. unfold TagsRoutes.post.
    destruct (TagRepository.existsByName (ct_name tagData) db) eqn:Hex;
      [by apply tag_existsByName_iff in Hex|].
    unfold TagRepository.create, Prisma.tag_create.
    rewrite bool_decide_eq_false_2 by done.
    set (tag := {| tag_id := Prisma.cuid (tag_id <$> tags db);
                   tag_name := ct_name tagData;
                   tag_color := ct_color tagData;
                   tag_createdAt := now |}).
    assert (tag_id tag ∉ tag_id <$> tags db) as Hfresh by apply infinite_is_fresh.
    eexists tag, _. split_and!; try done.
    + pose proof (proj2 (tag_findByName_None _ db) Hfree) as Hnone.
      unfold TagRepository.findByName, Prisma.tag_findUnique_name in *. simpl.
      rewrite find_snoc, Hnone. by rewrite bool_decide_eq_true_2.
    + pose proof (proj2 (tag_findById_None _ db) Hfresh) as Hnone.
      unfold TagRepository.findById, Prisma.tag_findUnique_id in *. cbn [tags].
      rewrite find_snoc, Hnone. by rewrite bool_decide_eq_true_2.
    + intros name t Ht.
      unfold TagRepository.findByName, Prisma.tag_findUnique_name in *. simpl.
      by rewrite find_snoc, Ht.
    + intros id t Ht.
      unfold TagRepository.findById, Prisma.tag_findUnique_id in *. simpl.
      by rewrite find_snoc, Ht.
Qed.

End tag_facts.
Section relation_order_facts.

Lemma filter_comm {A} (P Q : A → Prop) `{∀ x, Decision (P x)} `{∀ x, Decision (Q x)}
    (l : list A) :
  filter P (filter Q l) = filter Q (filter P l).
Proof.
  induction l as [|x l IH]; [done|].
  rewrite !(filter_cons _ x l).
  destruct (decide (P x)), (decide (Q x)); rewrite ?filter_cons;
    repeat case_decide; try done; by rewrite IH.
Qed.

Lemma included_event_tags_filter (eid : Id) (P : EventTag → Prop) `{∀ x, Decision (P x)}
    (db db' : DB) :
  event_tags db' = filter P (event_tags db) →
  Prisma.included_event_tags eid db' = filter P (Prisma.included_event_tags eid db).
Proof.
  intros Heq. unfold Prisma.included_event_tags, Prisma.event_tags_of. rewrite Heq.
  rewrite (order_by_filter (λ a b, String.leb (et_tagId a) (et_tagId b))).
  - by rewrite filter_comm.
  - intros a b. apply String.leb_total.
  - intros a b c. apply string_leb_trans.
Qed.

Lemma included_assignments_filter (eid : Id) (P : EventUserAssignment → Prop)
    `{∀ x, Decision (P x)} (db db' : DB) :
  event_user_assignments db' = filter P (event_user_assignments db) →
  Prisma.included_assignments eid db' = filter P (Prisma.included_assignments eid db).
Proof.
  intros Heq. unfold Prisma.included_assignments, Prisma.assignments_of. rewrite Heq.
  rewrite (order_by_filter (λ a b, String.leb (eua_userId a) (eua_userId b))).
  - by rewrite filter_comm.
  - intros a b. apply String.leb_total.
  - intros a b c. apply string_leb_trans.
Qed.

End relation_order_facts.

Section tag_delete_facts.
Context `{JSON}.

Lemma tag_findUnique_id_Some (id : Id) (db : DB) (g : Tag) :
  Prisma.tag_findUnique_id id db = Some g → g ∈ tags db ∧ tag_id g = id.
Proof.
  intros [Hg Hid]%find_Some_elem. by apply bool_decide_eq_true in Hid.
Qed.

Lemma tags_after_tag_delete (id : Id) (all kept : list Tag) (rows : list EventTag) :
  kept = filter (λ g, tag_id g ≠ id) all →
  snd <$> omap (λ t, (λ g, (t, g)) <$> find (λ g, bool_decide (tag_id g = et_tagId t)) kept)
            (filter (λ t, et_tagId t ≠ id) rows)
  = filter (λ g, tag_id g ≠ id)
      (snd <$> omap (λ t, (λ g, (t, g)) <$> find (λ g, bool_decide (tag_id g = et_tagId t)) all)
                 rows).
Proof.
  intros ->. induction rows as [|t l IH]; [done|].
  rewrite (filter_cons (λ t, et_tagId t ≠ id)).
  destruct (decide (et_tagId t ≠ id)) as [Hother|Hsame].
  - cbn [omap list_omap].
    rewrite find_filter_implied
      by (intros g Hg%bool_decide_eq_true; congruence).
    destruct (find _ all) as [g|] eqn:Hfind; cbn [fmap option_fmap option_map]; [|done].
    apply find_Some_elem in Hfind as [_ Hg%bool_decide_eq_true].
    rewrite !fmap_cons. cbn [snd].
    rewrite filter_cons_True by congruence. by rewrite IH.
  - cbn [omap list_omap].
    destruct (find _ all) as [g|] eqn:Hfind; cbn [fmap option_fmap option_map]; [|done].
    apply find_Some_elem in Hfind as [_ Hg%bool_decide_eq_true].
    rewrite fmap_cons. cbn [snd].
    rewrite filter_cons_False; [done|].
    intros Hne. apply Hsame. congruence.
Qed.

(** X11. Deleting a tag.  For an unknown id [delete] returns false and
    DELETE /api/tags/:id answers 404, the store unchanged.  For a stored
    tag [delete] returns true and the route answers 204: the tag is no
    longer found, the other tags are found as before, no association
    names the tag any more, and every event reads as before except that
    the tag is gone from its tags. *)
Theorem tag_delete_cascade (id : Id) (db : DB) :
  (id ∉ tag_id <$> tags db →
   TagRepository.delete id db = (Return false, db)
   ∧ TagsRoutes.delete id db = (Http.error 404 "TAG_NOT_FOUND", db))
  ∧ (id ∈ tag_id <$> tags db →
     ∃ db',
       TagRepository.delete id db = (Return true, db')
       ∧ TagsRoutes.delete id db = (Http.no_content, db')
       ∧ TagRepository.findById id db' = None
       ∧ (∀ id', id' ≠ id →
                 TagRepository.findById id' db' = TagRepository.findById id' db)
       ∧ Forall (λ et, et_tagId et ≠ id) (event_tags db')
       ∧ (∀ eventId,
            EventRepository.findById eventId db'
            = match EventRepository.findById eventId db with
              | Return (Some e) => Return (Some (without_tag id e))
              | r => r
              end)).
Proof.
  split.
  - intros Hno%tag_findById_None.
    unfold TagsRoutes.delete, TagRepository.delete, Prisma.tag_delete.
    unfold TagRepository.findById in *. by rewrite !Hno.
  - intros Hin.
    destruct (TagRepository.findById id db) as [t|] eqn:Hfind;
      [|by apply tag_findById_None in Hfind].
    unfold TagsRoutes.delete, TagRepository.delete, Prisma.tag_delete.
    unfold TagRepository.findById in *. rewrite !Hfind.
    eexists. split_and!; try done.
    + unfold TagRepository.findById, Prisma.tag_findUnique_id. cbn [tags].
      apply find_filter_excluded. intros g Hg%bool_decide_eq_true Hne. done.
    + intros id' Hid'.
      unfold TagRepository.findById, Prisma.tag_findUnique_id. cbn [tags].
      apply find_filter_implied. intros g Hg%bool_decide_eq_true. congruence.
    + cbn [event_tags]. apply Forall_forall. by intros et [? _]%list_elem_of_filter.
    + intros eventId. unfold EventRepository.findById, Prisma.event_findUnique.
      cbn [events].
      destruct (find _ (events db)) as [row|]; [|done].
      unfold EventRepository.formatEvent. cbn [Prisma.include_relations Prisma.p_row].
      destruct (match ev_metadata row with
                | Some s => _
                | None => _
                end) as [metadata|e]; [|done].
      cbn [obind]. unfold without_tag, Prisma.include_relations.
      cbn [e_id e_title e_content e_type e_timestamp e_metadata e_createdAt e_updatedAt
           e_creatorId e_creator e_assignedUsers e_tags e_attachments
           Prisma.p_creator Prisma.p_assignedUsers Prisma.p_tags Prisma.p_attachments
           fmap option_fmap option_map].
      match goal with
      | |- context [Prisma.included_event_tags ?eid ?d] =>
          rewrite (included_event_tags_filter eid (λ et, et_tagId et ≠ id) db d eq_refl)
      end.
      unfold Prisma.tag_findUnique_id at 1. cbn [tags].
      rewrite (tags_after_tag_delete id (tags db) _ _ eq_refl).
      done.
Qed.

End tag_delete_facts.
Section tag_update_facts.

Lemma tag_update_Return (id : Id) (data : Prisma.TagUpdateInput) (db : DB) (t : Tag) :
  Prisma.tag_findUnique_id id db = Some t →
  let t' := {| tag_id := tag_id t;
               tag_name := default (tag_name t) (Prisma.tu_name data);
               tag_color := default (tag_color t) (Prisma.tu_color data);
               tag_createdAt := tag_createdAt t |} in
  (tag_name t' ∈ tag_name <$> filter (λ g, tag_id g ≠ id) (tags db) →
   Prisma.tag_update id data db = Throw UniqueConstraintFailed)
  ∧ (tag_name t' ∉ tag_name <$> filter (λ g, tag_id g ≠ id) (tags db) →
     ∃ db', Prisma.tag_update id data db = Return (t', db')
            ∧ tags db' = (λ g, if bool_decide (tag_id g = id) then t' else g) <$> tags db
            ∧ users db' = users db ∧ events db' = events db
            ∧ attachments db' = attachments db
            ∧ event_user_assignments db' = event_user_assignments db
            ∧ event_tags db' = event_tags db
            ∧ event_edit_history db' = event_edit_history db).
Proof.
  intros Hfind t'. unfold Prisma.tag_update. rewrite Hfind. fold t'. split.
  - intros Hused. by rewrite bool_decide_eq_true_2.
  - intros Hfree. rewrite bool_decide_eq_false_2 by done. by eexists.
Qed.

Lemma find_replaced_by_id (id : Id) (t' : Tag) (l : list Tag) (t : Tag) :
  tag_id t' = id →
  find (λ g, bool_decide (tag_id g = id)) l = Some t →
  find (λ g, bool_decide (tag_id g = id))
    ((λ g, if bool_decide (tag_id g = id) then t' else g) <$> l) = Some t'.
Proof.
  intros Hid. induction l as [|g l IH]; [done|].
  rewrite fmap_cons. cbn [find]. destruct (decide (tag_id g = id)) as [Hg|Hg].
  - rewrite !(bool_decide_eq_true_2 _ Hg). intros _.
    by rewrite bool_decide_eq_true_2.
  - rewrite !(bool_decide_eq_false_2 _ Hg). apply IH.
Qed.

Lemma find_replaced_other (id id' : Id) (t' : Tag) (l : list Tag) :
  tag_id t' = id → id' ≠ id →
  find (λ g, bool_decide (tag_id g = id'))
    ((λ g, if bool_decide (tag_id g = id) then t' else g) <$> l)
  = find (λ g, bool_decide (tag_id g = id')) l.
Proof.
  intros Hid Hne. induction l as [|g l IH]; [done|].
  rewrite fmap_cons. cbn [find]. destruct (decide (tag_id g = id)) as [Hg|Hg].
  - rewrite (bool_decide_eq_true_2 _ Hg).
    rewrite (bool_decide_eq_false_2 (tag_id t' = id')) by congruence.
    rewrite (bool_decide_eq_false_2 (tag_id g = id')) by congruence. apply IH.
  - rewrite (bool_decide_eq_false_2 _ Hg).
    destruct (bool_decide (tag_id g = id')); [done | apply IH].
Qed.

(** X9. Updating a tag.  [update] returns null, the store unchanged, when the
    id is unknown and when the new name is the name of another tag.
    Otherwise it returns the tag with the fields of the request written
    over the stored ones, id and creation time kept; the tag is found so
    under its id, every other tag is found as before, and no association
    of a tag with an event changes. *)
Theorem tag_update_cases (id : Id) (tagData : PartialCreateTagRequest) (db : DB) :
  (TagRepository.findById id db = None →
   TagRepository.update id tagData db = (Return None, db))
  ∧ (∀ t, TagRepository.findById id db = Some t →
       let t' := {| tag_id := tag_id t;
                    tag_name := default (tag_name t) (pt_name tagData);
                    tag_color := default (tag_color t) (pt_color tagData);
                    tag_createdAt := tag_createdAt t |} in
       (tag_name t' ∈ tag_name <$> filter (λ g, tag_id g ≠ id) (tags db) →
        TagRepository.update id tagData db = (Return None, db))
       ∧ (tag_name t' ∉ tag_name <$> filter (λ g, tag_id g ≠ id) (tags db) →
          ∃ db',
            TagRepository.update id tagData db = (Return (Some t'), db')
            ∧ TagRepository.findById id db' = Some t'
            ∧ (∀ id', id' ≠ id →
                      TagRepository.findById id' db' = TagRepository.findById id' db)
            ∧ tag_id <$> tags db' = tag_id <$> tags db
            ∧ event_tags db' = event_tags db
            ∧ events db' = events db)).
Proof.
  split.
  - unfold TagRepository.findById. intros Hnone.
    unfold TagRepository.update, Prisma.tag_update. by rewrite Hnone.
  - intros t Hfind t'. unfold TagRepository.findById in Hfind.
    pose proof (tag_findUnique_id_Some _ _ _ Hfind) as [_ Hid].
    destruct (tag_update_Return id
                {| Prisma.tu_name := pt_name tagData; Prisma.tu_color := pt_color tagData |}
                db t Hfind) as [Hused Hfree].
    cbn [Prisma.tu_name Prisma.tu_color] in Hused, Hfree. fold t' in Hused, Hfree.
    unfold TagRepository.update. split.
    + intros Hin. by rewrite (Hused Hin).
    + intros Hout. destruct (Hfree Hout) as (db' & -> & Htags & _ & Hev & _ & _ & Het & _).
      exists db'. unfold TagRepository.findById. split_and!; try done.
      * unfold Prisma.tag_findUnique_id. rewrite Htags.
        by apply (find_replaced_by_id id t' (tags db) t).
      * intros id' Hne. unfold Prisma.tag_findUnique_id. rewrite Htags.
        by apply find_replaced_other.
      * rewrite Htags, <- list_fmap_compose. apply list_fmap_ext.
        intros _ g _. simpl. case_bool_decide; [by subst | done].
Qed.

End tag_update_facts.
Section tag_route_facts.

Lemma NoDup_fmap_eq {A B} (f : A → B) (l : list A) (x y : A) :
  NoDup (f <$> l) → x ∈ l → y ∈ l → f x = f y → x = y.
Proof.
  induction l as [|z l IH]; [by intros _ ?%elem_of_nil|].
  rewrite fmap_cons, NoDup_cons.
  intros [Hz Hl] [->|Hx]%elem_of_cons [->|Hy]%elem_of_cons Heq; try done.
  - destruct Hz. rewrite Heq. by apply list_elem_of_fmap_2.
  - destruct Hz. rewrite <- Heq. by apply list_elem_of_fmap_2.
  - by apply IH.
Qed.

Lemma own_name_not_taken (id : Id) (t : Tag) (l : list Tag) :
  NoDup (tag_name <$> l) → t ∈ l → tag_id t = id →
  tag_name t ∉ tag_name <$> filter (λ g, tag_id g ≠ id) l.
Proof.
  intros Hnodup Ht Hid (g & Hname & [Hg Hgl]%list_elem_of_filter)%list_elem_of_fmap.
  apply Hg. by rewrite <- (NoDup_fmap_eq tag_name l t g Hnodup Ht Hgl Hname).
Qed.

Lemma other_names_subseteq (id : Id) (l : list Tag) (name : string) :
  name ∈ tag_name <$> filter (λ g, tag_id g ≠ id) l → name ∈ tag_name <$> l.
Proof.
  intros (g & -> & [_ Hg]%list_elem_of_filter)%list_elem_of_fmap.
  by apply list_elem_of_fmap_2.
Qed.

(** X10. PUT /api/tags/:id on a store with unique tag names and a request
    whose name, if given, is not empty (the schema of the request asks
    for one character at least).  The answer is 404 for an unknown id,
    409 when the name changes to a name in use, and in every other case
    200 with the updated tag, which is then found under the id: the
    update cannot fail once the checks of the handler have passed.  Only
    the third case writes. *)
Theorem tags_put_responses (id : Id) (tagData : PartialCreateTagRequest) (db : DB) :
  NoDup (tag_name <$> tags db) →
  pt_name tagData ≠ Some "" →
  (TagRepository.findById id db = None
   ∧ TagsRoutes.put id tagData db = (Http.error 404 "TAG_NOT_FOUND", db))
  ∨ (∃ t name,
       TagRepository.findById id db = Some t
       ∧ pt_name tagData = Some name
       ∧ name ≠ tag_name t
       ∧ name ∈ tag_name <$> tags db
       ∧ TagsRoutes.put id tagData db = (Http.error 409 "TAG_ALREADY_EXISTS", db))
  ∨ (∃ t db',
       let t' := {| tag_id := id;
                    tag_name := default (tag_name t) (pt_name tagData);
                    tag_color := default (tag_color t) (pt_color tagData);
                    tag_createdAt := tag_createdAt t |} in
       TagRepository.findById id db = Some t
       ∧ (tag_name t' = tag_name t ∨ tag_name t' ∉ tag_name <$> tags db)
       ∧ TagsRoutes.put id tagData db = (Http.json 200 t', db')
       ∧ TagRepository.findById id db' = Some t').
Proof.
  intros Hnodup Hname.
  destruct (TagRepository.findById id db) as [t|] eqn:Hfind.
  2: { left. split; [done|]. unfold TagsRoutes.put. by rewrite Hfind. }
  right.
  pose proof (tag_findById_Some _ _ _ Hfind) as [Ht Hid].
  unfold TagRepository.findById in Hfind.
  destruct (tag_update_Return id
              {| Prisma.tu_name := pt_name tagData; Prisma.tu_color := pt_color tagData |}
              db t Hfind) as [_ Hfree].
  cbn [Prisma.tu_name Prisma.tu_color] in Hfree. rewrite Hid in Hfree.
  assert (default (tag_name t) (pt_name tagData) = tag_name t
          ∨ default (tag_name t) (pt_name tagData) ∉ tag_name <$> tags db →
          ∃ db', TagRepository.update id tagData db
                 = (Return (Some {| tag_id := id;
                                    tag_name := default (tag_name t) (pt_name tagData);
                                    tag_color := default (tag_color t) (pt_color tagData);
                                    tag_createdAt := tag_createdAt t |}), db')
                 ∧ TagRepository.findById id db'
                   = Some {| tag_id := id;
                             tag_name := default (tag_name t) (pt_name tagData);
                             tag_color := default (tag_color t) (pt_color tagData);
                             tag_createdAt := tag_createdAt t |}) as Hupdate.
  { intros Hok. destruct Hfree as (db' & Hup & Htags & _).
    - cbn [tag_name]. destruct Hok as [-> | Hout]; [by apply own_name_not_taken|].
      intros Hin. by apply Hout, (other_names_subseteq id).
    - exists db'. unfold TagRepository.update. rewrite Hup. split; [done|].
      unfold TagRepository.findById, Prisma.tag_findUnique_id. rewrite Htags.
      by apply (find_replaced_by_id id _ (tags db) t). }
  unfold TagsRoutes.put, TagRepository.findById. rewrite Hfind.
  unfold TagsRoutes.name_changes.
  destruct (pt_name tagData) as [name|] eqn:Hn;
    cbn [default from_option Datatypes.id] in *.
  - destruct (String.eqb_spec name ""); [congruence|]. cbn [negb andb].
    destruct (String.eqb_spec name (tag_name t)) as [->|Hchange]; cbn [negb andb].
    + right. destruct Hupdate as (db' & Hup & Hfound); [by left|].
      exists t, db'. cbn zeta. rewrite Hup. split_and!; [done | by left | done | exact Hfound].
    + destruct (TagRepository.existsByName name db) eqn:Hex.
      * left. exists t, name. apply tag_existsByName_iff in Hex. by split_and!.
      * right. assert (name ∉ tag_name <$> tags db) as Hout.
        { intros Hin%tag_existsByName_iff. congruence. }
        destruct Hupdate as (db' & Hup & Hfound); [by right|].
        exists t, db'. cbn zeta. rewrite Hup. split_and!; [done | by right | done | exact Hfound].
  - right. destruct Hupdate as (db' & Hup & Hfound); [by left|].
    exists t, db'. cbn zeta. rewrite Hup. split_and!; [done | by left | done | exact Hfound].
Qed.

End tag_route_facts.
Section tag_unique_facts.

Lemma NoDup_fmap_filter {A B} (f : A → B) (P : A → Prop) `{∀ x, Decision (P x)}
    (l : list A) :
  NoDup (f <$> l) → NoDup (f <$> filter P l).
Proof.
  induction l as [|x l IH]; [done|].
  rewrite fmap_cons, NoDup_cons, filter_cons. intros [Hx Hl].
  case_decide; [|by apply IH].
  rewrite fmap_cons, NoDup_cons. split; [|by apply IH].
  intros (y & Hy & [_ Hin]%list_elem_of_filter)%list_elem_of_fmap.
  apply Hx. rewrite Hy. by apply list_elem_of_fmap_2.
Qed.

Lemma NoDup_snoc {A} (l : list A) (x : A) : NoDup l → x ∉ l → NoDup (l ++ [x]).
Proof.
  intros Hl Hx. apply NoDup_app. split_and!; [done| |apply NoDup_singleton].
  intros y Hy ->%list_elem_of_singleton. done.
Qed.

End tag_unique_facts.
Section tag_listing_facts.

Lemma StronglySorted_fmap {A B} (f : A → B) (R : B → B → Prop) (l : list A) :
  StronglySorted (λ a b, R (f a) (f b)) l → StronglySorted R (f <$> l).
Proof.
  induction 1 as [|x l Hl IH Hx]; [constructor|].
  rewrite fmap_cons. constructor; [done|].
  by apply Forall_fmap.
Qed.

(** X12. The listings of the tags.  [findAll] returns every tag once, in
    ascending order of name; [getTagsWithEventCount] returns the same
    listing, each tag with the number of its associations with events. *)
Theorem getTagsWithEventCount_by_name (db : DB) :
  TagRepository.findAll db ≡ₚ tags db
  ∧ StronglySorted (λ a b, String.leb (tag_name a) (tag_name b) = true)
      (TagRepository.findAll db)
  ∧ TagRepository.getTagsWithEventCount db
    = (λ t, {| TagRepository.tc_id := tag_id t;
               TagRepository.tc_name := tag_name t;
               TagRepository.tc_color := tag_color t;
               TagRepository.tc_createdAt := tag_createdAt t;
               TagRepository.tc_eventCount :=
                 Z.of_nat (length (filter (λ et, et_tagId et = tag_id t) (event_tags db))) |})
        <$> TagRepository.findAll db
  ∧ StronglySorted
      (λ x y, String.leb (TagRepository.tc_name x) (TagRepository.tc_name y) = true)
      (TagRepository.getTagsWithEventCount db).
Proof.
  assert (TagRepository.getTagsWithEventCount db
          = (λ t, TagRepository.with_count (t, Prisma.tag_event_count db t))
              <$> TagRepository.findAll db) as Heq.
  { unfold TagRepository.getTagsWithEventCount, Prisma.tag_findMany_with_count_by_name.
    by rewrite <- list_fmap_compose. }
  split_and!.
  - apply order_by_Permutation.
  - apply (sorted_by_text tag_name).
  - exact Heq.
  - rewrite Heq. apply StronglySorted_fmap. apply (sorted_by_text tag_name).
Qed.

End tag_listing_facts.

Section user_facts.
Context `{Bcrypt} `{BcryptHash}.

Lemma user_existsByEmail_iff (email : string) (db : DB) :
  UserRepository.existsByEmail email db = true ↔ email ∈ ur_email <$> users db.
Proof. apply count_pos_iff. Qed.

Lemma user_existsByUsername_iff (username : string) (db : DB) :
  UserRepository.existsByUsername username db = true
  ↔ username ∈ ur_username <$> users db.
Proof. apply count_pos_iff. Qed.

Lemma find_by_key_None {A B} `{EqDecision B} (key : A → B) (k : B) (l : list A) :
  find (λ x, bool_decide (key x = k)) l = None ↔ k ∉ key <$> l.
Proof.
  rewrite find_None_Forall, Forall_forall, list_elem_of_fmap. split.
  - intros Hall (x & -> & Hx). specialize (Hall x Hx).
    by rewrite bool_decide_eq_false in Hall.
  - intros Hno x Hx. apply bool_decide_eq_false. intros <-. apply Hno. by exists x.
Qed.

Lemma find_by_key_snoc {A B} `{EqDecision B} (key : A → B) (l : list A) (x : A) :
  key x ∉ key <$> l →
  find (λ y, bool_decide (key y = key x)) (l ++ [x]) = Some x.
Proof.
  intros Hfresh%find_by_key_None. rewrite find_snoc, Hfresh.
  by rewrite bool_decide_eq_true_2.
Qed.

Lemma user_create_Return (now : Date) (data : Prisma.UserCreateInput) (db : DB) :
  (Prisma.uc_username data ∈ ur_username <$> users db
   ∨ Prisma.uc_email data ∈ ur_email <$> users db →
   Prisma.user_create now data db = Throw UniqueConstraintFailed)
  ∧ (Prisma.uc_username data ∉ ur_username <$> users db →
     Prisma.uc_email data ∉ ur_email <$> users db →
     let r := {| ur_id := Prisma.cuid (ur_id <$> users db);
                 ur_username := Prisma.uc_username data;
                 ur_email := Prisma.uc_email data;
                 ur_displayName := Prisma.uc_displayName data;
                 ur_password := Prisma.uc_password data;
                 ur_createdAt := now;
                 ur_updatedAt := now |} in
     ∃ db', Prisma.user_create now data db = Return (r, db')
            ∧ users db' = users db ++ [r]
            ∧ events db' = events db ∧ tags db' = tags db
            ∧ attachments db' = attachments db
            ∧ event_user_assignments db' = event_user_assignments db
            ∧ event_tags db' = event_tags db
            ∧ event_edit_history db' = event_edit_history db).
Proof.
  split.
  - unfold Prisma.user_create. intros [Hu|He].
    + by rewrite bool_decide_eq_true_2.
    + case_bool_decide; [done|]. by rewrite bool_decide_eq_true_2.
  - intros Hu He r. unfold Prisma.user_create.
    rewrite !bool_decide_eq_false_2 by done. by eexists.
Qed.

(** X13. Creating a user and signing in.  [create] is rejected, the store
    unchanged, exactly when the username or the email is in use.
    Otherwise the new profile carries the fields of the request and a
    fresh id; it is found under its id, its email and its username; the
    stored credential is the hash of the password, and, the hashing
    facility verifying what it hashes, [verifyPassword] with the email and
    the password of the request returns this profile.  Whoever could sign
    in before still can. *)
Theorem user_create_then_verify (now : Date) (salt : string)
    (userData : CreateUserRequest) (db : DB) :
  bcrypt_hash_verifies →
  (cu_username userData ∈ ur_username <$> users db
   ∨ cu_email userData ∈ ur_email <$> users db →
   UserRepository.create now salt userData db = (Throw UniqueConstraintFailed, db))
  ∧ (cu_username userData ∉ ur_username <$> users db →
     cu_email userData ∉ ur_email <$> users db →
     ∃ user db' row,
       UserRepository.create now salt userData db = (Return user, db')
       ∧ user_username user = cu_username userData
       ∧ user_email user = cu_email userData
       ∧ user_displayName user = cu_displayName userData
       ∧ user_createdAt user = now
       ∧ user_updatedAt user = now
       ∧ (user_id user ∉ ur_id <$> users db)
       ∧ UserRepository.findById (user_id user) db' = Some user
       ∧ UserRepository.findByEmail (cu_email userData) db' = Some user
       ∧ UserRepository.findByUsername (cu_username userData) db' = Some user
       ∧ UserRepository.findByEmailWithPassword (cu_email userData) db' = Some row
       ∧ ur_password row = bcrypt_hash (cu_password userData) 10 salt
       ∧ UserRepository.verifyPassword (cu_email userData) (cu_password userData) db'
         = Some user
       ∧ (∀ email password u,
            UserRepository.verifyPassword email password db = Some u →
            UserRepository.verifyPassword email password db' = Some u)).
Proof.
  intros Hbcrypt.
  destruct (user_create_Return now
              {| Prisma.uc_username := cu_username userData;
                 Prisma.uc_email := cu_email userData;
                 Prisma.uc_displayName := cu_displayName userData;
                 Prisma.uc_password := bcrypt_hash (cu_password userData) 10 salt |} db)
    as [Hused Hfree].
  cbn [Prisma.uc_username Prisma.uc_email Prisma.uc_displayName Prisma.uc_password]
    in Hused, Hfree.
  unfold UserRepository.create. split.
  - intros Hin. by rewrite (Hused Hin).
  - intros Hu He. destruct (Hfree Hu He) as (db' & -> & Husers & _).
    set (row := {| ur_id := Prisma.cuid (ur_id <$> users db);
                   ur_username := cu_username userData |}) in *.
    assert (ur_id row ∉ ur_id <$> users db) as Hfresh by apply infinite_is_fresh.
    assert (Prisma.user_findUnique_email (cu_email userData) db' = Some row) as Hemail.
    { unfold Prisma.user_findUnique_email. rewrite Husers.
      by apply (find_by_key_snoc ur_email (users db) row). }
    eexists (Prisma.select_user row), db', row. split_and!; try done.
    + unfold UserRepository.findById, Prisma.user_findUnique_id. rewrite Husers.
      cbn [Prisma.select_user user_id].
      by rewrite (find_by_key_snoc ur_id (users db) row).
    + unfold UserRepository.findByEmail. by rewrite Hemail.
    + unfold UserRepository.findByUsername, Prisma.user_findUnique_username.
      rewrite Husers. by rewrite (find_by_key_snoc ur_username (users db) row).
    + unfold UserRepository.verifyPassword, UserRepository.findByEmailWithPassword.
      rewrite Hemail. cbn [ur_password row]. by rewrite Hbcrypt.
    + intros email password u.
      unfold UserRepository.verifyPassword, UserRepository.findByEmailWithPassword,
        Prisma.user_findUnique_email.
      rewrite Husers, find_snoc.
      by destruct (find _ (users db)).
Qed.

End user_facts.
Section auth_route_facts.
Context `{Bcrypt} `{BcryptHash} `{Jwt}.

Lemma user_create_accepted (now : Date) (salt : string) (userData : CreateUserRequest)
    (db : DB) :
  cu_username userData ∉ ur_username <$> users db →
  cu_email userData ∉ ur_email <$> users db →
  let row := {| ur_id := Prisma.cuid (ur_id <$> users db);
                ur_username := cu_username userData;
                ur_email := cu_email userData;
                ur_displayName := cu_displayName userData;
                ur_password := bcrypt_hash (cu_password userData) 10 salt;
                ur_createdAt := now;
                ur_updatedAt := now |} in
  ∃ db', UserRepository.create now salt userData db
         = (Return (Prisma.select_user row), db')
         ∧ users db' = users db ++ [row].
Proof.
  intros Hu He row. unfold UserRepository.create.
  destruct (proj2 (user_create_Return now
              {| Prisma.uc_username := cu_username userData;
                 Prisma.uc_email := cu_email userData;
                 Prisma.uc_displayName := cu_displayName userData;
                 Prisma.uc_password := bcrypt_hash (cu_password userData) 10 salt |} db)
              Hu He) as (db' & -> & Husers & _).
  by exists db'.
Qed.

(** X14. Registration and sign-in.  POST /api/auth/register answers 409
    EMAIL_ALREADY_EXISTS when the email is in use, 409
    USERNAME_ALREADY_EXISTS when only the username is, both without
    writing, and otherwise 201 with the new profile: the creation cannot
    fail once both checks have passed.  After a registration, POST
    /api/auth/login with the same email and password answers 200 with the
    same profile.  POST /api/users answers with the same statuses. *)
Theorem register_then_login (now : Date) (salt : string)
    (userData : CreateUserRequest) (db : DB) :
  bcrypt_hash_verifies →
  (cu_email userData ∈ ur_email <$> users db →
   AuthRoutes.register now salt userData db
   = (Http.error 409 "EMAIL_ALREADY_EXISTS", db)
   ∧ UsersRoutes.post now salt userData db
     = (Http.error 409 "EMAIL_ALREADY_EXISTS", db))
  ∧ (cu_email userData ∉ ur_email <$> users db →
     cu_username userData ∈ ur_username <$> users db →
     AuthRoutes.register now salt userData db
     = (Http.error 409 "USERNAME_ALREADY_EXISTS", db)
     ∧ UsersRoutes.post now salt userData db
       = (Http.error 409 "USERNAME_ALREADY_EXISTS", db))
  ∧ (cu_email userData ∉ ur_email <$> users db →
     cu_username userData ∉ ur_username <$> users db →
     ∃ user db',
       AuthRoutes.register now salt userData db
       = (Http.json 201 {| AuthRoutes.session_user := user;
                           AuthRoutes.session_token := AuthRoutes.generateToken now user |},
          db')
       ∧ UsersRoutes.post now salt userData db = (Http.json 201 user, db')
       ∧ user_email user = cu_email userData
       ∧ user_username user = cu_username userData
       ∧ ∀ later,
           AuthRoutes.login later (cu_email userData) (cu_password userData) db'
           = Http.json 200
               {| AuthRoutes.session_user := user;
                  AuthRoutes.session_token := AuthRoutes.generateToken later user |}).
Proof.
  intros Hbcrypt. unfold AuthRoutes.register, UsersRoutes.post. split_and!.
  - intros He. by rewrite (proj2 (user_existsByEmail_iff _ _) He).
  - intros He Hu.
    destruct (UserRepository.existsByEmail _ db) eqn:Hex;
      [by apply user_existsByEmail_iff in Hex|].
    by rewrite (proj2 (user_existsByUsername_iff _ _) Hu).
  - intros He Hu.
    destruct (UserRepository.existsByEmail _ db) eqn:Hex;
      [by apply user_existsByEmail_iff in Hex|].
    destruct (UserRepository.existsByUsername _ db) eqn:Hex';
      [by apply user_existsByUsername_iff in Hex'|].
    destruct (user_create_accepted now salt userData db Hu He) as (db' & -> & Husers).
    eexists _, db'. split_and!; try done.
    intros later. unfold AuthRoutes.login, UserRepository.verifyPassword,
      UserRepository.findByEmailWithPassword, Prisma.user_findUnique_email.
    rewrite Husers.
    rewrite find_snoc, (proj2 (find_by_key_None ur_email _ (users db)) He).
    cbn [ur_email]. rewrite bool_decide_eq_true_2 by done.
    cbn [ur_password]. by rewrite Hbcrypt.
Qed.

End auth_route_facts.
Section user_delete_facts.
Context `{JSON}.

Lemma find_filter_Some {A} (f : A → bool) (P : A → Prop) `{∀ x, Decision (P x)}
    (l : list A) (x : A) :
  find f l = Some x → P x → find f (filter P l) = Some x.
Proof.
  intros Hfind HP. induction l as [|y l IH]; [done|].
  simpl in Hfind. rewrite filter_cons. destruct (f y) eqn:Hy.
  - injection Hfind as ->. rewrite decide_True by done. simpl. by rewrite Hy.
  - case_decide; simpl; rewrite ?Hy; by apply IH.
Qed.

Lemma filter_key_not_gone {A} (key : A → Id) (eid : Id) (gone : list Id) (l : list A) :
  eid ∉ gone →
  filter (λ x, key x = eid) (filter (λ x, key x ∉ gone) l)
  = filter (λ x, key x = eid) l.
Proof.
  intros Heid. induction l as [|x l IH]; [done|].
  rewrite (filter_cons (λ x, key x ∉ gone)), (filter_cons (λ x, key x = eid) x l).
  destruct (decide (key x = eid)) as [Hx|Hx].
  - rewrite decide_True by congruence. by rewrite filter_cons_True, IH.
  - case_decide; [|done]. by rewrite filter_cons_False.
Qed.

Lemma filter_ext_elem {A} (P Q : A → Prop) `{∀ x, Decision (P x)} `{∀ x, Decision (Q x)}
    (l : list A) :
  (∀ x, x ∈ l → P x ↔ Q x) → filter P l = filter Q l.
Proof.
  induction l as [|x l IH]; intros Hext; [done|].
  rewrite !filter_cons.
  rewrite IH by (intros y Hy; apply Hext; by right).
  destruct (decide (P x)) as [HP|HP].
  - rewrite decide_True; [done|]. apply Hext; [by left | done].
  - rewrite decide_False; [done|]. intros HQ. apply HP. apply Hext; [by left | done].
Qed.

Lemma users_after_user_delete (id : Id) (all kept : list UserRow)
    (rows : list EventUserAssignment) :
  kept = filter (λ u, ur_id u ≠ id) all →
  snd <$> omap (λ a, (λ u, (a, Prisma.select_user u))
                       <$> find (λ u, bool_decide (ur_id u = eua_userId a)) kept)
            (filter (λ a, eua_userId a ≠ id) rows)
  = filter (λ u, user_id u ≠ id)
      (snd <$> omap (λ a, (λ u, (a, Prisma.select_user u))
                            <$> find (λ u, bool_decide (ur_id u = eua_userId a)) all)
                 rows).
Proof.
  intros ->. induction rows as [|a l IH]; [done|].
  rewrite (filter_cons (λ a, eua_userId a ≠ id)).
  destruct (decide (eua_userId a ≠ id)) as [Hother|Hsame].
  - cbn [omap list_omap].
    rewrite find_filter_implied
      by (intros u Hu%bool_decide_eq_true; congruence).
    destruct (find _ all) as [u|] eqn:Hfind;
      cbn [fmap option_fmap option_map]; [|done].
    apply find_Some_elem in Hfind as [_ Hu%bool_decide_eq_true].
    rewrite !fmap_cons. cbn [snd].
    rewrite filter_cons_True by (cbn [Prisma.select_user user_id]; congruence).
    by rewrite IH.
  - cbn [omap list_omap].
    destruct (find _ all) as [u|] eqn:Hfind;
      cbn [fmap option_fmap option_map]; [|done].
    apply find_Some_elem in Hfind as [_ Hu%bool_decide_eq_true].
    rewrite fmap_cons. cbn [snd].
    rewrite filter_cons_False; [done|].
    cbn [Prisma.select_user user_id]. intros Hne. apply Hsame. congruence.
Qed.

Lemma included_assignments_event (eid : Id) (db : DB) (a : EventUserAssignment) :
  a ∈ Prisma.included_assignments eid db → eua_eventId a = eid.
Proof.
  unfold Prisma.included_assignments, Prisma.assignments_of.
  rewrite order_by_Permutation. by intros [? _]%list_elem_of_filter.
Qed.

Lemma included_event_tags_event (eid : Id) (db : DB) (t : EventTag) :
  t ∈ Prisma.included_event_tags eid db → et_eventId t = eid.
Proof.
  unfold Prisma.included_event_tags, Prisma.event_tags_of.
  rewrite order_by_Permutation. by intros [? _]%list_elem_of_filter.
Qed.

Lemma user_delete_Return (id : Id) (db : DB) (r : UserRow) :
  Prisma.user_findUnique_id id db = Some r →
  ∃ db', Prisma.user_delete id db = Return (r, db')
         ∧ users db' = filter (λ u, ur_id u ≠ id) (users db)
         ∧ events db' = filter (λ e, ev_creatorId e ≠ id) (events db)
         ∧ tags db' = tags db
         ∧ attachments db'
           = filter (λ a, att_eventId a ∉ Prisma.events_created_by id db) (attachments db)
         ∧ event_user_assignments db'
           = filter (λ a, eua_userId a ≠ id
                          ∧ eua_eventId a ∉ Prisma.events_created_by id db)
                    (event_user_assignments db)
         ∧ event_tags db'
           = filter (λ et, et_eventId et ∉ Prisma.events_created_by id db) (event_tags db)
         ∧ event_edit_history db'
           = filter (λ h, eh_eventId h ∉ Prisma.events_created_by id db)
                    (event_edit_history db).
Proof.
  intros Hfind. unfold Prisma.user_delete. rewrite Hfind. by eexists.
Qed.

Lemma created_by_iff (id eid : Id) (db : DB) (row : EventRow) :
  NoDup (ev_id <$> events db) →
  Prisma.event_findUnique eid db = Some row →
  eid ∈ Prisma.events_created_by id db ↔ ev_creatorId row = id.
Proof.
  intros Hnodup [Hrow Heid]%event_findUnique_Some.
  unfold Prisma.events_created_by. rewrite list_elem_of_fmap. split.
  - intros (row' & -> & [Hc Hrow']%list_elem_of_filter).
    by rewrite (NoDup_fmap_eq ev_id (events db) row row' Hnodup Hrow Hrow' Heid).
  - intros Hc. exists row. split; [done|]. by apply list_elem_of_filter.
Qed.

(** X16. Deleting a user.  For an unknown id [delete] returns false, the
    store unchanged.  For a stored user it returns true: the user is no
    longer found and the other users are found as before; the tags are
    untouched; no assignment names the user any more; an event the user
    created is no longer found; and every other event reads as before
    except that the user is gone from its assigned users. *)
Theorem user_delete_cascade (id : Id) (db : DB) :
  NoDup (ev_id <$> events db) →
  (id ∉ ur_id <$> users db → UserRepository.delete id db = (Return false, db))
  ∧ (id ∈ ur_id <$> users db →
     ∃ db',
       UserRepository.delete id db = (Return true, db')
       ∧ UserRepository.findById id db' = None
       ∧ (∀ id', id' ≠ id →
                 UserRepository.findById id' db' = UserRepository.findById id' db)
       ∧ tags db' = tags db
       ∧ Forall (λ a, eua_userId a ≠ id) (event_user_assignments db')
       ∧ Forall (λ e, ev_creatorId e ≠ id) (events db')
       ∧ (∀ eventId,
            EventRepository.findById eventId db'
            = match Prisma.event_findUnique eventId db with
              | Some row =>
                  if bool_decide (ev_creatorId row = id) then Return None
                  else match EventRepository.findById eventId db with
                       | Return (Some e) => Return (Some (without_user id e))
                       | r => r
                       end
              | None => Return None
              end)).
Proof.
  intros Hnodup. split.
  - intros Hno%(find_by_key_None ur_id).
    unfold UserRepository.delete, Prisma.user_delete, Prisma.user_findUnique_id.
    by rewrite Hno.
  - intros Hin.
    destruct (Prisma.user_findUnique_id id db) as [r|] eqn:Hfind;
      [|by apply (find_by_key_None ur_id) in Hfind].
    destruct (user_delete_Return id db r Hfind)
      as (db' & Hdel & Husers & Hevents & Htags & Hatt & Hassign & Hetags & _).
    exists db'. unfold UserRepository.delete. rewrite Hdel. split_and!; try done.
    + unfold UserRepository.findById, Prisma.user_findUnique_id. rewrite Husers.
      rewrite find_filter_excluded; [done|].
      intros u Hu%bool_decide_eq_true Hne. done.
    + intros id' Hne. unfold UserRepository.findById, Prisma.user_findUnique_id.
      rewrite Husers. rewrite find_filter_implied; [done|].
      intros u Hu%bool_decide_eq_true. congruence.
    + rewrite Hassign. apply Forall_forall. by intros a [[? _] _]%list_elem_of_filter.
    + rewrite Hevents. apply Forall_forall. by intros e [? _]%list_elem_of_filter.
    + intros eventId. unfold EventRepository.findById.
      destruct (Prisma.event_findUnique eventId db) as [row|] eqn:Hrow.
      2: { apply event_findUnique_None in Hrow.
           assert (Prisma.event_findUnique eventId db' = None) as ->; [|done].
           apply event_findUnique_None. rewrite Hevents.
           intros (e & -> & [_ He]%list_elem_of_filter)%list_elem_of_fmap.
           apply Hrow. by apply list_elem_of_fmap_2. }
      pose proof (created_by_iff id eventId db row Hnodup Hrow) as Hgone.
      pose proof (event_findUnique_Some _ _ _ Hrow) as [Hrowin Hrowid].
      case_bool_decide as Hcreator.
      * assert (Prisma.event_findUnique eventId db' = None) as ->; [|done].
        apply event_findUnique_None. rewrite Hevents.
        intros (e & Heid & [Hc He]%list_elem_of_filter)%list_elem_of_fmap.
        apply Hc.
        rewrite <- (NoDup_fmap_eq ev_id (events db) row e Hnodup Hrowin He); [done|].
        congruence.
      * assert (Prisma.event_findUnique eventId db' = Some row) as ->.
        { unfold Prisma.event_findUnique. rewrite Hevents.
          by apply find_filter_Some. }
        assert (eventId ∉ Prisma.events_created_by id db) as Hkept by by rewrite Hgone.
        unfold EventRepository.formatEvent.
        cbn [Prisma.include_relations Prisma.p_row].
        destruct (match ev_metadata row with
                  | Some s => _
                  | None => _
                  end) as [metadata|e]; [|done].
        cbn [obind]. unfold without_user, Prisma.include_relations.
        cbn [Prisma.p_creator Prisma.p_assignedUsers Prisma.p_tags Prisma.p_attachments
             e_id e_title e_content e_type e_timestamp e_metadata e_createdAt e_updatedAt
             e_creatorId e_creator e_assignedUsers e_tags e_attachments Prisma.p_row
             fmap option_fmap option_map].
        rewrite (included_assignments_filter _ _ db db' Hassign),
          (included_event_tags_filter _ _ db db' Hetags).
        rewrite (filter_all (λ et, et_eventId et ∉ _)).
        2: { apply Forall_forall. intros et Het%included_event_tags_event. congruence. }
        rewrite (filter_ext_elem _ (λ a, eua_userId a ≠ id)
                   (Prisma.included_assignments (ev_id row) db)).
        2: { intros a Ha%included_assignments_event. split; [by intros [? _]|].
             intros Hne. split; [done | congruence]. }
        unfold Prisma.attachments_of, Prisma.user_findUnique_id, Prisma.tag_findUnique_id.
        rewrite Husers, Htags, Hatt, Hrowid.
        rewrite (filter_key_not_gone att_eventId) by done.
        rewrite (find_filter_implied (λ u, bool_decide (ur_id u = ev_creatorId row)))
          by (intros u Hu%bool_decide_eq_true; congruence).
        rewrite (users_after_user_delete id (users db) _ _ eq_refl).
        done.
Qed.

End user_delete_facts.
Section user_listing_facts.

(** X17. The users offered for assignment: every stored user except the one
    excluded, each once and without the credential, in ascending order
    of display name.  An excluded id that is the empty text excludes
    nobody. *)
Theorem getUsersForAssignment_listing (excludeId : option Id) (db : DB) :
  StronglySorted
    (λ a b, String.leb (user_displayName a) (user_displayName b) = true)
    (UserRepository.getUsersForAssignment excludeId db)
  ∧ UserRepository.getUsersForAssignment excludeId db
    ≡ₚ Prisma.select_user
         <$> filter (λ r, excludeId = Some "" ∨ Some (ur_id r) ≠ excludeId) (users db).
Proof.
  unfold UserRepository.getUsersForAssignment, Prisma.user_findMany_by_displayName.
  split.
  - apply StronglySorted_fmap. apply (sorted_by_text ur_displayName).
  - apply fmap_Permutation. rewrite order_by_Permutation.
    destruct excludeId as [i|].
    + destruct (String.eqb_spec i "") as [->|Hi].
      * rewrite filter_all; [done|]. apply Forall_forall. intros r _. by left.
      * erewrite list_filter_iff; [done|]. intros r. split.
        -- intros Hr. right. congruence.
        -- intros [[= ->]|Hr]; congruence.
    + rewrite filter_all; [done|]. apply Forall_forall. intros r _. by right.
Qed.

End user_listing_facts.
Section user_update_facts.
Context `{Bcrypt} `{BcryptHash}.

Lemma user_update_Return (now : Date) (id : Id) (data : Prisma.UserUpdateInput)
    (db : DB) (r : UserRow) :
  Prisma.user_findUnique_id id db = Some r →
  let r' := Prisma.update_user_row now data r in
  let others := filter (λ u, ur_id u ≠ id) (users db) in
  (ur_username r' ∈ ur_username <$> others ∨ ur_email r' ∈ ur_email <$> others →
   Prisma.user_update now id data db = Throw UniqueConstraintFailed)
  ∧ (ur_username r' ∉ ur_username <$> others →
     ur_email r' ∉ ur_email <$> others →
     ∃ db', Prisma.user_update now id data db = Return (r', db')
            ∧ users db' = (λ u, if bool_decide (ur_id u = id) then r' else u) <$> users db
            ∧ events db' = events db ∧ tags db' = tags db
            ∧ attachments db' = attachments db
            ∧ event_user_assignments db' = event_user_assignments db
            ∧ event_tags db' = event_tags db
            ∧ event_edit_history db' = event_edit_history db).
Proof.
  intros Hfind r' others. split.
  - unfold Prisma.user_update. rewrite Hfind. fold r' others. intros [Hu|He].
    + by rewrite bool_decide_eq_true_2.
    + case_bool_decide; [done|]. by rewrite bool_decide_eq_true_2.
  - intros Hu He. unfold Prisma.user_update. rewrite Hfind. fold r' others.
    rewrite !bool_decide_eq_false_2 by done. by eexists.
Qed.

Lemma writes_user_column_iff (userData : PartialCreateUserRequest) (password : option string) :
  (is_Some password ↔ is_Some (pu_password userData)) →
  Prisma.writes_user_column
    {| Prisma.uu_username := pu_username userData;
       Prisma.uu_email := pu_email userData;
       Prisma.uu_displayName := pu_displayName userData;
       Prisma.uu_password := password |} = true
  ↔ names_a_field userData.
Proof.
  intros Hp. unfold Prisma.writes_user_column, names_a_field.
  cbn [Prisma.uu_username Prisma.uu_email Prisma.uu_displayName Prisma.uu_password].
  rewrite !orb_true_iff, !bool_decide_eq_true. tauto.
Qed.

Lemma find_replaced_key {B} `{EqDecision B} (key : UserRow → B) (k : B) (id : Id)
    (r r' : UserRow) (l : list UserRow) :
  key r' = k →
  find (λ u, bool_decide (ur_id u = id)) l = Some r →
  k ∉ key <$> filter (λ u, ur_id u ≠ id) l →
  find (λ u, bool_decide (key u = k))
    ((λ u, if bool_decide (ur_id u = id) then r' else u) <$> l) = Some r'.
Proof.
  intros Hk. induction l as [|u l IH]; [done|].
  rewrite fmap_cons, filter_cons. cbn [find].
  destruct (decide (ur_id u = id)) as [Hu|Hu].
  - rewrite !(bool_decide_eq_true_2 _ Hu). intros _ _.
    by rewrite bool_decide_eq_true_2.
  - rewrite !(bool_decide_eq_false_2 _ Hu). rewrite decide_True by done.
    rewrite fmap_cons, not_elem_of_cons. intros Hfind [Hne Hfree].
    rewrite bool_decide_eq_false_2 by congruence. by apply IH.
Qed.

Lemma find_replaced_user (id : Id) (r r' : UserRow) (l : list UserRow) :
  ur_id r' = id →
  find (λ u, bool_decide (ur_id u = id)) l = Some r →
  find (λ u, bool_decide (ur_id u = id))
    ((λ u, if bool_decide (ur_id u = id) then r' else u) <$> l) = Some r'.
Proof.
  intros Hid. induction l as [|u l IH]; [done|].
  rewrite fmap_cons. cbn [find]. destruct (decide (ur_id u = id)) as [Hu|Hu].
  - rewrite !(bool_decide_eq_true_2 _ Hu). intros _.
    by rewrite bool_decide_eq_true_2.
  - rewrite !(bool_decide_eq_false_2 _ Hu). apply IH.
Qed.

Lemma find_other_user (id id' : Id) (r' : UserRow) (l : list UserRow) :
  ur_id r' = id → id' ≠ id →
  find (λ u, bool_decide (ur_id u = id'))
    ((λ u, if bool_decide (ur_id u = id) then r' else u) <$> l)
  = find (λ u, bool_decide (ur_id u = id')) l.
Proof.
  intros Hid Hne. induction l as [|u l IH]; [done|].
  rewrite fmap_cons. cbn [find]. destruct (decide (ur_id u = id)) as [Hu|Hu].
  - rewrite (bool_decide_eq_true_2 _ Hu).
    rewrite (bool_decide_eq_false_2 (ur_id r' = id')) by congruence.
    rewrite (bool_decide_eq_false_2 (ur_id u = id')) by congruence. apply IH.
  - rewrite (bool_decide_eq_false_2 _ Hu).
    destruct (bool_decide (ur_id u = id')); [done | apply IH].
Qed.

(** X15. Updating a user.  [update] returns null, the store unchanged, when
    the id is unknown and when the new username or email is that of
    another user.  Otherwise it returns the profile with the fields of
    the request written over the stored ones, id and creation time kept;
    the time of update is the time of the call when the request names a
    field, and stays as it was for a request without fields.  The profile
    is found so under its id and every other user as before.  A new
    password that is not empty is stored hashed: the user then signs in
    with the new password; without a password in the request, the stored
    credential is kept. *)
Theorem user_update_cases (now : Date) (salt : string) (id : Id)
    (userData : PartialCreateUserRequest) (db : DB) :
  bcrypt_hash_verifies →
  (UserRepository.findById id db = None →
   UserRepository.update now salt id userData db = (Return None, db))
  ∧ (∀ r, Prisma.user_findUnique_id id db = Some r →
       let username := default (ur_username r) (pu_username userData) in
       let email := default (ur_email r) (pu_email userData) in
       let others := filter (λ u, ur_id u ≠ id) (users db) in
       (username ∈ ur_username <$> others ∨ email ∈ ur_email <$> others →
        UserRepository.update now salt id userData db = (Return None, db))
       ∧ (username ∉ ur_username <$> others →
          email ∉ ur_email <$> others →
          ∃ db',
            let user := {| user_id := id;
                           user_username := username;
                           user_email := email;
                           user_displayName :=
                             default (ur_displayName r) (pu_displayName userData);
                           user_createdAt := ur_createdAt r;
                           user_updatedAt :=
                             if bool_decide (names_a_field userData) then now
                             else ur_updatedAt r |} in
            UserRepository.update now salt id userData db = (Return (Some user), db')
            ∧ UserRepository.findById id db' = Some user
            ∧ (∀ id', id' ≠ id →
                      UserRepository.findById id' db' = UserRepository.findById id' db)
            ∧ (∀ p, pu_password userData = Some p → p ≠ "" →
                    UserRepository.verifyPassword email p db' = Some user)
            ∧ (pu_password userData = None →
               ∀ p, UserRepository.verifyPassword email p db'
                    = if bcrypt_compare p (ur_password r) then Some user else None)
            ∧ events db' = events db
            ∧ event_user_assignments db' = event_user_assignments db)).
Proof.
  intros Hbcrypt. split.
  - unfold UserRepository.findById, UserRepository.update, Prisma.user_update.
    by destruct (Prisma.user_findUnique_id id db).
  - intros r Hfind username email others.
    pose proof (find_Some_elem _ _ _ Hfind) as [_ Hid%bool_decide_eq_true].
    set (password := match pu_password userData with
                     | Some p =>
                         if negb (String.eqb p "") then Some (bcrypt_hash p 10 salt)
                         else Some p
                     | None => None
                     end).
    set (data := {| Prisma.uu_username := pu_username userData;
                    Prisma.uu_email := pu_email userData;
                    Prisma.uu_displayName := pu_displayName userData;
                    Prisma.uu_password := password |}).
    assert (Prisma.writes_user_column data = bool_decide (names_a_field userData))
      as Hwrites.
    { apply eq_true_iff_eq. rewrite bool_decide_eq_true.
      apply writes_user_column_iff. unfold password.
      destruct (pu_password userData) as [p|]; [|done].
      destruct (negb (String.eqb p "")); split; intros _; by eexists. }
    destruct (user_update_Return now id data db r Hfind) as [Hused Hfree].
    unfold Prisma.update_user_row in Hused, Hfree. rewrite Hwrites in Hfree.
    cbn [data Prisma.uu_username Prisma.uu_email Prisma.uu_displayName
         Prisma.uu_password ur_username ur_email] in Hused, Hfree.
    fold username email others in Hused, Hfree.
    unfold UserRepository.update. fold password. fold data. split.
    + intros Hin. by rewrite (Hused Hin).
    + intros Hu He.
      destruct (Hfree Hu He) as (db' & -> & Husers & Hev & _ & _ & Has & _).
      exists db'. cbn zeta.
      assert (Prisma.user_findUnique_email email db'
              = Some {| ur_id := ur_id r;
                        ur_username := username;
                        ur_email := email;
                        ur_displayName :=
                          default (ur_displayName r) (pu_displayName userData);
                        ur_password := default (ur_password r) password;
                        ur_createdAt := ur_createdAt r;
                        ur_updatedAt :=
                          if bool_decide (names_a_field userData) then now
                          else ur_updatedAt r |}) as Hemail.
      { unfold Prisma.user_findUnique_email. rewrite Husers.
        by apply (find_replaced_key ur_email email id r _ (users db)). }
      split_and!; try done.
      * unfold Prisma.select_user. cbn. by rewrite Hid.
      * unfold UserRepository.findById, Prisma.user_findUnique_id. rewrite Husers.
        rewrite (find_replaced_user id r _ (users db)) by done.
        unfold Prisma.select_user. cbn. by rewrite Hid.
      * intros id' Hne. unfold UserRepository.findById, Prisma.user_findUnique_id.
        rewrite Husers. by rewrite find_other_user.
      * intros p Hp Hne.
        unfold UserRepository.verifyPassword, UserRepository.findByEmailWithPassword.
        rewrite Hemail. unfold password. rewrite Hp.
        destruct (String.eqb_spec p ""); [done|].
        cbn. rewrite Hbcrypt. cbn. by rewrite Hid.
      * intros Hp p.
        unfold UserRepository.verifyPassword, UserRepository.findByEmailWithPassword.
        rewrite Hemail. unfold password. rewrite Hp. cbn.
        destruct (bcrypt_compare p (ur_password r)); cbn; by rewrite ?Hid.
Qed.

End user_update_facts.
Section user_route_facts.
Context `{BcryptHash}.

Lemma own_key_free {A B} (ident : A → Id) (key : A → B) (id : Id) (x : A) (l : list A) :
  NoDup (key <$> l) → x ∈ l → ident x = id →
  key x ∉ key <$> filter (λ y, ident y ≠ id) l.
Proof.
  intros Hnodup Hx Hid (y & Hkey & [Hy Hyl]%list_elem_of_filter)%list_elem_of_fmap.
  apply Hy. by rewrite <- (NoDup_fmap_eq key l x y Hnodup Hx Hyl Hkey).
Qed.

Lemma others_subseteq {A B} (ident : A → Id) (key : A → B) (id : Id) (k : B) (l : list A) :
  k ∈ key <$> filter (λ y, ident y ≠ id) l → k ∈ key <$> l.
Proof.
  intros (y & -> & [_ Hy]%list_elem_of_filter)%list_elem_of_fmap.
  by apply list_elem_of_fmap_2.
Qed.

(** The check of a field by the handler: it refuses the request when
    the field changes and its new value is in use. *)
Lemma changes_taken (value : option string) (current : string)
    (in_use : string → bool) :
  value ≠ Some "" →
  UsersRoutes.changes value current && in_use (default "" value) = true
  ↔ default current value ≠ current ∧ in_use (default current value) = true.
Proof.
  intros Hvalue. unfold UsersRoutes.changes.
  destruct value as [v|]; cbn [default from_option Datatypes.id].
  - destruct (String.eqb_spec v ""); [congruence|].
    destruct (String.eqb_spec v current); cbn [negb andb]; [|tauto].
    split; [done | by intros [? _]].
  - split; [done | by intros [? _]].
Qed.

(** X18. A user's own account.  From the decoded token on, PUT and DELETE
    /api/users/:id answer 403 without writing when the user of the token
    is gone or is not the user of the path.  For the own account DELETE
    answers 204 and the user is no longer found.  PUT, on a store with
    unique usernames and emails and a request without empty fields,
    answers 409 EMAIL_ALREADY_EXISTS without writing when the email
    changes and the new one is in use, else 409 USERNAME_ALREADY_EXISTS
    when the username changes and the new one is in use, and otherwise
    200 with the profile that carries the fields of the request over the
    stored ones; the profile is then found so under its id, the other
    users as before.  The time of update is that of the call when the
    request names a field and stays as it was otherwise. *)
Theorem users_routes_own_account (now : Date) (salt : string) (decoded id : Id)
    (body : UsersRoutes.UpdateUserBody) (db : DB) :
  NoDup (ur_username <$> users db) →
  NoDup (ur_email <$> users db) →
  UsersRoutes.ub_username body ≠ Some "" →
  UsersRoutes.ub_email body ≠ Some "" →
  (decoded ∉ ur_id <$> users db →
   UsersRoutes.put now salt decoded id body db = (Http.error 403 "USER_NOT_FOUND", db)
   ∧ UsersRoutes.delete decoded id db = (Http.error 403 "USER_NOT_FOUND", db))
  ∧ (decoded ∈ ur_id <$> users db → decoded ≠ id →
     UsersRoutes.put now salt decoded id body db
     = (Http.error 403 "INSUFFICIENT_PERMISSIONS", db)
     ∧ UsersRoutes.delete decoded id db
       = (Http.error 403 "INSUFFICIENT_PERMISSIONS", db))
  ∧ (∀ r, Prisma.user_findUnique_id decoded db = Some r → decoded = id →
       let username := default (ur_username r) (UsersRoutes.ub_username body) in
       let email := default (ur_email r) (UsersRoutes.ub_email body) in
       let email_taken := email ≠ ur_email r ∧ email ∈ ur_email <$> users db in
       let username_taken :=
         username ≠ ur_username r ∧ username ∈ ur_username <$> users db in
       (∃ db', UsersRoutes.delete decoded id db = (Http.no_content, db')
               ∧ UserRepository.findById id db' = None)
       ∧ (email_taken →
          UsersRoutes.put now salt decoded id body db
          = (Http.error 409 "EMAIL_ALREADY_EXISTS", db))
       ∧ (¬ email_taken → username_taken →
          UsersRoutes.put now salt decoded id body db
          = (Http.error 409 "USERNAME_ALREADY_EXISTS", db))
       ∧ (¬ email_taken → ¬ username_taken →
          ∃ db',
            let user := {| user_id := id;
                           user_username := username;
                           user_email := email;
                           user_displayName :=
                             default (ur_displayName r) (UsersRoutes.ub_displayName body);
                           user_createdAt := ur_createdAt r;
                           user_updatedAt :=
                             if bool_decide (names_a_field (UsersRoutes.userData_of body))
                             then now else ur_updatedAt r |} in
            UsersRoutes.put now salt decoded id body db = (Http.json 200 user, db')
            ∧ UserRepository.findById id db' = Some user
            ∧ (∀ id', id' ≠ id →
                      UserRepository.findById id' db' = UserRepository.findById id' db))).
Proof.
  intros Hunames Huemails Hbody_u Hbody_e. split_and!.
  - intros Hgone%(find_by_key_None ur_id).
    unfold UsersRoutes.put, UsersRoutes.delete, Http.authenticateToken.
    unfold Prisma.user_findUnique_id. by rewrite Hgone.
  - intros Hin Hne.
    unfold UsersRoutes.put, UsersRoutes.delete, Http.authenticateToken.
    destruct (user_findUnique_id_found decoded db Hin) as (r & -> & Hr).
    cbn [fmap option_fmap option_map Prisma.select_user user_id].
    unfold UsersRoutes.put_handler, UsersRoutes.delete_handler.
    rewrite Hr. by rewrite !bool_decide_eq_true_2.
  - intros r Hfind <- username email email_taken username_taken.
    unfold UsersRoutes.put, UsersRoutes.delete, Http.authenticateToken.
    pose proof (find_Some_elem _ _ _ Hfind) as [Hrin Hr%bool_decide_eq_true].
    rewrite Hfind.
    cbn [fmap option_fmap option_map Prisma.select_user user_id].
    unfold UsersRoutes.put_handler, UsersRoutes.delete_handler.
    rewrite Hr. rewrite !bool_decide_eq_false_2 by (intros Hne; by apply Hne).
    unfold UserRepository.findById. rewrite Hfind.
    cbn [fmap option_fmap option_map].
    cbn [UsersRoutes.userData_of pu_email pu_username Prisma.select_user
         user_email user_username].
    pose proof (changes_taken (UsersRoutes.ub_email body) (ur_email r)
                  (λ e, UserRepository.existsByEmail e db) Hbody_e) as Hemail.
    pose proof (changes_taken (UsersRoutes.ub_username body) (ur_username r)
                  (λ u, UserRepository.existsByUsername u db) Hbody_u) as Husername.
    cbn beta in Hemail, Husername.
    rewrite user_existsByEmail_iff in Hemail.
    rewrite user_existsByUsername_iff in Husername.
    fold email email_taken in Hemail. fold username username_taken in Husername.
    split_and!.
    + destruct (user_delete_Return decoded db r Hfind) as (db' & Hdel & Husers & _).
      exists db'. unfold UserRepository.delete. rewrite Hdel. split; [done|].
      unfold UserRepository.findById, Prisma.user_findUnique_id. rewrite Husers.
      rewrite find_filter_excluded; [done|].
      intros u Hu%bool_decide_eq_true Hne. done.
    + intros Htaken%Hemail. by rewrite Htaken.
    + intros Hfree%(not_iff_compat Hemail)%not_true_is_false Htaken%Husername.
      by rewrite Hfree, Htaken.
    + intros Hfree_e Hfree_u.
      pose proof Hfree_e as He%(not_iff_compat Hemail)%not_true_is_false.
      pose proof Hfree_u as Hu%(not_iff_compat Husername)%not_true_is_false.
      rewrite He, Hu.
      set (data := {| Prisma.uu_username := UsersRoutes.ub_username body;
                      Prisma.uu_email := UsersRoutes.ub_email body;
                      Prisma.uu_displayName := UsersRoutes.ub_displayName body;
                      Prisma.uu_password := None |}).
      assert (Prisma.writes_user_column data
              = bool_decide (names_a_field (UsersRoutes.userData_of body))) as Hwrites.
      { apply eq_true_iff_eq. rewrite bool_decide_eq_true.
        by apply (writes_user_column_iff (UsersRoutes.userData_of body) None). }
      destruct (user_update_Return now decoded data db r Hfind) as [_ Hupdate].
      unfold Prisma.update_user_row in Hupdate. rewrite Hwrites in Hupdate.
      cbn [data Prisma.uu_username Prisma.uu_email Prisma.uu_displayName
           Prisma.uu_password ur_username ur_email] in Hupdate.
      fold username email in Hupdate.
      destruct Hupdate as (db' & Hup & Husers & _).
      * destruct (decide (username = ur_username r)) as [->|Hne];
          [by apply (own_key_free ur_id)|].
        intros Hin_u%others_subseteq. apply Hfree_u. by split.
      * destruct (decide (email = ur_email r)) as [->|Hne];
          [by apply (own_key_free ur_id)|].
        intros Hin_e%others_subseteq. apply Hfree_e. by split.
      * unfold UserRepository.update.
        change (Prisma.user_update now decoded _ db)
          with (Prisma.user_update now decoded data db).
        rewrite Hup. exists db'. cbn zeta. split_and!.
        -- unfold Prisma.select_user. cbn. by rewrite Hr.
        -- unfold UserRepository.findById, Prisma.user_findUnique_id. rewrite Husers.
           rewrite (find_replaced_user decoded r _ (users db)) by done.
           unfold Prisma.select_user. cbn. by rewrite Hr.
        -- intros id' Hne. unfold UserRepository.findById, Prisma.user_findUnique_id.
           rewrite Husers. by rewrite find_other_user.
Qed.

End user_route_facts.
Section user_unique_facts.
Context `{BcryptHash}.

Lemma replaced_keys_NoDup {A B} (ident : A → Id) (key : A → B) (id : Id) (x' : A)
    (l : list A) :
  NoDup (ident <$> l) → NoDup (key <$> l) →
  key x' ∉ key <$> filter (λ y, ident y ≠ id) l →
  NoDup (key <$> ((λ y, if bool_decide (ident y = id) then x' else y) <$> l)).
Proof.
  induction l as [|x l IH]; [constructor|].
  rewrite !fmap_cons, !NoDup_cons, filter_cons.
  intros [Hidx Hids] [Hkeyx Hkeys] Hfree.
  destruct (decide (ident x = id)) as [Hx|Hx].
  - rewrite (bool_decide_eq_true_2 _ Hx).
    rewrite decide_False in Hfree by (intros Hne; by apply Hne).
    assert (Forall (λ y, ident y ≠ id) l) as Hothers.
    { apply Forall_forall. intros y Hy <-. apply Hidx.
      rewrite Hx. by apply list_elem_of_fmap_2. }
    rewrite (filter_all _ l Hothers) in Hfree.
    assert ((λ y, if bool_decide (ident y = id) then x' else y) <$> l = l) as ->.
    { clear -Hothers. induction Hothers as [|y l Hy _ IH]; [done|].
      by rewrite fmap_cons, IH, bool_decide_eq_false_2. }
    by split.
  - rewrite (bool_decide_eq_false_2 _ Hx).
    rewrite decide_True in Hfree by done.
    rewrite fmap_cons, not_elem_of_cons in Hfree. destruct Hfree as [Hne Hfree].
    split; [|by apply IH].
    rewrite <- list_fmap_compose.
    intros (y & Hkey & Hy)%list_elem_of_fmap. simpl in Hkey.
    case_bool_decide; [congruence|].
    apply Hkeyx. rewrite Hkey. by apply list_elem_of_fmap_2.
Qed.

End user_unique_facts.

Section event_round_trip_facts.
Context `{JSON}.

Lemma include_relations_frame (db db' : DB) (row : EventRow) :
  users db' = users db → tags db' = tags db →
  Prisma.assignments_of (ev_id row) db' = Prisma.assignments_of (ev_id row) db →
  Prisma.event_tags_of (ev_id row) db' = Prisma.event_tags_of (ev_id row) db →
  Prisma.attachments_of (ev_id row) db' = Prisma.attachments_of (ev_id row) db →
  Prisma.include_relations db' row = Prisma.include_relations db row.
Proof.
  intros Husers Htags Has Het Hat.
  unfold Prisma.include_relations, Prisma.included_assignments,
    Prisma.included_event_tags.
  rewrite Has, Het, Hat.
  unfold Prisma.user_findUnique_id, Prisma.tag_findUnique_id.
  by rewrite Husers, Htags.
Qed.

Lemma filter_app_others {A B} `{EqDecision B} (key : A → B) (k : B) (l new : list A) :
  Forall (λ x, key x ≠ k) new →
  filter (λ x, key x = k) (l ++ new) = filter (λ x, key x = k) l.
Proof.
  intros Hnew. rewrite filter_app, (filter_none _ new); [by rewrite app_nil_r|].
  eapply Forall_impl; [exact Hnew|]. done.
Qed.

Lemma filter_filter_others {A B} `{EqDecision B} (key : A → B) (k k' : B) (l : list A) :
  k' ≠ k →
  filter (λ x, key x = k') (filter (λ x, key x ≠ k) l) = filter (λ x, key x = k') l.
Proof.
  intros Hne. induction l as [|x l IH]; [done|].
  rewrite (filter_cons (λ x, key x ≠ k)), (filter_cons (λ x, key x = k') x l).
  destruct (decide (key x = k')) as [Hx|Hx].
  - rewrite decide_True by congruence. by rewrite filter_cons_True, IH.
  - case_decide; [|done]. by rewrite filter_cons_False.
Qed.

Lemma event_exists_iff (id : Id) (db : DB) :
  EventRepository.exists_ id db = true ↔ id ∈ ev_id <$> events db.
Proof. apply count_pos_iff. Qed.

Lemma create_other_tables (now : Date) (eventData : CreateEventRequest)
    (creatorId : Id) (db db' : DB) (r : outcome Event) :
  EventRepository.create now eventData creatorId db = (r, db') →
  attachments db' = attachments db
  ∧ event_edit_history db' = event_edit_history db
  ∧ users db' = users db ∧ tags db' = tags db.
Proof.
  unfold EventRepository.create, Prisma.event_create.
  case_bool_decide; [|by intros [= _ <-]].
  destruct (Prisma.check_links (ur_id <$> users db) [] _); [|by intros [= _ <-]].
  destruct (Prisma.check_links (tag_id <$> tags db) [] _); [|by intros [= _ <-]].
  cbn [obind]. by intros [= _ <-].
Qed.

(** X19. Creating an event and reading it back.  After an accepted [create]
    the event is found under its id exactly as [create] returned it and
    [exists] answers true; the id was not in use before; and every other
    id reads as before the call. *)
Theorem event_create_then_find (now : Date) (eventData : CreateEventRequest)
    (creatorId : Id) (db db' : DB) (e : Event) :
  EventRepository.create now eventData creatorId db = (Return e, db') →
  EventRepository.findById (e_id e) db' = Return (Some e)
  ∧ EventRepository.exists_ (e_id e) db' = true
  ∧ EventRepository.findById (e_id e) db = Return None
  ∧ EventRepository.exists_ (e_id e) db = false
  ∧ (∀ id, id ≠ e_id e →
           EventRepository.findById id db' = EventRepository.findById id db
           ∧ EventRepository.exists_ id db' = EventRepository.exists_ id db).
Proof.
  intros Hcreate.
  pose proof (create_other_tables _ _ _ _ _ _ Hcreate) as (Hat & _).
  apply create_Return in Hcreate
    as (row & Hfind & Hevents & Hfresh & Hformat & _ & _ & _ & _ & _ & Husers & Htags
        & Has & Het).
  assert (ev_id row = e_id e) as Hrow
    by by apply event_findUnique_Some in Hfind as [_ ?].
  split_and!.
  - unfold EventRepository.findById. by rewrite Hfind, Hformat.
  - apply event_exists_iff. rewrite Hevents, fmap_app. apply elem_of_app. right.
    rewrite <- Hrow. by left.
  - unfold EventRepository.findById.
    by rewrite (proj2 (event_findUnique_None _ _) Hfresh).
  - apply not_true_is_false. by rewrite event_exists_iff.
  - intros id Hne. split.
    + unfold EventRepository.findById, Prisma.event_findUnique.
      rewrite Hevents, find_snoc.
      destruct (find _ (events db)) as [row0|] eqn:Hrow0.
      * apply find_Some_elem in Hrow0 as [_ Hid%bool_decide_eq_true].
        rewrite (include_relations_frame db db' row0); try done.
        -- unfold Prisma.assignments_of. rewrite Has. apply filter_app_others.
           apply Forall_fmap, Forall_forall. intros u _. simpl. congruence.
        -- unfold Prisma.event_tags_of. rewrite Het. apply filter_app_others.
           apply Forall_fmap, Forall_forall. intros u _. simpl. congruence.
        -- unfold Prisma.attachments_of. by rewrite Hat.
      * rewrite bool_decide_eq_false_2 by congruence. done.
    + apply eq_true_iff_eq. rewrite !event_exists_iff, Hevents, fmap_app, elem_of_app.
      rewrite fmap_cons, list_elem_of_singleton. split; [|by left].
      intros [?|?]; [done | congruence].
Qed.

End event_round_trip_facts.
Section event_delete_facts.
Context `{JSON}.

Lemma event_delete_Return (id : Id) (db : DB) (row : EventRow) :
  Prisma.event_findUnique id db = Some row →
  ∃ db', Prisma.event_delete id db = Return (row, db')
         ∧ users db' = users db ∧ tags db' = tags db
         ∧ events db' = filter (λ r, ev_id r ≠ id) (events db)
         ∧ attachments db' = filter (λ a, att_eventId a ≠ id) (attachments db)
         ∧ event_user_assignments db'
           = filter (λ a, eua_eventId a ≠ id) (event_user_assignments db)
         ∧ event_tags db' = filter (λ t, et_eventId t ≠ id) (event_tags db)
         ∧ event_edit_history db'
           = filter (λ h, eh_eventId h ≠ id) (event_edit_history db).
Proof.
  intros Hfind. unfold Prisma.event_delete. rewrite Hfind. by eexists.
Qed.

Lemma findById_after_delete (id : Id) (db db' : DB) (row : EventRow) :
  Prisma.event_delete id db = Return (row, db') →
  EventRepository.findById id db' = Return None
  ∧ (∀ id', id' ≠ id →
            EventRepository.findById id' db' = EventRepository.findById id' db).
Proof.
  unfold Prisma.event_delete.
  destruct (Prisma.event_findUnique id db) as [row0|] eqn:Hfind; [|done].
  intros [= <- <-]. unfold EventRepository.findById, Prisma.event_findUnique.
  cbn [events]. split.
  - rewrite find_filter_excluded; [done|].
    intros r Hr%bool_decide_eq_true Hne. done.
  - intros id' Hne.
    rewrite find_filter_implied by (intros r Hr%bool_decide_eq_true; congruence).
    destruct (find _ (events db)) as [row'|] eqn:Hrow'; [|done].
    apply find_Some_elem in Hrow' as [_ Hid%bool_decide_eq_true].
    rewrite (include_relations_frame db _ row'); try done.
    + unfold Prisma.assignments_of. cbn [event_user_assignments].
      apply filter_filter_others. congruence.
    + unfold Prisma.event_tags_of. cbn [event_tags].
      apply filter_filter_others. congruence.
    + unfold Prisma.attachments_of. cbn [attachments].
      apply filter_filter_others. congruence.
Qed.

(** X20. Deleting an event and reading afterwards.  After [delete] has
    returned true the event is not found and [exists] answers false,
    every other id reads exactly as before, and the users and the tags
    are untouched. *)
Theorem event_delete_then_find (id : Id) (db db' : DB) :
  EventRepository.delete id db = (Return true, db') →
  EventRepository.findById id db' = Return None
  ∧ EventRepository.exists_ id db' = false
  ∧ (∀ id', id' ≠ id →
            EventRepository.findById id' db' = EventRepository.findById id' db
            ∧ EventRepository.exists_ id' db' = EventRepository.exists_ id' db)
  ∧ users db' = users db
  ∧ tags db' = tags db.
Proof.
  unfold EventRepository.delete.
  destruct (Prisma.event_delete id db) as [[row db1]|] eqn:Hdel; [|done].
  intros [= <-].
  destruct (findById_after_delete id db db1 row Hdel) as [Hgone Hframe].
  assert (events db1 = filter (λ r, ev_id r ≠ id) (events db)
          ∧ users db1 = users db ∧ tags db1 = tags db) as (Hevents & Husers & Htags).
  { unfold Prisma.event_delete in Hdel.
    destruct (Prisma.event_findUnique id db); [|done]. by injection Hdel as _ <-. }
  split_and!; try done.
  - apply not_true_is_false. rewrite event_exists_iff, Hevents.
    intros (r & -> & [Hr _]%list_elem_of_filter)%list_elem_of_fmap. done.
  - intros id' Hne. split; [by apply Hframe|].
    apply eq_true_iff_eq. rewrite !event_exists_iff, Hevents, !list_elem_of_fmap.
    split.
    + intros (r & -> & [_ Hr]%list_elem_of_filter). by exists r.
    + intros (r & -> & Hr). exists r. split; [done|].
      apply list_elem_of_filter. split; [congruence | done].
Qed.

(** X27. Only the creator changes or deletes an event.  From the decoded
    token on, a PUT or DELETE /api/events/:id by anyone who is not the
    creator of the stored event leaves the store as it is, whatever the
    request holds.  When the stored event can be read the answer is 403
    INSUFFICIENT_PERMISSIONS for a stored user who is not the creator,
    and 404 when no event has the id.  A DELETE by the creator answers
    204 and the event is no longer found. *)
Theorem events_routes_creator_only (now : Date) (decoded id : Id)
    (eventData : UpdateEventRequest) (db : DB) :
  ((∀ row, Prisma.event_findUnique id db = Some row → ev_creatorId row ≠ decoded) →
   (EventsRoutes.put now decoded id eventData db).2 = db
   ∧ (EventsRoutes.delete decoded id db).2 = db)
  ∧ (decoded ∈ ur_id <$> users db →
     Prisma.event_findUnique id db = None →
     EventsRoutes.put now decoded id eventData db
     = (Http.error 404 "EVENT_NOT_FOUND", db)
     ∧ EventsRoutes.delete decoded id db = (Http.error 404 "EVENT_NOT_FOUND", db))
  ∧ (∀ row,
       decoded ∈ ur_id <$> users db →
       Prisma.event_findUnique id db = Some row →
       metadata_readable (ev_metadata row) →
       (ev_creatorId row ≠ decoded →
        EventsRoutes.put now decoded id eventData db
        = (Http.error 403 "INSUFFICIENT_PERMISSIONS", db)
        ∧ EventsRoutes.delete decoded id db
          = (Http.error 403 "INSUFFICIENT_PERMISSIONS", db))
       ∧ (ev_creatorId row = decoded →
          ∃ db', EventsRoutes.delete decoded id db = (Http.no_content, db')
                 ∧ EventRepository.findById id db' = Return None)).
Proof.
  unfold EventsRoutes.put, EventsRoutes.delete, Http.authenticateToken.
  unfold EventsRoutes.put_handler, EventsRoutes.delete_handler.
  split_and!.
  - intros Hother.
    destruct (Prisma.user_findUnique_id decoded db) as [u|] eqn:Hu; [|done].
    apply find_Some_elem in Hu as [_ Hu%bool_decide_eq_true].
    cbn [fmap option_fmap option_map Prisma.select_user user_id]. rewrite Hu.
    unfold EventRepository.findById.
    destruct (Prisma.event_findUnique id db) as [row|]; [|done].
    specialize (Hother row eq_refl).
    destruct (EventRepository.formatEvent _) as [e|] eqn:He; [|done].
    apply formatEvent_scalars in He as (_ & _ & _ & _ & _ & _ & _ & Hc & _).
    cbn [obind]. rewrite Hc. cbn [Prisma.include_relations Prisma.p_row].
    by rewrite !bool_decide_eq_true_2.
  - intros Hin Hnone.
    destruct (user_findUnique_id_found decoded db Hin) as (u & -> & Hu).
    cbn [fmap option_fmap option_map Prisma.select_user user_id]. rewrite Hu.
    unfold EventRepository.findById. by rewrite Hnone.
  - intros row Hin Hrow Hreadable.
    destruct (user_findUnique_id_found decoded db Hin) as (u & -> & Hu).
    cbn [fmap option_fmap option_map Prisma.select_user user_id]. rewrite Hu.
    unfold EventRepository.findById. rewrite Hrow.
    destruct (formatEvent_total (Prisma.include_relations db row) Hreadable)
      as [e He].
    rewrite He. cbn [obind].
    apply formatEvent_scalars in He as (_ & _ & _ & _ & _ & _ & _ & Hc & _).
    rewrite Hc. cbn [Prisma.include_relations Prisma.p_row]. split.
    + intros Hne. by rewrite !bool_decide_eq_true_2.
    + intros Heq. rewrite bool_decide_eq_false_2 by (intros Hne; by apply Hne).
      destruct (event_delete_Return id db row Hrow) as (db' & Hdel & _).
      exists db'. unfold EventRepository.delete. rewrite Hdel. split; [done|].
      by destruct (findById_after_delete id db db' row Hdel) as [Hgone _].
Qed.

End event_delete_facts.
Section event_listing_facts.
Context `{JSON}.

Lemma StronglySorted_fmap_inv {A B} (f : A → B) (R : B → B → Prop) (l : list A) :
  StronglySorted R (f <$> l) → StronglySorted (λ a b, R (f a) (f b)) l.
Proof.
  induction l as [|x l IH]; [constructor|].
  rewrite fmap_cons. intros [Hl Hx]%StronglySorted_inv.
  constructor; [by apply IH|]. rewrite Forall_fmap in Hx.
  eapply Forall_impl; [exact Hx|]. done.
Qed.

Lemma StronglySorted_drop {A} (R : A → A → Prop) (l : list A) (n : nat) :
  StronglySorted R l → StronglySorted R (drop n l).
Proof.
  intros Hl. revert n.
  induction Hl as [|x l Hl IH Hx]; intros [|n]; simpl;
    [constructor | constructor | by constructor | apply IH].
Qed.

Lemma StronglySorted_take {A} (R : A → A → Prop) (l : list A) (n : nat) :
  StronglySorted R l → StronglySorted R (take n l).
Proof.
  intros Hl. revert n.
  induction Hl as [|x l Hl IH Hx]; intros [|n]; simpl;
    [constructor | constructor | constructor |].
  constructor; [apply IH|].
  apply Forall_forall. intros y Hy%subseteq_take.
  rewrite Forall_forall in Hx. by apply Hx.
Qed.

Lemma Forall2_fmap_eq {A B C} (f : A → C) (g : B → C) (l : list A) (k : list B) :
  Forall2 (λ x y, g y = f x) l k → g <$> k = f <$> l.
Proof. induction 1 as [|x y l k Hxy _ IH]; [done|]. by rewrite !fmap_cons, Hxy, IH. Qed.

(** The common body of the paginated listings. *)
Lemma listing_page (P : EventRow → Prop) `{∀ r, Decision (P r)} (page limit : Z)
    (db : DB) :
  (1 ≤ page)%Z → (1 ≤ limit)%Z → (page * limit < 2 ^ 53)%Z → metadata_parses db →
  ∃ es sorted,
    (let* events :=
       Prisma.event_findMany P (Number_mul (Number_sub page 1) limit) limit db in
     let* formattedEvents := mapM EventRepository.formatEvent events in
     Return (EventRepository.paginated page limit (Prisma.event_count_where P db)
               formattedEvents))
    = Return (EventRepository.paginated page limit
                (Z.of_nat (length (filter P (events db)))) es)
    ∧ sorted ≡ₚ filter P (events db)
    ∧ StronglySorted (λ a b, (ev_timestamp b ≤ ev_timestamp a)%Z) sorted
    ∧ Forall2 (λ row e,
         EventRepository.formatEvent (Prisma.include_relations db row) = Return e)
        (take (Z.to_nat limit) (drop (Z.to_nat ((page - 1) * limit)) sorted)) es
    ∧ Forall2 shows
        (take (Z.to_nat limit) (drop (Z.to_nat ((page - 1) * limit)) sorted)) es
    ∧ Forall (λ e, ∃ row, row ∈ events db ∧ P row
                          ∧ e_id e = ev_id row
                          ∧ e_creatorId e = ev_creatorId row
                          ∧ e_timestamp e = ev_timestamp row) es
    ∧ StronglySorted (λ a b, (e_timestamp b ≤ e_timestamp a)%Z) es
    ∧ (Z.of_nat (length es) ≤ limit)%Z.
Proof.
  intros Hpage Hlimit Hsafe Hmeta.
  destruct (page_skip page limit Hpage Hlimit Hsafe) as (Hskip & Hskip64 & Hlimit64).
  set (sorted := Prisma.order_by (λ a b, (ev_timestamp b <=? ev_timestamp a)%Z)
                   (filter P (events db))).
  assert (sorted ≡ₚ filter P (events db)) as Hperm by apply order_by_Permutation.
  assert (StronglySorted (λ a b, (ev_timestamp b ≤ ev_timestamp a)%Z) sorted)
    as Hsorted by apply events_by_timestamp_sorted.
  set (rows := take (Z.to_nat limit) (drop (Z.to_nat ((page - 1) * limit)) sorted)).
  assert (Forall (λ row, row ∈ events db ∧ P row) rows) as Hrows.
  { apply Forall_forall. intros row Hrow.
    assert (row ∈ sorted) as Hin by by eapply subseteq_drop, subseteq_take.
    rewrite Hperm in Hin. by apply list_elem_of_filter in Hin as [? ?]. }
  assert (Forall (λ p, ∃ e, EventRepository.formatEvent p = Return e)
            (Prisma.include_relations db <$> rows)) as Htotal.
  { apply Forall_fmap. eapply Forall_impl; [exact Hrows|].
    intros row [Hrow _]. simpl. apply formatEvent_total. simpl.
    unfold metadata_parses in Hmeta. rewrite Forall_forall in Hmeta. by apply Hmeta. }
  destruct (mapM_total _ _ Htotal) as [es Hes].
  assert (Forall2 (λ row e,
            EventRepository.formatEvent (Prisma.include_relations db row) = Return e)
            rows es) as Hdata.
  { apply mapM_Return in Hes. by rewrite Forall2_fmap_l in Hes. }
  assert (Forall2 (λ row e, e_timestamp e = ev_timestamp row) rows es) as Htimes.
  { eapply Forall2_impl; [exact Hdata|]. intros row e He.
    by apply formatEvent_scalars in He as (_ & _ & _ & _ & ? & _). }
  exists es, sorted. split_and!; try done.
  - unfold Prisma.event_findMany, Prisma.event_count_where.
    rewrite Hskip, skip_take_nonneg by done. fold sorted. fold rows.
    cbn [obind]. by rewrite Hes.
  - eapply Forall2_impl; [exact Hdata|]. intros row e. apply formatEvent_shows.
  - eapply Forall_impl; [exact (Forall2_Forall_r _ _ _ _ Hrows Hdata)|].
    intros e (row & [Hrow HP] & He). exists row.
    apply formatEvent_scalars in He as (? & _ & _ & _ & ? & _ & _ & ? & _).
    by split_and!.
  - apply (StronglySorted_fmap_inv e_timestamp (λ x y, (y ≤ x)%Z)).
    rewrite (Forall2_fmap_eq _ _ _ _ Htimes).
    apply (StronglySorted_fmap ev_timestamp (λ x y, (y ≤ x)%Z)). unfold rows.
    by apply StronglySorted_take, StronglySorted_drop.
  - rewrite <- (Forall2_length _ _ _ Hdata). unfold rows. rewrite length_take. lia.
Qed.

(** X22. The events of one creator, page by page.  For a page and a limit of
    at least 1 whose product is a Number below [2^53], on a store whose
    metadata can be read, [findByCreator] returns the window of the page
    in the listing of the creator's events by descending timestamp, each
    event showing the columns of its row: every event returned was
    created by [creatorId], no more than [limit] are returned, [total]
    counts the creator's events and [totalPages] is the least number of
    pages that holds them. *)
Theorem findByCreator_page (creatorId : Id) (page limit : Z) (db : DB) :
  (1 ≤ page)%Z → (1 ≤ limit)%Z → (page * limit < 2 ^ 53)%Z → metadata_parses db →
  ∃ r sorted,
    EventRepository.findByCreator creatorId page limit db = Return r
    ∧ sorted ≡ₚ filter (λ row, ev_creatorId row = creatorId) (events db)
    ∧ StronglySorted (λ a b, (ev_timestamp b ≤ ev_timestamp a)%Z) sorted
    ∧ Forall2 (λ row e,
         EventRepository.formatEvent (Prisma.include_relations db row) = Return e)
        (take (Z.to_nat limit) (drop (Z.to_nat ((page - 1) * limit)) sorted))
        (data r)
    ∧ Forall2 shows
        (take (Z.to_nat limit) (drop (Z.to_nat ((page - 1) * limit)) sorted))
        (data r)
    ∧ Forall (λ e, e_creatorId e = creatorId) (data r)
    ∧ StronglySorted (λ a b, (e_timestamp b ≤ e_timestamp a)%Z) (data r)
    ∧ (Z.of_nat (length (data r)) ≤ limit)%Z
    ∧ pg_total (pagination r)
      = Z.of_nat (length (filter (λ row, ev_creatorId row = creatorId) (events db)))
    ∧ (∃ n, pg_totalPages (pagination r) = Int n
            ∧ ((n - 1) * limit < pg_total (pagination r))%Z
            ∧ (pg_total (pagination r) ≤ n * limit)%Z).
Proof.
  intros Hpage Hlimit Hsafe Hmeta.
  destruct (listing_page (λ row, ev_creatorId row = creatorId) page limit db
              Hpage Hlimit Hsafe Hmeta)
    as (es & sorted & Hr & Hperm & Hsorted & Hwin & Hshows & Hes & Htimes & Hlen).
  eexists _, sorted. split; [exact Hr|]. split_and!; try done.
  - eapply Forall_impl; [exact Hes|]. intros e (row & _ & Hc & _ & -> & _). done.
  - by apply ceil_div_bounds.
Qed.

(** X23. The events of a range of dates, page by page.  For a page and a
    limit of at least 1 whose product is a Number below [2^53], on a
    store whose metadata can be read, [findByDateRange] returns the
    window of the page in the listing, by descending timestamp, of the
    events whose timestamp lies between [startDate] and [endDate], both
    included, each event showing the columns of its row; [total] counts
    these events. *)
Theorem findByDateRange_page (startDate endDate : Date) (page limit : Z) (db : DB) :
  (1 ≤ page)%Z → (1 ≤ limit)%Z → (page * limit < 2 ^ 53)%Z → metadata_parses db →
  ∃ r sorted,
    EventRepository.findByDateRange startDate endDate page limit db = Return r
    ∧ sorted ≡ₚ filter (λ row, (startDate ≤ ev_timestamp row)%Z
                               ∧ (ev_timestamp row ≤ endDate)%Z) (events db)
    ∧ StronglySorted (λ a b, (ev_timestamp b ≤ ev_timestamp a)%Z) sorted
    ∧ Forall2 (λ row e,
         EventRepository.formatEvent (Prisma.include_relations db row) = Return e)
        (take (Z.to_nat limit) (drop (Z.to_nat ((page - 1) * limit)) sorted))
        (data r)
    ∧ Forall2 shows
        (take (Z.to_nat limit) (drop (Z.to_nat ((page - 1) * limit)) sorted))
        (data r)
    ∧ Forall (λ e, (startDate ≤ e_timestamp e ≤ endDate)%Z) (data r)
    ∧ StronglySorted (λ a b, (e_timestamp b ≤ e_timestamp a)%Z) (data r)
    ∧ (Z.of_nat (length (data r)) ≤ limit)%Z
    ∧ pg_total (pagination r)
      = Z.of_nat (length (filter (λ row, (startDate ≤ ev_timestamp row)%Z
                                         ∧ (ev_timestamp row ≤ endDate)%Z) (events db)))
    ∧ (∃ n, pg_totalPages (pagination r) = Int n
            ∧ ((n - 1) * limit < pg_total (pagination r))%Z
            ∧ (pg_total (pagination r) ≤ n * limit)%Z).
Proof.
  intros Hpage Hlimit Hsafe Hmeta.
  destruct (listing_page (λ row, (startDate ≤ ev_timestamp row)%Z
                                 ∧ (ev_timestamp row ≤ endDate)%Z) page limit db
              Hpage Hlimit Hsafe Hmeta)
    as (es & sorted & Hr & Hperm & Hsorted & Hwin & Hshows & Hes & Htimes & Hlen).
  eexists _, sorted. split; [exact Hr|]. split_and!; try done.
  - eapply Forall_impl; [exact Hes|]. intros e (row & _ & Hc & _ & _ & ->). done.
  - by apply ceil_div_bounds.
Qed.

End event_listing_facts.
Section event_get_facts.
Context `{JSON}.

Lemma or_default_bounds (parsed : option Z) (fallback : Z) :
  (1 ≤ fallback)%Z → (∀ n, parsed = Some n → (0 ≤ n)%Z) →
  (1 ≤ EventsRoutes.or_default parsed fallback)%Z.
Proof.
  intros Hf Hn. unfold EventsRoutes.or_default.
  destruct parsed as [n|]; [|done].
  specialize (Hn n eq_refl). destruct (Z.eqb_spec n 0); lia.
Qed.

(** X25. GET /api/events.  On a store whose metadata can be read, with a
    query parameter [limit] that is absent, not a number, or not
    negative: when [page] is absent, not a number, or from 0 to a value
    whose hundredfold is a Number below [2^53], the answer is 200 with a
    page of at most 100 events; the limit used is at least 1 and at most
    100, 20 when the parameter is absent or 0, and the page used is at
    least 1; with a [creatorId] that is not empty, every event returned
    was created by it.  The page is not capped: for one beyond [2^63] the
    storage layer refuses the [skip] and the answer is 500. *)
Theorem get_list_capped (page limit : option Z) (creatorId : option string) (db : DB) :
  metadata_parses db →
  (∀ l, limit = Some l → (0 ≤ l)%Z) →
  ((∀ p, page = Some p → (0 ≤ p)%Z ∧ (p * 100 < 2 ^ 53)%Z) →
   ∃ r,
     EventsRoutes.get_list page limit creatorId db = Http.json 200 r
     ∧ (Z.of_nat (length (data r)) ≤ pg_limit (pagination r))%Z
     ∧ (1 ≤ pg_limit (pagination r) ≤ 100)%Z
     ∧ (limit = None ∨ limit = Some 0%Z → pg_limit (pagination r) = 20%Z)
     ∧ (1 ≤ pg_page (pagination r))%Z
     ∧ (∀ c, creatorId = Some c → c ≠ "" →
             Forall (λ e, e_creatorId e = c) (data r)))
  ∧ (∀ p, page = Some p → (2 ^ 63 < p)%Z →
          EventsRoutes.get_list page limit creatorId db
          = Http.error 500 "INTERNAL_SERVER_ERROR").
Proof.
  intros Hmeta Hlimit.
  pose proof (or_default_bounds limit 20 ltac:(lia) Hlimit) as Hl.
  assert (1 ≤ Z.min (EventsRoutes.or_default limit 20) 100 ≤ 100)%Z as Hl' by lia.
  assert (limit = None ∨ limit = Some 0%Z →
          Z.min (EventsRoutes.or_default limit 20) 100 = 20%Z) as Hdefault.
  { by intros [-> | ->]. }
  split.
  - intros Hpage.
    pose proof (or_default_bounds page 1 ltac:(lia) (λ p Hp, proj1 (Hpage p Hp))) as Hp.
    assert (EventsRoutes.or_default page 1
            * Z.min (EventsRoutes.or_default limit 20) 100 < 2 ^ 53)%Z as Hsafe.
    { unfold EventsRoutes.or_default at 1. destruct page as [p|]; [|lia].
      destruct (Hpage p eq_refl). destruct (Z.eqb_spec p 0); nia. }
    unfold EventsRoutes.get_list.
    set (p := EventsRoutes.or_default page 1) in *.
    set (l := Z.min (EventsRoutes.or_default limit 20) 100) in *.
    assert (∃ c, creatorId = Some c ∧ c ≠ "" ∨
            (match creatorId with
             | Some c =>
                 if negb (String.eqb c "") then EventRepository.findByCreator c p l db
                 else EventRepository.findAll p l db
             | None => EventRepository.findAll p l db
             end = EventRepository.findAll p l db
             ∧ ∀ c, creatorId = Some c → c = "")) as [c [[-> Hc] | [-> Hnone]]].
    { destruct creatorId as [c|]; [|exists ""; by right].
      exists c. destruct (String.eqb_spec c "") as [->|Hc];
        [by right; split; [|intros ? [= <-]] | by left]. }
    + destruct (String.eqb_spec c ""); [done|]. cbn [negb].
      destruct (listing_page (λ row, ev_creatorId row = c) p l db Hp (proj1 Hl')
                  Hsafe Hmeta)
        as (es & sorted & Hr & _ & _ & _ & _ & Hes & _ & Hlen).
      unfold EventRepository.findByCreator. cbn zeta. rewrite Hr.
      eexists. split; [done|]. cbn. split_and!; try done; try lia.
      intros c' [= <-] _. eapply Forall_impl; [exact Hes|].
      by intros e (row & _ & Hcreator & _ & -> & _).
    + destruct (listing_page (λ _, True) p l db Hp (proj1 Hl') Hsafe Hmeta)
        as (es & sorted & Hr & _ & _ & _ & _ & Hes & _ & Hlen).
      unfold EventRepository.findAll. cbn zeta. rewrite Hr.
      eexists. split; [done|]. cbn. split_and!; try done; try lia.
      intros c' Hc' Hne. by destruct (Hne (Hnone c' Hc')).
  - intros p -> Hp. unfold EventsRoutes.get_list.
    set (l := Z.min (EventsRoutes.or_default limit 20) 100) in *.
    assert (EventsRoutes.or_default (Some p) 1 = p) as ->.
    { unfold EventsRoutes.or_default. destruct (Z.eqb_spec p 0); [lia | done]. }
    pose proof (page_skip_out_of_range p l Hp (proj1 Hl')) as Hskip.
    unfold EventRepository.findByCreator, EventRepository.findAll. cbn zeta.
    destruct creatorId as [c|]; [destruct (negb (String.eqb c ""))|];
      by rewrite event_findMany_out_of_range by (by left).
Qed.

(** X26. The cap of GET /api/events does not hold for a negative [limit]: on
    the first page, for a limit above [-2^63], the answer carries the
    last events of the listing, as many as the absolute value of the
    limit when the store has them, the storage layer reading a negative
    [take] as a count from the end.  A limit below [-2^63] is no signed
    64-bit integer: the storage layer refuses it and the answer is 500. *)
Theorem get_list_negative_limit (l : Z) (db : DB) :
  metadata_parses db →
  ((- 2 ^ 63 < l < 0)%Z →
   ∃ r,
     EventsRoutes.get_list None (Some l) None db = Http.json 200 r
     ∧ length (data r) = Z.to_nat (- l) `min` length (events db))
  ∧ ((l < - 2 ^ 63)%Z →
     EventsRoutes.get_list None (Some l) None db
     = Http.error 500 "INTERNAL_SERVER_ERROR").
Proof.
  intros Hmeta.
  assert (Number_mul (Number_sub 1 1) l = 0%Z) as Hskip by done.
  split.
  - intros Hl. unfold EventsRoutes.get_list, EventsRoutes.or_default.
    destruct (Z.eqb_spec l 0); [lia|].
    rewrite Z.min_l by lia.
    unfold EventRepository.findAll, Prisma.event_findMany.
    cbn zeta. rewrite Hskip, skip_take_from_end by lia.
    cbn [obind].
    set (sorted := Prisma.order_by _ _).
    set (rows := drop (length sorted - Z.to_nat (- l)) sorted).
    assert (sorted ≡ₚ events db) as Hperm.
    { unfold sorted. rewrite order_by_Permutation, filter_all; [done|].
      by apply Forall_forall. }
    assert (Forall (λ p, ∃ e, EventRepository.formatEvent p = Return e)
              (Prisma.include_relations db <$> rows)) as Htotal.
    { apply Forall_fmap, Forall_forall. intros row Hrow. simpl.
      apply formatEvent_total. simpl.
      unfold metadata_parses in Hmeta. rewrite Forall_forall in Hmeta. apply Hmeta.
      rewrite <- Hperm. unfold rows in Hrow. by apply subseteq_drop in Hrow. }
    destruct (mapM_total _ _ Htotal) as [es Hes]. rewrite Hes. cbn [obind].
    eexists. split; [done|]. cbn [data EventRepository.paginated].
    apply mapM_Return, Forall2_length in Hes.
    rewrite <- Hes, length_fmap. unfold rows.
    rewrite length_drop, (Permutation_length Hperm). lia.
  - intros Hl. unfold EventsRoutes.get_list, EventsRoutes.or_default.
    destruct (Z.eqb_spec l 0); [lia|].
    rewrite Z.min_l by lia.
    unfold EventRepository.findAll. cbn zeta.
    rewrite event_findMany_out_of_range by (right; right; lia). done.
Qed.

End event_get_facts.
Section event_stats_facts.

Lemma length_filter_split {A} (P : A → Prop) `{∀ x, Decision (P x)} (l : list A) :
  length l = length (filter P l) + length (filter (λ x, ¬ P x) l).
Proof.
  induction l as [|x l IH]; [done|].
  rewrite !filter_cons. destruct (decide (P x)).
  - rewrite decide_False by (intros Hn; by apply Hn). simpl. lia.
  - rewrite decide_True by done. simpl. lia.
Qed.

Lemma group_counts_sum {A K} `{EqDecision K} (key : A → K) (ks : list K) :
  NoDup ks →
  ∀ l, Forall (λ x, key x ∈ ks) l →
       sum_counts ((λ k, (k, Z.of_nat (length (filter (λ x, key x = k) l)))) <$> ks)
       = Z.of_nat (length l).
Proof.
  induction 1 as [|k ks Hk Hks IH]; intros l Hl.
  - destruct l as [|x l]; [done|].
    apply Forall_cons in Hl as [Hx%elem_of_nil _]. done.
  - rewrite fmap_cons. cbn [sum_counts foldr snd].
    rewrite (length_filter_split (λ x, key x = k) l), Nat2Z.inj_add. f_equal.
    rewrite <- (IH (filter (λ x, key x ≠ k) l)).
    + unfold sum_counts. f_equal. apply list_fmap_ext. intros _ k' Hk'%list_elem_of_lookup_2.
      do 3 f_equal. symmetry. apply filter_filter_others. by intros ->.
    + apply Forall_forall. intros x [Hx Hxl]%list_elem_of_filter.
      rewrite Forall_forall in Hl. specialize (Hl x Hxl).
      apply elem_of_cons in Hl as [?|?]; done.
Qed.

(** X24. The statistics of the events.  [totalEvents] is the number of stored
    events; [eventsByType] has one group for every type that some event
    has, with the number of events of the type, so that the counts add up
    to [totalEvents]; [recentEvents] is the number of events created in
    the seven days before the call, and never more than [totalEvents]. *)
Theorem getEventStats_counts (now : Date) (db : DB) :
  let stats := EventRepository.getEventStats now db in
  EventRepository.totalEvents stats = Z.of_nat (length (events db))
  ∧ NoDup (fst <$> EventRepository.eventsByType stats)
  ∧ (∀ ty, ty ∈ fst <$> EventRepository.eventsByType stats
           ↔ ty ∈ ev_type <$> events db)
  ∧ Forall (λ g, snd g = Z.of_nat (length (filter (λ r, ev_type r = fst g) (events db)))
                 ∧ (0 < snd g)%Z)
      (EventRepository.eventsByType stats)
  ∧ sum_counts (EventRepository.eventsByType stats) = EventRepository.totalEvents stats
  ∧ EventRepository.recentEvents stats
    = Z.of_nat (length (filter (λ r, (now - 604800000 ≤ ev_createdAt r)%Z) (events db)))
  ∧ (0 ≤ EventRepository.recentEvents stats ≤ EventRepository.totalEvents stats)%Z.
Proof.
  intros stats.
  assert (EventRepository.totalEvents stats = Z.of_nat (length (events db))) as Htotal.
  { unfold stats, EventRepository.getEventStats, Prisma.event_count_where.
    cbn [EventRepository.totalEvents]. rewrite filter_all; [done|].
    by apply Forall_forall. }
  set (types := Prisma.order_by String.leb (remove_dups (ev_type <$> events db))).
  assert (types ≡ₚ remove_dups (ev_type <$> events db)) as Htypes
    by apply order_by_Permutation.
  assert (NoDup types) as Hnodup by (rewrite Htypes; apply NoDup_remove_dups).
  assert (∀ ty, ty ∈ types ↔ ty ∈ ev_type <$> events db) as Hin
    by (intros ty; by rewrite Htypes, elem_of_remove_dups).
  assert (EventRepository.eventsByType stats
          = (λ ty, (ty, Z.of_nat (length (filter (λ r, ev_type r = ty) (events db)))))
              <$> types) as Hgroups.
  { unfold stats, EventRepository.getEventStats, Prisma.event_groupBy_type.
    cbn [EventRepository.eventsByType]. rewrite <- list_fmap_compose.
    by apply list_fmap_ext. }
  assert (fst <$> EventRepository.eventsByType stats = types) as Hkeys.
  { rewrite Hgroups, <- list_fmap_compose. apply list_fmap_id. }
  split_and!; try done.
  - by rewrite Hkeys.
  - intros ty. by rewrite Hkeys.
  - rewrite Hgroups. apply Forall_fmap, Forall_forall.
    intros ty Hty. rewrite Hin in Hty. cbn [fst snd]. split; [done|].
    apply list_elem_of_fmap in Hty as (r & -> & Hr).
    assert (r ∈ filter (λ r', ev_type r' = ev_type r) (events db)) as Hfound
      by by apply list_elem_of_filter.
    destruct (filter _ (events db)); [by apply elem_of_nil in Hfound | simpl; lia].
  - rewrite Hgroups, Htotal. apply group_counts_sum; [done|].
    apply Forall_forall. intros r Hr. rewrite Hin.
    by apply list_elem_of_fmap_2.
  - unfold stats, EventRepository.getEventStats, Prisma.event_count_where.
    cbn [EventRepository.recentEvents]. lia.
  - rewrite Htotal. unfold stats, EventRepository.getEventStats, Prisma.event_count_where.
    cbn [EventRepository.recentEvents].
    apply inj_le, sublist_length, sublist_filter.
Qed.

End event_stats_facts.

Section event_update_facts.
Context `{JSON}.

Lemma update_then_find (now : Date) (id : Id) (eventData : UpdateEventRequest)
    (editorId : Id) (db db' : DB) (e : Event) :
  EventRepository.update now id eventData editorId db = (Return (Some e), db') →
  EventRepository.findById id db' = Return (Some e).
Proof.
  intros (row & cur & db1 & Hrow & _ & Hupdate & Hformat & Hrecord)%update_Some.
  apply event_update_Return in Hupdate as (row0 & Hrow0 & _ & Hfind & _).
  assert (row0 = row) as -> by congruence.
  apply recordEditHistory_frame in Hrecord as (Hu & He & Ht & Hat & Has & Het).
  unfold EventRepository.findById, Prisma.event_findUnique in *.
  rewrite He, Hfind.
  rewrite (include_relations_frame db1 db'); try done.
  - by rewrite Hformat.
  - unfold Prisma.assignments_of. by rewrite Has.
  - unfold Prisma.event_tags_of. by rewrite Het.
  - unfold Prisma.attachments_of. by rewrite Hat.
Qed.

(** X21. When an update goes through.  For a stored event whose metadata can
    be read, [update] returns the updated event exactly when every id of
    [assignedUserIds] is a stored user, every id of [tagIds] is a stored
    tag, and neither list names an id twice; the event then reads back
    under its id exactly as [update] returned it.  In every other case
    [update] returns null, and then it has written nothing.  It never
    throws. *)
Theorem update_succeeds_iff (now : Date) (id : Id) (eventData : UpdateEventRequest)
    (editorId : Id) (db : DB) (row : EventRow) :
  JSON_round_trip →
  Prisma.event_findUnique id db = Some row →
  metadata_readable (ev_metadata row) →
  ((∃ e db', EventRepository.update now id eventData editorId db = (Return (Some e), db'))
   ↔ Forall (λ i, i ∈ ur_id <$> users db) (default [] (u_assignedUserIds eventData))
     ∧ NoDup (default [] (u_assignedUserIds eventData))
     ∧ Forall (λ i, i ∈ tag_id <$> tags db) (default [] (u_tagIds eventData))
     ∧ NoDup (default [] (u_tagIds eventData)))
  ∧ (∀ e db',
       EventRepository.update now id eventData editorId db = (Return (Some e), db') →
       EventRepository.findById id db' = Return (Some e))
  ∧ (∀ db', EventRepository.update now id eventData editorId db = (Return None, db') →
            db' = db)
  ∧ (∃ r db', EventRepository.update now id eventData editorId db = (Return r, db')).
Proof.
  intros Hjson Hrow Hreadable.
  split_and!; [|intros e db'; apply update_then_find|..].
  - split.
    + intros (e & db' & Hup).
      apply update_Some in Hup as (row0 & currentEvent & db1 & _ & _ & Hupdate & _).
      apply event_update_Return in Hupdate
        as (_ & _ & _ & _ & _ & _ & _ & _ & _ & _ & _ & Husers & Htags).
      apply check_links_Return in Husers as (? & ? & _).
      apply check_links_Return in Htags as (? & ? & _).
      done.
    + intros (Hu & Hnu & Ht & Hnt).
      destruct (update_cases now id eventData editorId db Hjson)
        as [Hnull | (row0 & cur & new & db1 & db2 & _ & _ & _ & _ & _ & Hup)];
        [|by eauto].
      exfalso. revert Hnull.
      unfold EventRepository.update, EventRepository.update_try,
        EventRepository.findById.
      rewrite Hrow.
      destruct (formatEvent_total (Prisma.include_relations db row) Hreadable)
        as [cur ->].
      cbn [obind]. unfold Prisma.event_update. rewrite Hrow.
      cbn [EventRepository.updateData Prisma.ui_assignedUsers Prisma.ui_tags].
      rewrite (check_links_total _ _ Hu Hnu), (check_links_total _ _ Ht Hnt).
      cbn [obind].
      match goal with
      | |- context [EventRepository.formatEvent (Prisma.include_relations ?d ?r)] =>
          destruct (formatEvent_total (Prisma.include_relations d r)) as [new ->];
          [by apply update_row_readable|];
          destruct (recordEditHistory_Return now id cur new editorId d)
            as (db2 & -> & _)
      end.
      * pose proof (event_findUnique_Some _ _ _ Hrow) as [Hin Hid].
        cbn [events]. rewrite replaced_ids by (by cbn [Prisma.update_row ev_id]).
        rewrite <- Hid. by apply list_elem_of_fmap_2.
      * done.
  - intros db' Hnull.
    destruct (update_cases now id eventData editorId db Hjson)
      as [Hsame | (row0 & cur & new & db1 & db2 & _ & _ & _ & _ & _ & Hup)];
      congruence.
  - destruct (update_cases now id eventData editorId db Hjson)
      as [Hsame | (row0 & cur & new & db1 & db2 & _ & _ & _ & _ & _ & Hup)];
      eauto.
Qed.

End event_update_facts.

Section palette_facts.

Lemma dbutils_getRandomColor_palette (r : Z) :
  (0 ≤ r < 2 ^ 53)%Z →
  ∃ c, DbUtils.getRandomColor r = Some c ∧ c ∈ DbUtils.colors.
Proof.
  intros Hr. unfold DbUtils.getRandomColor.
  destruct (Z.ltb_spec r 0); [lia|].
  assert (Z.to_nat (Number_mul r (Z.of_nat (length DbUtils.colors)) `div` 2 ^ 53)
          < length DbUtils.colors) as Hlt.
  { change (length DbUtils.colors) with 6.
    pose proof (random_index_bound r (Z.of_nat 6) Hr ltac:(lia)). lia. }
  apply lookup_lt_is_Some_2 in Hlt as [c Hc].
  exists c. split; [done|]. by eapply list_elem_of_lookup_2.
Qed.

Lemma palettes_valid :
  Forall (λ c, Validation.validateHexColor c = true) TagRepository.colors
  ∧ Forall (λ c, Validation.validateHexColor c = true) DbUtils.colors.
Proof. split; repeat constructor. Qed.

(** X7. The colours drawn for new tags are colours.  Whatever multiple of
    [2^-53] below 1 [Math.random] draws, the product with the length of
    the palette, rounded as Numbers are, stays below that length:
    [getRandomColor], in the tag repository and in the seeding utility,
    returns a colour of its palette, and every such colour passes
    [validateHexColor], the check that the schema of a tag makes on a
    colour.  So do the colours of the tags that [createMultiple]
    creates. *)
Theorem random_colors_valid (r : Z) :
  (0 ≤ r < 2 ^ 53)%Z →
  (∃ c, TagRepository.getRandomColor r = Some c
        ∧ c ∈ TagRepository.colors
        ∧ Validation.validateHexColor c = true)
  ∧ (∃ c, DbUtils.getRandomColor r = Some c
          ∧ c ∈ DbUtils.colors
          ∧ Validation.validateHexColor c = true)
  ∧ (∀ now random tagNames db ts db',
       (∀ k, (0 ≤ random k < 2 ^ 53)%Z) →
       NoDup tagNames →
       TagRepository.createMultiple now random tagNames db = (Return ts, db') →
       Forall (λ t, t ∈ tags db
                    ∨ ∃ c, tag_color t = Some c ∧ Validation.validateHexColor c = true)
         ts).
Proof.
  intros Hr. destruct palettes_valid as [Htags Hseed].
  rewrite Forall_forall in Htags, Hseed. split_and!.
  - destruct (getRandomColor_palette r Hr) as (c & Hc & Hin). exists c. auto.
  - destruct (dbutils_getRandomColor_palette r Hr) as (c & Hc & Hin). exists c. auto.
  - intros now random tagNames db ts db' Hrandom Hnodup Hcreate.
    destruct (createMultiple_distinct_names now now random random tagNames db
                Hnodup Hrandom) as (ts' & ts2 & db'' & Hcreate' & _ & _ & _ & _ & Hts).
    rewrite Hcreate in Hcreate'. injection Hcreate' as <- <-.
    apply Forall_forall. intros t Ht.
    destruct (Hts t Ht) as [_ [Hold | (c & Hc & Hin)]]; [by left|].
    right. exists c. auto.
Qed.

End palette_facts.

Section consistency_facts.
Context `{JSON} `{BcryptHash}.

Lemma replace_keeps_keys {A B} (ident : A → Id) (key : A → B) (id : Id) (x' : A)
    (l : list A) :
  (∀ x, x ∈ l → ident x = id → key x' = key x) →
  key <$> ((λ y, if bool_decide (ident y = id) then x' else y) <$> l) = key <$> l.
Proof.
  intros Hkey. rewrite <- list_fmap_compose. apply list_fmap_ext.
  intros i x Hx%list_elem_of_lookup_2. simpl. case_bool_decide; [by apply Hkey | done].
Qed.

Lemma check_links_rows {L} (mk : Id → L) (known ids : list Id) :
  (∀ i j, mk i = mk j → i = j) →
  Prisma.check_links known [] ids = Return () →
  NoDup (mk <$> ids) ∧ Forall (λ i, i ∈ known) ids.
Proof.
  intros Hinj (Hknown & Hnodup & _)%check_links_Return. split; [|done].
  apply NoDup_fmap_2; [|done]. intros i j. apply Hinj.
Qed.

Lemma consistent_event_create (now : Date) (data : Prisma.EventCreateInput)
    (db db' : DB) (p : Prisma.EventPayload) :
  consistent db →
  Prisma.event_create now data db = Return (p, db') →
  consistent db'.
Proof.
  intros [(Ue & Ut & Uu & Ua & Uet & Uat & Uh) (Re & Ra & Rt & Rat & Rh)].
  unfold Prisma.event_create.
  case_bool_decide as Hcreator; [|done].
  destruct (Prisma.check_links (ur_id <$> users db) [] _) as [[]|] eqn:Husers; [|done].
  destruct (Prisma.check_links (tag_id <$> tags db) [] _) as [[]|] eqn:Htags; [|done].
  cbn [obind]. intros [= _ <-].
  set (id := Prisma.cuid (ev_id <$> events db)).
  assert (id ∉ ev_id <$> events db) as Hfresh by apply infinite_is_fresh.
  apply (check_links_rows (λ u, {| eua_eventId := id; eua_userId := u |})) in Husers
    as [Hnew_a Hknown_u]; [|by intros i j [= ?]].
  apply (check_links_rows (λ t, {| et_eventId := id; et_tagId := t |})) in Htags
    as [Hnew_t Hknown_t]; [|by intros i j [= ?]].
  split.
  - unfold unique_keys. cbn [events tags users event_user_assignments event_tags
                             attachments event_edit_history]. split_and!; try done.
    + rewrite fmap_app. by apply NoDup_snoc.
    + apply NoDup_app. split_and!; [done| |done].
      intros a Ha (u & -> & _)%list_elem_of_fmap.
      rewrite Forall_forall in Ra. by destruct (Ra _ Ha) as [? _].
    + apply NoDup_app. split_and!; [done| |done].
      intros t Ht (g & -> & _)%list_elem_of_fmap.
      rewrite Forall_forall in Rt. by destruct (Rt _ Ht) as [? _].
  - unfold references_hold. cbn [events tags users event_user_assignments event_tags
                                 attachments event_edit_history].
    rewrite !fmap_app. split_and!.
    + apply Forall_app. split; [done|]. by repeat constructor.
    + apply Forall_app. split.
      * eapply Forall_impl; [exact Ra|]. intros a [? ?]. split; [|done].
        apply elem_of_app. by left.
      * apply Forall_fmap, Forall_forall. intros u Hu. simpl. split.
        -- apply elem_of_app. right. by left.
        -- rewrite Forall_forall in Hknown_u. by apply Hknown_u.
    + apply Forall_app. split.
      * eapply Forall_impl; [exact Rt|]. intros t [? ?]. split; [|done].
        apply elem_of_app. by left.
      * apply Forall_fmap, Forall_forall. intros g Hg. simpl. split.
        -- apply elem_of_app. right. by left.
        -- rewrite Forall_forall in Hknown_t. by apply Hknown_t.
    + eapply Forall_impl; [exact Rat|]. intros a ?. apply elem_of_app. by left.
    + eapply Forall_impl; [exact Rh|]. intros h ?. apply elem_of_app. by left.
Qed.


Lemma Forall_filter_keep {A} (P Q : A → Prop) `{∀ x, Decision (Q x)} (l : list A) :
  Forall P l → Forall P (filter Q l).
Proof.
  rewrite !Forall_forall. intros Hl x [_ Hx]%list_elem_of_filter. by apply Hl.
Qed.

Lemma NoDup_filter_keep {A} (Q : A → Prop) `{∀ x, Decision (Q x)} (l : list A) :
  NoDup l → NoDup (filter Q l).
Proof. intros Hl. eapply sublist_NoDup; [exact Hl | apply sublist_filter]. Qed.

Lemma Forall_replace {A} (P : A → Prop) (ident : A → Id) (id : Id) (x' : A) (l : list A) :
  Forall P l → P x' →
  Forall P ((λ y, if bool_decide (ident y = id) then x' else y) <$> l).
Proof.
  intros Hl Hx'. apply Forall_fmap. eapply Forall_impl; [exact Hl|].
  intros x Hx. simpl. by case_bool_decide.
Qed.

Lemma elem_of_fmap_filter {A B} (key : A → B) (P : A → Prop) `{∀ x, Decision (P x)}
    (k : B) (l : list A) :
  k ∈ key <$> l → (∀ x, x ∈ l → key x = k → P x) → k ∈ key <$> filter P l.
Proof.
  intros (x & -> & Hx)%list_elem_of_fmap HP.
  apply list_elem_of_fmap. exists x. split; [done|].
  apply list_elem_of_filter. split; [by apply HP | done].
Qed.

Lemma consistent_event_update (now : Date) (id : Id) (data : Prisma.EventUpdateInput)
    (db db' : DB) (p : Prisma.EventPayload) :
  consistent db →
  Prisma.event_update now id data db = Return (p, db') →
  consistent db'.
Proof.
  intros [(Ue & Ut & Uu & Ua & Uet & Uat & Uh) (Re & Ra & Rt & Rat & Rh)].
  unfold Prisma.event_update.
  destruct (Prisma.event_findUnique id db) as [row|] eqn:Hrow; [|done].
  destruct (Prisma.check_links (ur_id <$> users db) [] _) as [[]|] eqn:Husers; [|done].
  destruct (Prisma.check_links (tag_id <$> tags db) [] _) as [[]|] eqn:Htags; [|done].
  cbn [obind]. intros [= _ <-].
  apply event_findUnique_Some in Hrow as [Hin Hid].
  assert (id ∈ ev_id <$> events db) as Hstored
    by (rewrite <- Hid; by apply list_elem_of_fmap_2).
  apply (check_links_rows (λ u, {| eua_eventId := id; eua_userId := u |})) in Husers
    as [Hnew_a Hknown_u]; [|by intros i j [= ?]].
  apply (check_links_rows (λ t, {| et_eventId := id; et_tagId := t |})) in Htags
    as [Hnew_t Hknown_t]; [|by intros i j [= ?]].
  assert (ev_id <$> ((λ r, if bool_decide (ev_id r = id)
                           then Prisma.update_row now data row else r) <$> events db)
          = ev_id <$> events db) as Hids by by apply replaced_ids.
  split.
  - unfold unique_keys. cbn [events tags users event_user_assignments event_tags
                             attachments event_edit_history]. rewrite Hids.
    split_and!; try done.
    + unfold Prisma.replace_assignments.
      destruct (Prisma.ui_assignedUsers data) as [l|]; [|done].
      apply NoDup_app. split_and!; [by apply NoDup_filter_keep| |done].
      intros a [Ha _]%list_elem_of_filter (u & -> & _)%list_elem_of_fmap. done.
    + unfold Prisma.replace_event_tags.
      destruct (Prisma.ui_tags data) as [l|]; [|done].
      apply NoDup_app. split_and!; [by apply NoDup_filter_keep| |done].
      intros t [Ht _]%list_elem_of_filter (g & -> & _)%list_elem_of_fmap. done.
  - unfold references_hold. cbn [events tags users event_user_assignments event_tags
                                 attachments event_edit_history]. rewrite Hids.
    split_and!; try done.
    + apply Forall_replace; [done|]. cbn [Prisma.update_row ev_creatorId].
      rewrite Forall_forall in Re. by apply Re.
    + unfold Prisma.replace_assignments.
      destruct (Prisma.ui_assignedUsers data) as [l|]; [|done].
      apply Forall_app. split; [by apply Forall_filter_keep|].
      apply Forall_fmap, Forall_forall. intros u Hu. simpl. split; [done|].
      rewrite Forall_forall in Hknown_u. by apply Hknown_u.
    + unfold Prisma.replace_event_tags.
      destruct (Prisma.ui_tags data) as [l|]; [|done].
      apply Forall_app. split; [by apply Forall_filter_keep|].
      apply Forall_fmap, Forall_forall. intros g Hg. simpl. split; [done|].
      rewrite Forall_forall in Hknown_t. by apply Hknown_t.
Qed.

Lemma consistent_event_delete (id : Id) (db db' : DB) (row : EventRow) :
  consistent db →
  Prisma.event_delete id db = Return (row, db') →
  consistent db'.
Proof.
  intros [(Ue & Ut & Uu & Ua & Uet & Uat & Uh) (Re & Ra & Rt & Rat & Rh)].
  unfold Prisma.event_delete.
  destruct (Prisma.event_findUnique id db) as [row0|]; [|done].
  intros [= _ <-].
  assert (∀ i, i ≠ id → i ∈ ev_id <$> events db →
               i ∈ ev_id <$> filter (λ r, ev_id r ≠ id) (events db)) as Hkept.
  { intros i Hne Hi. apply elem_of_fmap_filter; [done|]. congruence. }
  split.
  - unfold unique_keys. cbn [events tags users event_user_assignments event_tags
                             attachments event_edit_history].
    split_and!; try done; by (apply NoDup_fmap_filter || apply NoDup_filter_keep).
  - unfold references_hold. cbn [events tags users event_user_assignments event_tags
                                 attachments event_edit_history].
    split_and!.
    + by apply Forall_filter_keep.
    + apply Forall_forall. intros a [Hne Ha]%list_elem_of_filter.
      rewrite Forall_forall in Ra. destruct (Ra a Ha). split; [by apply Hkept | done].
    + apply Forall_forall. intros t [Hne Ht]%list_elem_of_filter.
      rewrite Forall_forall in Rt. destruct (Rt t Ht). split; [by apply Hkept | done].
    + apply Forall_forall. intros a [Hne Ha]%list_elem_of_filter.
      rewrite Forall_forall in Rat. apply Hkept; [done | by apply Rat].
    + apply Forall_forall. intros h [Hne Hh]%list_elem_of_filter.
      rewrite Forall_forall in Rh. apply Hkept; [done | by apply Rh].
Qed.

Lemma consistent_recordEditHistory (now : Date) (id : Id) (oldEvent newEvent : Event)
    (editorId : Id) (db db' : DB) (r : outcome unit) :
  consistent db →
  EventRepository.recordEditHistory now id oldEvent newEvent editorId db = (r, db') →
  consistent db'.
Proof.
  intros Hdb. unfold EventRepository.recordEditHistory, Prisma.eventEditHistory_create.
  case_bool_decide; [|by intros [= _ <-]].
  case_bool_decide as Hstored; [|by intros [= _ <-]].
  intros [= _ <-].
  destruct Hdb as [(Ue & Ut & Uu & Ua & Uet & Uat & Uh) (Re & Ra & Rt & Rat & Rh)].
  split.
  - unfold unique_keys. cbn [events tags users event_user_assignments event_tags
                             attachments event_edit_history].
    split_and!; try done. rewrite fmap_app. apply NoDup_snoc; [done|].
    apply infinite_is_fresh.
  - unfold references_hold. cbn [events tags users event_user_assignments event_tags
                                 attachments event_edit_history].
    split_and!; try done. apply Forall_app. split; [done|]. by repeat constructor.
Qed.

Lemma consistent_tag_create (now : Date) (name : string) (color : option string)
    (db db' : DB) (t : Tag) :
  consistent db →
  Prisma.tag_create now name color db = Return (t, db') →
  consistent db'.
Proof.
  intros [(Ue & [Uti Utn] & Uu & Ua & Uet & Uat & Uh) (Re & Ra & Rt & Rat & Rh)].
  unfold Prisma.tag_create. case_bool_decide as Hname; [done|]. intros [= _ <-].
  split.
  - unfold unique_keys, unique_tags.
    cbn [events tags users event_user_assignments event_tags
         attachments event_edit_history].
    rewrite !fmap_app. split_and!; try done; apply NoDup_snoc; try done.
    apply infinite_is_fresh.
  - unfold references_hold. cbn [events tags users event_user_assignments event_tags
                                 attachments event_edit_history].
    split_and!; try done.
    eapply Forall_impl; [exact Rt|]. intros et [? ?]. split; [done|].
    rewrite fmap_app. apply elem_of_app. by left.
Qed.

Lemma consistent_tag_update (id : Id) (data : Prisma.TagUpdateInput) (db db' : DB)
    (t : Tag) :
  consistent db →
  Prisma.tag_update id data db = Return (t, db') →
  consistent db'.
Proof.
  intros [(Ue & [Uti Utn] & Uu & Ua & Uet & Uat & Uh) (Re & Ra & Rt & Rat & Rh)].
  unfold Prisma.tag_update.
  destruct (Prisma.tag_findUnique_id id db) as [t0|] eqn:Hfind; [|done].
  case_bool_decide as Hname; [done|]. intros [= _ <-].
  apply tag_findUnique_id_Some in Hfind as [_ Hid].
  assert (tag_id <$> ((λ g, if bool_decide (tag_id g = id)
                            then {| tag_id := tag_id t0;
                                    tag_name := default (tag_name t0) (Prisma.tu_name data);
                                    tag_color := default (tag_color t0) (Prisma.tu_color data);
                                    tag_createdAt := tag_createdAt t0 |}
                            else g) <$> tags db)
          = tag_id <$> tags db) as Hids.
  { apply replace_keeps_keys. intros g _ Hg. cbn. congruence. }
  split.
  - unfold unique_keys, unique_tags.
    cbn [events tags users event_user_assignments event_tags
         attachments event_edit_history]. rewrite Hids.
    split_and!; try done. by apply (replaced_keys_NoDup tag_id tag_name).
  - unfold references_hold. cbn [events tags users event_user_assignments event_tags
                                 attachments event_edit_history]. by rewrite Hids.
Qed.

Lemma consistent_tag_delete (id : Id) (db db' : DB) (t : Tag) :
  consistent db →
  Prisma.tag_delete id db = Return (t, db') →
  consistent db'.
Proof.
  intros [(Ue & [Uti Utn] & Uu & Ua & Uet & Uat & Uh) (Re & Ra & Rt & Rat & Rh)].
  unfold Prisma.tag_delete.
  destruct (Prisma.tag_findUnique_id id db) as [t0|]; [|done]. intros [= _ <-].
  split.
  - unfold unique_keys, unique_tags.
    cbn [events tags users event_user_assignments event_tags
         attachments event_edit_history].
    split_and!; try done; by (apply NoDup_fmap_filter || apply NoDup_filter_keep).
  - unfold references_hold. cbn [events tags users event_user_assignments event_tags
                                 attachments event_edit_history].
    split_and!; try done.
    apply Forall_forall. intros et [Hne Het]%list_elem_of_filter.
    rewrite Forall_forall in Rt. destruct (Rt et Het). split; [done|].
    apply elem_of_fmap_filter; [done|]. congruence.
Qed.

Lemma consistent_user_create (now : Date) (data : Prisma.UserCreateInput)
    (db db' : DB) (r : UserRow) :
  consistent db →
  Prisma.user_create now data db = Return (r, db') →
  consistent db'.
Proof.
  intros [(Ue & Ut & (Uui & Uun & Uue) & Ua & Uet & Uat & Uh) (Re & Ra & Rt & Rat & Rh)].
  unfold Prisma.user_create. repeat (case_bool_decide; [done|]). intros [= _ <-].
  split.
  - unfold unique_keys, unique_users.
    cbn [events tags users event_user_assignments event_tags
         attachments event_edit_history].
    rewrite !fmap_app. split_and!; try done; apply NoDup_snoc; try done.
    apply infinite_is_fresh.
  - unfold references_hold. cbn [events tags users event_user_assignments event_tags
                                 attachments event_edit_history].
    rewrite !fmap_app. split_and!; try done.
    + eapply Forall_impl; [exact Re|]. intros e ?. apply elem_of_app. by left.
    + eapply Forall_impl; [exact Ra|]. intros a [? ?]. split; [done|].
      apply elem_of_app. by left.
Qed.

Lemma consistent_user_update (now : Date) (id : Id) (data : Prisma.UserUpdateInput)
    (db db' : DB) (r : UserRow) :
  consistent db →
  Prisma.user_update now id data db = Return (r, db') →
  consistent db'.
Proof.
  intros [(Ue & Ut & (Uui & Uun & Uue) & Ua & Uet & Uat & Uh) (Re & Ra & Rt & Rat & Rh)].
  unfold Prisma.user_update.
  destruct (Prisma.user_findUnique_id id db) as [r0|] eqn:Hfind; [|done].
  repeat (case_bool_decide; [done|]). intros [= _ <-].
  apply find_Some_elem in Hfind as [_ Hid%bool_decide_eq_true].
  match goal with
  | |- consistent {| users := ?f <$> users db |} =>
      assert (ur_id <$> (f <$> users db) = ur_id <$> users db) as Hids
  end.
  { apply replace_keeps_keys. intros u _ Hu. cbn. congruence. }
  split.
  - unfold unique_keys, unique_users.
    cbn [events tags users event_user_assignments event_tags
         attachments event_edit_history]. rewrite Hids.
    split_and!; try done.
    + by apply (replaced_keys_NoDup ur_id ur_username).
    + by apply (replaced_keys_NoDup ur_id ur_email).
  - unfold references_hold. cbn [events tags users event_user_assignments event_tags
                                 attachments event_edit_history]. by rewrite Hids.
Qed.

Lemma consistent_user_delete (id : Id) (db db' : DB) (r : UserRow) :
  consistent db →
  Prisma.user_delete id db = Return (r, db') →
  consistent db'.
Proof.
  intros [(Ue & Ut & (Uui & Uun & Uue) & Ua & Uet & Uat & Uh) (Re & Ra & Rt & Rat & Rh)].
  unfold Prisma.user_delete.
  destruct (Prisma.user_findUnique_id id db) as [r0|]; [|done]. intros [= _ <-].
  assert (∀ i, i ∈ ev_id <$> events db → i ∉ Prisma.events_created_by id db →
               i ∈ ev_id <$> filter (λ e, ev_creatorId e ≠ id) (events db)) as Hkept.
  { intros i Hi Hgone. apply elem_of_fmap_filter; [done|].
    intros e He <- Hc. apply Hgone. unfold Prisma.events_created_by.
    apply list_elem_of_fmap_2. by apply list_elem_of_filter. }
  assert (∀ i, i ≠ id → i ∈ ur_id <$> users db →
               i ∈ ur_id <$> filter (λ u, ur_id u ≠ id) (users db)) as Hother.
  { intros i Hne Hi. apply elem_of_fmap_filter; [done|]. congruence. }
  split.
  - unfold unique_keys, unique_users.
    cbn [events tags users event_user_assignments event_tags
         attachments event_edit_history].
    split_and!; try done; by (apply NoDup_fmap_filter || apply NoDup_filter_keep).
  - unfold references_hold. cbn [events tags users event_user_assignments event_tags
                                 attachments event_edit_history].
    split_and!.
    + apply Forall_forall. intros e [Hc He]%list_elem_of_filter.
      rewrite Forall_forall in Re. apply Hother; [done | by apply Re].
    + apply Forall_forall. intros a [[Hu Hg] Ha]%list_elem_of_filter.
      rewrite Forall_forall in Ra. destruct (Ra a Ha).
      split; [by apply Hkept | by apply Hother].
    + apply Forall_forall. intros t [Hg Ht]%list_elem_of_filter.
      rewrite Forall_forall in Rt. destruct (Rt t Ht). split; [by apply Hkept | done].
    + apply Forall_forall. intros a [Hg Ha]%list_elem_of_filter.
      rewrite Forall_forall in Rat. apply Hkept; [by apply Rat | done].
    + apply Forall_forall. intros h [Hg Hh]%list_elem_of_filter.
      rewrite Forall_forall in Rh. apply Hkept; [by apply Rh | done].
Qed.

End consistency_facts.
Section store_consistency.
Context `{JSON} `{BcryptHash}.

Lemma consistent_create_each (now : Date) (random : nat → Z) (names : list string) :
  ∀ (i : nat) (db : DB),
    consistent db → consistent (TagRepository.create_each now random i names db).2.
Proof.
  induction names as [|name names IH]; intros i db Hdb; [done|].
  cbn [TagRepository.create_each].
  assert (consistent
            (TagRepository.create now
               {| ct_name := name; ct_color := TagRepository.getRandomColor (random i) |}
               db).2) as Hstep.
  { unfold TagRepository.create.
    destruct (Prisma.tag_create now _ _ db) as [[t db1]|] eqn:Hcreate; [|done].
    by eapply consistent_tag_create. }
  destruct (TagRepository.create now _ db) as [r db1]. cbn [snd] in Hstep.
  specialize (IH (S i) db1 Hstep).
  by destruct (TagRepository.create_each now random (S i) names db1) as [rs db2].
Qed.

Lemma consistent_event_write_update (now : Date) (id : Id)
    (eventData : UpdateEventRequest) (editorId : Id) (db : DB) :
  consistent db →
  consistent (EventRepository.update now id eventData editorId db).2.
Proof.
  intros Hdb. unfold EventRepository.update, EventRepository.update_try.
  destruct (EventRepository.findById id db) as [[cur|]|]; [|done..].
  destruct (Prisma.event_update now id _ db) as [[p db1]|] eqn:Hupdate; [|done].
  apply (consistent_event_update _ _ _ _ _ _ Hdb) in Hupdate.
  destruct (EventRepository.formatEvent p) as [new|]; [|done].
  destruct (EventRepository.recordEditHistory now id cur new editorId db1)
    as [r db2] eqn:Hrecord.
  apply (consistent_recordEditHistory _ _ _ _ _ _ _ _ Hupdate) in Hrecord.
  by destruct r.
Qed.

(** X28. The constraints of the schema survive every write.  On a store
    where no key is held twice and every reference names a stored row,
    each write of the three repositories, accepted or rejected, leaves
    such a store: no id, tag name, username or email is duplicated, no
    pair of a junction table repeats, and no event, assignment,
    association, attachment or history entry is left pointing at a row
    that is gone.  On such a store an event that is read carries its
    creator, one user for every assignment and one tag for every
    association. *)
Theorem writes_keep_store_consistent (db : DB) :
  consistent db →
  (∀ now eventData creatorId,
     consistent (EventRepository.create now eventData creatorId db).2)
  ∧ (∀ now id eventData editorId,
       consistent (EventRepository.update now id eventData editorId db).2)
  ∧ (∀ id, consistent (EventRepository.delete id db).2)
  ∧ (∀ now tagData, consistent (TagRepository.create now tagData db).2)
  ∧ (∀ id tagData, consistent (TagRepository.update id tagData db).2)
  ∧ (∀ id, consistent (TagRepository.delete id db).2)
  ∧ (∀ now random tagNames,
       consistent (TagRepository.createMultiple now random tagNames db).2)
  ∧ (∀ now salt userData, consistent (UserRepository.create now salt userData db).2)
  ∧ (∀ now salt id userData,
       consistent (UserRepository.update now salt id userData db).2)
  ∧ (∀ id, consistent (UserRepository.delete id db).2)
  ∧ (∀ id e,
       EventRepository.findById id db = Return (Some e) →
       is_Some (e_creator e)
       ∧ (∃ assigned, e_assignedUsers e = Some assigned
                      ∧ user_id <$> assigned ≡ₚ eua_userId <$> Prisma.assignments_of id db)
       ∧ (∃ tagged, e_tags e = Some tagged
                    ∧ tag_id <$> tagged ≡ₚ et_tagId <$> Prisma.event_tags_of id db)).
Proof.
  intros Hdb. split_and!.
  - intros now eventData creatorId. unfold EventRepository.create.
    destruct (Prisma.event_create now _ db) as [[p db']|] eqn:Hcreate; [|done].
    by eapply consistent_event_create.
  - intros now id eventData editorId. by apply consistent_event_write_update.
  - intros id. unfold EventRepository.delete.
    destruct (Prisma.event_delete id db) as [[row db']|] eqn:Hdelete; [|done].
    by eapply consistent_event_delete.
  - intros now tagData. unfold TagRepository.create.
    destruct (Prisma.tag_create now _ _ db) as [[t db']|] eqn:Hcreate; [|done].
    by eapply consistent_tag_create.
  - intros id tagData. unfold TagRepository.update.
    destruct (Prisma.tag_update id _ db) as [[t db']|] eqn:Hupdate; [|done].
    by eapply consistent_tag_update.
  - intros id. unfold TagRepository.delete.
    destruct (Prisma.tag_delete id db) as [[t db']|] eqn:Hdelete; [|done].
    by eapply consistent_tag_delete.
  - intros now random tagNames. unfold TagRepository.createMultiple.
    case_bool_decide; [done|].
    match goal with
    | |- context [TagRepository.create_each now random 0 ?names db] =>
        pose proof (consistent_create_each now random names 0 db Hdb) as Heach;
        by destruct (TagRepository.create_each now random 0 names db)
    end.
  - intros now salt userData. unfold UserRepository.create.
    destruct (Prisma.user_create now _ db) as [[r db']|] eqn:Hcreate; [|done].
    by eapply consistent_user_create.
  - intros now salt id userData. unfold UserRepository.update.
    destruct (Prisma.user_update now id _ db) as [[r db']|] eqn:Hupdate; [|done].
    by eapply consistent_user_update.
  - intros id. unfold UserRepository.delete.
    destruct (Prisma.user_delete id db) as [[r db']|] eqn:Hdelete; [|done].
    by eapply consistent_user_delete.
  - intros id e. unfold EventRepository.findById.
    destruct (Prisma.event_findUnique id db) as [row|] eqn:Hrow; [|done].
    destruct (EventRepository.formatEvent _) as [e'|] eqn:Hformat; [|done].
    intros [= ->].
    destruct Hdb as [_ (Re & Ra & Rt & _)].
    apply event_findUnique_Some in Hrow as [Hin Hid].
    pose proof (formatEvent_scalars _ _ Hformat) as (_ & _ & _ & _ & _ & _ & _ & _ & Hcreator).
    apply formatEvent_relations in Hformat as (Hassigned & Htagged & _).
    cbn [Prisma.include_relations Prisma.p_creator Prisma.p_assignedUsers
         Prisma.p_tags] in Hcreator, Hassigned, Htagged.
    rewrite Hid in Hassigned, Htagged.
    split_and!.
    + rewrite Hcreator. rewrite Forall_forall in Re.
      destruct (user_findUnique_id_found _ db (Re row Hin)) as (u & -> & _).
      by eexists.
    + eexists. split; [exact Hassigned|].
      rewrite (resolved_rows eua_userId (λ i, Prisma.user_findUnique_id i db)
                 Prisma.select_user user_id).
      * unfold Prisma.included_assignments. by rewrite order_by_Permutation.
      * apply Forall_forall. intros a Ha.
        unfold Prisma.included_assignments in Ha. rewrite order_by_Permutation in Ha.
        apply list_elem_of_filter in Ha as [_ Ha].
        rewrite Forall_forall in Ra. destruct (Ra a Ha) as [_ Hu].
        by apply user_findUnique_id_found.
    + eexists. split; [exact Htagged|].
      rewrite (resolved_rows et_tagId (λ i, Prisma.tag_findUnique_id i db) (λ g, g) tag_id).
      * unfold Prisma.included_event_tags. by rewrite order_by_Permutation.
      * apply Forall_forall. intros t Ht.
        unfold Prisma.included_event_tags in Ht. rewrite order_by_Permutation in Ht.
        apply list_elem_of_filter in Ht as [_ Ht].
        rewrite Forall_forall in Rt. destruct (Rt t Ht) as [_ Hg].
        by apply tag_findUnique_id_is_Some.
Qed.

End store_consistency.

(** ** POST /api/tags/batch *)

Section tag_batch_facts.
Import Stdlib.Strings.Ascii Regex.

Lemma CreateTagSchema_name_spec (name : string) :
  Validation.CreateTagSchema_name name = true
  ↔ 1 ≤ String.length name ≤ 50
    ∧ Forall (λ c, Validation.tag_name_char c = true) (String.list_ascii_of_string name).
Proof.
  unfold Validation.CreateTagSchema_name, test, Validation.tag_name_pattern.
  rewrite !andb_true_iff, !Nat.leb_le, test_list_matches, matches_plus_Class.
  split.
  - intros [[? ?] [_ ?]]. by split.
  - intros [[? ?] ?]. split_and!; try done.
    intros Hnil. destruct name; [simpl in *; lia | done].
Qed.

Lemma createMultiple_covers (now : Date) (random : nat → Z) (tagNames : list string)
    (db : DB) :
  NoDup tagNames →
  (∀ k, (0 ≤ random k < 2 ^ 53)%Z) →
  ∃ ts db',
    TagRepository.createMultiple now random tagNames db = (Return ts, db')
    ∧ ∀ n, n ∈ tagNames → n ∈ tag_name <$> ts.
Proof.
  intros Hnodup Hrandom.
  set (existing := TagRepository.findByNames tagNames db).
  set (new := filter (λ name, name ∉ tag_name <$> existing) tagNames).
  assert (∀ t, t ∈ existing ↔ tag_name t ∈ tagNames ∧ t ∈ tags db) as Hexisting.
  { intros t. apply findByNames_spec. }
  destruct (decide (new = [])) as [Hnew|Hnew].
  - exists existing, db. split.
    { unfold TagRepository.createMultiple. fold existing. fold new. by rewrite Hnew. }
    intros n Hn. destruct (decide (n ∈ tag_name <$> existing)) as [|Hnot]; [done|].
    assert (n ∈ new) as Hin by (by apply list_elem_of_filter).
    rewrite Hnew in Hin. by apply elem_of_nil in Hin.
  - destruct (create_each_fresh now random new 0 db)
      as (ts & db' & Heach & Hnames & _).
    { by apply NoDup_filter_keep. }
    { apply Forall_forall. intros n [Hnot Hn]%list_elem_of_filter.
      intros (t & -> & Ht)%list_elem_of_fmap. apply Hnot.
      apply list_elem_of_fmap_2. by apply Hexisting. }
    { done. }
    exists (existing ++ ts), db'. split.
    { unfold TagRepository.createMultiple. fold existing. fold new.
      rewrite bool_decide_eq_false_2 by (by intros ?%nil_length_inv).
      rewrite Heach, Promise_all_Return. done. }
    intros n Hn. rewrite fmap_app, elem_of_app.
    destruct (decide (n ∈ tag_name <$> existing)) as [|Hne]; [by left|].
    right. rewrite Hnames. by apply list_elem_of_filter.
Qed.

(** X29. POST /api/tags/batch.  An empty array of names, or a name that
    the schema of a tag refuses (not 1 to 50 characters among letters,
    digits, whitespace, hyphen and underscore), is answered 400 without
    writing.  Names that pass and are distinct are answered 201 with
    exactly one tag for every name, the stored one or a new one; sending
    the same names again writes nothing and returns the same tags, now
    in the order of their names. *)
Theorem tags_batch_responses (now : Date) (random : nat → Z) (names : list string)
    (db : DB) :
  (∀ name, Validation.CreateTagSchema_name name = true
           ↔ 1 ≤ String.length name ≤ 50
             ∧ Forall (λ c, Validation.tag_name_char c = true)
                 (String.list_ascii_of_string name))
  ∧ (names = [] ∨ ¬ Forall (λ n, Validation.CreateTagSchema_name n = true) names →
     TagsRoutes.batch now random names db = (Http.error 400 "VALIDATION_ERROR", db))
  ∧ (names ≠ [] →
     Forall (λ n, Validation.CreateTagSchema_name n = true) names →
     NoDup names →
     (∀ k, (0 ≤ random k < 2 ^ 53)%Z) →
     ∃ ts db',
       TagsRoutes.batch now random names db = (Http.json 201 ts, db')
       ∧ (∀ n, n ∈ names → n ∈ tag_name <$> ts)
       ∧ (∀ t, t ∈ ts → tag_name t ∈ names)
       ∧ (∀ t, t ∈ tags db → tag_name t ∈ names → t ∈ ts)
       ∧ (∀ later draws,
            ∃ ts',
              TagsRoutes.batch later draws names db' = (Http.json 201 ts', db')
              ∧ ts' ≡ₚ ts
              ∧ StronglySorted (λ a b, String.leb (tag_name a) (tag_name b) = true) ts')).
Proof.
  split_and!.
  - apply CreateTagSchema_name_spec.
  - unfold TagsRoutes.batch. intros [-> | Hbad]; [done|].
    case_bool_decide; [done|].
    destruct (find _ names) as [n|] eqn:Hfind; [done|].
    destruct Hbad. apply find_None_Forall in Hfind.
    eapply Forall_impl; [exact Hfind|]. intros n Hn. simpl in Hn.
    by apply negb_false_iff in Hn.
  - intros Hne Hvalid Hnodup Hrandom.
    assert (find (λ name, negb (Validation.CreateTagSchema_name name)) names = None)
      as Hfind.
    { apply find_None_Forall. eapply Forall_impl; [exact Hvalid|].
      intros n Hn. simpl. by rewrite Hn. }
    assert (length names ≠ 0) as Hlen by (by intros ?%nil_length_inv).
    destruct (createMultiple_covers now random names db Hnodup Hrandom)
      as (ts & db' & Hcreate & Hcovers).
    exists ts, db'. unfold TagsRoutes.batch.
    rewrite bool_decide_eq_false_2, Hfind, Hcreate by done.
    split_and!; try done.
    + intros t Ht.
      destruct (createMultiple_distinct_names now now random random names db
                  Hnodup Hrandom) as (ts' & ts2 & db'' & Hcreate' & _ & _ & _ & _ & Hts).
      rewrite Hcreate in Hcreate'. injection Hcreate' as <- <-.
      by destruct (Hts t Ht).
    + intros t Ht Hn.
      destruct (createMultiple_distinct_names now now random random names db
                  Hnodup Hrandom) as (ts' & ts2 & db'' & Hcreate' & _ & _ & _ & Hold & _).
      rewrite Hcreate in Hcreate'. injection Hcreate' as <- <-.
      by apply Hold.
    + intros later draws.
      destruct (createMultiple_distinct_names now later random draws names db
                  Hnodup Hrandom)
        as (ts' & ts2 & db'' & Hcreate' & Hagain & Hperm & Hfound & _).
      rewrite Hcreate in Hcreate'. injection Hcreate' as <- <-.
      exists ts2. rewrite Hagain. split; [done|]. split; [done|].
      rewrite Hfound. apply (sorted_by_text tag_name).
Qed.

End tag_batch_facts.

(** ** lib/db-utils: seeding *)

Section seed_facts.

Lemma upsert_tags_spec (now : Date) (random : nat → Z) (names : list string) :
  ∀ (i : nat) (db : DB),
    NoDup names → consistent db →
    ∃ new db',
      DbUtils.upsert_tags now random i names db = (Return (), db')
      ∧ tags db' = tags db ++ new
      ∧ tag_name <$> new = filter (λ n, n ∉ tag_name <$> tags db) names
      ∧ users db' = users db
      ∧ consistent db'.
Proof.
  induction names as [|name names IH]; intros i db Hnodup Hdb.
  - exists [], db. by rewrite app_nil_r.
  - apply NoDup_cons in Hnodup as [Hname Hnodup].
    cbn [DbUtils.upsert_tags]. unfold Prisma.tag_upsert_name.
    destruct (Prisma.tag_findUnique_name name db) as [t|] eqn:Hfind.
    + destruct (IH (S i) db Hnodup Hdb)
        as (new & db' & -> & Htags & Hnew & Husers & Hcons).
      exists new, db'. split_and!; try done.
      rewrite filter_cons_False; [done|]. intros Hnot. apply Hnot.
      apply find_Some_elem in Hfind as [Ht <-%bool_decide_eq_true].
      by apply list_elem_of_fmap_2.
    + apply (find_by_key_None tag_name) in Hfind.
      destruct (Prisma.tag_create now name (DbUtils.getRandomColor (random i)) db)
        as [[t db1]|] eqn:Hcreate.
      2: { unfold Prisma.tag_create in Hcreate.
           by rewrite bool_decide_eq_false_2 in Hcreate. }
      pose proof (consistent_tag_create _ _ _ _ _ _ Hdb Hcreate) as Hdb1.
      unfold Prisma.tag_create in Hcreate.
      rewrite bool_decide_eq_false_2 in Hcreate by done.
      injection Hcreate as <- <-.
      match type of Hdb1 with
      | consistent ?d =>
          destruct (IH (S i) d Hnodup Hdb1)
            as (new & db' & -> & Htags & Hnew & Husers & Hcons)
      end.
      cbn [tags users] in Htags, Hnew, Husers.
      eexists (_ :: new), db'. split_and!; try done.
      * by rewrite Htags, <- app_assoc.
      * rewrite filter_cons_True by done. rewrite fmap_cons. cbn [tag_name]. f_equal.
        rewrite Hnew. apply filter_ext_elem. intros n Hn.
        rewrite fmap_app, elem_of_app, fmap_cons, list_elem_of_singleton. cbn [tag_name].
        split; [tauto|]. intros Hnot [? | ->]; done.
Qed.

Lemma user_upsert_spec (now : Date) (create : Prisma.UserCreateInput) (db : DB) :
  consistent db →
  (Prisma.uc_email create ∉ ur_email <$> users db →
   Prisma.uc_username create ∈ ur_username <$> users db →
   Prisma.user_upsert_email now (Prisma.uc_email create) create db
   = Throw UniqueConstraintFailed)
  ∧ (Prisma.uc_email create ∈ ur_email <$> users db
     ∨ Prisma.uc_username create ∉ ur_username <$> users db →
     ∃ r db1,
       Prisma.user_upsert_email now (Prisma.uc_email create) create db = Return (r, db1)
       ∧ ur_email r = Prisma.uc_email create
       ∧ r ∈ users db1
       ∧ tags db1 = tags db
       ∧ consistent db1
       ∧ (∀ r0, Prisma.user_findUnique_email (Prisma.uc_email create) db = Some r0 →
                ur_id r = ur_id r0 ∧ ur_id <$> users db1 = ur_id <$> users db)).
Proof.
  intros Hdb. unfold Prisma.user_upsert_email. split.
  - intros He%(find_by_key_None ur_email) Hu. unfold Prisma.user_findUnique_email.
    rewrite He. unfold Prisma.user_create. by rewrite bool_decide_eq_true_2.
  - intros Hok.
    destruct (Prisma.user_findUnique_email (Prisma.uc_email create) db) as [r0|] eqn:Hfind.
    + apply find_Some_elem in Hfind as [Hr0 Hemail%bool_decide_eq_true].
      exists r0, db. split_and!; try done. by intros r1 [= <-].
    + apply (find_by_key_None ur_email) in Hfind. destruct Hok as [?|Hu]; [done|].
      destruct (user_create_Return now create db) as [_ Hfree].
      destruct (Hfree Hu Hfind) as (db1 & Hcreate & Husers & _ & Htags & _).
      eexists _, db1. split; [exact Hcreate|].
      pose proof (consistent_user_create _ _ _ _ _ Hdb Hcreate) as Hdb1.
      split_and!; try done.
      rewrite Husers. apply elem_of_app. right. by left.
Qed.

(** X30. Seeding the store.  On a store that satisfies the constraints
    of the schema, [seedDatabase] throws, having written nothing, when no
    user has the email of the administrator but one has the username
    admin.  Otherwise it returns a user with that email, stored
    afterwards, and the five default tags exist: those missing have been
    added after the stored ones, in the order of the list, and the tags
    stored before are untouched.  Seeding again, at any time and with any
    draws, returns a user with the same id, adds no tag and leaves the
    ids of the stored users as they are. *)
Theorem seedDatabase_idempotent (now : Date) (random : nat → Z) (db : DB) :
  consistent db →
  ("admin@example.com" ∉ ur_email <$> users db →
   "admin" ∈ ur_username <$> users db →
   DbUtils.seedDatabase now random db = (Throw UniqueConstraintFailed, db))
  ∧ ("admin@example.com" ∈ ur_email <$> users db
     ∨ "admin" ∉ ur_username <$> users db →
     ∃ user db' new,
       DbUtils.seedDatabase now random db = (Return user, db')
       ∧ ur_email user = "admin@example.com"
       ∧ user ∈ users db'
       ∧ tags db' = tags db ++ new
       ∧ tag_name <$> new
         = filter (λ n, n ∉ tag_name <$> tags db) DbUtils.seed_tags
       ∧ (∀ n, n ∈ DbUtils.seed_tags → n ∈ tag_name <$> tags db')
       ∧ consistent db'
       ∧ (∀ later draws,
            ∃ user' db'',
              DbUtils.seedDatabase later draws db' = (Return user', db'')
              ∧ ur_id user' = ur_id user
              ∧ tags db'' = tags db'
              ∧ ur_id <$> users db'' = ur_id <$> users db')).
Proof.
  intros Hdb.
  assert (NoDup DbUtils.seed_tags) as Hseed.
  { unfold DbUtils.seed_tags.
    repeat (apply NoDup_cons; split;
            [repeat (apply not_elem_of_cons; split; [done|]); apply not_elem_of_nil|]).
    constructor. }
  assert (∀ now random db,
            consistent db →
            "admin@example.com" ∈ ur_email <$> users db
            ∨ "admin" ∉ ur_username <$> users db →
            ∃ user db1 db' new,
              DbUtils.seedDatabase now random db = (Return user, db')
              ∧ ur_email user = "admin@example.com"
              ∧ user ∈ users db1
              ∧ users db' = users db1
              ∧ tags db' = tags db ++ new
              ∧ tag_name <$> new
                = filter (λ n, n ∉ tag_name <$> tags db) DbUtils.seed_tags
              ∧ consistent db'
              ∧ (∀ r0, Prisma.user_findUnique_email "admin@example.com" db = Some r0 →
                       ur_id user = ur_id r0
                       ∧ ur_id <$> users db1 = ur_id <$> users db)) as Hrun.
  { clear now random db Hdb. intros now random db Hdb Hok.
    unfold DbUtils.seedDatabase.
    match goal with
    | |- context [Prisma.user_upsert_email now _ ?create db] =>
        destruct (user_upsert_spec now create db Hdb) as [_ Hupsert]
    end.
    cbn [Prisma.uc_email Prisma.uc_username] in Hupsert.
    destruct (Hupsert Hok) as (r & db1 & -> & Hemail & Hr & Htags1 & Hdb1 & Hsame).
    destruct (upsert_tags_spec now random DbUtils.seed_tags 0 db1 Hseed Hdb1)
      as (new & db' & -> & Htags & Hnew & Husers & Hdb').
    exists r, db1, db', new. rewrite Htags1 in Htags, Hnew. by split_and!. }
  split.
  - intros He Hu. unfold DbUtils.seedDatabase.
    match goal with
    | |- context [Prisma.user_upsert_email now _ ?create db] =>
        destruct (user_upsert_spec now create db Hdb) as [Hthrow _]
    end.
    cbn [Prisma.uc_email Prisma.uc_username] in Hthrow. by rewrite Hthrow.
  - intros Hok.
    destruct (Hrun now random db Hdb Hok)
      as (user & db1 & db' & new & Hseeded & Hemail & Huser & Husers & Htags & Hnew
          & Hdb' & _).
    assert (∀ n, n ∈ DbUtils.seed_tags → n ∈ tag_name <$> tags db') as Hall.
    { intros n Hn. rewrite Htags, fmap_app, elem_of_app.
      destruct (decide (n ∈ tag_name <$> tags db)) as [|Hnot]; [by left|].
      right. rewrite Hnew. by apply list_elem_of_filter. }
    exists user, db', new. rewrite Husers. split_and!; try done.
    intros later draws.
    assert (user ∈ users db') as Huser' by by rewrite Husers.
    destruct (Hrun later draws db' Hdb')
      as (user' & db1' & db'' & new' & Hagain & _ & _ & Husers' & Htags' & Hnew'
          & _ & Hsame).
    { left. rewrite <- Hemail. by apply list_elem_of_fmap_2. }
    exists user', db''. split; [done|].
    rewrite filter_none in Hnew'.
    2: { apply Forall_forall. intros n Hn Hnot. by apply Hnot, Hall. }
    apply fmap_nil_inv in Hnew' as ->. rewrite app_nil_r in Htags'.
    assert (Prisma.user_findUnique_email "admin@example.com" db' = Some user) as Hfind.
    { unfold Prisma.user_findUnique_email.
      destruct (find _ (users db')) as [r|] eqn:Hr.
      - apply find_Some_elem in Hr as [Hr Heq%bool_decide_eq_true].
        f_equal. destruct Hdb' as [(_ & _ & (_ & _ & Uue) & _) _].
        apply (NoDup_fmap_eq ur_email (users db')); try done. congruence.
      - apply (find_by_key_None ur_email) in Hr. destruct Hr.
        rewrite <- Hemail. by apply list_elem_of_fmap_2. }
    destruct (Hsame user Hfind) as [Hid Hids].
    split_and!; try done. by rewrite Husers', Hids, Husers.
Qed.

End seed_facts.

(** ** Instances of the further properties *)

Import Fixtures.

Lemma sample_bcrypt_hash_verifies : bcrypt_hash_verifies.
Proof. intros password salt. apply String.eqb_refl. Qed.

Lemma sample_db1_metadata_parses : metadata_parses Sample.db1.
Proof. repeat constructor. intros s. discriminate. Qed.

Lemma tags_put_responses_witness :
  ∃ t' db',
    TagsRoutes.put "t1" (Fixtures.rename "job") Sample.db0 = (Http.json 200 t', db')
    ∧ tag_name t' = "job".
Proof.
  destruct (tags_put_responses "t1" (Fixtures.rename "job") Sample.db0)
    as [[Hnone _] | [(t & name & _ & [= <-] & _ & Hin & _) | (t & db' & _ & _ & Hput & _)]].
  - apply NoDup_singleton.
  - discriminate.
  - discriminate.
  - apply list_elem_of_singleton in Hin. discriminate.
  - by eexists _, db'.
Defined.

Lemma user_create_then_verify_witness :
  ∃ user db',
    UserRepository.create 5%Z "salt" Fixtures.carol Sample.db0 = (Return user, db')
    ∧ UserRepository.verifyPassword "carol@example.com" "correct horse" db' = Some user.
Proof.
  destruct (user_create_then_verify 5%Z "salt" Fixtures.carol Sample.db0
              sample_bcrypt_hash_verifies) as [_ Hcreate].
  destruct Hcreate
    as (user & db' & row & Hcreate & _ & _ & _ & _ & _ & _ & _ & _ & _ & _ & _ & Hverify & _).
  - apply not_elem_of_cons. split; [discriminate | apply not_elem_of_nil].
  - apply not_elem_of_cons. split; [discriminate | apply not_elem_of_nil].
  - by exists user, db'.
Defined.

Lemma register_then_login_witness :
  ∃ user db',
    (AuthRoutes.register 5%Z "salt" Fixtures.carol Sample.db0).2 = db'
    ∧ user_username user = "carol"
    ∧ AuthRoutes.login 9%Z "carol@example.com" "correct horse" db'
      = Http.json 200 {| AuthRoutes.session_user := user;
                         AuthRoutes.session_token := AuthRoutes.generateToken 9%Z user |}.
Proof.
  destruct (register_then_login 5%Z "salt" Fixtures.carol Sample.db0
              sample_bcrypt_hash_verifies) as (_ & _ & Hregister).
  destruct Hregister as (user & db' & Hreg & _ & _ & Hname & Hlogin).
  - apply not_elem_of_cons. split; [discriminate | apply not_elem_of_nil].
  - apply not_elem_of_cons. split; [discriminate | apply not_elem_of_nil].
  - exists user, db'. rewrite Hreg. by split_and!.
Defined.

Lemma user_delete_cascade_witness :
  ∃ db',
    UserRepository.delete "u2" Fixtures.db2 = (Return true, db')
    ∧ EventRepository.findById "e2" db' = Return None
    ∧ ∃ e, EventRepository.findById "e1" db' = Return (Some e)
           ∧ e_assignedUsers e = Some [].
Proof.
  destruct (user_delete_cascade "u2" Fixtures.db2) as [_ Hdelete].
  - repeat constructor; [|apply not_elem_of_nil].
    apply not_elem_of_cons. split; [discriminate | apply not_elem_of_nil].
  - destruct Hdelete as (db' & Hdel & _ & _ & _ & _ & _ & Hevents).
    + right. left.
    + exists db'. split; [done|]. split.
      * by rewrite (Hevents "e2").
      * eexists. by rewrite (Hevents "e1").
Defined.

Lemma user_update_cases_witness :
  (∃ user db',
     UserRepository.update 7%Z "salt" "u1" (Fixtures.new_password "new secret") Sample.db0
     = (Return (Some user), db')
     ∧ user_updatedAt user = 7%Z
     ∧ UserRepository.verifyPassword "ann@example.com" "new secret" db' = Some user)
  ∧ (∃ user db',
       UserRepository.update 7%Z "salt" "u1" (UsersRoutes.userData_of Fixtures.no_fields)
         Sample.db0
       = (Return (Some user), db')
       ∧ user_updatedAt user = 1%Z).
Proof.
  split.
  - destruct (user_update_cases 7%Z "salt" "u1" (Fixtures.new_password "new secret")
                Sample.db0 sample_bcrypt_hash_verifies) as [_ Hstored].
    destruct (Hstored Sample.ann eq_refl) as [_ Hfree].
    destruct Hfree as (db' & Hupdate & _ & _ & Hverify & _).
    + apply not_elem_of_nil.
    + apply not_elem_of_nil.
    + eexists _, db'. split; [exact Hupdate|]. split; [done|]. by apply Hverify.
  - destruct (user_update_cases 7%Z "salt" "u1" (UsersRoutes.userData_of Fixtures.no_fields)
                Sample.db0 sample_bcrypt_hash_verifies) as [_ Hstored].
    destruct (Hstored Sample.ann eq_refl) as [_ Hfree].
    destruct Hfree as (db' & Hupdate & _).
    + apply not_elem_of_nil.
    + apply not_elem_of_nil.
    + eexists _, db'. split; [exact Hupdate|]. done.
Defined.

Lemma users_routes_own_account_witness :
  (∃ user db',
     UsersRoutes.put 7%Z "salt" "u1" "u1" (Fixtures.display_as "Annie") Fixtures.db2
     = (Http.json 200 user, db')
     ∧ user_displayName user = "Annie"
     ∧ user_updatedAt user = 7%Z)
  ∧ UsersRoutes.put 7%Z "salt" "u1" "u1" (Fixtures.mail_to "bob@example.com") Fixtures.db2
    = (Http.error 409 "EMAIL_ALREADY_EXISTS", Fixtures.db2).
Proof.
  assert (NoDup ["ann"; "bob"]) as Hnames.
  { repeat constructor; [|apply not_elem_of_nil].
    apply not_elem_of_cons. split; [discriminate | apply not_elem_of_nil]. }
  assert (NoDup ["ann@example.com"; "bob@example.com"]) as Hmails.
  { repeat constructor; [|apply not_elem_of_nil].
    apply not_elem_of_cons. split; [discriminate | apply not_elem_of_nil]. }
  split.
  - destruct (users_routes_own_account 7%Z "salt" "u1" "u1" (Fixtures.display_as "Annie")
                Fixtures.db2 Hnames Hmails) as (_ & _ & Hown); [discriminate..|].
    destruct (Hown Sample.ann eq_refl eq_refl) as (_ & _ & _ & Hput).
    destruct Hput as (db' & Hput & _).
    + intros [Hne _]. by apply Hne.
    + intros [Hne _]. by apply Hne.
    + eexists _, db'. split; [exact Hput|]. done.
  - destruct (users_routes_own_account 7%Z "salt" "u1" "u1"
                (Fixtures.mail_to "bob@example.com") Fixtures.db2 Hnames Hmails)
      as (_ & _ & Hown); [discriminate..|].
    destruct (Hown Sample.ann eq_refl eq_refl) as (_ & Htaken & _).
    apply Htaken. split; [discriminate|]. right. left.
Defined.

Lemma event_create_then_find_witness :
  ∃ e db',
    EventRepository.create 5%Z Sample.standup "u1" Sample.db0 = (Return e, db')
    ∧ EventRepository.findById (e_id e) db' = Return (Some e).
Proof.
  destruct (EventRepository.create 5%Z Sample.standup "u1" Sample.db0)
    as [r db'] eqn:Hcreate.
  assert (∃ e, r = Return e) as [e ->].
  { vm_compute in Hcreate. injection Hcreate as <- _. by eexists. }
  exists e, db'. split; [done|].
  by destruct (event_create_then_find _ _ _ _ _ _ Hcreate) as [Hfind _].
Defined.

Lemma event_delete_then_find_witness :
  ∃ db',
    EventRepository.delete "e1" Fixtures.db2 = (Return true, db')
    ∧ EventRepository.findById "e1" db' = Return None
    ∧ EventRepository.findById "e2" db' = EventRepository.findById "e2" Fixtures.db2.
Proof.
  destruct (EventRepository.delete "e1" Fixtures.db2) as [r db'] eqn:Hdelete.
  assert (r = Return true) as ->.
  { vm_compute in Hdelete. by injection Hdelete as <- _. }
  exists db'. split; [done|].
  destruct (event_delete_then_find _ _ _ Hdelete) as (Hgone & _ & Hframe & _).
  split; [done|]. by apply Hframe.
Defined.

Lemma findByCreator_page_witness :
  ∃ r, EventRepository.findByCreator "u1" 2 1 Fixtures.db3 = Return r
       ∧ e_id <$> data r = ["e1"]
       ∧ pg_total (pagination r) = 2%Z
       ∧ pg_totalPages (pagination r) = Int 2.
Proof.
  destruct (findByCreator_page "u1" 2 1 Fixtures.db3) as (r & sorted & Hr & _).
  - lia.
  - lia.
  - lia.
  - repeat constructor; intros s; discriminate.
  - exists r. split; [exact Hr|].
    vm_compute in Hr. by injection Hr as <-.
Defined.

Lemma findByDateRange_page_witness :
  ∃ r, EventRepository.findByDateRange 5%Z 25%Z 2 1 Fixtures.db2 = Return r
       ∧ e_id <$> data r = ["e1"]
       ∧ pg_total (pagination r) = 2%Z
       ∧ pg_totalPages (pagination r) = Int 2.
Proof.
  destruct (findByDateRange_page 5%Z 25%Z 2 1 Fixtures.db2) as (r & sorted & Hr & _).
  - lia.
  - lia.
  - lia.
  - repeat constructor; intros s; discriminate.
  - exists r. split; [exact Hr|].
    vm_compute in Hr. by injection Hr as <-.
Defined.

Lemma get_list_capped_witness :
  ∃ r, EventsRoutes.get_list (Some 1%Z) (Some 500%Z) None Fixtures.db2 = Http.json 200 r
       ∧ pg_limit (pagination r) = 100%Z
       ∧ length (data r) = 2.
Proof.
  destruct (get_list_capped (Some 1%Z) (Some 500%Z) None Fixtures.db2) as [Hcapped _].
  - repeat constructor; intros s; discriminate.
  - intros l [= <-]. lia.
  - destruct Hcapped as (r & Hr & _).
    + intros p [= <-]. lia.
    + exists r. split; [done|].
      vm_compute in Hr. by injection Hr as <-.
Defined.

Lemma get_list_negative_limit_witness :
  ∃ r, EventsRoutes.get_list None (Some (-150)%Z) None Sample.db1 = Http.json 200 r
       ∧ length (data r) = 1.
Proof.
  destruct (get_list_negative_limit (-150) Sample.db1) as [Hfrom_end _].
  - apply sample_db1_metadata_parses.
  - destruct Hfrom_end as (r & Hr & Hlen); [lia|]. by exists r.
Defined.

Lemma update_succeeds_iff_witness :
  ∃ e db',
    EventRepository.update 20%Z "e1" (Sample.retag ["t1"]) "u1" Sample.db1
    = (Return (Some e), db').
Proof.
  destruct (update_succeeds_iff 20%Z "e1" (Sample.retag ["t1"]) "u1" Sample.db1
              Sample.standup_row sample_round_trip) as [[_ Hok] _].
  - reflexivity.
  - intros s. discriminate.
  - apply Hok. split_and!.
    + constructor.
    + constructor.
    + by repeat constructor.
    + apply NoDup_singleton.
Defined.

Lemma random_colors_valid_witness :
  TagRepository.getRandomColor 5404319552844595 = Some "#06B6D4"
  ∧ DbUtils.getRandomColor 5404319552844595 = Some "#F59E0B"
  ∧ Validation.validateHexColor "#06B6D4" = true.
Proof.
  destruct (random_colors_valid 5404319552844595) as ((c & Hc & _ & Hvalid) & _).
  - lia.
  - assert (c = "#06B6D4") as -> by (vm_compute in Hc; by injection Hc as <-).
    split; [exact Hc|]. split; [by vm_compute | exact Hvalid].
Defined.

Lemma sample_db1_consistent : consistent Sample.db1.
Proof.
  unfold consistent, unique_keys, unique_tags, unique_users, references_hold.
  cbn. split_and!;
    repeat first [apply NoDup_nil_2 | apply NoDup_singleton | constructor].
Qed.

Lemma writes_keep_store_consistent_witness :
  consistent (EventRepository.delete "e1" Sample.db1).2
  ∧ consistent (UserRepository.delete "u1" Sample.db1).2.
Proof.
  destruct (writes_keep_store_consistent Sample.db1 sample_db1_consistent)
    as (_ & _ & Hevent & _ & _ & _ & _ & _ & _ & Huser & _).
  split; [apply Hevent | apply Huser].
Defined.

Lemma tags_batch_responses_witness :
  ∃ ts ts' db',
    TagsRoutes.batch 100%Z (λ _, 0%Z) ["work"; "home"] Sample.db1 = (Http.json 201 ts, db')
    ∧ tag_name <$> ts = ["work"; "home"]
    ∧ length (tags db') = 2%nat
    ∧ TagsRoutes.batch 200%Z (λ _, 0%Z) ["work"; "home"] db' = (Http.json 201 ts', db')
    ∧ tag_name <$> ts' = ["home"; "work"].
Proof.
  destruct (tags_batch_responses 100%Z (λ _, 0%Z) ["work"; "home"] Sample.db1)
    as (_ & _ & Hcreated).
  destruct Hcreated as (ts & db' & Hrun & _ & _ & _ & Hlater).
  - done.
  - by repeat constructor.
  - repeat (apply NoDup_cons; split;
            [repeat (apply not_elem_of_cons; split; [done|]); apply not_elem_of_nil|]).
    constructor.
  - intros k. lia.
  - destruct (Hlater 200%Z (λ _, 0%Z)) as (ts' & Hagain & _).
    exists ts, ts', db'. split; [exact Hrun|].
    vm_compute in Hrun. injection Hrun as <- <-.
    split; [by vm_compute|]. split; [by vm_compute|]. split; [exact Hagain|].
    vm_compute in Hagain. by injection Hagain as <-.
Defined.

Lemma seedDatabase_idempotent_witness :
  consistent Sample.db1
  ∧ ∃ user db',
      DbUtils.seedDatabase 100%Z (λ _, 0%Z) Sample.db1 = (Return user, db')
      ∧ ur_email user = "admin@example.com"
      ∧ length (tags db') = (length (tags Sample.db1) + 4)%nat.
Proof.
  split; [exact sample_db1_consistent|].
  destruct (seedDatabase_idempotent 100%Z (λ _, 0%Z) Sample.db1 sample_db1_consistent)
    as [_ Hseeded].
  destruct Hseeded as (user & db' & new & Hrun & Hemail & _ & Htags & Hnew & _).
  { right. vm_compute. intros Hin. by repeat (apply elem_of_cons in Hin as [?|Hin]);
      try apply elem_of_nil in Hin. }
  exists user, db'. split_and!; [done..|].
  rewrite Htags, length_app. f_equal.
  rewrite <- (length_fmap tag_name), Hnew. by vm_compute.
Defined.
